(** * Flashloan arbitrage bot: a shallow embedding of the detector, the price
    monitor, the executor, the opportunity queue and the on-chain contract.

    Source files embedded here:
    - [bot/src/services/arbitrage-detector.ts] (class [ArbitrageDetector]),
    - [bot/src/services/price-monitor.ts] (class [PriceMonitor]),
    - [bot/src/services/executor.ts] (class [TradeExecutor]),
    - [bot/src/index.ts] (the opportunity queue),
    - [contracts/src/FlashloanArbitrage.sol].

    JavaScript [bigint] values are [Z]; JavaScript [number] values are IEEE 754
    binary64 floats ([PrimFloat.float]); an [Address] is a [string]. *)

From Stdlib Require Import ZArith List String Ascii Bool Lia Floats.
From Stdlib Require Import DecimalString DecimalZ.
From stdpp Require Import gmap strings.
Import ListNotations.
Local Open Scope Z_scope.
Set Warnings "-inexact-float,-clear-no-such-hyp".

(* ===================================================================== *)
(** * Part I: definitions                                                  *)
(* ===================================================================== *)

(** ** JavaScript runtime primitives used by the bot *)
Module Js.

(** A computation either returns a value or throws. *)
Inductive outcome (A : Type) : Type :=
| Ok (a : A)
| Throw (e : string).
Arguments Ok {A} a.
Arguments Throw {A} e.

Definition bind {A B : Type} (m : outcome A) (k : A -> outcome B) : outcome B :=
  match m with
  | Ok a => k a
  | Throw e => Throw e
  end.

(** [a / b] on [bigint]: truncation toward zero; a zero divisor throws. *)
Definition bigint_div (a b : Z) : outcome Z :=
  if b =? 0 then Throw "RangeError: Division by zero" else Ok (Z.quot a b).

(** [Number(z)] for a [bigint]: the nearest binary64, ties to even. *)
Definition Number (z : Z) : float :=
  SF2Prim (binary_normalize prec emax z 0 false).

(** [Math.min] and [Math.max] on two arguments (NaN is contagious, and
    [-0] is below [+0]). *)
Definition is_neg_zero (x : float) : bool :=
  PrimFloat.eqb x 0%float && PrimFloat.ltb (1 / x)%float 0%float.

Definition Math_min (a b : float) : float :=
  if is_nan a || is_nan b then nan
  else if PrimFloat.ltb a b then a
  else if PrimFloat.ltb b a then b
  else if is_neg_zero a then a else b.

Definition Math_max (a b : float) : float :=
  if is_nan a || is_nan b then nan
  else if PrimFloat.ltb a b then b
  else if PrimFloat.ltb b a then a
  else if is_neg_zero a then b else a.

(** [String.prototype.toLowerCase] on the ASCII range (addresses are
    hexadecimal strings). *)
Definition lower_ascii (c : ascii) : ascii :=
  let n := nat_of_ascii c in
  if ((65 <=? n) && (n <=? 90))%nat then ascii_of_nat (n + 32) else c.

Fixpoint toLowerCase (s : string) : string :=
  match s with
  | EmptyString => EmptyString
  | String c r => String (lower_ascii c) (toLowerCase r)
  end.

(** [a < b] on strings: lexicographic order of the code units. *)
Definition str_lt (a b : string) : bool := String.ltb a b.

(** A JavaScript [Map] keeps its keys in insertion order; [set] on a present
    key keeps the key's position. *)
Fixpoint map_get {V : Type} (k : string) (m : list (string * V)) : option V :=
  match m with
  | [] => None
  | (k', v) :: r => if String.eqb k' k then Some v else map_get k r
  end.

Fixpoint map_set {V : Type} (k : string) (v : V) (m : list (string * V))
  : list (string * V) :=
  match m with
  | [] => [(k, v)]
  | (k', v') :: r =>
      if String.eqb k' k then (k, v) :: r else (k', v') :: map_set k v r
  end.

(** A JavaScript [Set] of strings, in insertion order. *)
Definition set_has (x : string) (s : list string) : bool :=
  existsb (String.eqb x) s.

Definition set_add (x : string) (s : list string) : list string :=
  if set_has x s then s else s ++ [x].

(** [array.findIndex(p)]. *)
Fixpoint findIndex {A : Type} (p : A -> bool) (l : list A) : option nat :=
  match l with
  | [] => None
  | x :: r => if p x then Some O else option_map S (findIndex p r)
  end.

(** Decimal rendering of an integer inside a template literal. *)
Definition decimal (z : Z) : string := NilZero.string_of_int (Z.to_int z).

(** The two library functions whose results ECMAScript leaves
    implementation-approximated; the embedding is parametric in them. *)
Record MathImpl : Type := mkMath {
  Math_log : float -> float;
  Math_pow : float -> float -> float
}.

(** The ambient runtime: the successive readings of [Date.now()] and of
    [Math.random().toString(36).slice(2, 8)], with the number of readings
    consumed so far. *)
Record Runtime : Type := mkRuntime {
  clock : nat -> Z;
  clock_reads : nat;
  random : nat -> string;
  random_reads : nat
}.

(** Stateful computations that may throw: the state survives a throw. *)
Definition M (S A : Type) : Type := S -> outcome A * S.

Definition ret {S A : Type} (a : A) : M S A := fun s => (Ok a, s).

Definition throw {S A : Type} (e : string) : M S A := fun s => (Throw e, s).

Definition mbind {S A B : Type} (m : M S A) (k : A -> M S B) : M S B :=
  fun s =>
    match m s with
    | (Ok a, s') => k a s'
    | (Throw e, s') => (Throw e, s')
    end.

Definition lift {S A : Type} (o : outcome A) : M S A := fun s => (o, s).

(** Run a computation on a component of a larger state. *)
Definition zoom {S T A : Type} (get : T -> S) (set : S -> T -> T) (m : M S A)
  : M T A :=
  fun t => let '(r, s') := m (get t) in (r, set s' t).

(** [try { m } catch (error) { handler(message) }]. *)
Definition tryCatch {S A : Type} (m : M S A) (handler : string -> M S A)
  : M S A :=
  fun s =>
    match m s with
    | (Ok a, s') => (Ok a, s')
    | (Throw e, s') => handler e s'
    end.

(** [s.repeat(n)]. *)
Fixpoint str_repeat (s : string) (n : nat) : string :=
  match n with
  | O => EmptyString
  | S n' => (s +:+ str_repeat s n')%string
  end.

(** A [for ... of] loop whose body updates an accumulator. *)
Fixpoint forEach {S A B : Type} (f : B -> A -> M S B) (l : list A) (acc : B)
  : M S B :=
  match l with
  | [] => ret acc
  | x :: r => mbind (f acc x) (forEach f r)
  end.

Definition Date_now : M Runtime Z :=
  fun rt =>
    (Ok (clock rt (clock_reads rt)),
     mkRuntime (clock rt) (S (clock_reads rt)) (random rt) (random_reads rt)).

Definition Math_random36 : M Runtime string :=
  fun rt =>
    (Ok (random rt (random_reads rt)),
     mkRuntime (clock rt) (clock_reads rt) (random rt) (S (random_reads rt))).

End Js.

Notation "'let*' x ':=' m 'in' k" := (Js.bind m (fun x => k))
  (at level 10, x name, m at level 100, k at level 200).
Notation "'do*' x ':=' m 'in' k" := (Js.mbind m (fun x => k))
  (at level 10, x name, m at level 100, k at level 200).

(** [type Address] and [type ChainId]. *)
Abbreviation Address := string (only parsing).
Abbreviation ChainId := Z (only parsing).

(** [enum DexType] of [types/index.ts]. *)
Inductive DexType : Type := UniswapV2 | UniswapV3 | Curve | Velodrome.

Definition DexType_eqb (a b : DexType) : bool :=
  match a, b with
  | UniswapV2, UniswapV2 | UniswapV3, UniswapV3
  | Curve, Curve | Velodrome, Velodrome => true
  | _, _ => false
  end.

(** The numeric value of a [DexType] (the [uint8 dexType] of the contract). *)
Definition DexType_code (d : DexType) : Z :=
  match d with UniswapV2 => 0 | UniswapV3 => 1 | Curve => 2 | Velodrome => 3 end.

(** [interface Edge]. *)
Module Edge.
Record t : Type := mk {
  from : Address;
  to : Address;
  pool : Address;
  dex : string;
  dexType : DexType;
  router : Address;
  weight : float;
  reserve0 : Z;
  reserve1 : Z;
  fee : Z
}.
End Edge.

(** The [data] bytes of a swap step, kept as the arguments handed to viem's
    [encodeAbiParameters]: ['0x'], an encoded [uint24] or an encoded
    [bool]. *)
Inductive SwapData : Type :=
| DataEmpty
| DataUint24 (fee : Z)
| DataBool (stable : bool).

(** [interface SwapStep]. *)
Module SwapStep.
Record t : Type := mk {
  router : Address;
  tokenIn : Address;
  tokenOut : Address;
  amountIn : Z;
  expectedAmountOut : Z;
  pool : Address;
  dexType : DexType;
  data : SwapData
}.
End SwapStep.

(** [interface ArbitrageOpportunity]. *)
Module ArbitrageOpportunity.
Record t : Type := mk {
  id : string;
  chain : ChainId;
  path : list SwapStep.t;
  inputToken : Address;
  inputAmount : Z;
  expectedOutput : Z;
  expectedProfit : Z;
  profitUsd : float;
  gasEstimate : Z;
  gasCostUsd : float;
  netProfitUsd : float;
  confidence : float;
  timestamp : Z;
  expiresAt : Z
}.
End ArbitrageOpportunity.

(** [interface Graph]: [vertices] is a [Set<Address>], [edges] a
    [Map<Address, Edge[]>]. *)
Module Graph.
Record t : Type := mk {
  vertices : list Address;
  edges : list (Address * list Edge.t)
}.
Definition empty : t := mk [] [].
End Graph.

(** ** [ArbitrageDetector] *)
Module ArbitrageDetector.

(** The result object of [calculateRate]. *)
Record Quote : Type := mkQuote { amountOut : Z; rate : float }.

(** [static calculateRate(reserveIn, reserveOut, amountIn, feeBps)]. *)
Definition calculateRate (reserveIn reserveOut amountIn feeBps : Z)
  : Js.outcome Quote :=
  let feeMultiplier := 10000 - feeBps in
  let amountInWithFee := amountIn * feeMultiplier in
  let numerator := amountInWithFee * reserveOut in
  let denominator := reserveIn * 10000 + amountInWithFee in
  let* amountOut := Js.bigint_div numerator denominator in
  Js.Ok (mkQuote amountOut (Js.Number amountOut / Js.Number amountIn)%float).

(** [addEdge(edge)]. *)
Definition same_pair (edge e : Edge.t) : bool :=
  String.eqb (Edge.to e) (Edge.to edge) && String.eqb (Edge.pool e) (Edge.pool edge).

(** [edges.findIndex(p)] followed by [splice(index, 1)] when an index was
    found: the first element satisfying [p] is removed. *)
Fixpoint remove_first {A : Type} (p : A -> bool) (l : list A) : list A :=
  match l with
  | [] => []
  | x :: r => if p x then r else x :: remove_first p r
  end.

Definition edges_get (g : Graph.t) (a : Address) : list Edge.t :=
  match Js.map_get a (Graph.edges g) with
  | Some l => l
  | None => []
  end.

Definition addEdge (edge : Edge.t) (g : Graph.t) : Graph.t :=
  let vertices :=
    Js.set_add (Edge.to edge) (Js.set_add (Edge.from edge) (Graph.vertices g)) in
  let edges := edges_get g (Edge.from edge) in
  let edges := remove_first (same_pair edge) edges in
  let edges := edges ++ [edge] in
  Graph.mk vertices (Js.map_set (Edge.from edge) edges (Graph.edges g)).

(** The invariant that [addEdge] maintains: an adjacency list holds at most
    one edge for a destination and a pool. *)
Fixpoint uniquePairs (l : list Edge.t) : Prop :=
  match l with
  | [] => True
  | e :: r => (forall x, In x r -> same_pair e x = false) /\ uniquePairs r
  end.

Definition uniqueLists (edges : list (Address * list Edge.t)) : Prop :=
  forall a l, Js.map_get a edges = Some l -> uniquePairs l.

Definition wellFormed (g : Graph.t) : Prop := uniqueLists (Graph.edges g).

(** The two parts of [addEdge]: the vertex set and the edge map. *)
Definition verticesAfter (e : Edge.t) (vertices : list Address) : list Address :=
  Js.set_add (Edge.to e) (Js.set_add (Edge.from e) vertices).

Definition edgesAfter (e : Edge.t) (edges : list (Address * list Edge.t))
  : list (Address * list Edge.t) :=
  Js.map_set (Edge.from e)
    (remove_first (same_pair e)
       (match Js.map_get (Edge.from e) edges with Some l => l | None => [] end)
     ++ [e])
    edges.

(** Two edges of the same pool in the same direction. *)
Definition sameSlot (e e' : Edge.t) : Prop :=
  Edge.from e' = Edge.from e /\ Edge.to e' = Edge.to e
  /\ Edge.pool e' = Edge.pool e.


(** The key [`${edge.from}-${edge.to}-${edge.pool}`] of [findDirectCycles]. *)
Definition edgeKey (e : Edge.t) : string :=
  (Edge.from e +:+ "-" +:+ Edge.to e +:+ "-" +:+ Edge.pool e)%string.

(** The closure [dfs] of [findDirectCycles]. The arrays [cycles] and the set
    [visited] are shared by all calls and threaded as state. The recursion
    is bounded by [maxHops]: [fuel] counts the nesting depth still
    allowed. *)
Fixpoint dfs (fuel : nat) (g : Graph.t) (source : Address) (maxHops : nat)
    (current : Address) (path : list Edge.t)
    (st : list (list Edge.t) * gset string)
  : list (list Edge.t) * gset string :=
  match fuel with
  | O => st
  | S fuel' =>
      if (maxHops <? length path)%nat then st
      else
        fold_left
          (fun (st : list (list Edge.t) * gset string) (edge : Edge.t) =>
             let '(cycles, visited) := st in
             let key := edgeKey edge in
             if String.eqb (Edge.to edge) source && (2 <=? length path)%nat
             then (cycles ++ [path ++ [edge]], visited)
             else if negb (bool_decide (key ∈ visited))
                     && (length path <? maxHops)%nat
             then
               let '(cycles', visited') :=
                 dfs fuel' g source maxHops (Edge.to edge) (path ++ [edge])
                     (cycles, {[key]} ∪ visited) in
               (cycles', visited' ∖ {[key]})
             else (cycles, visited))
          (edges_get g current) st
  end.

(** [findDirectCycles(source, maxHops)]. *)
Definition findDirectCycles (g : Graph.t) (source : Address) (maxHops : nat)
  : list (list Edge.t) :=
  fst (dfs (S maxHops) g source maxHops source [] ([], ∅)).

(** The fields of the class: [graph], [chainId] and [minProfitBps]. *)
Record t : Type := mk {
  graph : Graph.t;
  chainId : ChainId;
  minProfitBps : Z
}.

(** [constructor(chainId, minProfitBps = 10)]. *)
Definition default_minProfitBps : Z := 10.

Definition new (chainId : ChainId) (minProfitBps : Z) : t :=
  mk Graph.empty chainId minProfitBps.

(** The orientation test of [buildOpportunity] and the reserves it selects. *)
Definition isToken0ToToken1 (edge : Edge.t) : bool :=
  Js.str_lt (Js.toLowerCase (Edge.from edge)) (Js.toLowerCase (Edge.to edge)).

Definition reserveIn (edge : Edge.t) : Z :=
  if isToken0ToToken1 edge then Edge.reserve0 edge else Edge.reserve1 edge.

Definition reserveOut (edge : Edge.t) : Z :=
  if isToken0ToToken1 edge then Edge.reserve1 edge else Edge.reserve0 edge.

(** viem's [encodeAbiParameters(parseAbiParameters('uint24'), [value])]:
    a value outside [0 .. 2^24 - 1] throws [IntegerOutOfRangeError]. *)
Definition encodeUint24 (value : Z) : Js.outcome SwapData :=
  if (0 <=? value) && (value <? 2 ^ 24) then Js.Ok (DataUint24 value)
  else Js.Throw "IntegerOutOfRangeError".

(** The [data] of a swap step, by DEX type; encoding a [bool] does not
    throw. *)
Definition swapData (edge : Edge.t) : Js.outcome SwapData :=
  match Edge.dexType edge with
  | UniswapV3 => encodeUint24 (Edge.fee edge)
  | Velodrome => Js.Ok (DataBool (Edge.fee edge <? 10))
  | _ => Js.Ok DataEmpty
  end.

(** One iteration of the loop of [buildOpportunity] over the cycle: the
    quote first, then the encoding of the swap data. *)
Definition quoteStep (st : list SwapStep.t * Z) (edge : Edge.t)
  : Js.outcome (list SwapStep.t * Z) :=
  let '(swapSteps, currentAmount) := st in
  let* q := calculateRate (reserveIn edge) (reserveOut edge) currentAmount
                          (Edge.fee edge) in
  let* data := swapData edge in
  Js.Ok (swapSteps ++
           [SwapStep.mk (Edge.router edge) (Edge.from edge) (Edge.to edge)
                        currentAmount (amountOut q) (Edge.pool edge)
                        (Edge.dexType edge) data],
         amountOut q).

Fixpoint quoteLoop (cycle : list Edge.t) (st : list SwapStep.t * Z)
  : Js.outcome (list SwapStep.t * Z) :=
  match cycle with
  | [] => Js.Ok st
  | edge :: rest => let* st' := quoteStep st edge in quoteLoop rest st'
  end.

(** The state of the Bellman-Ford passes. *)
Record BF : Type := mkBF {
  distance : gmap string float;
  predecessor : gmap string (option Edge.t);
  updated : bool
}.

Definition relaxEdge (distFrom : float) (st : BF) (edge : Edge.t) : BF :=
  let newDist := (distFrom + Edge.weight edge)%float in
  match distance st !! Edge.to edge with
  | Some distTo =>
      if PrimFloat.ltb newDist distTo
      then mkBF (<[Edge.to edge := newDist]> (distance st))
                (<[Edge.to edge := Some edge]> (predecessor st)) true
      else st
  | None => st
  end.

Definition relaxFrom (st : BF) (entry : Address * list Edge.t) : BF :=
  let '(from, edges) := entry in
  match distance st !! from with
  | Some distFrom =>
      if PrimFloat.eqb distFrom infinity then st
      else fold_left (relaxEdge distFrom) edges st
  | None => st
  end.

(** The loop [for (let i = 0; i < n - 1; i++)] with its early [break]. *)
Fixpoint relaxLoop (iterations : nat) (g : Graph.t) (st : BF) : BF :=
  match iterations with
  | O => st
  | S i =>
      let st' :=
        fold_left relaxFrom (Graph.edges g)
                  (mkBF (distance st) (predecessor st) false) in
      if updated st' then relaxLoop i g st' else st'
  end.

(** The extra pass that collects [negativeCycleVertices]. *)
Definition checkEdge (distance : gmap string float) (distFrom : float)
    (acc : list Address) (edge : Edge.t) : list Address :=
  match distance !! Edge.to edge with
  | Some distTo =>
      if PrimFloat.ltb (distFrom + Edge.weight edge)%float distTo
      then Js.set_add (Edge.to edge) acc else acc
  | None => acc
  end.

Definition checkFrom (distance : gmap string float) (acc : list Address)
    (entry : Address * list Edge.t) : list Address :=
  let '(from, edges) := entry in
  match distance !! from with
  | Some distFrom =>
      if PrimFloat.eqb distFrom infinity then acc
      else fold_left (checkEdge distance distFrom) edges acc
  | None => acc
  end.

(** The [while] loop of [extractCycle]. Every iteration that continues
    adds a key of [predecessor] to [visited], so the loop runs at most
    [size predecessor + 1] times; [fuel] is that bound. *)
Fixpoint extractLoop (fuel : nat) (predecessor : gmap string (option Edge.t))
    (visited : gset string) (current : Address) (cycle : list Edge.t)
  : list Edge.t * Address :=
  match fuel with
  | O => (cycle, current)
  | S fuel' =>
      if bool_decide (current ∈ visited) then (cycle, current)
      else
        match predecessor !! current with
        | Some (Some edge) =>
            extractLoop fuel' predecessor ({[current]} ∪ visited)
                        (Edge.from edge) (edge :: cycle)
        | _ => (cycle, current)
        end
  end.

(** [extractCycle(start, predecessor)]. *)
Definition extractCycle (start : Address)
    (predecessor : gmap string (option Edge.t)) : list Edge.t :=
  let '(cycle, cycleStart) :=
    extractLoop (S (size predecessor)) predecessor ∅ start [] in
  match Js.findIndex (fun e => String.eqb (Edge.from e) cycleStart) cycle with
  | Some startIndex => drop startIndex cycle
  | None => cycle
  end.

(** The duplicate test of [findArbitrageOpportunities]: same length and
    the same pool at every position. *)
Fixpoint samePools (a b : list SwapStep.t) : bool :=
  match a, b with
  | [], [] => true
  | x :: a', y :: b' =>
      String.eqb (SwapStep.pool x) (SwapStep.pool y) && samePools a' b'
  | _, _ => false
  end.

Definition isDuplicate (opportunities : list ArbitrageOpportunity.t)
    (opportunity : ArbitrageOpportunity.t) : bool :=
  existsb (fun o => samePools (ArbitrageOpportunity.path o)
                              (ArbitrageOpportunity.path opportunity))
          opportunities.

(** [opportunities.sort((a, b) => Number(b.expectedProfit - a.expectedProfit))].
    ECMAScript requires [sort] to be stable, and this comparator is a
    consistent one, so the result is the stable ordering by decreasing
    profit; it is computed here by insertion. *)
Definition comparator (a b : ArbitrageOpportunity.t) : float :=
  Js.Number (ArbitrageOpportunity.expectedProfit b
             - ArbitrageOpportunity.expectedProfit a).

Fixpoint insertSorted (x : ArbitrageOpportunity.t)
    (l : list ArbitrageOpportunity.t) : list ArbitrageOpportunity.t :=
  match l with
  | [] => [x]
  | y :: r =>
      if PrimFloat.ltb 0 (comparator y x) then x :: y :: r
      else y :: insertSorted x r
  end.

Definition sortByProfit (l : list ArbitrageOpportunity.t)
  : list ArbitrageOpportunity.t :=
  fold_left (fun acc x => insertSorted x acc) l [].

Section WithMath.
Variable math : Js.MathImpl.

(** [static calculateWeight(rate)]. *)
Definition calculateWeight (rate : float) : float :=
  if PrimFloat.leb rate 0 then infinity
  else (- Js.Math_log math rate)%float.

(** [calculateConfidence(cycle, profit, input)]. *)
Definition calculateConfidence (cycle : list Edge.t) (profit input : Z)
  : Js.outcome float :=
  let* q := Js.bigint_div (profit * 10000) input in
  let profitBps := Js.Number q in
  let confidence := Js.Math_min (profitBps / 100)%float 1%float in
  let confidence :=
    (confidence
     * Js.Math_pow math 0.95 (Js.Number (Z.of_nat (length cycle) - 2)))%float in
  let confidence :=
    fold_left
      (fun (c : float) (edge : Edge.t) =>
         let minReserve :=
           if Edge.reserve0 edge <? Edge.reserve1 edge
           then Edge.reserve0 edge else Edge.reserve1 edge in
         if minReserve <? 10 ^ 18 then (c * 0.8)%float else c)
      cycle confidence in
  Js.Ok (Js.Math_max 0%float (Js.Math_min 1%float confidence)).

(** [buildOpportunity(cycle, inputAmount)]. *)
Definition buildOpportunity (this : t) (cycle : list Edge.t) (inputAmount : Z)
  : Js.M Js.Runtime (option ArbitrageOpportunity.t) :=
  match cycle with
  | [] => Js.ret None
  | firstStep :: _ =>
      do* r := Js.lift (quoteLoop cycle ([], inputAmount)) in
      let '(swapSteps, currentAmount) := r in
      let expectedProfit := currentAmount - inputAmount in
      let gasEstimate := 150000 + Z.of_nat (length cycle) * 80000 in
      do* idTime := Js.Date_now in
      do* idRandom := Js.Math_random36 in
      do* confidence :=
        Js.lift (calculateConfidence cycle expectedProfit inputAmount) in
      do* timestamp := Js.Date_now in
      do* expiryBase := Js.Date_now in
      Js.ret (Some
        {| ArbitrageOpportunity.id :=
             (Js.decimal (chainId this) +:+ "-" +:+ Js.decimal idTime
              +:+ "-" +:+ idRandom)%string;
           ArbitrageOpportunity.chain := chainId this;
           ArbitrageOpportunity.path := swapSteps;
           ArbitrageOpportunity.inputToken := Edge.from firstStep;
           ArbitrageOpportunity.inputAmount := inputAmount;
           ArbitrageOpportunity.expectedOutput := currentAmount;
           ArbitrageOpportunity.expectedProfit := expectedProfit;
           ArbitrageOpportunity.profitUsd := 0%float;
           ArbitrageOpportunity.gasEstimate := gasEstimate;
           ArbitrageOpportunity.gasCostUsd := 0%float;
           ArbitrageOpportunity.netProfitUsd := 0%float;
           ArbitrageOpportunity.confidence := confidence;
           ArbitrageOpportunity.timestamp := timestamp;
           ArbitrageOpportunity.expiresAt := expiryBase + 2000 |})
  end.

(** The body of the loop over [negativeCycleVertices]. *)
Definition pushNegativeCycle (this : t) (sourceToken : Address)
    (inputAmount : Z) (predecessor : gmap string (option Edge.t))
    (opportunities : list ArbitrageOpportunity.t) (startVertex : Address)
  : Js.M Js.Runtime (list ArbitrageOpportunity.t) :=
  let cycle := extractCycle startVertex predecessor in
  match cycle with
  | first :: _ =>
      if String.eqb (Edge.from first) sourceToken then
        do* built := buildOpportunity this cycle inputAmount in
        match built with
        | Some opportunity =>
            if 0 <? ArbitrageOpportunity.expectedProfit opportunity
            then Js.ret (opportunities ++ [opportunity])
            else Js.ret opportunities
        | None => Js.ret opportunities
        end
      else Js.ret opportunities
  | [] => Js.ret opportunities
  end.

(** The body of the loop over [directCycles]. *)
Definition pushDirectCycle (this : t) (inputAmount : Z)
    (opportunities : list ArbitrageOpportunity.t) (cycle : list Edge.t)
  : Js.M Js.Runtime (list ArbitrageOpportunity.t) :=
  do* built := buildOpportunity this cycle inputAmount in
  match built with
  | Some opportunity =>
      if 0 <? ArbitrageOpportunity.expectedProfit opportunity then
        if isDuplicate opportunities opportunity then Js.ret opportunities
        else Js.ret (opportunities ++ [opportunity])
      else Js.ret opportunities
  | None => Js.ret opportunities
  end.

(** [findArbitrageOpportunities(sourceToken, inputAmount)]. *)
Definition findArbitrageOpportunities (this : t) (sourceToken : Address)
    (inputAmount : Z) : Js.M Js.Runtime (list ArbitrageOpportunity.t) :=
  let g := graph this in
  let vertices := Graph.vertices g in
  let n := length vertices in
  if (n =? 0)%nat then Js.ret []
  else
    let distance :=
      fold_left (fun d v => <[v := infinity]> d) vertices
                (∅ : gmap string float) in
    let predecessor :=
      fold_left (fun p v => <[v := None]> p) vertices
                (∅ : gmap string (option Edge.t)) in
    let distance := <[sourceToken := 0%float]> distance in
    let bf := relaxLoop (n - 1) g (mkBF distance predecessor false) in
    let negativeCycleVertices :=
      fold_left (checkFrom (ArbitrageDetector.distance bf)) (Graph.edges g) [] in
    do* opportunities :=
      Js.forEach
        (pushNegativeCycle this sourceToken inputAmount
                           (ArbitrageDetector.predecessor bf))
        negativeCycleVertices [] in
    let directCycles := findDirectCycles g sourceToken 3 in
    do* opportunities :=
      Js.forEach (pushDirectCycle this inputAmount) directCycles
                 opportunities in
    Js.ret (sortByProfit opportunities).

End WithMath.

(** [clear()]. *)
Definition clear (this : t) : t :=
  mk Graph.empty (chainId this) (minProfitBps this).

(** [getStats()]: the number of vertices and the number of edges. *)
Definition getStats (this : t) : nat * nat :=
  (length (Graph.vertices (graph this)),
   fold_left (fun (edgeCount : nat) (entry : Address * list Edge.t) =>
                (edgeCount + length (snd entry))%nat)
             (Graph.edges (graph this)) 0%nat).

End ArbitrageDetector.

(** ** [PriceMonitor] *)

(** [interface PoolSubscription] (the [unwatch] handle is not kept). *)
Module PoolSubscription.
Record t : Type := mk {
  pool : Address;
  dex : string;
  dexType : DexType;
  router : Address;
  token0 : Address;
  token1 : Address;
  fee : Z
}.
End PoolSubscription.

(** [interface PoolReserves]. *)
Module PoolReserves.
Record t : Type := mk {
  pool : Address;
  dex : string;
  token0 : Address;
  token1 : Address;
  reserve0 : Z;
  reserve1 : Z;
  fee : Z;
  timestamp : Z
}.
End PoolReserves.

(** The fields of [interface ChainConfig] that the bot reads: [name],
    [nativeToken.address] and [contracts.arbitrage]. *)
Module ChainConfig.
Record t : Type := mk {
  name : string;
  nativeToken : Address;
  arbitrage : Address
}.
End ChainConfig.

(** [config/chains.ts]: the table [CHAIN_CONFIGS] as the repository has it.
    Its [contracts.arbitrage] entries are the placeholders "Deploy and
    update", so the monitor and the executor below take the table as a
    Section variable, and their theorems hold for every table. *)
Module Chains.

Definition PLACEHOLDER : Address :=
  "0x0000000000000000000000000000000000000000"%string.

Definition CHAIN_CONFIGS (chainId : ChainId) : option ChainConfig.t :=
  if chainId =? 1 then
    Some (ChainConfig.mk "Ethereum"
            "0xC02aaA39b223FE8D0A0e5C4F27eAD9083C756Cc2" PLACEHOLDER)
  else if chainId =? 42161 then
    Some (ChainConfig.mk "Arbitrum"
            "0x82aF49447D8a07e3bd95BD0d56f35241523fBab1" PLACEHOLDER)
  else if chainId =? 8453 then
    Some (ChainConfig.mk "Base"
            "0x4200000000000000000000000000000000000006" PLACEHOLDER)
  else if chainId =? 10 then
    Some (ChainConfig.mk "Optimism"
            "0x4200000000000000000000000000000000000006" PLACEHOLDER)
  else if chainId =? 421614 then
    Some (ChainConfig.mk "Arbitrum Sepolia"
            "0x980B62Da83eFf3D4576C647993b0c1D7faf17c73" PLACEHOLDER)
  else None.

End Chains.

(** A decoded [Sync] log as viem delivers it: its position in the chain and
    its arguments (an argument may be [undefined]). *)
Module SyncLog.
Record t : Type := mk {
  blockNumber : Z;
  logIndex : Z;
  reserve0 : option Z;
  reserve1 : option Z
}.
End SyncLog.

(** A decoded [Swap] log of a V3 pool. *)
Module SwapLog.
Record t : Type := mk {
  blockNumber : Z;
  logIndex : Z;
  sqrtPriceX96 : option Z;
  liquidity : option Z
}.
End SwapLog.

Module PriceMonitor.

(** What the monitor does that is visible outside of its own fields: a call
    of [findArbitrageOpportunities], and a call of the registered
    [onOpportunityCallback]. *)
Inductive Effect : Type :=
| DetectorRun (chainId : ChainId)
| Callback (opportunities : list ArbitrageOpportunity.t).

(** The fields of the class. [reserves] is a [Map<string, PoolReserves>],
    [detectors] a [Map<ChainId, ArbitrageDetector>]. *)
Record t : Type := mk {
  subscriptions : gmap Z (list PoolSubscription.t);
  reserves : list (string * PoolReserves.t);
  detectors : gmap Z ArbitrageDetector.t;
  hasCallback : bool
}.

(** The monitor together with the runtime it reads and the effects it has
    produced so far. *)
Record World : Type := mkWorld {
  monitor : t;
  runtime : Js.Runtime;
  effects : list Effect
}.

Definition onMonitor {A : Type} (m : Js.M t A) : Js.M World A :=
  Js.zoom monitor (fun mon w => mkWorld mon (runtime w) (effects w)) m.

Definition onRuntime {A : Type} (m : Js.M Js.Runtime A) : Js.M World A :=
  Js.zoom runtime (fun rt w => mkWorld (monitor w) rt (effects w)) m.

Definition emit (e : Effect) : Js.M World unit :=
  fun w => (Js.Ok tt, mkWorld (monitor w) (runtime w) (effects w ++ [e])).

Definition reservesKey (chainId : ChainId) (pool : Address) : string :=
  (Js.decimal chainId +:+ "-" +:+ pool)%string.

Definition setReserves (key : string) (r : PoolReserves.t) : Js.M t unit :=
  fun m =>
    (Js.Ok tt,
     mk (subscriptions m) (Js.map_set key r (reserves m)) (detectors m)
        (hasCallback m)).

(** [detector.addEdge(edge)] on the detector registered for [chainId]; the
    detector object is shared with the map, so the map sees the update. *)
Definition detectorAddEdge (chainId : ChainId) (edge : Edge.t) : Js.M t unit :=
  fun m =>
    (Js.Ok tt,
     mk (subscriptions m) (reserves m)
        (alter (fun d => ArbitrageDetector.mk
                           (ArbitrageDetector.addEdge edge
                              (ArbitrageDetector.graph d))
                           (ArbitrageDetector.chainId d)
                           (ArbitrageDetector.minProfitBps d))
               chainId (detectors m))
        (hasCallback m)).

(** The detector once the two edges of an update are added. *)
Definition withEdges (forward reverse : Edge.t) (d : ArbitrageDetector.t)
  : ArbitrageDetector.t :=
  ArbitrageDetector.mk
    (ArbitrageDetector.addEdge reverse
       (ArbitrageDetector.addEdge forward (ArbitrageDetector.graph d)))
    (ArbitrageDetector.chainId d) (ArbitrageDetector.minProfitBps d).

Section WithEnvironment.
Variable math : Js.MathImpl.
Variable CHAIN_CONFIGS : ChainId -> option ChainConfig.t.

(** The two edge objects that [updateReserves] hands to [addEdge]: the
    forward edge [token0 -> token1] and the reverse edge [token1 -> token0],
    the latter with the two reserves exchanged. *)
Definition forwardEdge (sub : PoolSubscription.t) (reserve0 reserve1 : Z)
    (rate01 : float) : Edge.t :=
  Edge.mk (PoolSubscription.token0 sub) (PoolSubscription.token1 sub)
          (PoolSubscription.pool sub) (PoolSubscription.dex sub)
          (PoolSubscription.dexType sub) (PoolSubscription.router sub)
          (ArbitrageDetector.calculateWeight math rate01)
          reserve0 reserve1 (PoolSubscription.fee sub).

Definition reverseEdge (sub : PoolSubscription.t) (reserve0 reserve1 : Z)
    (rate10 : float) : Edge.t :=
  Edge.mk (PoolSubscription.token1 sub) (PoolSubscription.token0 sub)
          (PoolSubscription.pool sub) (PoolSubscription.dex sub)
          (PoolSubscription.dexType sub) (PoolSubscription.router sub)
          (ArbitrageDetector.calculateWeight math rate10)
          reserve1 reserve0 (PoolSubscription.fee sub).

(** [updateReserves(chainId, sub, reserve0, reserve1)], with the reading
    [now] of [Date.now()]. *)
Definition updateReserves (now : Z) (chainId : ChainId)
    (sub : PoolSubscription.t) (reserve0 reserve1 : Z) : Js.M t unit :=
  let key := reservesKey chainId (PoolSubscription.pool sub) in
  do* _ := setReserves key
             (PoolReserves.mk (PoolSubscription.pool sub)
                (PoolSubscription.dex sub) (PoolSubscription.token0 sub)
                (PoolSubscription.token1 sub) reserve0 reserve1
                (PoolSubscription.fee sub) now) in
  fun m =>
    match detectors m !! chainId with
    | None => (Js.Ok tt, m)
    | Some _ =>
        (do* q01 := Js.lift (ArbitrageDetector.calculateRate
                               reserve0 reserve1 (10 ^ 18)
                               (PoolSubscription.fee sub)) in
         do* _ := detectorAddEdge chainId
                    (forwardEdge sub reserve0 reserve1
                                 (ArbitrageDetector.rate q01)) in
         do* q10 := Js.lift (ArbitrageDetector.calculateRate
                               reserve1 reserve0 (10 ^ 18)
                               (PoolSubscription.fee sub)) in
         detectorAddEdge chainId
           (reverseEdge sub reserve0 reserve1
                        (ArbitrageDetector.rate q10))) m
    end.

(** [updateV3Pool(chainId, sub, sqrtPriceX96, liquidity)]. *)
Definition updateV3Pool (now : Z) (chainId : ChainId)
    (sub : PoolSubscription.t) (sqrtPriceX96 liquidity : Z) : Js.M t unit :=
  let Q96 := 2 ^ 96 in
  do* price := Js.lift (Js.bigint_div (sqrtPriceX96 * sqrtPriceX96) (Q96 * Q96)) in
  let reserve0 := liquidity in
  do* reserve1 := Js.lift (Js.bigint_div (liquidity * price) (10 ^ 18)) in
  updateReserves now chainId sub
    (if 0 <? reserve0 then reserve0 else 1)
    (if 0 <? reserve1 then reserve1 else 1).

(** [checkArbitrage(chainId)]. *)
Definition checkArbitrage (chainId : ChainId) : Js.M World unit :=
  fun w =>
    match detectors (monitor w) !! chainId with
    | None => (Js.Ok tt, w)
    | Some detector =>
        match CHAIN_CONFIGS chainId with
        | None => (Js.Ok tt, w)
        | Some config =>
            let weth := ChainConfig.nativeToken config in
            let inputAmount := 10 ^ 18 in
            (do* _ := emit (DetectorRun chainId) in
             do* opportunities :=
               onRuntime (ArbitrageDetector.findArbitrageOpportunities
                            math detector weth inputAmount) in
             if (0 <? length opportunities)%nat && hasCallback (monitor w)
             then emit (Callback opportunities)
             else Js.ret tt) w
        end
    end.

(** The [onLogs] callback registered by [startMonitoring] for a V2 or
    Velodrome pool ([Sync] events). *)
Definition onSyncLog (chainId : ChainId) (sub : PoolSubscription.t)
    (_ : unit) (log : SyncLog.t) : Js.M World unit :=
  match SyncLog.reserve0 log, SyncLog.reserve1 log with
  | Some reserve0, Some reserve1 =>
      do* now := onRuntime Js.Date_now in
      do* _ := onMonitor (updateReserves now chainId sub reserve0 reserve1) in
      checkArbitrage chainId
  | _, _ => Js.ret tt
  end.

Definition onSyncLogs (chainId : ChainId) (sub : PoolSubscription.t)
    (logs : list SyncLog.t) : Js.M World unit :=
  Js.forEach (onSyncLog chainId sub) logs tt.

(** The [onLogs] callback registered for a V3 pool ([Swap] events). *)
Definition onSwapLog (chainId : ChainId) (sub : PoolSubscription.t)
    (_ : unit) (log : SwapLog.t) : Js.M World unit :=
  match SwapLog.sqrtPriceX96 log, SwapLog.liquidity log with
  | Some sqrtPriceX96, Some liquidity =>
      do* now := onRuntime Js.Date_now in
      do* _ := onMonitor (updateV3Pool now chainId sub sqrtPriceX96 liquidity) in
      checkArbitrage chainId
  | _, _ => Js.ret tt
  end.

Definition onSwapLogs (chainId : ChainId) (sub : PoolSubscription.t)
    (logs : list SwapLog.t) : Js.M World unit :=
  Js.forEach (onSwapLog chainId sub) logs tt.

End WithEnvironment.

(** Every detector's graph is well formed. *)
Definition wellFormed (m : t) : Prop :=
  forall chainId d,
    detectors m !! chainId = Some d ->
    ArbitrageDetector.wellFormed (ArbitrageDetector.graph d).

(** [getReserves(chainId, pool)]. *)
Definition getReserves (m : t) (chainId : ChainId) (pool : Address)
  : option PoolReserves.t :=
  Js.map_get (reservesKey chainId pool) (reserves m).

(** [getAllReserves(chainId)]: the entries of [reserves] whose key starts
    with the chain's prefix, in insertion order. *)
Definition getAllReserves (m : t) (chainId : ChainId) : list PoolReserves.t :=
  map snd
      (List.filter
         (fun entry : string * PoolReserves.t =>
            String.prefix (Js.decimal chainId +:+ "-") (fst entry))
         (reserves m)).

(** The table [tokens] of [getKeyTokenPairs]. *)
Definition keyTokens (chainId : ChainId) : list Address :=
  if chainId =? 1 then
    ["0xC02aaA39b223FE8D0A0e5C4F27eAD9083C756Cc2";
     "0xA0b86991c6218b36c1d19D4a2e9Eb0cE3606eB48";
     "0xdAC17F958D2ee523a2206206994597C13D831ec7";
     "0x6B175474E89094C44Da98b954EedefdFD691903dCB";
     "0x2260FAC5E5542a773Aa44fBCfeDf7C193bc2C599"]%string
  else if chainId =? 42161 then
    ["0x82aF49447D8a07e3bd95BD0d56f35241523fBab1";
     "0xaf88d065e77c8cC2239327C5EDb3A432268e5831";
     "0xFd086bC7CD5C481DCC9C85ebE478A1C0b69FCbb9";
     "0x912CE59144191C1204E64559FE8253a0e49E6548"]%string
  else if chainId =? 8453 then
    ["0x4200000000000000000000000000000000000006";
     "0x833589fCD6eDb6E08f4c7C32D4f71b54bdA02913";
     "0x2Ae3F1Ec7F1F5012CFEab0185bfc7aa3cf0DEc22"]%string
  else if chainId =? 10 then
    ["0x4200000000000000000000000000000000000006";
     "0x0b2C639c533813f4Aa9D7837CAf62653d097Ff85";
     "0x94b008aA00579c1307B0EF2c499aD98a8ce58e58";
     "0x4200000000000000000000000000000000000042"]%string
  else [].

(** A string is truthy when it is not empty. *)
Definition truthy (s : string) : bool := negb (String.eqb s "").

(** The two nested loops of [getKeyTokenPairs]: for every index [i], the
    pairs with the tokens at the indices [j > i], both tokens truthy. *)
Fixpoint pairsOf (chainTokens : list Address) : list (Address * Address) :=
  match chainTokens with
  | [] => []
  | tokenA :: rest =>
      List.filter (fun pair : Address * Address =>
                     truthy (fst pair) && truthy (snd pair))
                  (map (fun tokenB => (tokenA, tokenB)) rest)
      ++ pairsOf rest
  end.

(** [getKeyTokenPairs(chainId)]. *)
Definition getKeyTokenPairs (chainId : ChainId) : list (Address * Address) :=
  pairsOf (keyTokens chainId).

(** The constructor: an empty subscription list and a fresh detector for
    every enabled chain that has an entry in [CHAIN_CONFIGS]. *)
Definition new (CHAIN_CONFIGS : ChainId -> option ChainConfig.t)
    (enabledChains : list ChainId) : t :=
  fold_left
    (fun (m : t) (chainId : ChainId) =>
       match CHAIN_CONFIGS chainId with
       | None => m
       | Some _ =>
           mk (<[chainId := []]> (subscriptions m)) (reserves m)
              (<[chainId := ArbitrageDetector.new
                              chainId ArbitrageDetector.default_minProfitBps]>
                 (detectors m))
              (hasCallback m)
       end)
    enabledChains (mk ∅ [] ∅ false).

(** [onOpportunity(callback)]. *)
Definition onOpportunity (m : t) : t :=
  mk (subscriptions m) (reserves m) (detectors m) true.

End PriceMonitor.

(** ** [TradeExecutor] *)

(** [interface BotConfig]. *)
Module BotConfig.
Record t : Type := mk {
  minProfitUsd : float;
  maxGasPriceGwei : Z;
  maxSlippageBps : Z;
  simulateBeforeExecute : bool;
  dryRun : bool;
  maxConcurrentTrades : Z;
  cooldownMs : Z;
  enabledChains : list ChainId;
  privateKey : string;
  flashbotsEnabled : bool
}.
End BotConfig.

(** [interface ExecutionResult]; an absent optional field is [None]. *)
Module ExecutionResult.
Record t : Type := mk {
  success : bool;
  txHash : option string;
  profit : option Z;
  gasUsed : option Z;
  error : option string;
  blockNumber : option Z;
  timestamp : Z
}.
End ExecutionResult.

(** [interface SimulationResult]. *)
Module SimulationResult.
Record t : Type := mk {
  success : bool;
  profit : Z;
  gasUsed : Z;
  error : option string;
  logs : list string
}.
End SimulationResult.

(** One element of [swaps] in the argument of [executeArbitrage]. *)
Module SwapParam.
Record t : Type := mk {
  router : Address;
  tokenIn : Address;
  tokenOut : Address;
  amountIn : Z;
  data : SwapData;
  dexType : DexType
}.
End SwapParam.

(** The argument of the contract's [executeArbitrage]. *)
Module ArbitrageParams.
Record t : Type := mk {
  flashToken : Address;
  flashAmount : Z;
  swaps : list SwapParam.t;
  minProfit : Z
}.
End ArbitrageParams.

(** The request object handed to [walletClient.sendTransaction]. *)
Module Transaction.
Record t : Type := mk {
  to : Address;
  data : string;
  gas : Z;
  maxFeePerGas : Z;
  maxPriorityFeePerGas : Z;
  nonce : Z
}.
End Transaction.

(** The fields of a transaction receipt that [execute] reads. *)
Module Receipt.
Record t : Type := mk {
  status_success : bool;
  gasUsed : Z;
  blockNumber : Z
}.
End Receipt.

(** The viem library and the JSON-RPC nodes behind it are external: the
    embedding is parametric in the state [Net] of the networks and in what
    each request does to it. *)
Module Viem.
Record t (Net : Type) : Type := mk {
  encodeFunctionData : ArbitrageParams.t -> Js.outcome string;
  simulateContract :
    ChainId -> Address -> ArbitrageParams.t -> Address -> Js.M Net unit;
  estimateGas : ChainId -> Address -> string -> Address -> Js.M Net Z;
  getGasPrice : ChainId -> Js.M Net Z;
  getTransactionCount : ChainId -> Address -> Js.M Net Z;
  getBlockNumber : ChainId -> Js.M Net Z;
  sendTransaction : ChainId -> Transaction.t -> Js.M Net string;
  waitForTransactionReceipt : ChainId -> string -> Js.M Net Receipt.t
}.
Arguments encodeFunctionData {Net} _ _.
Arguments simulateContract {Net} _ _ _ _ _ _.
Arguments estimateGas {Net} _ _ _ _ _ _.
Arguments getGasPrice {Net} _ _ _.
Arguments getTransactionCount {Net} _ _ _ _.
Arguments getBlockNumber {Net} _ _ _.
Arguments sendTransaction {Net} _ _ _ _.
Arguments waitForTransactionReceipt {Net} _ _ _ _.
End Viem.

Module TradeExecutor.

(** The fields of the class: the chains that have a wallet client and a
    public client, the configuration and the account's address. *)
Record t : Type := mk {
  walletClients : gset Z;
  publicClients : gset Z;
  config : BotConfig.t;
  account : Address
}.

(** [buildArbitrageParams(opportunity)]. *)
Definition buildArbitrageParams (this : t)
    (opportunity : ArbitrageOpportunity.t) : Js.outcome ArbitrageParams.t :=
  let swaps :=
    map (fun step =>
           SwapParam.mk (SwapStep.router step) (SwapStep.tokenIn step)
                        (SwapStep.tokenOut step) (SwapStep.amountIn step)
                        (SwapStep.data step) (SwapStep.dexType step))
        (ArbitrageOpportunity.path opportunity) in
  let* minProfit :=
    Js.bigint_div
      (ArbitrageOpportunity.expectedProfit opportunity
       * (100 - BotConfig.maxSlippageBps (config this)))
      100 in
  Js.Ok (ArbitrageParams.mk (ArbitrageOpportunity.inputToken opportunity)
                            (ArbitrageOpportunity.inputAmount opportunity)
                            swaps minProfit).

(** [getPriorityFee(chainId)]. *)
Definition getPriorityFee (chainId : ChainId) : Z :=
  if chainId =? 1 then 2 * 10 ^ 9
  else if (chainId =? 42161) || (chainId =? 8453) || (chainId =? 10)
  then 1 * 10 ^ 8
  else 1 * 10 ^ 9.

(** The sentinel ['0x' + '0'.repeat(64)]. *)
Definition zeroHash : string := ("0x" +:+ Js.str_repeat "0" 64)%string.

Section WithNetwork.
Context {Net : Type}.
Variable viem : Viem.t Net.
Variable CHAIN_CONFIGS : ChainId -> option ChainConfig.t.

(** The executor runs against the networks and the runtime; [sent] records
    every request that [walletClient.sendTransaction] signed and
    submitted. *)
Record World : Type := mkWorld {
  net : Net;
  runtime : Js.Runtime;
  sent : list (ChainId * Transaction.t)
}.

Definition onNet {A : Type} (m : Js.M Net A) : Js.M World A :=
  Js.zoom net (fun n w => mkWorld n (runtime w) (sent w)) m.

Definition now : Js.M World Z :=
  Js.zoom runtime (fun rt w => mkWorld (net w) rt (sent w)) Js.Date_now.

(** [walletClient.sendTransaction(request)]: the wallet signs the request
    with the account's key and submits it. *)
Definition walletSend (chainId : ChainId) (tx : Transaction.t)
  : Js.M World string :=
  fun w =>
    onNet (Viem.sendTransaction viem chainId tx)
          (mkWorld (net w) (runtime w) (sent w ++ [(chainId, tx)])).

(** [encodeArbitrageCall(opportunity)]. *)
Definition encodeArbitrageCall (this : t)
    (opportunity : ArbitrageOpportunity.t) : Js.outcome string :=
  let* params := buildArbitrageParams this opportunity in
  Viem.encodeFunctionData viem params.

Definition failure (error : option string) (timestamp : Z)
  : ExecutionResult.t :=
  ExecutionResult.mk false None None None error None timestamp.

(** [simulate(opportunity)]. *)
Definition simulate (this : t) (opportunity : ArbitrageOpportunity.t)
  : Js.M World SimulationResult.t :=
  let chain := ArbitrageOpportunity.chain opportunity in
  if negb (bool_decide (chain ∈ publicClients this)) then
    Js.ret (SimulationResult.mk false 0 0 (Some "No client for chain"%string) [])
  else
    match CHAIN_CONFIGS chain with
    | None =>
        Js.ret (SimulationResult.mk false 0 0
                  (Some "No config for chain"%string) [])
    | Some chainConfig =>
        Js.tryCatch
          (do* calldata := Js.lift (encodeArbitrageCall this opportunity) in
           do* params := Js.lift (buildArbitrageParams this opportunity) in
           do* _ := onNet (Viem.simulateContract viem chain
                             (ChainConfig.arbitrage chainConfig) params
                             (account this)) in
           do* gasEstimate :=
             onNet (Viem.estimateGas viem chain
                      (ChainConfig.arbitrage chainConfig) calldata
                      (account this)) in
           Js.ret (SimulationResult.mk true
                     (ArbitrageOpportunity.expectedProfit opportunity)
                     gasEstimate None
                     [("Simulation successful, estimated gas: "
                       +:+ Js.decimal gasEstimate)%string]))
          (fun errorMessage =>
             Js.ret (SimulationResult.mk false 0 0 (Some errorMessage)
                       [("Simulation failed: " +:+ errorMessage)%string]))
    end.

(** [executeStandard(opportunity, walletClient, publicClient, chainConfig)]. *)
Definition executeStandard (this : t) (opportunity : ArbitrageOpportunity.t)
    (chainConfig : ChainConfig.t) : Js.M World string :=
  let chain := ArbitrageOpportunity.chain opportunity in
  do* calldata := Js.lift (encodeArbitrageCall this opportunity) in
  do* nonce := onNet (Viem.getTransactionCount viem chain (account this)) in
  do* gasEstimate :=
    onNet (Viem.estimateGas viem chain (ChainConfig.arbitrage chainConfig)
             calldata (account this)) in
  let gasLimit := Z.quot (gasEstimate * 120) 100 in
  do* gasPrice := onNet (Viem.getGasPrice viem chain) in
  let priorityFee := getPriorityFee chain in
  walletSend chain
    (Transaction.mk (ChainConfig.arbitrage chainConfig) calldata gasLimit
                    (gasPrice + priorityFee) priorityFee nonce).

(** [executeViaFlashbots(opportunity, walletClient, publicClient)]. *)
Definition executeViaFlashbots (this : t)
    (opportunity : ArbitrageOpportunity.t) : Js.M World string :=
  let chain := ArbitrageOpportunity.chain opportunity in
  match CHAIN_CONFIGS 1 with
  | None => Js.throw "No mainnet config"
  | Some chainConfig =>
      do* calldata := Js.lift (encodeArbitrageCall this opportunity) in
      do* blockNumber := onNet (Viem.getBlockNumber viem chain) in
      do* gasEstimate :=
        onNet (Viem.estimateGas viem chain (ChainConfig.arbitrage chainConfig)
                 calldata (account this)) in
      do* gasPrice := onNet (Viem.getGasPrice viem chain) in
      do* nonce := onNet (Viem.getTransactionCount viem chain (account this)) in
      walletSend chain
        (Transaction.mk (ChainConfig.arbitrage chainConfig) calldata
                        (Z.quot (gasEstimate * 120) 100) (gasPrice * 2)
                        (Z.quot gasPrice 2) nonce)
  end.

(** The guards that [execute] passes before it looks at [dryRun]. *)
Definition ready (this : t) (opportunity : ArbitrageOpportunity.t) : bool :=
  let chain := ArbitrageOpportunity.chain opportunity in
  bool_decide (chain ∈ walletClients this)
  && bool_decide (chain ∈ publicClients this)
  && match CHAIN_CONFIGS chain with Some _ => true | None => false end.

(** [execute(opportunity)]. *)
Definition execute (this : t) (opportunity : ArbitrageOpportunity.t)
  : Js.M World ExecutionResult.t :=
  let chain := ArbitrageOpportunity.chain opportunity in
  if negb (bool_decide (chain ∈ walletClients this))
     || negb (bool_decide (chain ∈ publicClients this))
  then
    do* timestamp := now in
    Js.ret (failure (Some "No client for chain"%string) timestamp)
  else
    match CHAIN_CONFIGS chain with
    | None =>
        do* timestamp := now in
        Js.ret (failure (Some "No config for chain"%string) timestamp)
    | Some chainConfig =>
        if BotConfig.dryRun (config this) then
          do* timestamp := now in
          Js.ret (ExecutionResult.mk true (Some zeroHash)
                    (Some (ArbitrageOpportunity.expectedProfit opportunity))
                    (Some (ArbitrageOpportunity.gasEstimate opportunity))
                    None None timestamp)
        else
          Js.tryCatch
            (do* simResult :=
               (if BotConfig.simulateBeforeExecute (config this)
                then simulate this opportunity
                else Js.ret (SimulationResult.mk true 0 0 None [])) in
             if negb (SimulationResult.success simResult) then
               do* timestamp := now in
               Js.ret (failure (SimulationResult.error simResult) timestamp)
             else
               do* gasPrice := onNet (Viem.getGasPrice viem chain) in
               let maxGasPrice :=
                 BotConfig.maxGasPriceGwei (config this) * 10 ^ 9 in
               if maxGasPrice <? gasPrice then
                 do* timestamp := now in
                 Js.ret (failure
                           (Some ("Gas price too high: "
                                  +:+ Js.decimal gasPrice)%string)
                           timestamp)
               else
                 do* txHash :=
                   (if (chain =? 1) && BotConfig.flashbotsEnabled (config this)
                    then executeViaFlashbots this opportunity
                    else executeStandard this opportunity chainConfig) in
                 do* receipt :=
                   onNet (Viem.waitForTransactionReceipt viem chain txHash) in
                 let success := Receipt.status_success receipt in
                 do* timestamp := now in
                 Js.ret (ExecutionResult.mk success (Some txHash)
                           (Some (if success
                                  then ArbitrageOpportunity.expectedProfit
                                         opportunity
                                  else 0))
                           (Some (Receipt.gasUsed receipt)) None
                           (Some (Receipt.blockNumber receipt)) timestamp))
            (fun errorMessage =>
               do* timestamp := now in
               Js.ret (failure (Some errorMessage) timestamp))
    end.

End WithNetwork.

(** The constructor keeps a client pair for every enabled chain that has an
    entry in [CHAIN_CONFIGS]. *)
Definition new (CHAIN_CONFIGS : ChainId -> option ChainConfig.t)
    (config : BotConfig.t) (account : Address) : t :=
  let chains :=
    List.filter
      (fun chainId =>
         match CHAIN_CONFIGS chainId with Some _ => true | None => false end)
           (BotConfig.enabledChains config) in
  mk (list_to_set chains) (list_to_set chains) config account.

End TradeExecutor.

(** ** The opportunity queue of [index.ts] *)

(** [interface BotState]. *)
Module BotState.
Record t : Type := mk {
  isRunning : bool;
  isPaused : bool;
  currentChains : list ChainId;
  totalProfit : Z;
  totalTrades : Z;
  successfulTrades : Z;
  failedTrades : Z;
  lastTradeTime : option Z;
  uptime : Z
}.
End BotState.

(** [interface TradeHistory]. *)
Module TradeHistory.
Record t : Type := mk {
  id : string;
  chain : ChainId;
  timestamp : Z;
  txHash : string;
  inputToken : Address;
  inputAmount : Z;
  outputAmount : Z;
  profit : Z;
  profitUsd : float;
  gasUsed : Z;
  gasCostUsd : float;
  path : list string;
  success : bool;
  error : option string
}.
End TradeHistory.

Module Bot.

Definition MAX_HISTORY : nat := 100.

(** Where the asynchronous function [processQueue] is suspended. *)
Inductive Suspended : Type :=
| NotRunning
| AwaitingExecute (opportunity : ArbitrageOpportunity.t)
| AwaitingCooldown.

(** The module-level variables of [index.ts]. *)
Record t : Type := mk {
  state : BotState.t;
  tradeHistory : list TradeHistory.t;
  opportunityQueue : list ArbitrageOpportunity.t;
  isProcessing : bool;
  suspended : Suspended
}.

Definition setPaused (b : bool) (s : BotState.t) : BotState.t :=
  BotState.mk (BotState.isRunning s) b (BotState.currentChains s)
              (BotState.totalProfit s) (BotState.totalTrades s)
              (BotState.successfulTrades s) (BotState.failedTrades s)
              (BotState.lastTradeTime s) (BotState.uptime s).

(** The USD fields the handler writes into an opportunity. *)
Definition priced (opp : ArbitrageOpportunity.t) : ArbitrageOpportunity.t :=
  let ethPriceUsd := 3000%float in
  let profitEth :=
    (Js.Number (ArbitrageOpportunity.expectedProfit opp) / 1e18)%float in
  let gasCostEth :=
    (Js.Number (ArbitrageOpportunity.gasEstimate opp * 30 * 10 ^ 9) / 1e18)%float in
  let profitUsd := (profitEth * ethPriceUsd)%float in
  let gasCostUsd := (gasCostEth * ethPriceUsd)%float in
  ArbitrageOpportunity.mk
    (ArbitrageOpportunity.id opp) (ArbitrageOpportunity.chain opp)
    (ArbitrageOpportunity.path opp) (ArbitrageOpportunity.inputToken opp)
    (ArbitrageOpportunity.inputAmount opp)
    (ArbitrageOpportunity.expectedOutput opp)
    (ArbitrageOpportunity.expectedProfit opp) profitUsd
    (ArbitrageOpportunity.gasEstimate opp) gasCostUsd
    (profitUsd - gasCostUsd)%float
    (ArbitrageOpportunity.confidence opp)
    (ArbitrageOpportunity.timestamp opp) (ArbitrageOpportunity.expiresAt opp).

(** [opp.netProfitUsd >= config.minProfitUsd]. *)
Definition profitable (config : BotConfig.t) (opp : ArbitrageOpportunity.t)
  : bool :=
  PrimFloat.leb (BotConfig.minProfitUsd config)
                (ArbitrageOpportunity.netProfitUsd opp).

(** The [for] loop of the [monitor.onOpportunity] handler. *)
Fixpoint enqueue (config : BotConfig.t)
    (opportunities queue : list ArbitrageOpportunity.t)
  : list ArbitrageOpportunity.t :=
  match opportunities with
  | [] => queue
  | opp :: rest =>
      let opp := priced opp in
      if profitable config opp then enqueue config rest (queue ++ [opp])
      else enqueue config rest queue
  end.

(** The [while] loop of [processQueue], up to the point where it awaits
    [executor.execute(opportunity)] or leaves through [finally]. *)
Fixpoint dequeueLoop (config : BotConfig.t)
    (queue : list ArbitrageOpportunity.t) (b : t) : Js.M Js.Runtime t :=
  match queue with
  | [] =>
      Js.ret (mk (state b) (tradeHistory b) [] false NotRunning)
  | opportunity :: rest =>
      if BotState.isPaused (state b) then
        Js.ret (mk (state b) (tradeHistory b) queue false NotRunning)
      else
        do* now := Js.Date_now in
        if ArbitrageOpportunity.expiresAt opportunity <? now then
          dequeueLoop config rest b
        else if PrimFloat.ltb (ArbitrageOpportunity.netProfitUsd opportunity)
                              (BotConfig.minProfitUsd config) then
          dequeueLoop config rest b
        else
          Js.ret (mk (state b) (tradeHistory b) rest true
                     (AwaitingExecute opportunity))
  end.

(** [processQueue(executor, config)], from its call to its first [await]. *)
Definition processQueue (config : BotConfig.t) (b : t) : Js.M Js.Runtime t :=
  if isProcessing b || BotState.isPaused (state b)
     || (length (opportunityQueue b) =? 0)%nat
  then Js.ret b
  else dequeueLoop config (opportunityQueue b)
         (mk (state b) (tradeHistory b) (opportunityQueue b) true (suspended b)).

(** The handler registered with [monitor.onOpportunity]. *)
Definition onOpportunity (config : BotConfig.t)
    (opportunities : list ArbitrageOpportunity.t) (b : t) : Js.M Js.Runtime t :=
  processQueue config
    (mk (state b) (tradeHistory b)
        (enqueue config opportunities (opportunityQueue b))
        (isProcessing b) (suspended b)).

(** [processQueue] resumed with the result of [executor.execute]: the
    statistics and the history are updated, then the cooldown is awaited. *)
Definition executeSettled (result : ExecutionResult.t) (b : t)
  : Js.M Js.Runtime t :=
  match suspended b with
  | AwaitingExecute opportunity =>
      let s := state b in
      let profit := match ExecutionResult.profit result with
                    | Some p => p | None => 0 end in
      do* tradeTime :=
        (if ExecutionResult.success result
         then Js.mbind Js.Date_now (fun n => Js.ret (Some n))
         else Js.ret (BotState.lastTradeTime s)) in
      let s' :=
        if ExecutionResult.success result then
          BotState.mk (BotState.isRunning s) (BotState.isPaused s)
            (BotState.currentChains s) (BotState.totalProfit s + profit)
            (BotState.totalTrades s + 1) (BotState.successfulTrades s + 1)
            (BotState.failedTrades s) tradeTime (BotState.uptime s)
        else
          BotState.mk (BotState.isRunning s) (BotState.isPaused s)
            (BotState.currentChains s) (BotState.totalProfit s)
            (BotState.totalTrades s + 1) (BotState.successfulTrades s)
            (BotState.failedTrades s + 1) tradeTime (BotState.uptime s) in
      do* now := Js.Date_now in
      let entry :=
        TradeHistory.mk
          (ArbitrageOpportunity.id opportunity)
          (ArbitrageOpportunity.chain opportunity) now
          (match ExecutionResult.txHash result with
           | Some h => if String.eqb h "" then TradeExecutor.zeroHash else h
           | None => TradeExecutor.zeroHash end)
          (ArbitrageOpportunity.inputToken opportunity)
          (ArbitrageOpportunity.inputAmount opportunity)
          (ArbitrageOpportunity.expectedOutput opportunity)
          profit
          (if ExecutionResult.success result
           then ArbitrageOpportunity.profitUsd opportunity else 0%float)
          (match ExecutionResult.gasUsed result with
           | Some g => g | None => 0 end)
          (ArbitrageOpportunity.gasCostUsd opportunity)
          (map SwapStep.tokenOut (ArbitrageOpportunity.path opportunity))
          (ExecutionResult.success result)
          (ExecutionResult.error result) in
      Js.ret (mk s' (take MAX_HISTORY (entry :: tradeHistory b))
                 (opportunityQueue b) true AwaitingCooldown)
  | _ => Js.ret b
  end.

(** [processQueue] resumed after the cooldown: the loop goes on. *)
Definition cooldownElapsed (config : BotConfig.t) (b : t) : Js.M Js.Runtime t :=
  match suspended b with
  | AwaitingCooldown => dequeueLoop config (opportunityQueue b) b
  | _ => Js.ret b
  end.

(** What the module reacts to, one turn of the event loop each: the monitor
    reports opportunities, the awaited [executor.execute] settles, the
    cooldown timer fires, the API sets or clears [state.isPaused] (the
    routes [/api/pause] and [/api/resume]). *)
Inductive Event : Type :=
| Reported (opportunities : list ArbitrageOpportunity.t)
| Settled (result : ExecutionResult.t)
| CooledDown
| PauseSet (paused : bool).

Definition react (config : BotConfig.t) (ev : Event) (b : t)
  : Js.M Js.Runtime t :=
  match ev with
  | Reported opportunities => onOpportunity config opportunities b
  | Settled result => executeSettled result b
  | CooledDown => cooldownElapsed config b
  | PauseSet paused =>
      Js.ret (mk (setPaused paused (state b)) (tradeHistory b)
                 (opportunityQueue b) (isProcessing b) (suspended b))
  end.

Fixpoint reactAll (config : BotConfig.t) (events : list Event) (b : t)
  : Js.M Js.Runtime t :=
  match events with
  | [] => Js.ret b
  | ev :: rest => do* b' := react config ev b in reactAll config rest b'
  end.

(** The flag [isProcessing] is set exactly while [processQueue] is
    suspended at one of its two [await]s, the counters add up, and the
    history is bounded by [MAX_HISTORY] and by the number of trades. *)
Definition consistent (b : t) : Prop :=
  (isProcessing b = true <-> suspended b <> NotRunning) /\
  BotState.totalTrades (state b)
  = BotState.successfulTrades (state b) + BotState.failedTrades (state b) /\
  (length (tradeHistory b) <= MAX_HISTORY)%nat /\
  Z.of_nat (length (tradeHistory b)) <= BotState.totalTrades (state b).

End Bot.

(** ** The contract [FlashloanArbitrage] *)
Module FlashloanArbitrage.

Definition MAX_UINT256 : Z := 2 ^ 256 - 1.

Definition BALANCER_VAULT : Address :=
  "0xBA12222222228d8Ba445958a75a0704d566BF2C8"%string.

(** [1 days]. *)
Definition one_day : Z := 86400.

(** Checked [uint256] addition: an overflow reverts. *)
Definition checked_add (a b : Z) : option Z :=
  if a + b <=? MAX_UINT256 then Some (a + b) else None.

(** The storage of the contract ([owner] is the one of [Ownable]). *)
Record State : Type := mk {
  owner : Address;
  approvedRouters : gmap string bool;
  maxLossPerTx : Z;
  dailyLossLimit : Z;
  dailyLoss : Z;
  lastResetTimestamp : Z;
  paused : bool;
  beneficiary : Address
}.

(** What the token and the routers answer during one flashloan callback:
    the two readings of [tokens[0].balanceOf(address(this))] around the
    swaps, whether the i-th router call succeeds, and whether the final
    transfers succeed. *)
Record Observed : Type := mkObserved {
  balanceBefore : Z;
  swapSucceeds : nat -> bool;
  balanceAfter : Z;
  transfersSucceed : bool
}.

(** The calls of the external interface. *)
Inductive Call : Type :=
| ExecuteArbitrage (params : ArbitrageParams.t) (feeAmount : Z) (obs : Observed)
| ReceiveFlashLoan (tokens : list Address) (amounts feeAmounts : list Z)
                   (userData : option ArbitrageParams.t) (obs : Observed)
| SetRouterApproval (router : Address) (approved : bool)
| SetBeneficiary (newBeneficiary : Address)
| SetCircuitBreaker (newMaxLossPerTx newDailyLossLimit : Z)
| SetPaused (newPaused : bool)
| RescueTokens (token : Address) (amount : Z) (transferSucceeds : bool)
| RescueETH (transferSucceeds : bool).

(** A transaction: [msg.sender], [block.timestamp] and the call. *)
Record Tx : Type := mkTx {
  sender : Address;
  timestamp : Z;
  call : Call
}.

(** The constructor. *)
Definition constructor (deployer beneficiary : Address)
    (maxLossPerTx dailyLossLimit timestamp : Z) : State :=
  mk deployer ∅ maxLossPerTx dailyLossLimit 0 timestamp false beneficiary.

Definition routerApproved (st : State) (router : Address) : bool :=
  match approvedRouters st !! router with
  | Some b => b
  | None => false
  end.

(** The loop over [params.swaps]: [_executeSwap] reverts when the router is
    not approved or when the router call fails. *)
Fixpoint executeSwaps (st : State) (obs : Observed) (i : nat)
    (swaps : list SwapParam.t) : bool :=
  match swaps with
  | [] => true
  | swap :: rest =>
      routerApproved st (SwapParam.router swap) && swapSucceeds obs i
      && executeSwaps st obs (S i) rest
  end.

Definition setLoss (st : State) (dailyLoss : Z) (paused : bool) : State :=
  mk (owner st) (approvedRouters st) (maxLossPerTx st) (dailyLossLimit st)
     dailyLoss (lastResetTimestamp st) paused (beneficiary st).

(** [receiveFlashLoan(tokens, amounts, feeAmounts, userData)]; [None] is a
    revert. *)
Definition receiveFlashLoan (msgSender : Address) (tokens : list Address)
    (amounts feeAmounts : list Z) (userData : option ArbitrageParams.t)
    (obs : Observed) (st : State) : option State :=
  if negb (String.eqb msgSender BALANCER_VAULT) then None
  else
    match userData, tokens, amounts, feeAmounts with
    | Some params, _ :: _, amount0 :: _, fee0 :: _ =>
        if negb (executeSwaps st obs 0 (ArbitrageParams.swaps params))
        then None
        else
          match checked_add amount0 fee0 with
          | None => None
          | Some repayAmount =>
              match checked_add repayAmount (ArbitrageParams.minProfit params) with
              | None => None
              | Some required =>
                  if balanceAfter obs <? required then None
                  else
                    let afterBreaker :=
                      if balanceAfter obs <? balanceBefore obs then
                        let loss := balanceBefore obs - balanceAfter obs in
                        if maxLossPerTx st <? loss then None
                        else
                          match checked_add (dailyLoss st) loss with
                          | None => None
                          | Some total =>
                              if dailyLossLimit st <=? total
                              then Some (setLoss st total true)
                              else Some (setLoss st total (paused st))
                          end
                      else Some st in
                    match afterBreaker with
                    | None => None
                    | Some st' =>
                        if transfersSucceed obs then Some st' else None
                    end
              end
          end
    | _, _, _, _ => None
    end.

(** [executeArbitrage(params)]: the vault lends [flashAmount] of
    [flashToken] and calls [receiveFlashLoan] back once, with the fee it
    charges. *)
Definition executeArbitrage (blockTimestamp : Z) (params : ArbitrageParams.t)
    (feeAmount : Z) (obs : Observed) (st : State) : option State :=
  if paused st then None
  else
    match checked_add (lastResetTimestamp st) one_day with
    | None => None
    | Some windowEnd =>
        let st1 :=
          if windowEnd <=? blockTimestamp then
            mk (owner st) (approvedRouters st) (maxLossPerTx st)
               (dailyLossLimit st) 0 blockTimestamp (paused st)
               (beneficiary st)
          else st in
        receiveFlashLoan BALANCER_VAULT [ArbitrageParams.flashToken params]
          [ArbitrageParams.flashAmount params] [feeAmount] (Some params) obs st1
    end.

Definition onlyOwner (tx : Tx) (st : State) (k : option State) : option State :=
  if String.eqb (sender tx) (owner st) then k else None.

(** One transaction; [None] is a revert, which leaves the storage as it
    was. *)
Definition step (tx : Tx) (st : State) : option State :=
  match call tx with
  | ExecuteArbitrage params feeAmount obs =>
      executeArbitrage (timestamp tx) params feeAmount obs st
  | ReceiveFlashLoan tokens amounts feeAmounts userData obs =>
      receiveFlashLoan (sender tx) tokens amounts feeAmounts userData obs st
  | SetRouterApproval router approved =>
      onlyOwner tx st
        (Some (mk (owner st) (<[router := approved]> (approvedRouters st))
                  (maxLossPerTx st) (dailyLossLimit st) (dailyLoss st)
                  (lastResetTimestamp st) (paused st) (beneficiary st)))
  | SetBeneficiary newBeneficiary =>
      onlyOwner tx st
        (Some (mk (owner st) (approvedRouters st) (maxLossPerTx st)
                  (dailyLossLimit st) (dailyLoss st) (lastResetTimestamp st)
                  (paused st) newBeneficiary))
  | SetCircuitBreaker newMaxLossPerTx newDailyLossLimit =>
      onlyOwner tx st
        (Some (mk (owner st) (approvedRouters st) newMaxLossPerTx
                  newDailyLossLimit (dailyLoss st) (lastResetTimestamp st)
                  (paused st) (beneficiary st)))
  | SetPaused newPaused =>
      onlyOwner tx st (Some (setLoss st (dailyLoss st) newPaused))
  | RescueTokens _ _ transferSucceeds =>
      onlyOwner tx st (if transferSucceeds then Some st else None)
  | RescueETH transferSucceeds =>
      onlyOwner tx st (if transferSucceeds then Some st else None)
  end.

(** The storage after a transaction, reverted or not. *)
Definition apply (tx : Tx) (st : State) : State :=
  match step tx st with
  | Some st' => st'
  | None => st
  end.

Definition run (txs : list Tx) (st : State) : State :=
  fold_left (fun s tx => apply tx s) txs st.

(** The states reached from [st0] by transactions that all satisfy
    [allowed]. *)
Inductive reachableFrom (allowed : Tx -> bool) (st0 : State) : State -> Prop :=
| reach_start : reachableFrom allowed st0 st0
| reach_step (tx : Tx) (st st' : State) :
    reachableFrom allowed st0 st ->
    allowed tx = true ->
    step tx st = Some st' ->
    reachableFrom allowed st0 st'.

(** Every call but [setPaused]. *)
Definition notSetPaused (tx : Tx) : bool :=
  match call tx with
  | SetPaused _ => false
  | _ => true
  end.

(** Every call but the two by which the owner clears the pause or moves the
    limits: [setPaused(false)] and [setCircuitBreaker]. *)
Definition keepsBreaker (tx : Tx) : bool :=
  match call tx with
  | SetPaused false => false
  | SetCircuitBreaker _ _ => false
  | _ => true
  end.

(** The 24-hour window that [lastResetTimestamp] opened is over at
    [blockTimestamp]; the storage once [executeArbitrage] has reset the
    accumulator for it. *)
Definition windowOver (blockTimestamp : Z) (st : State) : bool :=
  lastResetTimestamp st + one_day <=? blockTimestamp.

Definition afterReset (blockTimestamp : Z) (st : State) : State :=
  if windowOver blockTimestamp st
  then mk (owner st) (approvedRouters st) (maxLossPerTx st)
          (dailyLossLimit st) 0 blockTimestamp (paused st) (beneficiary st)
  else st.

(** The breaker's invariant: a positive limit, and the pause flag set
    whenever the accumulated loss has reached the limit. *)
Definition breakerHolds (st : State) : Prop :=
  0 < dailyLossLimit st /\
  (dailyLossLimit st <= dailyLoss st -> paused st = true).

(** The loss that a callback records: [balanceBefore - balanceAfter] when
    the balance went down, nothing otherwise. *)
Definition recordedLoss (obs : Observed) : Z :=
  Z.max 0 (balanceBefore obs - balanceAfter obs).

(** The functions that carry the modifier [onlyOwner]. *)
Definition ownerOnly (c : Call) : bool :=
  match c with
  | ExecuteArbitrage _ _ _ | ReceiveFlashLoan _ _ _ _ _ => false
  | _ => true
  end.

End FlashloanArbitrage.

(** ** The words of the specification

    Definitions that follow the specification rather than the code, to
    state what the code is compared with. *)
Module Spec.

(** Sequential application of each edge's exact-output formula, starting
    from [amount]: the output of one edge is the input of the next. Every
    edge is quoted with the reference reserves it stores: [reserve0] is the
    reserve of [edge.from], the token that goes in, and [reserve1] the
    reserve of [edge.to], the token that comes out. That is how
    [updateReserves] fills both edges of a pool, and how it quotes them
    for their weights. *)
Fixpoint sequentialQuote (cycle : list Edge.t) (amount : Z) : Js.outcome Z :=
  match cycle with
  | [] => Js.Ok amount
  | edge :: rest =>
      let* q := ArbitrageDetector.calculateRate
                  (Edge.reserve0 edge) (Edge.reserve1 edge) amount
                  (Edge.fee edge) in
      sequentialQuote rest (ArbitrageDetector.amountOut q)
  end.

(** The (source, destination, pool) triples along a cycle of edges and
    along the path of an opportunity. *)
Definition cycleRoute (cycle : list Edge.t)
  : list (Address * Address * Address) :=
  map (fun e => (Edge.from e, Edge.to e, Edge.pool e)) cycle.

Definition pathRoute (path : list SwapStep.t)
  : list (Address * Address * Address) :=
  map (fun s => (SwapStep.tokenIn s, SwapStep.tokenOut s, SwapStep.pool s)) path.

(** An edge is present in the graph. *)
Definition inGraph (g : Graph.t) (e : Edge.t) : Prop :=
  exists a l, In (a, l) (Graph.edges g) /\ In e l.

(** Every edge recorded as a predecessor is an edge of the graph. *)
Definition predecessorsInGraph (g : Graph.t)
    (p : gmap string (option Edge.t)) : Prop :=
  forall v e, p !! v = Some (Some e) -> inGraph g e.

(** The configured minimum profit, in units of the input token:
    [minProfitBps] basis points of the input. *)
Definition minProfit (d : ArbitrageDetector.t) (inputAmount : Z) : Z :=
  inputAmount * ArbitrageDetector.minProfitBps d / 10000.

End Spec.

(** ** Shapes of walks, paths and graphs

    The relations in which the behaviour of the detector is stated. *)
Module Shape.

(** [walk a b l]: the edges of [l] lead from [a] to [b], each one leaving
    the vertex the previous one enters. *)
Fixpoint walk (a b : Address) (l : list Edge.t) : Prop :=
  match l with
  | [] => a = b
  | e :: r => Edge.from e = a /\ walk (Edge.to e) b r
  end.

(** [follows token amount path lastToken lastAmount]: the steps of [path]
    start with [amount] of [token], every step takes the token and the
    amount the previous one returns, and the last one returns [lastAmount]
    of [lastToken]. *)
Fixpoint follows (token : Address) (amount : Z) (path : list SwapStep.t)
    (lastToken : Address) (lastAmount : Z) : Prop :=
  match path with
  | [] => token = lastToken /\ amount = lastAmount
  | step :: rest =>
      SwapStep.tokenIn step = token /\
      SwapStep.amountIn step = amount /\
      follows (SwapStep.tokenOut step) (SwapStep.expectedAmountOut step) rest
              lastToken lastAmount
  end.

(** The graphs that the methods of the detector can produce: [graph] is
    private, starts empty and is changed by [addEdge] only ([clear] makes it
    empty again). *)
Inductive built : Graph.t -> Prop :=
| built_empty : built Graph.empty
| built_addEdge (e : Edge.t) (g : Graph.t) :
    built g -> built (ArbitrageDetector.addEdge e g).

(** Every adjacency list holds edges that leave its key. *)
Definition keyed (g : Graph.t) : Prop :=
  forall a l e,
    Js.map_get a (Graph.edges g) = Some l -> In e l -> Edge.from e = a.

(** Every edge of the graph has a fee that is not negative and is below
    100% and, as [buildOpportunity] reads them, a positive input reserve
    and a non-negative output reserve. *)
Definition liquidEdge (e : Edge.t) : Prop :=
  0 <= Edge.fee e < 10000 /\
  0 < ArbitrageDetector.reserveIn e /\
  0 <= ArbitrageDetector.reserveOut e.

Definition liquid (g : Graph.t) : Prop :=
  forall e, Spec.inGraph g e -> liquidEdge e.

(** The predecessor of a vertex is an edge that enters it. *)
Definition pointsBack (p : gmap string (option Edge.t)) : Prop :=
  forall v e, p !! v = Some (Some e) -> Edge.to e = v.

(** The graphs of all detectors of a monitor. *)
Definition builtGraphs (detectors : gmap Z ArbitrageDetector.t) : Prop :=
  forall chainId d,
    detectors !! chainId = Some d -> built (ArbitrageDetector.graph d).

Definition liquidGraphs (detectors : gmap Z ArbitrageDetector.t) : Prop :=
  forall chainId d,
    detectors !! chainId = Some d -> liquid (ArbitrageDetector.graph d).

(** The updates that a batch of logs carries, in the order of the batch:
    the arguments of the logs that have both of them defined. *)
Definition syncUpdates (logs : list SyncLog.t) : list (Z * Z) :=
  flat_map (fun log =>
              match SyncLog.reserve0 log, SyncLog.reserve1 log with
              | Some reserve0, Some reserve1 => [(reserve0, reserve1)]
              | _, _ => []
              end) logs.

Definition swapUpdates (logs : list SwapLog.t) : list (Z * Z) :=
  flat_map (fun log =>
              match SwapLog.sqrtPriceX96 log, SwapLog.liquidity log with
              | Some sqrtPriceX96, Some liquidity => [(sqrtPriceX96, liquidity)]
              | _, _ => []
              end) logs.

(** The monitor after [updateReserves], or [updateV3Pool], was called for
    a pool with each update of a list in turn, each call with the reading
    of the clock given with it. *)
Definition reservesApplied (math : Js.MathImpl) (chainId : ChainId)
    (sub : PoolSubscription.t) (updates : list (Z * (Z * Z)))
    (m : PriceMonitor.t) : PriceMonitor.t :=
  fold_left
    (fun m '(now, (reserve0, reserve1)) =>
       snd (PriceMonitor.updateReserves math now chainId sub
              reserve0 reserve1 m))
    updates m.

Definition v3Applied (math : Js.MathImpl) (chainId : ChainId)
    (sub : PoolSubscription.t) (updates : list (Z * (Z * Z)))
    (m : PriceMonitor.t) : PriceMonitor.t :=
  fold_left
    (fun m '(now, (sqrtPriceX96, liquidity)) =>
       snd (PriceMonitor.updateV3Pool math now chainId sub
              sqrtPriceX96 liquidity m))
    updates m.

(** The number of calls of [findArbitrageOpportunities] for a chain among
    the effects. *)
Definition detectorRuns (chainId : ChainId)
    (effects : list PriceMonitor.Effect) : nat :=
  length (List.filter
            (fun e => match e with
                      | PriceMonitor.DetectorRun c => c =? chainId
                      | PriceMonitor.Callback _ => false
                      end)
            effects).

(** [checkArbitrage] gets to the detector when the chain has one and has
    an entry in [CHAIN_CONFIGS]. *)
Definition runsDetector (CHAIN_CONFIGS : ChainId -> option ChainConfig.t)
    (m : PriceMonitor.t) (chainId : ChainId) : bool :=
  match PriceMonitor.detectors m !! chainId, CHAIN_CONFIGS chainId with
  | Some _, Some _ => true
  | _, _ => false
  end.

(** The monitors that the methods of the class can produce from the
    constructor: [reserves] is private and is written by [updateReserves]
    only. The chain ids are not negative. *)
Inductive monitored : PriceMonitor.t -> Prop :=
| monitored_new (CHAIN_CONFIGS : ChainId -> option ChainConfig.t)
                (enabledChains : list ChainId) :
    monitored (PriceMonitor.new CHAIN_CONFIGS enabledChains)
| monitored_onOpportunity (m : PriceMonitor.t) :
    monitored m -> monitored (PriceMonitor.onOpportunity m)
| monitored_updateReserves (math : Js.MathImpl) (now : Z) (chainId : ChainId)
    (sub : PoolSubscription.t) (reserve0 reserve1 : Z) (m : PriceMonitor.t) :
    0 <= chainId ->
    monitored m ->
    monitored (snd (PriceMonitor.updateReserves math now chainId sub
                      reserve0 reserve1 m)).

(** The monitors that the bot of [index.ts] can hold: [main] constructs
    the monitor for the enabled chains and registers its handler; from then
    on pool discovery changes [subscriptions], and [updateReserves] and
    [updateV3Pool] change [reserves] and add edges to the detectors.
    Nothing else writes to the fields of the class. *)
Inductive monitoredFor (CHAIN_CONFIGS : ChainId -> option ChainConfig.t)
    (enabledChains : list ChainId) : PriceMonitor.t -> Prop :=
| monitoredFor_new :
    monitoredFor CHAIN_CONFIGS enabledChains
      (PriceMonitor.new CHAIN_CONFIGS enabledChains)
| monitoredFor_onOpportunity (m : PriceMonitor.t) :
    monitoredFor CHAIN_CONFIGS enabledChains m ->
    monitoredFor CHAIN_CONFIGS enabledChains (PriceMonitor.onOpportunity m)
| monitoredFor_subscriptions
    (subscriptions : gmap Z (list PoolSubscription.t)) (m : PriceMonitor.t) :
    monitoredFor CHAIN_CONFIGS enabledChains m ->
    monitoredFor CHAIN_CONFIGS enabledChains
      (PriceMonitor.mk subscriptions (PriceMonitor.reserves m)
                       (PriceMonitor.detectors m) (PriceMonitor.hasCallback m))
| monitoredFor_updateReserves (math : Js.MathImpl) (now : Z) (chainId : ChainId)
    (sub : PoolSubscription.t) (reserve0 reserve1 : Z) (m : PriceMonitor.t) :
    monitoredFor CHAIN_CONFIGS enabledChains m ->
    monitoredFor CHAIN_CONFIGS enabledChains
      (snd (PriceMonitor.updateReserves math now chainId sub
              reserve0 reserve1 m))
| monitoredFor_updateV3Pool (math : Js.MathImpl) (now : Z) (chainId : ChainId)
    (sub : PoolSubscription.t) (sqrtPriceX96 liquidity : Z)
    (m : PriceMonitor.t) :
    monitoredFor CHAIN_CONFIGS enabledChains m ->
    monitoredFor CHAIN_CONFIGS enabledChains
      (snd (PriceMonitor.updateV3Pool math now chainId sub
              sqrtPriceX96 liquidity m)).

(** Every detector is registered under its own chain, an enabled chain
    that has an entry in [CHAIN_CONFIGS]. *)
Definition ownChains (CHAIN_CONFIGS : ChainId -> option ChainConfig.t)
    (enabledChains : list ChainId) (ds : gmap Z ArbitrageDetector.t) : Prop :=
  forall c d,
    ds !! c = Some d ->
    ArbitrageDetector.chainId d = c /\ c ∈ enabledChains /\
    is_Some (CHAIN_CONFIGS c).

(** A computation of the executor that signs and submits nothing: it
    leaves the log of sent transactions as it is, whatever its outcome. *)
Definition quiet {Net A : Type}
    (m : Js.M (TradeExecutor.World (Net := Net)) A) : Prop :=
  forall w r w', m w = (r, w') -> TradeExecutor.sent w' = TradeExecutor.sent w.

(** The cycles that [findArbitrageOpportunities] hands to
    [buildOpportunity]: a cycle of the bounded-depth enumeration, or a
    non-empty result of [extractCycle] whose first edge leaves the source,
    for a predecessor map of edges of the graph that point back. *)
Definition candidate (g : Graph.t) (source : Address) (cycle : list Edge.t)
  : Prop :=
  In cycle (ArbitrageDetector.findDirectCycles g source 3) \/
  exists start p first rest,
    pointsBack p /\
    Spec.predecessorsInGraph g p /\
    ArbitrageDetector.extractCycle start p = cycle /\
    cycle = first :: rest /\
    Edge.from first = source.

End Shape.

(** ** A reference runtime

    The theorems below hold for every [Js.MathImpl]. The worked examples run
    the code, and need one: a natural logarithm by argument reduction and the
    series of [atanh], and powers with an integer exponent by repeated
    multiplication (the only exponents [calculateConfidence] uses). *)
Module Reference.

Definition ln2 : float := 0.6931471805599453%float.

Definition odd_terms : list float :=
  [21; 19; 17; 15; 13; 11; 9; 7; 5; 3; 1]%float.

Definition log (x : float) : float :=
  if is_nan x then nan
  else if PrimFloat.ltb x 0 then nan
  else if PrimFloat.eqb x 0 then neg_infinity
  else if PrimFloat.eqb x infinity then infinity
  else
    let '(m, e) := Z.frexp x in
    let '(m, e) :=
      if PrimFloat.ltb m 0.7071067811865476%float
      then ((m * 2)%float, e - 1) else (m, e) in
    let z := ((m - 1) / (m + 1))%float in
    let z2 := (z * z)%float in
    let s := fold_left (fun s k => (1 / k + z2 * s)%float) odd_terms
                       (1 / 23)%float in
    (Js.Number e * ln2 + 2 * z * s)%float.

(** The integer a float stands for, when it stands for one. *)
Definition integer_of (y : float) : option Z :=
  match Prim2SF y with
  | S754_zero _ => Some 0
  | S754_finite s m e =>
      let v := if 0 <=? e then Some (Zpos m * 2 ^ e)
               else if (Zpos m) mod (2 ^ (- e)) =? 0
                    then Some (Zpos m / 2 ^ (- e)) else None in
      option_map (fun z => if s then - z else z) v
  | _ => None
  end.

Fixpoint power (x : float) (n : nat) : float :=
  match n with
  | O => 1%float
  | S n' => (x * power x n')%float
  end.

Definition pow (x y : float) : float :=
  match integer_of y with
  | Some n =>
      if 0 <=? n then power x (Z.to_nat n)
      else (1 / power x (Z.to_nat (- n)))%float
  | None => nan
  end.

Definition math : Js.MathImpl := Js.mkMath log pow.

(** A runtime whose clock starts at [start] and advances by one millisecond
    at every reading. *)
Definition runtime (start : Z) : Js.Runtime :=
  Js.mkRuntime (fun i => Z.of_nat i + start) 0 (fun _ => "k3x9q1"%string) 0.

End Reference.

(** ** Worked scenarios on mainnet addresses *)
Module Scenario.

Definition WETH : Address := "0xC02aaA39b223FE8D0A0e5C4F27eAD9083C756Cc2"%string.
Definition USDC : Address := "0xA0b86991c6218b36c1d19D4a2e9Eb0cE3606eB48"%string.
Definition DAI : Address := "0x6B175474E89094C44Da98b954EedeAC495271d0F"%string.

Definition UNISWAP_ROUTER : Address :=
  "0x7a250d5630B4cF539739dF2C5dAcb4c659F2488D"%string.
Definition SUSHISWAP_ROUTER : Address :=
  "0xd9e1cE17f2641f24aE83637ab66a2cca9C378B9F"%string.

(** The USDC/WETH pairs of Uniswap V2 and of Sushiswap, and the DAI/USDC
    and DAI/WETH pairs of Uniswap V2; [token0] is the lower address. *)
Definition uniUsdcWeth : PoolSubscription.t :=
  PoolSubscription.mk "0xB4e16d0168e52d35CaCD2c6185b44281Ec28C9Dc"
    "uniswap-v2" UniswapV2 UNISWAP_ROUTER USDC WETH 30.
Definition sushiUsdcWeth : PoolSubscription.t :=
  PoolSubscription.mk "0x397FF1542f962076d0BFE58eA045FfA2d347ACa0"
    "sushiswap" UniswapV2 SUSHISWAP_ROUTER USDC WETH 30.
Definition uniDaiUsdc : PoolSubscription.t :=
  PoolSubscription.mk "0xAE461cA67B15dc8dc81CE7615e0320dA1A9aB8D5"
    "uniswap-v2" UniswapV2 UNISWAP_ROUTER DAI USDC 30.
Definition uniDaiWeth : PoolSubscription.t :=
  PoolSubscription.mk "0xA478c2975Ab1Ea89e8196811F51A7B7Ade33eB11"
    "uniswap-v2" UniswapV2 UNISWAP_ROUTER DAI WETH 30.

(** A monitor for mainnet, with a registered callback and no pool yet. *)
Definition monitor0 : PriceMonitor.t :=
  PriceMonitor.mk ∅ []
    {[ 1 := ArbitrageDetector.new 1 ArbitrageDetector.default_minProfitBps ]}
    true.

(** The monitor after the initial reserves of a list of pools. *)
Definition withReserves (pools : list (PoolSubscription.t * Z * Z))
    (m : PriceMonitor.t) : PriceMonitor.t :=
  fold_left
    (fun m '(sub, reserve0, reserve1) =>
       snd (PriceMonitor.updateReserves Reference.math 1700000000000 1 sub
              reserve0 reserve1 m))
    pools m.

Definition detectorOf (m : PriceMonitor.t) : ArbitrageDetector.t :=
  match PriceMonitor.detectors m !! 1 with
  | Some d => d
  | None => ArbitrageDetector.new 1 ArbitrageDetector.default_minProfitBps
  end.

Definition ether : Z := 10 ^ 18.

(** Three pools that close a triangle WETH, USDC, DAI. *)
Definition triangle : PriceMonitor.t :=
  withReserves [(uniUsdcWeth, 1000000 * ether, 1000000 * ether);
                (uniDaiUsdc, 1000000 * ether, 1009500 * ether);
                (uniDaiWeth, 1000000 * ether, 1000000 * ether)] monitor0.

(** The same three pools on the monitor that [main] constructs when only
    mainnet is enabled, once its handler is registered. *)
Definition mainnetTriangle : PriceMonitor.t :=
  withReserves [(uniUsdcWeth, 1000000 * ether, 1000000 * ether);
                (uniDaiUsdc, 1000000 * ether, 1009500 * ether);
                (uniDaiWeth, 1000000 * ether, 1000000 * ether)]
    (PriceMonitor.onOpportunity (PriceMonitor.new Chains.CHAIN_CONFIGS [1])).

(** Two pools on the same pair. *)
Definition twoPools : PriceMonitor.t :=
  withReserves [(uniUsdcWeth, 3000000 * ether, 1000 * ether);
                (sushiUsdcWeth, 3030000 * ether, 1000 * ether)] monitor0.

(** The configuration [loadConfig] builds when only [PRIVATE_KEY],
    [ENABLED_CHAINS=1] and [DRY_RUN] are set. *)
Definition config (dryRun : bool) : BotConfig.t :=
  BotConfig.mk 10%float 100 50 true dryRun 1 1000 [1]
    "0x0123456789abcdef0123456789abcdef0123456789abcdef0123456789abcdef"
    false.

Definition ACCOUNT : Address :=
  "0x14791697260E4c9A71f18484C9f997B308e59325"%string.

Definition executor (dryRun : bool) : TradeExecutor.t :=
  TradeExecutor.new Chains.CHAIN_CONFIGS (config dryRun) ACCOUNT.

(** An opportunity on [chain] along the triangle WETH, DAI, USDC, for one
    WETH in and a profit of a tenth of a WETH. *)
Definition opportunityOn (chain : ChainId) : ArbitrageOpportunity.t :=
  ArbitrageOpportunity.mk "1-1700000000000-k3x9q1" chain
    [SwapStep.mk UNISWAP_ROUTER WETH DAI ether (3000 * ether)
       (PoolSubscription.pool uniDaiWeth) UniswapV2 DataEmpty;
     SwapStep.mk UNISWAP_ROUTER DAI USDC (3000 * ether) (3300 * ether)
       (PoolSubscription.pool uniDaiUsdc) UniswapV2 DataEmpty;
     SwapStep.mk UNISWAP_ROUTER USDC WETH (3300 * ether) (11 * 10 ^ 17)
       (PoolSubscription.pool uniUsdcWeth) UniswapV2 DataEmpty]
    WETH ether (11 * 10 ^ 17) (10 ^ 17) 0%float 390000 0%float 0%float
    0.5%float 1700000000000 1700000002000.

Definition opportunity : ArbitrageOpportunity.t := opportunityOn 1.

(** A node for the worked examples: the state of the network is the
    account's nonce, which a submitted transaction increments. *)
Definition localNode : Viem.t Z :=
  Viem.mk Z
    (fun _ => Js.Ok "0x5a9b15e4"%string)
    (fun _ _ _ _ => Js.ret tt)
    (fun _ _ _ _ => Js.ret 300000)
    (fun _ => Js.ret (20 * 10 ^ 9))
    (fun _ _ nonce => (Js.Ok nonce, nonce))
    (fun _ => Js.ret 19000000)
    (fun _ _ nonce =>
       (Js.Ok "0x9d2f6c1be0a4437795cf1a1c0a3ab2a4c1d5e6f708192a3b4c5d6e7f8091a2b3"%string,
        nonce + 1))
    (fun _ _ => Js.ret (Receipt.mk true 250000 19000001)).

(** The executor's world before a trade: nonce 7, nothing sent. *)
Definition world0 : TradeExecutor.World (Net := Z) :=
  TradeExecutor.mkWorld 7 (Reference.runtime 1700000000000) [].

(** The bot of [index.ts] right after start-up. *)
Definition bot0 : Bot.t :=
  Bot.mk (BotState.mk true false [1] 0 0 0 0 None 1699999990000) [] []
         false Bot.NotRunning.

(** The opportunity as a later detector run reports it again: the same
    path and amounts under a new [id], [after] milliseconds later. *)
Definition reportedAgain (id : string) (after : Z) : ArbitrageOpportunity.t :=
  ArbitrageOpportunity.mk id 1 (ArbitrageOpportunity.path opportunity)
    WETH ether (11 * 10 ^ 17) (10 ^ 17) 0%float 390000 0%float 0%float
    0.5%float (1700000000000 + after) (1700000002000 + after).

Definition secondReport : ArbitrageOpportunity.t :=
  reportedAgain "1-1700000000250-p07xwz" 250.
Definition thirdReport : ArbitrageOpportunity.t :=
  reportedAgain "1-1700000000500-m4c81d" 500.

(** Three detector runs in a row report the opportunity. *)
Definition threeReports : Js.M Js.Runtime Bot.t :=
  do* b1 := Bot.onOpportunity (config true) [opportunity] bot0 in
  do* b2 := Bot.onOpportunity (config true) [secondReport] b1 in
  Bot.onOpportunity (config true) [thirdReport] b2.

(** The contract as the test suite deploys it (a loss of at most a tenth of
    an ether per transaction, one ether per day), and with a per-transaction
    limit of one ether. *)
Definition OWNER : Address := "0x7c8999dC9a822c1f0Df42023113EDB4FDd543266"%string.
Definition BENEFICIARY : Address :=
  "0x1aD91ee08f21bE3dE0BA2ba6918E714dA6B45836"%string.
Definition DEPLOYED_AT : Z := 1700000000.

Definition constructed : FlashloanArbitrage.State :=
  FlashloanArbitrage.constructor OWNER BENEFICIARY (ether / 10) ether
                                 DEPLOYED_AT.

Definition constructedLoose : FlashloanArbitrage.State :=
  FlashloanArbitrage.constructor OWNER BENEFICIARY ether ether DEPLOYED_AT.

(** The owner approves the Uniswap V2 router. *)
Definition approveRouter : FlashloanArbitrage.Tx :=
  FlashloanArbitrage.mkTx OWNER (DEPLOYED_AT + 30)
    (FlashloanArbitrage.SetRouterApproval UNISWAP_ROUTER true).

Definition deployed : FlashloanArbitrage.State :=
  FlashloanArbitrage.apply approveRouter constructed.

Definition deployedLoose : FlashloanArbitrage.State :=
  FlashloanArbitrage.apply approveRouter constructedLoose.

(** A flashloan of one WETH, swapped to USDC and back on Uniswap V2, with
    no required profit; [losing held loss] runs it while the contract holds
    [held] of the token, and the swaps return [loss] less than they
    took. *)
Definition flashParams : ArbitrageParams.t :=
  ArbitrageParams.mk WETH ether
    [SwapParam.mk UNISWAP_ROUTER WETH USDC ether DataEmpty UniswapV2;
     SwapParam.mk UNISWAP_ROUTER USDC WETH (2900 * 10 ^ 6) DataEmpty UniswapV2]
    0.

Definition losing (held loss : Z) (blockTimestamp : Z) : FlashloanArbitrage.Tx :=
  FlashloanArbitrage.mkTx ACCOUNT blockTimestamp
    (FlashloanArbitrage.ExecuteArbitrage flashParams 0
       (FlashloanArbitrage.mkObserved (ether + held) (fun _ => true)
          (ether + held - loss) true)).

Definition lowerLimit : FlashloanArbitrage.Tx :=
  FlashloanArbitrage.mkTx OWNER (DEPLOYED_AT + 120)
    (FlashloanArbitrage.SetCircuitBreaker (ether / 10) (ether / 20)).

(** The monitor's world before any event, and two [Sync] logs of the
    Uniswap USDC/WETH pair in one block: the log at index 5 and the log at
    index 4, which precedes it on chain. *)
Definition monitorWorld : PriceMonitor.World :=
  PriceMonitor.mkWorld monitor0 (Reference.runtime 1700000000000) [].

Definition syncHigh : SyncLog.t :=
  SyncLog.mk 19000000 5 (Some (3000000 * ether)) (Some (1000 * ether)).

Definition syncLow : SyncLog.t :=
  SyncLog.mk 19000000 4 (Some (2900000 * ether)) (Some (1010 * ether)).

Definition UNI : Address := PoolSubscription.pool uniUsdcWeth.
Definition SUSHI : Address := PoolSubscription.pool sushiUsdcWeth.

(** The cycle of length 2 through the two pools: WETH to USDC on Uniswap,
    USDC back to WETH on Sushiswap. *)
Definition twoHopRoute : list (Address * Address * Address) :=
  [(WETH, USDC, UNI); (USDC, WETH, SUSHI)].

(** A node on which every simulation of the contract reverts, and a node
    that reports a gas price of 500 gwei. *)
Definition revertingNode : Viem.t Z :=
  Viem.mk Z
    (Viem.encodeFunctionData localNode)
    (fun _ _ _ _ => Js.throw "execution reverted: InsufficientProfit")
    (Viem.estimateGas localNode)
    (Viem.getGasPrice localNode)
    (Viem.getTransactionCount localNode)
    (Viem.getBlockNumber localNode)
    (Viem.sendTransaction localNode)
    (Viem.waitForTransactionReceipt localNode).

Definition expensiveNode : Viem.t Z :=
  Viem.mk Z
    (Viem.encodeFunctionData localNode)
    (Viem.simulateContract localNode)
    (Viem.estimateGas localNode)
    (fun _ => Js.ret (500 * 10 ^ 9))
    (Viem.getTransactionCount localNode)
    (Viem.getBlockNumber localNode)
    (Viem.sendTransaction localNode)
    (Viem.waitForTransactionReceipt localNode).

(** A predecessor map in which USDC was reached from WETH through the
    Uniswap pair, and WETH, the source, has no predecessor. *)
Definition wethToUsdc : Edge.t :=
  Edge.mk WETH USDC UNI "uniswap-v2" UniswapV2 UNISWAP_ROUTER 0%float
          (1000 * ether) (3000000 * ether) 30.

Definition predecessors : gmap string (option Edge.t) :=
  <[USDC := Some wethToUsdc]> (<[WETH := None]> ∅).

(** The WETH/USDT pool of Uniswap V3 with the fee tier 500, as
    [discoverV3Pools] subscribes to it, and a [Swap] log of it at a price of
    about 3000 USDT for one WETH: 3 * 10^-9 units of [token1] for one unit
    of [token0]. *)
Definition USDT : Address := "0xdAC17F958D2ee523a2206206994597C13D831ec7"%string.

Definition uniV3WethUsdt : PoolSubscription.t :=
  PoolSubscription.mk "0x11b815efB8f581194ae79006d24E0d814B7697F6"
    "Uniswap V3" UniswapV3 "0xE592427A0AEce92De3Edee1F18E0157C05861564"
    WETH USDT 5.

Definition swapLog : SwapLog.t :=
  SwapLog.mk 19000000 7 (Some 4339505179874779672736325) (Some (5 * ether)).

(** The edge that an update of the Uniswap USDC/WETH pair adds for the
    direction USDC to WETH, and the one of a pool the graph has not seen. *)
Definition usdcToWeth : Edge.t :=
  Edge.mk USDC WETH (PoolSubscription.pool uniUsdcWeth) "uniswap-v2" UniswapV2
          UNISWAP_ROUTER 0%float (3000000 * ether) (1000 * ether) 30.

Definition usdcToWethSushi : Edge.t :=
  Edge.mk USDC WETH (PoolSubscription.pool sushiUsdcWeth) "sushiswap" UniswapV2
          SUSHISWAP_ROUTER 0%float (3030000 * ether) (1000 * ether) 30.

(** One run of the queue: an opportunity is reported, its execution
    succeeds, the API pauses the bot, the cooldown ends. *)
Definition oneTrade : list Bot.Event :=
  [Bot.Reported [opportunity];
   Bot.Settled (ExecutionResult.mk true (Some TradeExecutor.zeroHash)
                  (Some (10 ^ 17)) (Some 390000) None None 1700000000000);
   Bot.PauseSet true;
   Bot.CooledDown].

(** What an account other than the owner may try on the contract. *)
Definition strangerCalls : list FlashloanArbitrage.Tx :=
  [FlashloanArbitrage.mkTx ACCOUNT (DEPLOYED_AT + 60)
     (FlashloanArbitrage.SetRouterApproval SUSHISWAP_ROUTER true);
   FlashloanArbitrage.mkTx ACCOUNT (DEPLOYED_AT + 61)
     (FlashloanArbitrage.SetBeneficiary ACCOUNT);
   losing ether (ether / 20) (DEPLOYED_AT + 62);
   FlashloanArbitrage.mkTx ACCOUNT (DEPLOYED_AT + 63)
     (FlashloanArbitrage.SetPaused false)].

(** The callback of a flashloan of one WETH that loses a twentieth of a
    WETH. *)
Definition losingCallback : FlashloanArbitrage.Observed :=
  FlashloanArbitrage.mkObserved (ether + ether) (fun _ => true)
    (ether + ether - ether / 20) true.

End Scenario.

(* ===================================================================== *)
(** * Part II: theorems                                                    *)
(* ===================================================================== *)

(** ** The constant-product quote *)
Section CalculateRate.
Import ArbitrageDetector.

Lemma bigint_div_nonzero (a b : Z) :
  b <> 0 -> Js.bigint_div a b = Js.Ok (Z.quot a b).
Proof.
  intros Hb. unfold Js.bigint_div.
  destruct (Z.eqb_spec b 0) as [E | _]; [contradiction | reflexivity].
Qed.

Lemma calculateRate_amountOut (reserveIn reserveOut amountIn feeBps : Z) :
  reserveIn * 10000 + amountIn * (10000 - feeBps) <> 0 ->
  exists q,
    calculateRate reserveIn reserveOut amountIn feeBps = Js.Ok q /\
    amountOut q =
      Z.quot (amountIn * (10000 - feeBps) * reserveOut)
             (reserveIn * 10000 + amountIn * (10000 - feeBps)).
Proof.
  intros Hden. unfold calculateRate.
  rewrite (bigint_div_nonzero _ _ Hden). cbn [Js.bind].
  eexists. split; [reflexivity | reflexivity].
Qed.

(** C4. For a positive reference input, positive reserves and a fee in basis
    points (between 0 and 10000), [calculateRate] returns
    [amountOut = (delta * (10000 - fee) * reserveOut)
                 / (reserveIn * 10000 + delta * (10000 - fee))],
    the division being the integer (floor) division. *)
Theorem calculateRate_constant_product (reserveIn reserveOut delta feeBps : Z) :
  0 < delta -> 0 < reserveIn -> 0 < reserveOut -> 0 <= feeBps <= 10000 ->
  exists q,
    calculateRate reserveIn reserveOut delta feeBps = Js.Ok q /\
    amountOut q =
      (delta * (10000 - feeBps) * reserveOut)
      / (reserveIn * 10000 + delta * (10000 - feeBps)).
Proof.
  intros Hd Hin Hout Hfee.
  assert (Hden : 0 < reserveIn * 10000 + delta * (10000 - feeBps)) by nia.
  destruct (calculateRate_amountOut reserveIn reserveOut delta feeBps)
    as [q [Hq Hout']]; [lia |].
  exists q. split; [exact Hq |].
  rewrite Hout'. apply Z.quot_div_nonneg; [nia | exact Hden].
Qed.

Lemma calculateRate_constant_product_witness :
  exists q,
    calculateRate 1000 2000 100 30 = Js.Ok q /\ amountOut q = 181.
Proof.
  destruct (calculateRate_constant_product 1000 2000 100 30)
    as [q [Hq Hout]]; try lia.
  exists q. split; [exact Hq | rewrite Hout; reflexivity].
Defined.

(** C10. With [amountIn > 0] and [feeBps < 10000] (reserves being unsigned
    quantities), the divisor of [calculateRate] is not zero, also for
    [reserveIn = 0], so the call returns, and the returned [amountOut] is
    at most [reserveOut]. *)
Theorem calculateRate_divisor_nonzero_output_bounded
    (reserveIn reserveOut amountIn feeBps : Z) :
  0 < amountIn -> feeBps < 10000 -> 0 <= reserveIn -> 0 <= reserveOut ->
  reserveIn * 10000 + amountIn * (10000 - feeBps) <> 0 /\
  exists q,
    calculateRate reserveIn reserveOut amountIn feeBps = Js.Ok q /\
    0 <= amountOut q <= reserveOut.
Proof.
  intros Ha Hfee Hin Hout.
  assert (Hfa : 0 < amountIn * (10000 - feeBps)) by nia.
  assert (Hden : 0 < reserveIn * 10000 + amountIn * (10000 - feeBps)) by nia.
  split; [lia |].
  destruct (calculateRate_amountOut reserveIn reserveOut amountIn feeBps)
    as [q [Hq Hq']]; [lia |].
  exists q. split; [exact Hq |].
  rewrite Hq'. rewrite Z.quot_div_nonneg by nia.
  split.
  - apply Z.div_pos; nia.
  - apply Z.div_le_upper_bound; [exact Hden | nia].
Qed.

Lemma calculateRate_divisor_nonzero_output_bounded_witness :
  0 * 10000 + 5 * (10000 - 30) <> 0 /\
  exists q, calculateRate 0 700 5 30 = Js.Ok q /\ 0 <= amountOut q <= 700.
Proof.
  apply (calculateRate_divisor_nonzero_output_bounded 0 700 5 30); lia.
Defined.

End CalculateRate.
(** ** Stateful computations *)
Section Monad.

Lemma mbind_Ok {S A B : Type} (m : Js.M S A) (k : A -> Js.M S B) s r s' :
  Js.mbind m k s = (Js.Ok r, s') ->
  exists a s1, m s = (Js.Ok a, s1) /\ k a s1 = (Js.Ok r, s').
Proof.
  unfold Js.mbind. destruct (m s) as [[a | e] s1]; intros H.
  - exists a, s1. split; [reflexivity | exact H].
  - discriminate H.
Qed.

Lemma lift_Ok {S A : Type} (o : Js.outcome A) (s : S) r s' :
  Js.lift o s = (Js.Ok r, s') -> o = Js.Ok r /\ s' = s.
Proof. unfold Js.lift. intros H. inversion H. split; reflexivity. Qed.

Lemma ret_Ok {S A : Type} (a : A) (s : S) r s' :
  Js.ret a s = (Js.Ok r, s') -> r = a /\ s' = s.
Proof. unfold Js.ret. intros H. inversion H. split; reflexivity. Qed.

(** An invariant of the accumulator of a loop holds when the loop ends. *)
Lemma forEach_invariant {S A B : Type} (I : B -> Prop)
    (f : B -> A -> Js.M S B) (l : list A) :
  (forall acc x s acc' s',
      In x l -> I acc -> f acc x s = (Js.Ok acc', s') -> I acc') ->
  forall acc s r s',
    I acc -> Js.forEach f l acc s = (Js.Ok r, s') -> I r.
Proof.
  induction l as [| x l IH]; intros Hstep acc s r s' Hacc Hrun.
  - apply ret_Ok in Hrun. destruct Hrun as [-> _]. exact Hacc.
  - cbn [Js.forEach] in Hrun. apply mbind_Ok in Hrun.
    destruct Hrun as [acc1 [s1 [Hx Hrest]]].
    apply (IH (fun acc x s acc' s' Hin => Hstep acc x s acc' s' (or_intror Hin))
              acc1 s1 r s'); [| exact Hrest].
    apply (Hstep acc x s acc1 s1); [left; reflexivity | exact Hacc | exact Hx].
Qed.

End Monad.

(** ** Opportunities are quoted from cycles of the graph *)
Section Quotes.
Import ArbitrageDetector.

Lemma bind_Ok {A B : Type} (m : Js.outcome A) (k : A -> Js.outcome B) r :
  Js.bind m k = Js.Ok r -> exists a, m = Js.Ok a /\ k a = Js.Ok r.
Proof.
  destruct m as [a | e]; cbn; intros H; [| discriminate H].
  exists a. split; [reflexivity | exact H].
Qed.

End Quotes.

(** ** Every candidate cycle is made of edges of the graph *)
Section CyclesInGraph.
Import ArbitrageDetector.

Lemma fold_left_invariant {A B : Type} (I : B -> Prop) (f : B -> A -> B)
    (l : list A) :
  (forall acc x, In x l -> I acc -> I (f acc x)) ->
  forall acc, I acc -> I (fold_left f l acc).
Proof.
  induction l as [| x l IH]; intros Hstep acc Hacc; [exact Hacc |].
  cbn [fold_left]. apply IH.
  - intros acc' y Hy. apply Hstep. right. exact Hy.
  - apply Hstep; [left; reflexivity | exact Hacc].
Qed.

Lemma map_get_In {V : Type} (k : string) (m : list (string * V)) (v : V) :
  Js.map_get k m = Some v -> exists k', In (k', v) m.
Proof.
  induction m as [| [k' v'] m IH]; cbn; intros H; [discriminate H |].
  destruct (String.eqb k' k).
  - inversion H; subst. exists k'. left. reflexivity.
  - destruct (IH H) as [k'' Hin]. exists k''. right. exact Hin.
Qed.

Lemma edges_get_inGraph (g : Graph.t) (a : Address) (e : Edge.t) :
  In e (edges_get g a) -> Spec.inGraph g e.
Proof.
  unfold edges_get. destruct (Js.map_get a (Graph.edges g)) as [l |] eqn:Hget.
  - intros He. destruct (map_get_In _ _ _ Hget) as [a' Hin].
    exists a', l. split; assumption.
  - intros [].
Qed.

Lemma dfs_inGraph (g : Graph.t) (source : Address) (maxHops : nat) (fuel : nat) :
  forall current path st,
    Forall (Spec.inGraph g) path ->
    Forall (Forall (Spec.inGraph g)) (fst st) ->
    Forall (Forall (Spec.inGraph g))
           (fst (dfs fuel g source maxHops current path st)).
Proof.
  induction fuel as [| fuel IH]; intros current path st Hpath Hst;
    [exact Hst |].
  cbn [dfs]. destruct (maxHops <? length path)%nat; [exact Hst |].
  apply (fold_left_invariant
           (fun st => Forall (Forall (Spec.inGraph g)) (fst st)));
    [| exact Hst].
  intros [cycles visited] edge Hedge Hacc. cbn [fst] in Hacc.
  assert (Hext : Forall (Spec.inGraph g) (path ++ [edge])).
  { apply Forall_app. split; [exact Hpath |].
    constructor; [| constructor]. apply (edges_get_inGraph g current).
    exact Hedge. }
  destruct (String.eqb (Edge.to edge) source && (2 <=? length path)%nat).
  - cbn [fst]. apply Forall_app. split; [exact Hacc |].
    constructor; [exact Hext | constructor].
  - destruct (negb (bool_decide (edgeKey edge ∈ visited))
              && (length path <? maxHops)%nat); [| exact Hacc].
    specialize (IH (Edge.to edge) (path ++ [edge])
                   (cycles, {[edgeKey edge]} ∪ visited) Hext Hacc).
    destruct (dfs fuel g source maxHops (Edge.to edge) (path ++ [edge])
                  (cycles, {[edgeKey edge]} ∪ visited)) as [cycles' visited'].
    exact IH.
Qed.

Lemma findDirectCycles_inGraph (g : Graph.t) (source : Address) (maxHops : nat) :
  Forall (Forall (Spec.inGraph g)) (findDirectCycles g source maxHops).
Proof.
  unfold findDirectCycles. apply dfs_inGraph; constructor.
Qed.

Lemma relaxEdge_predecessors (g : Graph.t) (distFrom : float) (st : BF)
    (edge : Edge.t) :
  Spec.inGraph g edge ->
  Spec.predecessorsInGraph g (predecessor st) ->
  Spec.predecessorsInGraph g (predecessor (relaxEdge distFrom st edge)).
Proof.
  intros Hedge Hst. unfold relaxEdge.
  destruct (distance st !! Edge.to edge) as [distTo |]; [| exact Hst].
  destruct (PrimFloat.ltb _ distTo); [| exact Hst].
  cbn [predecessor]. intros v e Hv.
  destruct (decide ((Edge.to edge : string) = v)) as [Heq | Hne].
  - rewrite <- Heq in Hv. rewrite lookup_insert_eq in Hv.
    inversion Hv; subst. exact Hedge.
  - rewrite lookup_insert_ne in Hv by exact Hne. exact (Hst v e Hv).
Qed.

Lemma relaxFrom_predecessors (g : Graph.t) (st : BF)
    (entry : Address * list Edge.t) :
  In entry (Graph.edges g) ->
  Spec.predecessorsInGraph g (predecessor st) ->
  Spec.predecessorsInGraph g (predecessor (relaxFrom st entry)).
Proof.
  destruct entry as [from edges]. intros Hentry Hst. unfold relaxFrom.
  destruct (distance st !! from) as [distFrom |]; [| exact Hst].
  destruct (PrimFloat.eqb distFrom infinity); [exact Hst |].
  apply (fold_left_invariant
           (fun st => Spec.predecessorsInGraph g (predecessor st))); [| exact Hst].
  intros acc edge Hedge Hacc. apply relaxEdge_predecessors; [| exact Hacc].
  exists from, edges. split; assumption.
Qed.

Lemma relaxLoop_predecessors (g : Graph.t) (iterations : nat) :
  forall st,
    Spec.predecessorsInGraph g (predecessor st) ->
    Spec.predecessorsInGraph g (predecessor (relaxLoop iterations g st)).
Proof.
  induction iterations as [| i IH]; intros st Hst; [exact Hst |].
  cbn [relaxLoop].
  assert (Hpass :
            Spec.predecessorsInGraph g
              (predecessor
                 (fold_left relaxFrom (Graph.edges g)
                            (mkBF (distance st) (predecessor st) false)))).
  { apply (fold_left_invariant
             (fun st => Spec.predecessorsInGraph g (predecessor st)));
      [| exact Hst].
    intros acc entry Hentry Hacc.
    apply relaxFrom_predecessors; assumption. }
  destruct (updated _); [apply IH |]; exact Hpass.
Qed.

Lemma initial_predecessors (g : Graph.t) (vertices : list Address) :
  Spec.predecessorsInGraph g
    (fold_left (fun p v => <[v := None]> p) vertices
               (∅ : gmap string (option Edge.t))).
Proof.
  apply (fold_left_invariant (Spec.predecessorsInGraph g)).
  - intros acc x _ Hacc v e Hv.
    destruct (decide ((x : string) = v)) as [Heq | Hne].
    + rewrite <- Heq in Hv. rewrite lookup_insert_eq in Hv. discriminate Hv.
    + rewrite lookup_insert_ne in Hv by exact Hne. exact (Hacc v e Hv).
  - intros v e Hv. rewrite lookup_empty in Hv. discriminate Hv.
Qed.

Lemma extractLoop_inGraph (g : Graph.t) (p : gmap string (option Edge.t))
    (fuel : nat) :
  Spec.predecessorsInGraph g p ->
  forall visited current cycle,
    Forall (Spec.inGraph g) cycle ->
    Forall (Spec.inGraph g) (fst (extractLoop fuel p visited current cycle)).
Proof.
  intros Hp. induction fuel as [| fuel IH]; intros visited current cycle Hc;
    [exact Hc |].
  cbn [extractLoop]. destruct (bool_decide (current ∈ visited)); [exact Hc |].
  destruct (p !! current) as [[edge |] |] eqn:Hcur; try exact Hc.
  apply IH. constructor; [exact (Hp current edge Hcur) | exact Hc].
Qed.

Lemma extractCycle_inGraph (g : Graph.t) (p : gmap string (option Edge.t))
    (start : Address) :
  Spec.predecessorsInGraph g p -> Forall (Spec.inGraph g) (extractCycle start p).
Proof.
  intros Hp. unfold extractCycle.
  pose proof (extractLoop_inGraph g p (S (size p)) Hp ∅ start []
                                  (List.Forall_nil _)) as H.
  destruct (extractLoop (S (size p)) p ∅ start []) as [cycle cycleStart].
  cbn [fst] in H.
  destruct (Js.findIndex _ cycle) as [i |]; [| exact H].
  apply Forall_drop. exact H.
Qed.

(** Sorting keeps the opportunities. *)
Lemma insertSorted_In (x y : ArbitrageOpportunity.t)
    (l : list ArbitrageOpportunity.t) :
  In y (insertSorted x l) -> y = x \/ In y l.
Proof.
  induction l as [| z l IH]; cbn.
  - intros [H | []]. left. symmetry. exact H.
  - destruct (PrimFloat.ltb 0 (comparator z x)); cbn.
    + intros [H | H]; [left; symmetry; exact H | right; exact H].
    + intros [H | H]; [right; left; exact H |].
      destruct (IH H) as [H' | H']; [left; exact H' | right; right; exact H'].
Qed.

Lemma sortByProfit_In (y : ArbitrageOpportunity.t)
    (l : list ArbitrageOpportunity.t) :
  In y (sortByProfit l) -> In y l.
Proof.
  unfold sortByProfit.
  assert (H : forall acc, In y (fold_left (fun acc x => insertSorted x acc) l acc)
                          -> In y l \/ In y acc).
  { induction l as [| x l IH]; cbn; intros acc Hy; [right; exact Hy |].
    destruct (IH _ Hy) as [H | H]; [left; right; exact H |].
    destruct (insertSorted_In _ _ _ H) as [-> | H'];
      [left; left; reflexivity | right; exact H']. }
  intros Hy. destruct (H [] Hy) as [H' | []]. exact H'.
Qed.

End CyclesInGraph.

(** ** The bounded-depth enumeration *)
Section DirectCycles.
Import ArbitrageDetector.

(** The fuel of [dfs] is never exhausted: any two amounts of fuel above the
    depth still available give the same result. *)
Lemma dfs_fuel (g : Graph.t) (source : Address) (maxHops : nat) :
  forall fuel1 fuel2 current path st,
    (maxHops - length path < fuel1)%nat ->
    (maxHops - length path < fuel2)%nat ->
    dfs fuel1 g source maxHops current path st
    = dfs fuel2 g source maxHops current path st.
Proof.
  induction fuel1 as [| fuel1 IH]; intros [| fuel2] current path st H1 H2;
    try lia.
  cbn [dfs]. destruct (maxHops <? length path)%nat; [reflexivity |].
  revert st. induction (edges_get g current) as [| edge edges IHe];
    intros st; [reflexivity |].
  cbn [fold_left]. rewrite IHe. f_equal.
  destruct st as [cycles visited].
  destruct (String.eqb (Edge.to edge) source && (2 <=? length path)%nat);
    [reflexivity |].
  destruct (Nat.ltb_spec (length path) maxHops) as [Hlt | Hge].
  - rewrite (IH fuel2); [reflexivity | |]; rewrite length_app; cbn; lia.
  - rewrite andb_false_r. reflexivity.
Qed.

Lemma dfs_cycle_lengths (g : Graph.t) (source : Address) (maxHops : nat)
    (fuel : nat) :
  forall current path st,
    Forall (fun c => (3 <= length c <= maxHops + 1)%nat) (fst st) ->
    Forall (fun c => (3 <= length c <= maxHops + 1)%nat)
           (fst (dfs fuel g source maxHops current path st)).
Proof.
  induction fuel as [| fuel IH]; intros current path st Hst; [exact Hst |].
  cbn [dfs].
  destruct (Nat.ltb_spec maxHops (length path)) as [Hgt | Hle]; [exact Hst |].
  apply (fold_left_invariant
           (fun st => Forall (fun c => (3 <= length c <= maxHops + 1)%nat)
                             (fst st))); [| exact Hst].
  intros [cycles visited] edge _ Hacc. cbn [fst] in Hacc.
  destruct (String.eqb (Edge.to edge) source && (2 <=? length path)%nat)
    eqn:Hclose.
  - cbn [fst]. apply Forall_app. split; [exact Hacc |].
    constructor; [| constructor].
    apply andb_true_iff in Hclose. destruct Hclose as [_ Hlen].
    apply Nat.leb_le in Hlen. rewrite length_app. cbn. lia.
  - destruct (negb (bool_decide (edgeKey edge ∈ visited))
              && (length path <? maxHops)%nat); [| exact Hacc].
    specialize (IH (Edge.to edge) (path ++ [edge])
                   (cycles, {[edgeKey edge]} ∪ visited) Hacc).
    destruct (dfs fuel g source maxHops (Edge.to edge) (path ++ [edge])
                  (cycles, {[edgeKey edge]} ∪ visited)) as [cycles' visited'].
    exact IH.
Qed.

(** On every graph, [findDirectCycles] returns only cycles of 3 to
    [maxHops + 1] edges: a cycle of 2 edges is never a candidate. *)
Lemma findDirectCycles_cycle_lengths (g : Graph.t) (source : Address)
    (maxHops : nat) :
  Forall (fun c => (3 <= length c <= maxHops + 1)%nat)
         (findDirectCycles g source maxHops).
Proof.
  unfold findDirectCycles. apply dfs_cycle_lengths. constructor.
Qed.

(** C5 at the failing input: two pools on the pair USDC/WETH and the source
    WETH. The enumeration with [maxHops = 3] returns eight cycles, all of 4
    edges, each passing through the source in the middle; the cycle of 2
    edges through the two pools is not among them, and the first cycle
    takes the edge USDC to WETH of Uniswap twice. *)
Theorem findDirectCycles_two_pools :
  map Spec.cycleRoute
      (findDirectCycles (graph (Scenario.detectorOf Scenario.twoPools))
                        Scenario.WETH 3)
  = (let W := Scenario.WETH in
     let U := Scenario.USDC in
     let A := Scenario.UNI in
     let B := Scenario.SUSHI in
     [ [(W, U, A); (U, W, A); (W, U, B); (U, W, A)];
       [(W, U, A); (U, W, A); (W, U, B); (U, W, B)];
       [(W, U, A); (U, W, B); (W, U, B); (U, W, A)];
       [(W, U, A); (U, W, B); (W, U, B); (U, W, B)];
       [(W, U, B); (U, W, A); (W, U, A); (U, W, A)];
       [(W, U, B); (U, W, A); (W, U, A); (U, W, B)];
       [(W, U, B); (U, W, B); (W, U, A); (U, W, A)];
       [(W, U, B); (U, W, B); (W, U, A); (U, W, B)] ]) /\
  ~ In Scenario.twoHopRoute
       (map Spec.cycleRoute
            (findDirectCycles (graph (Scenario.detectorOf Scenario.twoPools))
                              Scenario.WETH 3)).
Proof.
  assert (Hlen : Forall (fun r : list (Address * Address * Address) =>
                           (3 <= length r)%nat)
                   (map Spec.cycleRoute
                      (findDirectCycles
                         (graph (Scenario.detectorOf Scenario.twoPools))
                         Scenario.WETH 3))).
  { apply List.Forall_map.
    eapply List.Forall_impl;
      [| apply (findDirectCycles_cycle_lengths
                  (graph (Scenario.detectorOf Scenario.twoPools))
                  Scenario.WETH 3)].
    intros c Hc. cbn beta in Hc. unfold Spec.cycleRoute.
    rewrite length_map. lia. }
  split; [vm_compute; reflexivity |].
  intros Hin. rewrite List.Forall_forall in Hlen.
  apply Hlen in Hin. cbn in Hin. lia.
Qed.

End DirectCycles.

(** ** The slippage bound of the executor *)
Section Slippage.
Import TradeExecutor.

(** [buildArbitrageParams] always returns, and its [minProfit] is the
    expected profit times [100 - maxSlippageBps], divided by 100. *)
Lemma buildArbitrageParams_minProfit (this : t)
    (opportunity : ArbitrageOpportunity.t) :
  exists params,
    buildArbitrageParams this opportunity = Js.Ok params /\
    ArbitrageParams.minProfit params
    = Z.quot (ArbitrageOpportunity.expectedProfit opportunity
              * (100 - BotConfig.maxSlippageBps (config this)))
             100.
Proof.
  unfold buildArbitrageParams.
  rewrite bigint_div_nonzero by discriminate. cbn [Js.bind].
  eexists. split; reflexivity.
Qed.

(** C3 at the failing input: with the default [maxSlippageBps = 50] and an
    expected profit of [10^17], the [minProfit] handed to [executeArbitrage]
    is [5 * 10^16] (half of the profit), where a slippage of 50 basis
    points gives [10^17 * (10000 - 50) / 10000 = 995 * 10^14]. *)
Theorem buildArbitrageParams_slippage_as_percent :
  exists params,
    buildArbitrageParams (Scenario.executor false) Scenario.opportunity
    = Js.Ok params /\
    BotConfig.maxSlippageBps (config (Scenario.executor false)) = 50 /\
    ArbitrageOpportunity.expectedProfit Scenario.opportunity = 10 ^ 17 /\
    ArbitrageParams.minProfit params = 5 * 10 ^ 16 /\
    10 ^ 17 * (10000 - 50) / 10000 = 995 * 10 ^ 14.
Proof.
  destruct (buildArbitrageParams_minProfit (Scenario.executor false)
              Scenario.opportunity) as [params [Hbuild Hmin]].
  exists params. split; [exact Hbuild |].
  split; [reflexivity |]. split; [reflexivity |].
  split; [rewrite Hmin; reflexivity | reflexivity].
Qed.

End Slippage.

(** ** Dry-run mode *)
Section DryRun.
Import TradeExecutor.
Context {Net : Type}.
Variable viem : Viem.t Net.
Variable CHAIN_CONFIGS : ChainId -> option ChainConfig.t.

(** When [dryRun] is enabled, [execute] returns without signing or
    submitting anything, whatever the opportunity: the networks (nonce,
    balances) are as before and no transaction was sent. When the executor
    has a wallet client, a public client and a chain configuration for the
    opportunity's chain, the result is a success carrying the all-zero
    hash, a profit equal to [expectedProfit] and the opportunity's gas
    estimate; otherwise it is a failure. *)
Lemma execute_dryRun (this : t) (opportunity : ArbitrageOpportunity.t)
    (w : World (Net := Net)) :
  BotConfig.dryRun (config this) = true ->
  exists result w',
    execute viem CHAIN_CONFIGS this opportunity w = (Js.Ok result, w') /\
    net w' = net w /\
    sent w' = sent w /\
    ExecutionResult.timestamp result = Js.clock (runtime w) (Js.clock_reads (runtime w)) /\
    if ready CHAIN_CONFIGS this opportunity then
      ExecutionResult.success result = true /\
      ExecutionResult.txHash result = Some zeroHash /\
      ExecutionResult.profit result
      = Some (ArbitrageOpportunity.expectedProfit opportunity) /\
      ExecutionResult.gasUsed result
      = Some (ArbitrageOpportunity.gasEstimate opportunity) /\
      ExecutionResult.error result = None
    else
      ExecutionResult.success result = false /\
      ExecutionResult.txHash result = None.
Proof.
  intros Hdry. unfold execute, ready.
  destruct (bool_decide
              (ArbitrageOpportunity.chain opportunity ∈ walletClients this));
    destruct (bool_decide
                (ArbitrageOpportunity.chain opportunity ∈ publicClients this));
    cbn [negb orb andb];
    try (eexists; eexists; repeat split; reflexivity).
  destruct (CHAIN_CONFIGS (ArbitrageOpportunity.chain opportunity)).
  - rewrite Hdry. eexists. eexists. repeat split; reflexivity.
  - eexists. eexists. repeat split; reflexivity.
Qed.

End DryRun.

(** ** The opportunity queue *)
Section Queue.
Import Bot.

Lemma enqueue_appends (config : BotConfig.t)
    (opportunities : list ArbitrageOpportunity.t) :
  forall queue,
    enqueue config opportunities queue
    = queue ++ List.filter (profitable config) (map priced opportunities).
Proof.
  induction opportunities as [| opp rest IH]; intros queue;
    cbn [enqueue map List.filter].
  - rewrite app_nil_r. reflexivity.
  - destruct (profitable config (priced opp)).
    + rewrite IH. rewrite <- app_assoc. reflexivity.
    + apply IH.
Qed.

(** C7, as the code has it. The handler appends to the queue every reported
    opportunity whose net USD profit reaches [minProfitUsd], in the order
    reported, without looking at the entries already pending; it then
    calls [processQueue], which leaves the queue as it is while a trade is
    being processed or the bot is paused. *)
Theorem onOpportunity_appends_without_lookup (config : BotConfig.t)
    (opportunities : list ArbitrageOpportunity.t) (b : t) (rt : Js.Runtime) :
  let queue :=
    opportunityQueue b
    ++ List.filter (profitable config) (map priced opportunities) in
  enqueue config opportunities (opportunityQueue b) = queue /\
  onOpportunity config opportunities b rt
  = if isProcessing b || BotState.isPaused (state b)
       || (length queue =? 0)%nat
    then (Js.Ok (mk (state b) (tradeHistory b) queue (isProcessing b)
                    (suspended b)), rt)
    else dequeueLoop config queue
           (mk (state b) (tradeHistory b) queue true (suspended b)) rt.
Proof.
  cbv zeta. split; [apply enqueue_appends |].
  unfold onOpportunity, processQueue.
  cbn [isProcessing state opportunityQueue tradeHistory suspended].
  rewrite enqueue_appends.
  destruct (isProcessing b || BotState.isPaused (state b)
            || (length (opportunityQueue b
                        ++ List.filter (profitable config)
                                       (map priced opportunities)) =? 0)%nat);
    reflexivity.
Qed.

(** C7 as stated fails: when three detector runs in a row report the same
    cycle, the first report is taken for execution and the next two are
    both pending in the queue, with the same ordered pool sequence, half a
    second apart. *)
Lemma onOpportunity_queues_same_pools_twice :
  exists b,
    fst (Scenario.threeReports (Reference.runtime 1700000000000)) = Js.Ok b /\
    suspended b = AwaitingExecute (priced Scenario.opportunity) /\
    opportunityQueue b
    = [priced Scenario.secondReport; priced Scenario.thirdReport] /\
    map SwapStep.pool (ArbitrageOpportunity.path (priced Scenario.secondReport))
    = map SwapStep.pool (ArbitrageOpportunity.path (priced Scenario.thirdReport)) /\
    ArbitrageDetector.isDuplicate [priced Scenario.secondReport]
                                  (priced Scenario.thirdReport) = true.
Proof.
  eexists. split; [vm_compute; reflexivity |].
  split; [vm_compute; reflexivity |].
  split; [vm_compute; reflexivity |].
  split; vm_compute; reflexivity.
Qed.

End Queue.

(** ** The circuit breaker of the contract *)
Ltac break_hyp H :=
  repeat match type of H with
         | context [if ?c then _ else _] => destruct c eqn:?
         | context [match ?x with _ => _ end] => destruct x eqn:?
         end.

Section CircuitBreaker.
Import FlashloanArbitrage.

(** What a callback that does not revert leaves in storage. *)
Lemma receiveFlashLoan_storage msgSender tokens amounts feeAmounts userData
    obs st st' :
  receiveFlashLoan msgSender tokens amounts feeAmounts userData obs st
  = Some st' ->
  st' = if balanceAfter obs <? balanceBefore obs
        then setLoss st (dailyLoss st + recordedLoss obs)
               (if dailyLossLimit st <=? dailyLoss st + recordedLoss obs
                then true else paused st)
        else st.
Proof.
  unfold receiveFlashLoan, checked_add, recordedLoss. intros H.
  destruct (balanceAfter obs <? balanceBefore obs) eqn:Hloss.
  - apply Z.ltb_lt in Hloss. rewrite Z.max_r by lia.
    break_hyp H; try discriminate H; inversion H; subst; try reflexivity;
      congruence.
  - break_hyp H; try discriminate H; inversion H; subst; reflexivity.
Qed.

Lemma executeArbitrage_storage blockTimestamp params feeAmount obs st st' :
  executeArbitrage blockTimestamp params feeAmount obs st = Some st' ->
  paused st = false /\
  receiveFlashLoan BALANCER_VAULT [ArbitrageParams.flashToken params]
    [ArbitrageParams.flashAmount params] [feeAmount] (Some params) obs
    (afterReset blockTimestamp st) = Some st'.
Proof.
  unfold executeArbitrage, afterReset, windowOver, checked_add. intros H.
  destruct (paused st); [discriminate H |].
  destruct (lastResetTimestamp st + one_day <=? MAX_UINT256);
    [| discriminate H].
  split; [reflexivity | exact H].
Qed.

Lemma receiveFlashLoan_breaker msgSender tokens amounts feeAmounts userData
    obs st st' :
  0 < dailyLossLimit st ->
  ((balanceAfter obs <? balanceBefore obs) = false -> breakerHolds st) ->
  receiveFlashLoan msgSender tokens amounts feeAmounts userData obs st
  = Some st' ->
  breakerHolds st'.
Proof.
  intros Hlimit Hsame H. apply receiveFlashLoan_storage in H. subst st'.
  destruct (balanceAfter obs <? balanceBefore obs) eqn:Hloss.
  - unfold breakerHolds, setLoss. cbn.
    split; [exact Hlimit |].
    destruct (Z.leb_spec (dailyLossLimit st)
                         (dailyLoss st + recordedLoss obs));
      [reflexivity | lia].
  - apply Hsame. reflexivity.
Qed.

Lemma step_breaker (tx : Tx) (st st' : State) :
  keepsBreaker tx = true ->
  breakerHolds st ->
  step tx st = Some st' ->
  breakerHolds st'.
Proof.
  intros Hallowed [Hlimit Hinv] Hstep.
  unfold step, keepsBreaker, onlyOwner in *.
  destruct (call tx) as [params feeAmount obs
                        | tokens amounts feeAmounts userData obs
                        | router approved | newBeneficiary
                        | newMax newLimit | newPaused
                        | token amount ok | ok].
  - apply executeArbitrage_storage in Hstep.
    destruct Hstep as [Hpaused Hcallback].
    assert (Hreset : 0 < dailyLossLimit (afterReset (timestamp tx) st))
      by (unfold afterReset; destruct (windowOver _ st); exact Hlimit).
    refine (receiveFlashLoan_breaker _ _ _ _ _ _ _ _ Hreset _ Hcallback).
    intros _. split; [exact Hreset |].
    unfold afterReset. destruct (windowOver _ st); cbn; [lia | exact Hinv].
  - refine (receiveFlashLoan_breaker _ _ _ _ _ _ _ _ Hlimit _ Hstep).
    intros _. split; assumption.
  - destruct (String.eqb (sender tx) (owner st)); inversion Hstep; subst.
    split; assumption.
  - destruct (String.eqb (sender tx) (owner st)); inversion Hstep; subst.
    split; assumption.
  - discriminate Hallowed.
  - destruct newPaused; [| discriminate Hallowed].
    destruct (String.eqb (sender tx) (owner st)); inversion Hstep; subst.
    split; [exact Hlimit | intros _; reflexivity].
  - destruct (String.eqb (sender tx) (owner st)); [| discriminate Hstep].
    destruct ok; inversion Hstep; subst. split; assumption.
  - destruct (String.eqb (sender tx) (owner st)); [| discriminate Hstep].
    destruct ok; inversion Hstep; subst. split; assumption.
Qed.

Lemma reachable_breaker (st0 st : State) :
  breakerHolds st0 ->
  reachableFrom keepsBreaker st0 st ->
  breakerHolds st.
Proof.
  intros H0 Hreach. induction Hreach as [| tx st st' _ IH Hallowed Hstep].
  - exact H0.
  - exact (step_breaker tx st st' Hallowed IH Hstep).
Qed.

(** While paused, [executeArbitrage] reverts. *)
Lemma executeArbitrage_paused blockTimestamp params feeAmount obs st :
  paused st = true ->
  executeArbitrage blockTimestamp params feeAmount obs st = None.
Proof. intros H. unfold executeArbitrage. rewrite H. reflexivity. Qed.

(** How a transaction that does not revert moves the accumulator. *)
Lemma step_dailyLoss (tx : Tx) (st st' : State) :
  step tx st = Some st' ->
  match call tx with
  | ExecuteArbitrage _ _ obs =>
      if windowOver (timestamp tx) st
      then dailyLoss st' = recordedLoss obs /\
           lastResetTimestamp st' = timestamp tx
      else dailyLoss st' = dailyLoss st + recordedLoss obs /\
           lastResetTimestamp st' = lastResetTimestamp st
  | ReceiveFlashLoan _ _ _ _ obs =>
      dailyLoss st' = dailyLoss st + recordedLoss obs /\
      lastResetTimestamp st' = lastResetTimestamp st
  | _ =>
      dailyLoss st' = dailyLoss st /\
      lastResetTimestamp st' = lastResetTimestamp st
  end.
Proof.
  intros Hstep. unfold step, onlyOwner in Hstep.
  assert (Hcallback :
            forall msgSender tokens amounts feeAmounts userData obs s,
              receiveFlashLoan msgSender tokens amounts feeAmounts userData
                               obs s = Some st' ->
              dailyLoss st' = dailyLoss s + recordedLoss obs /\
              lastResetTimestamp st' = lastResetTimestamp s).
  { intros msgSender tokens amounts feeAmounts userData obs s H.
    apply receiveFlashLoan_storage in H. subst st'. unfold recordedLoss.
    destruct (Z.ltb_spec (balanceAfter obs) (balanceBefore obs)); cbn.
    - split; reflexivity.
    - rewrite Z.max_l by lia. split; [lia | reflexivity]. }
  destruct (call tx) as [params feeAmount obs
                        | tokens amounts feeAmounts userData obs
                        | router approved | newBeneficiary
                        | newMax newLimit | newPaused
                        | token amount ok | ok].
  - apply executeArbitrage_storage in Hstep. destruct Hstep as [_ H].
    apply Hcallback in H. unfold afterReset in H.
    destruct (windowOver (timestamp tx) st); cbn in H; [| exact H].
    destruct H as [H1 H2]. split; [lia | exact H2].
  - exact (Hcallback _ _ _ _ _ _ _ Hstep).
  - destruct (String.eqb (sender tx) (owner st)); inversion Hstep; subst.
    split; reflexivity.
  - destruct (String.eqb (sender tx) (owner st)); inversion Hstep; subst.
    split; reflexivity.
  - destruct (String.eqb (sender tx) (owner st)); inversion Hstep; subst.
    split; reflexivity.
  - destruct (String.eqb (sender tx) (owner st)); inversion Hstep; subst.
    split; reflexivity.
  - destruct (String.eqb (sender tx) (owner st)); [| discriminate Hstep].
    destruct ok; inversion Hstep; subst. split; reflexivity.
  - destruct (String.eqb (sender tx) (owner st)); [| discriminate Hstep].
    destruct ok; inversion Hstep; subst. split; reflexivity.
Qed.

(** C8, as the code has it. In every state reached from a deployment with
    a positive [dailyLossLimit] by calls other than [setPaused(false)] and
    [setCircuitBreaker]: if [dailyLoss >= dailyLossLimit] then [paused] is
    set; while [paused] is set every [executeArbitrage] call reverts; and a
    transaction that does not revert leaves [dailyLoss] unchanged or adds
    the loss it records to it, except an [executeArbitrage] call made 24
    hours or more after [lastResetTimestamp], which restarts the window at
    its own timestamp and leaves in [dailyLoss] the loss it records
    alone. *)
Theorem breaker_pauses_and_accumulates
    (deployer beneficiary : Address) (maxLoss limit deployedAt : Z)
    (st : State) :
  0 < limit ->
  reachableFrom keepsBreaker
    (constructor deployer beneficiary maxLoss limit deployedAt) st ->
  (dailyLossLimit st <= dailyLoss st -> paused st = true) /\
  (paused st = true ->
   forall blockTimestamp params feeAmount obs,
     executeArbitrage blockTimestamp params feeAmount obs st = None) /\
  (forall tx st',
     step tx st = Some st' ->
     match call tx with
     | ExecuteArbitrage _ _ obs =>
         if windowOver (timestamp tx) st
         then dailyLoss st' = recordedLoss obs /\
              lastResetTimestamp st' = timestamp tx
         else dailyLoss st' = dailyLoss st + recordedLoss obs /\
              lastResetTimestamp st' = lastResetTimestamp st
     | ReceiveFlashLoan _ _ _ _ obs =>
         dailyLoss st' = dailyLoss st + recordedLoss obs /\
         lastResetTimestamp st' = lastResetTimestamp st
     | _ =>
         dailyLoss st' = dailyLoss st /\
         lastResetTimestamp st' = lastResetTimestamp st
     end).
Proof.
  intros Hlimit Hreach.
  assert (Hinv : breakerHolds st).
  { apply (reachable_breaker
             (constructor deployer beneficiary maxLoss limit deployedAt));
      [| exact Hreach].
    unfold breakerHolds, constructor. cbn.
    split; [exact Hlimit | intros H; exfalso; lia]. }
  split; [exact (proj2 Hinv) |].
  split.
  - intros Hpaused blockTimestamp params feeAmount obs.
    apply executeArbitrage_paused. exact Hpaused.
  - intros tx st'. apply step_dailyLoss.
Qed.

Lemma breaker_pauses_and_accumulates_witness :
  let st := apply (Scenario.losing Scenario.ether Scenario.ether
                                   (Scenario.DEPLOYED_AT + 60))
                  Scenario.deployedLoose in
  dailyLoss st = Scenario.ether /\
  paused st = true /\
  executeArbitrage (Scenario.DEPLOYED_AT + 120) Scenario.flashParams 0
    (mkObserved Scenario.ether (fun _ => true) (2 * Scenario.ether) true) st
  = None.
Proof.
  cbv zeta.
  destruct (breaker_pauses_and_accumulates
              Scenario.OWNER Scenario.BENEFICIARY Scenario.ether Scenario.ether
              Scenario.DEPLOYED_AT
              (apply (Scenario.losing Scenario.ether Scenario.ether
                                      (Scenario.DEPLOYED_AT + 60))
                     Scenario.deployedLoose))
    as [Hpause [Hrevert _]].
  - reflexivity.
  - apply (reach_step keepsBreaker _
             (Scenario.losing Scenario.ether Scenario.ether
                              (Scenario.DEPLOYED_AT + 60))
             Scenario.deployedLoose).
    + apply (reach_step keepsBreaker _ Scenario.approveRouter
               Scenario.constructedLoose).
      * apply reach_start.
      * reflexivity.
      * vm_compute. reflexivity.
    + reflexivity.
    + vm_compute. reflexivity.
  - assert (Hloss : dailyLoss
                      (apply (Scenario.losing Scenario.ether Scenario.ether (Scenario.DEPLOYED_AT + 60))
                             Scenario.deployedLoose) = Scenario.ether)
      by (vm_compute; reflexivity).
    split; [exact Hloss |].
    assert (Hpaused : paused
                        (apply (Scenario.losing Scenario.ether Scenario.ether (Scenario.DEPLOYED_AT + 60))
                               Scenario.deployedLoose) = true).
    { apply Hpause. rewrite Hloss. vm_compute. discriminate. }
    split; [exact Hpaused |].
    apply Hrevert. exact Hpaused.
Defined.

(** C8 as stated fails: the owner approves a router, a flashloan records a
    loss of a twentieth of an ether, and the owner lowers the daily limit to
    that amount with [setCircuitBreaker]. No [setPaused] call was made,
    [dailyLoss] has reached [dailyLossLimit], the contract is not paused,
    and the next [executeArbitrage] call goes through. Also, a contract
    constructed with [dailyLossLimit = 0] starts with
    [dailyLoss >= dailyLossLimit] and is not paused. *)
Lemma breaker_not_paused_at_limit :
  (exists st st',
      reachableFrom notSetPaused Scenario.constructed st /\
      dailyLossLimit st = Scenario.ether / 20 /\
      dailyLoss st = Scenario.ether / 20 /\
      paused st = false /\
      step (Scenario.losing 0 0 (Scenario.DEPLOYED_AT + 180)) st = Some st') /\
  (let fresh := constructor Scenario.OWNER Scenario.BENEFICIARY
                            (Scenario.ether / 10) 0 Scenario.DEPLOYED_AT in
   dailyLossLimit fresh <= dailyLoss fresh /\ paused fresh = false).
Proof.
  split; [| cbv zeta; split; [vm_compute; discriminate | reflexivity]].
  exists (apply Scenario.lowerLimit
            (apply (Scenario.losing Scenario.ether (Scenario.ether / 20)
                                    (Scenario.DEPLOYED_AT + 60))
                   Scenario.deployed)).
  eexists.
  split.
  - apply (reach_step notSetPaused _ Scenario.lowerLimit
             (apply (Scenario.losing Scenario.ether (Scenario.ether / 20)
                                     (Scenario.DEPLOYED_AT + 60))
                    Scenario.deployed)).
    + apply (reach_step notSetPaused _
               (Scenario.losing Scenario.ether (Scenario.ether / 20)
                                (Scenario.DEPLOYED_AT + 60))
               Scenario.deployed).
      * apply (reach_step notSetPaused _ Scenario.approveRouter
                 Scenario.constructed).
        -- apply reach_start.
        -- reflexivity.
        -- vm_compute. reflexivity.
      * reflexivity.
      * vm_compute. reflexivity.
    + reflexivity.
    + vm_compute. reflexivity.
  - split; [vm_compute; reflexivity |].
    split; [vm_compute; reflexivity |].
    split; vm_compute; reflexivity.
Qed.

End CircuitBreaker.

(** ** JavaScript maps and sets *)
Section JsContainers.

Lemma map_get_set_same {V : Type} (k : string) (v : V) (m : list (string * V)) :
  Js.map_get k (Js.map_set k v m) = Some v.
Proof.
  induction m as [| [k' v'] m IH]; cbn.
  - rewrite String.eqb_refl. reflexivity.
  - destruct (String.eqb k' k) eqn:E; cbn.
    + rewrite String.eqb_refl. reflexivity.
    + rewrite E. exact IH.
Qed.

Lemma map_get_set_other {V : Type} (k k' : string) (v : V)
    (m : list (string * V)) :
  k <> k' -> Js.map_get k' (Js.map_set k v m) = Js.map_get k' m.
Proof.
  intros Hne. induction m as [| [k0 v0] m IH]; cbn.
  - destruct (String.eqb_spec k k'); [contradiction | reflexivity].
  - destruct (String.eqb_spec k0 k) as [-> | Hk0]; cbn.
    + destruct (String.eqb_spec k k'); [contradiction | reflexivity].
    + destruct (String.eqb k0 k'); [reflexivity | exact IH].
Qed.

Lemma map_set_set {V : Type} (k : string) (v1 v2 : V) (m : list (string * V)) :
  Js.map_set k v2 (Js.map_set k v1 m) = Js.map_set k v2 m.
Proof.
  induction m as [| [k' v'] m IH]; cbn.
  - rewrite String.eqb_refl. reflexivity.
  - destruct (String.eqb k' k) eqn:E; cbn.
    + rewrite String.eqb_refl. reflexivity.
    + rewrite E. rewrite IH. reflexivity.
Qed.

(** Overwriting a key that is present keeps the insertion order, so it
    commutes with a [set] on another key. *)
Lemma map_set_commute {V : Type} (k1 k2 : string) (v1 v2 : V)
    (m : list (string * V)) :
  k1 <> k2 ->
  Js.map_get k2 m <> None ->
  Js.map_set k2 v2 (Js.map_set k1 v1 m) = Js.map_set k1 v1 (Js.map_set k2 v2 m).
Proof.
  intros Hne. induction m as [| [k v] m IH]; cbn; intros Hpresent.
  - contradiction.
  - destruct (String.eqb_spec k k1) as [Hk1 | Hk1];
      destruct (String.eqb_spec k k2) as [Hk2 | Hk2]; cbn.
    + congruence.
    + subst k. rewrite String.eqb_refl.
      destruct (String.eqb_spec k1 k2); [contradiction | reflexivity].
    + subst k. rewrite String.eqb_refl.
      destruct (String.eqb_spec k2 k1); [congruence | reflexivity].
    + destruct (String.eqb_spec k k1); [contradiction |].
      destruct (String.eqb_spec k k2); [contradiction |].
      rewrite IH by exact Hpresent. reflexivity.
Qed.

Lemma set_has_add_same (x : string) (s : list string) :
  Js.set_has x (Js.set_add x s) = true.
Proof.
  unfold Js.set_add. destruct (Js.set_has x s) eqn:E; [exact E |].
  unfold Js.set_has. rewrite existsb_app. cbn.
  rewrite String.eqb_refl. rewrite orb_true_r. reflexivity.
Qed.

Lemma set_has_add_other (x y : string) (s : list string) :
  Js.set_has x s = true -> Js.set_has x (Js.set_add y s) = true.
Proof.
  intros H. unfold Js.set_add. destruct (Js.set_has y s); [exact H |].
  unfold Js.set_has in *. rewrite existsb_app. rewrite H. reflexivity.
Qed.

Lemma set_add_present (x : string) (s : list string) :
  Js.set_has x s = true -> Js.set_add x s = s.
Proof. intros H. unfold Js.set_add. rewrite H. reflexivity. Qed.

End JsContainers.

(** ** [addEdge] replaces the edge of a pool *)
Section AddEdge.
Import ArbitrageDetector.

Lemma addEdge_parts (e : Edge.t) (g : Graph.t) :
  addEdge e g
  = Graph.mk (verticesAfter e (Graph.vertices g)) (edgesAfter e (Graph.edges g)).
Proof. reflexivity. Qed.

Lemma same_pair_slot (e e' x : Edge.t) :
  sameSlot e e' -> same_pair e' x = same_pair e x.
Proof.
  intros [_ [Hto Hpool]]. unfold same_pair. rewrite Hto, Hpool. reflexivity.
Qed.

Lemma same_pair_sym (e x : Edge.t) : same_pair e x = same_pair x e.
Proof.
  unfold same_pair.
  rewrite (String.eqb_sym (Edge.to x)), (String.eqb_sym (Edge.pool x)).
  reflexivity.
Qed.

Lemma same_pair_true (e x : Edge.t) :
  same_pair e x = true ->
  Edge.to x = Edge.to e /\ Edge.pool x = Edge.pool e.
Proof.
  unfold same_pair. intros H. apply andb_true_iff in H.
  destruct H as [H1 H2]. apply String.eqb_eq in H1, H2. split; assumption.
Qed.

Lemma remove_first_In {A : Type} (p : A -> bool) (l : list A) (x : A) :
  In x (remove_first p l) -> In x l.
Proof.
  induction l as [| y l IH]; cbn; [intros [] |].
  destruct (p y); [intros H; right; exact H |].
  intros [H | H]; [left; exact H | right; exact (IH H)].
Qed.

Lemma remove_first_ext {A : Type} (p q : A -> bool) (l : list A) :
  (forall x, p x = q x) -> remove_first p l = remove_first q l.
Proof.
  intros H. induction l as [| y l IH]; cbn; [reflexivity |].
  rewrite H. rewrite IH. reflexivity.
Qed.

Lemma remove_first_unmatched (e : Edge.t) (l : list Edge.t) :
  uniquePairs l ->
  forall x, In x (remove_first (same_pair e) l) -> same_pair e x = false.
Proof.
  induction l as [| y l IH]; cbn; intros Hl x Hx; [contradiction |].
  destruct Hl as [Hy Hl].
  destruct (same_pair e y) eqn:Ey.
  - apply same_pair_true in Ey. destruct Ey as [Hto Hpool].
    rewrite <- (Hy x Hx). unfold same_pair. rewrite Hto, Hpool. reflexivity.
  - destruct Hx as [<- | Hx]; [exact Ey | exact (IH Hl x Hx)].
Qed.

Lemma remove_first_unique (e : Edge.t) (l : list Edge.t) :
  uniquePairs l -> uniquePairs (remove_first (same_pair e) l).
Proof.
  induction l as [| y l IH]; cbn; intros Hl; [exact I |].
  destruct Hl as [Hy Hl]. destruct (same_pair e y); [exact Hl |].
  cbn. split; [| exact (IH Hl)].
  intros x Hx. apply Hy. exact (remove_first_In _ _ _ Hx).
Qed.

Lemma uniquePairs_snoc (e : Edge.t) (l : list Edge.t) :
  uniquePairs l ->
  (forall x, In x l -> same_pair e x = false) ->
  uniquePairs (l ++ [e]).
Proof.
  induction l as [| y l IH]; cbn; intros Hl He.
  - split; [intros x [] | exact I].
  - destruct Hl as [Hy Hl]. split.
    + intros x Hx. apply in_app_or in Hx. destruct Hx as [Hx | [<- | []]].
      * exact (Hy x Hx).
      * rewrite same_pair_sym. apply He. left. reflexivity.
    + apply IH; [exact Hl |]. intros x Hx. apply He. right. exact Hx.
Qed.

Lemma remove_first_snoc (e e' : Edge.t) (l : list Edge.t) :
  (forall x, In x l -> same_pair e' x = false) ->
  same_pair e' e = true ->
  remove_first (same_pair e') (l ++ [e]) = l.
Proof.
  induction l as [| y l IH]; cbn; intros Hl He.
  - rewrite He. reflexivity.
  - rewrite (Hl y (or_introl eq_refl)). rewrite IH; [reflexivity | | exact He].
    intros x Hx. apply Hl. right. exact Hx.
Qed.

Lemma adjacency_unique (edges : list (Address * list Edge.t)) (a : Address) :
  uniqueLists edges ->
  uniquePairs (match Js.map_get a edges with Some l => l | None => [] end).
Proof.
  intros H. destruct (Js.map_get a edges) as [l |] eqn:E; [| exact I].
  exact (H a l E).
Qed.

Lemma same_pair_refl (e : Edge.t) : same_pair e e = true.
Proof. unfold same_pair. rewrite !String.eqb_refl. reflexivity. Qed.

(** Adding the edge of a slot twice keeps only the second edge. *)
Lemma edgesAfter_replace (e e' : Edge.t)
    (edges : list (Address * list Edge.t)) :
  uniqueLists edges -> sameSlot e e' ->
  edgesAfter e' (edgesAfter e edges) = edgesAfter e' edges.
Proof.
  intros Hwf Hslot. pose proof Hslot as [Hfrom _].
  unfold edgesAfter. rewrite Hfrom. rewrite map_get_set_same.
  rewrite map_set_set. f_equal. f_equal.
  rewrite remove_first_snoc.
  - apply remove_first_ext. intros x. symmetry.
    apply same_pair_slot. exact Hslot.
  - intros x Hx. rewrite (same_pair_slot e e' x Hslot).
    apply (remove_first_unmatched e _ (adjacency_unique edges _ Hwf) x Hx).
  - rewrite (same_pair_slot e e' e Hslot). apply same_pair_refl.
Qed.

Lemma edgesAfter_unique (e : Edge.t) (edges : list (Address * list Edge.t)) :
  uniqueLists edges -> uniqueLists (edgesAfter e edges).
Proof.
  intros Hwf a l. unfold edgesAfter.
  destruct (String.eqb_spec (Edge.from e) a) as [<- | Hne].
  - rewrite map_get_set_same. intros H. inversion H; subst l.
    apply uniquePairs_snoc.
    + apply remove_first_unique. apply adjacency_unique. exact Hwf.
    + apply remove_first_unmatched. apply adjacency_unique. exact Hwf.
  - rewrite map_get_set_other by exact Hne. apply Hwf.
Qed.

(** Edges that leave different tokens commute once the second token has
    an adjacency list. *)
Lemma edgesAfter_commute (a b : Edge.t)
    (edges : list (Address * list Edge.t)) :
  Edge.from a <> Edge.from b ->
  Js.map_get (Edge.from b) edges <> None ->
  edgesAfter b (edgesAfter a edges) = edgesAfter a (edgesAfter b edges).
Proof.
  intros Hne Hpresent. unfold edgesAfter.
  rewrite (map_get_set_other (Edge.from a) (Edge.from b)) by exact Hne.
  rewrite (map_get_set_other (Edge.from b) (Edge.from a))
    by (intros H; apply Hne; symmetry; exact H).
  apply map_set_commute; assumption.
Qed.

(** The four [addEdge] calls of two successive updates of one pool leave
    the edge map that the second update alone leaves. *)
Lemma edgesAfter_two_updates (f r f' r' : Edge.t)
    (edges : list (Address * list Edge.t)) :
  uniqueLists edges ->
  sameSlot f f' -> sameSlot r r' ->
  Edge.from r = Edge.to f -> Edge.to r = Edge.from f ->
  Edge.pool r = Edge.pool f ->
  edgesAfter r' (edgesAfter f' (edgesAfter r (edgesAfter f edges)))
  = edgesAfter r' (edgesAfter f' edges).
Proof.
  intros Hwf Hf Hr Hrf Hrt Hrp.
  destruct (String.eqb_spec (Edge.from f) (Edge.to f)) as [Hloop | Hne].
  - (* token0 = token1: the four edges share one slot *)
    assert (Hfr : sameSlot f r).
    { repeat split; congruence. }
    assert (Hrf' : sameSlot r f').
    { destruct Hf as [H1 [H2 H3]]. repeat split; congruence. }
    rewrite (edgesAfter_replace f r edges Hwf Hfr).
    rewrite (edgesAfter_replace r f' edges Hwf Hrf').
    reflexivity.
  - assert (Hdiff : Edge.from r <> Edge.from f')
      by (destruct Hf as [H1 _]; congruence).
    rewrite (edgesAfter_commute r f' (edgesAfter f edges) Hdiff).
    + rewrite (edgesAfter_replace f f' edges Hwf Hf).
      apply edgesAfter_replace; [| exact Hr].
      apply edgesAfter_unique. exact Hwf.
    + destruct Hf as [H1 _]. rewrite H1. unfold edgesAfter.
      rewrite map_get_set_same. discriminate.
Qed.

Lemma verticesAfter_two_updates (f r f' r' : Edge.t) (vertices : list Address) :
  sameSlot f f' -> sameSlot r r' ->
  Edge.from r = Edge.to f -> Edge.to r = Edge.from f ->
  verticesAfter r' (verticesAfter f' (verticesAfter r (verticesAfter f vertices)))
  = verticesAfter r' (verticesAfter f' vertices).
Proof.
  intros [Hf1 [Hf2 _]] [Hr1 [Hr2 _]] Hrf Hrt. unfold verticesAfter.
  rewrite Hf1, Hf2, Hr1, Hr2, Hrf, Hrt.
  set (V := Js.set_add (Edge.to f) (Js.set_add (Edge.from f) vertices)).
  assert (Hto : Js.set_has (Edge.to f) V = true) by apply set_has_add_same.
  assert (Hfrom : Js.set_has (Edge.from f) V = true)
    by (apply set_has_add_other; apply set_has_add_same).
  rewrite (set_add_present (Edge.to f) V Hto).
  rewrite (set_add_present (Edge.from f) V Hfrom).
  rewrite (set_add_present (Edge.from f) V Hfrom).
  rewrite (set_add_present (Edge.to f) V Hto).
  rewrite (set_add_present (Edge.to f) V Hto).
  rewrite (set_add_present (Edge.from f) V Hfrom).
  reflexivity.
Qed.

Lemma addEdge_two_updates (f r f' r' : Edge.t) (g : Graph.t) :
  wellFormed g ->
  sameSlot f f' -> sameSlot r r' ->
  Edge.from r = Edge.to f -> Edge.to r = Edge.from f ->
  Edge.pool r = Edge.pool f ->
  addEdge r' (addEdge f' (addEdge r (addEdge f g)))
  = addEdge r' (addEdge f' g).
Proof.
  intros Hwf Hf Hr Hrf Hrt Hrp. rewrite !addEdge_parts. cbn [Graph.vertices Graph.edges].
  rewrite (verticesAfter_two_updates f r f' r' _ Hf Hr Hrf Hrt).
  rewrite (edgesAfter_two_updates f r f' r' _ Hwf Hf Hr Hrf Hrt Hrp).
  reflexivity.
Qed.

Lemma addEdge_wellFormed (e : Edge.t) (g : Graph.t) :
  wellFormed g -> wellFormed (addEdge e g).
Proof.
  intros Hwf. rewrite addEdge_parts. unfold wellFormed. cbn [Graph.edges].
  apply edgesAfter_unique. exact Hwf.
Qed.

End AddEdge.

(** ** Pool updates in the price monitor *)
Section PoolUpdates.
Import PriceMonitor.
Variable math : Js.MathImpl.
Variable CHAIN_CONFIGS : ChainId -> option ChainConfig.t.

(** The reference quotes of an update do not throw. *)
Lemma reference_quotes (reserve0 reserve1 fee : Z) :
  0 <= reserve0 -> 0 <= reserve1 -> fee < 10000 ->
  exists q01 q10,
    ArbitrageDetector.calculateRate reserve0 reserve1 (10 ^ 18) fee = Js.Ok q01 /\
    ArbitrageDetector.calculateRate reserve1 reserve0 (10 ^ 18) fee = Js.Ok q10.
Proof.
  intros H0 H1 Hfee.
  destruct (calculateRate_amountOut reserve0 reserve1 (10 ^ 18) fee)
    as [q01 [Hq01 _]]; [nia |].
  destruct (calculateRate_amountOut reserve1 reserve0 (10 ^ 18) fee)
    as [q10 [Hq10 _]]; [nia |].
  exists q01, q10. split; assumption.
Qed.

(** What [updateReserves] leaves when its quotes return. *)
Lemma updateReserves_run now chainId sub reserve0 reserve1 q01 q10 m :
  ArbitrageDetector.calculateRate reserve0 reserve1 (10 ^ 18)
    (PoolSubscription.fee sub) = Js.Ok q01 ->
  ArbitrageDetector.calculateRate reserve1 reserve0 (10 ^ 18)
    (PoolSubscription.fee sub) = Js.Ok q10 ->
  updateReserves math now chainId sub reserve0 reserve1 m
  = (Js.Ok tt,
     mk (subscriptions m)
        (Js.map_set (reservesKey chainId (PoolSubscription.pool sub))
           (PoolReserves.mk (PoolSubscription.pool sub)
              (PoolSubscription.dex sub) (PoolSubscription.token0 sub)
              (PoolSubscription.token1 sub) reserve0 reserve1
              (PoolSubscription.fee sub) now)
           (reserves m))
        (alter (withEdges
                  (forwardEdge math sub reserve0 reserve1
                               (ArbitrageDetector.rate q01))
                  (reverseEdge math sub reserve0 reserve1
                               (ArbitrageDetector.rate q10)))
               chainId (detectors m))
        (hasCallback m)).
Proof.
  intros Hq01 Hq10.
  unfold updateReserves, Js.mbind, setReserves, detectorAddEdge, Js.lift.
  cbn [detectors subscriptions reserves hasCallback].
  destruct (detectors m !! chainId) as [d |] eqn:Hd.
  - rewrite Hq01, Hq10. cbn [detectors subscriptions reserves hasCallback].
    f_equal. f_equal. apply map_eq. intros i.
    destruct (decide (chainId = i)) as [<- | Hne].
    + rewrite !lookup_alter_eq. rewrite Hd. reflexivity.
    + rewrite !lookup_alter_ne by exact Hne. reflexivity.
  - f_equal. f_equal. apply map_eq. intros i.
    destruct (decide (chainId = i)) as [<- | Hne].
    + rewrite lookup_alter_eq. rewrite Hd. reflexivity.
    + rewrite lookup_alter_ne by exact Hne. reflexivity.
Qed.

Lemma forward_sameSlot sub a0 a1 b0 b1 ra rb :
  ArbitrageDetector.sameSlot (forwardEdge math sub a0 a1 ra) (forwardEdge math sub b0 b1 rb).
Proof. repeat split. Qed.

Lemma reverse_sameSlot sub a0 a1 b0 b1 ra rb :
  ArbitrageDetector.sameSlot (reverseEdge math sub a0 a1 ra) (reverseEdge math sub b0 b1 rb).
Proof. repeat split. Qed.

(** Two successive updates of a pool leave what the second one alone
    leaves. *)
Lemma updateReserves_last_wins t1 t2 chainId sub a0 a1 b0 b1 m :
  wellFormed m ->
  PoolSubscription.fee sub < 10000 ->
  0 <= a0 -> 0 <= a1 -> 0 <= b0 -> 0 <= b1 ->
  snd (updateReserves math t2 chainId sub b0 b1
         (snd (updateReserves math t1 chainId sub a0 a1 m)))
  = snd (updateReserves math t2 chainId sub b0 b1 m).
Proof.
  intros Hwf Hfee Ha0 Ha1 Hb0 Hb1.
  destruct (reference_quotes a0 a1 _ Ha0 Ha1 Hfee) as [qa01 [qa10 [Ha Ha']]].
  destruct (reference_quotes b0 b1 _ Hb0 Hb1 Hfee) as [qb01 [qb10 [Hb Hb']]].
  rewrite (updateReserves_run t1 chainId sub a0 a1 qa01 qa10 m Ha Ha').
  cbn [snd].
  rewrite (updateReserves_run t2 chainId sub b0 b1 qb01 qb10 _ Hb Hb').
  rewrite (updateReserves_run t2 chainId sub b0 b1 qb01 qb10 m Hb Hb').
  cbn [snd subscriptions reserves detectors hasCallback].
  rewrite map_set_set. f_equal.
  rewrite alter_alter_eq. apply alter_ext. intros d Hd.
  unfold withEdges, compose. cbn [ArbitrageDetector.graph
    ArbitrageDetector.chainId ArbitrageDetector.minProfitBps].
  f_equal.
  apply addEdge_two_updates; try reflexivity.
  - exact (Hwf chainId d Hd).
  - apply forward_sameSlot.
  - apply reverse_sameSlot.
Qed.

(** An update keeps the graphs well formed. *)
Lemma updateReserves_wellFormed now chainId sub reserve0 reserve1 m :
  wellFormed m ->
  PoolSubscription.fee sub < 10000 -> 0 <= reserve0 -> 0 <= reserve1 ->
  wellFormed (snd (updateReserves math now chainId sub reserve0 reserve1 m)).
Proof.
  intros Hwf Hfee H0 H1.
  destruct (reference_quotes reserve0 reserve1 _ H0 H1 Hfee)
    as [q01 [q10 [Hq Hq']]].
  rewrite (updateReserves_run now chainId sub reserve0 reserve1 q01 q10 m Hq Hq').
  cbn [snd]. intros c d. cbn [detectors].
  destruct (decide (chainId = c)) as [<- | Hne].
  - rewrite lookup_alter_eq.
    destruct (detectors m !! chainId) as [d0 |] eqn:Hd0; cbn; [| discriminate].
    intros H. inversion H; subst d. unfold withEdges.
    cbn [ArbitrageDetector.graph].
    apply addEdge_wellFormed. apply addEdge_wellFormed.
    exact (Hwf chainId d0 Hd0).
  - rewrite lookup_alter_ne by exact Hne. apply Hwf.
Qed.

(** [checkArbitrage] runs the detector once and leaves the monitor as it
    is. *)
Lemma checkArbitrage_runs chainId w d config :
  detectors (monitor w) !! chainId = Some d ->
  CHAIN_CONFIGS chainId = Some config ->
  monitor (snd (checkArbitrage math CHAIN_CONFIGS chainId w)) = monitor w /\
  exists rest,
    effects (snd (checkArbitrage math CHAIN_CONFIGS chainId w))
    = effects w ++ DetectorRun chainId :: rest.
Proof.
  intros Hd Hconfig. unfold checkArbitrage. rewrite Hd, Hconfig.
  unfold Js.mbind, emit, onRuntime, Js.zoom. cbn [monitor runtime effects].
  destruct (ArbitrageDetector.findArbitrageOpportunities _ _ _ _ _)
    as [[opportunities | e] rt'].
  - destruct ((0 <? length opportunities)%nat && hasCallback (monitor w)).
    + cbn [snd monitor effects]. split; [reflexivity |].
      exists [Callback opportunities]. rewrite <- app_assoc. reflexivity.
    + unfold Js.ret. cbn [snd monitor effects]. split; [reflexivity |].
      exists []. reflexivity.
  - cbn [snd monitor effects]. split; [reflexivity |].
    exists []. reflexivity.
Qed.

(** The handler of a [Sync] log with both reserves defined reads the clock,
    updates the pool and calls [checkArbitrage]; the block number and the
    log index of the log are not read. *)
Lemma onSyncLog_unfold chainId sub blockNumber logIndex reserve0 reserve1 w :
  PoolSubscription.fee sub < 10000 -> 0 <= reserve0 -> 0 <= reserve1 ->
  onSyncLog math CHAIN_CONFIGS chainId sub tt
    (SyncLog.mk blockNumber logIndex (Some reserve0) (Some reserve1)) w
  = checkArbitrage math CHAIN_CONFIGS chainId
      (mkWorld
         (snd (updateReserves math
                 (Js.clock (runtime w) (Js.clock_reads (runtime w)))
                 chainId sub reserve0 reserve1 (monitor w)))
         (Js.mkRuntime (Js.clock (runtime w)) (S (Js.clock_reads (runtime w)))
                       (Js.random (runtime w)) (Js.random_reads (runtime w)))
         (effects w)).
Proof.
  intros Hfee H0 H1.
  destruct (reference_quotes reserve0 reserve1 _ H0 H1 Hfee)
    as [q01 [q10 [Hq Hq']]].
  unfold onSyncLog. cbn [SyncLog.reserve0 SyncLog.reserve1].
  unfold Js.mbind, onRuntime, onMonitor, Js.zoom, Js.Date_now.
  cbn [runtime monitor effects].
  rewrite (updateReserves_run _ chainId sub reserve0 reserve1 q01 q10 _ Hq Hq').
  reflexivity.
Qed.

Lemma updateReserves_detector now chainId sub reserve0 reserve1 m d :
  PoolSubscription.fee sub < 10000 -> 0 <= reserve0 -> 0 <= reserve1 ->
  detectors m !! chainId = Some d ->
  exists d',
    detectors (snd (updateReserves math now chainId sub reserve0 reserve1 m))
    !! chainId = Some d'.
Proof.
  intros Hfee H0 H1 Hd.
  destruct (reference_quotes reserve0 reserve1 _ H0 H1 Hfee)
    as [q01 [q10 [Hq Hq']]].
  rewrite (updateReserves_run now chainId sub reserve0 reserve1 q01 q10 m Hq Hq').
  cbn [snd detectors]. rewrite lookup_alter_eq, Hd. eexists. reflexivity.
Qed.

Lemma updateReserves_getReserves now chainId sub reserve0 reserve1 m :
  PoolSubscription.fee sub < 10000 -> 0 <= reserve0 -> 0 <= reserve1 ->
  getReserves (snd (updateReserves math now chainId sub reserve0 reserve1 m))
              chainId (PoolSubscription.pool sub)
  = Some (PoolReserves.mk (PoolSubscription.pool sub)
            (PoolSubscription.dex sub) (PoolSubscription.token0 sub)
            (PoolSubscription.token1 sub) reserve0 reserve1
            (PoolSubscription.fee sub) now).
Proof.
  intros Hfee H0 H1.
  destruct (reference_quotes reserve0 reserve1 _ H0 H1 Hfee)
    as [q01 [q10 [Hq Hq']]].
  rewrite (updateReserves_run now chainId sub reserve0 reserve1 q01 q10 m Hq Hq').
  unfold getReserves. cbn [snd reserves]. apply map_get_set_same.
Qed.

(** C2, as the code has it. [Sync] logs are applied in the order they are
    delivered, whatever their block numbers and log indices: after two
    deliveries for one pool, the monitor (stored reserves and graph edges)
    is what the second delivery alone produces, the stored reserves are
    those of the second log, and each of the two deliveries has run the
    detector. *)
Theorem sync_logs_apply_in_delivery_order
    chainId sub (blockA indexA blockB indexB a0 a1 b0 b1 : Z) w d config :
  wellFormed (monitor w) ->
  PoolSubscription.fee sub < 10000 ->
  0 <= a0 -> 0 <= a1 -> 0 <= b0 -> 0 <= b1 ->
  detectors (monitor w) !! chainId = Some d ->
  CHAIN_CONFIGS chainId = Some config ->
  let wFirst :=
    snd (onSyncLog math CHAIN_CONFIGS chainId sub tt
           (SyncLog.mk blockA indexA (Some a0) (Some a1)) w) in
  let wBoth :=
    snd (onSyncLog math CHAIN_CONFIGS chainId sub tt
           (SyncLog.mk blockB indexB (Some b0) (Some b1)) wFirst) in
  let now := Js.clock (runtime wFirst) (Js.clock_reads (runtime wFirst)) in
  monitor wBoth
  = snd (updateReserves math now chainId sub b0 b1 (monitor w)) /\
  getReserves (monitor wBoth) chainId (PoolSubscription.pool sub)
  = Some (PoolReserves.mk (PoolSubscription.pool sub)
            (PoolSubscription.dex sub) (PoolSubscription.token0 sub)
            (PoolSubscription.token1 sub) b0 b1
            (PoolSubscription.fee sub) now) /\
  exists rest1 rest2,
    effects wBoth
    = effects w ++ DetectorRun chainId :: rest1
      ++ DetectorRun chainId :: rest2.
Proof.
  intros Hwf Hfee Ha0 Ha1 Hb0 Hb1 Hd Hconfig. cbv zeta.
  rewrite (onSyncLog_unfold chainId sub blockA indexA a0 a1 w Hfee Ha0 Ha1).
  set (w1 := mkWorld _ _ (effects w)).
  destruct (updateReserves_detector
              (Js.clock (runtime w) (Js.clock_reads (runtime w)))
              chainId sub a0 a1 (monitor w) d Hfee Ha0 Ha1 Hd) as [d1 Hd1].
  destruct (checkArbitrage_runs chainId w1 d1 config Hd1 Hconfig)
    as [Hm1 [rest1 He1]].
  set (wFirst := snd (checkArbitrage math CHAIN_CONFIGS chainId w1)) in *.
  rewrite (onSyncLog_unfold chainId sub blockB indexB b0 b1 wFirst Hfee Hb0 Hb1).
  set (w2 := mkWorld _ _ (effects wFirst)).
  assert (Hd1' : detectors (monitor wFirst) !! chainId = Some d1)
    by (rewrite Hm1; exact Hd1).
  destruct (updateReserves_detector
              (Js.clock (runtime wFirst) (Js.clock_reads (runtime wFirst)))
              chainId sub b0 b1 (monitor wFirst) d1 Hfee Hb0 Hb1 Hd1')
    as [d2 Hd2].
  destruct (checkArbitrage_runs chainId w2 d2 config Hd2 Hconfig)
    as [Hm2 [rest2 He2]].
  assert (Hmonitor :
            monitor (snd (checkArbitrage math CHAIN_CONFIGS chainId w2))
            = snd (updateReserves math
                     (Js.clock (runtime wFirst)
                               (Js.clock_reads (runtime wFirst)))
                     chainId sub b0 b1 (monitor w))).
  { rewrite Hm2. subst w2. cbn [monitor]. rewrite Hm1. subst w1.
    cbn [monitor]. apply updateReserves_last_wins; assumption. }
  split; [exact Hmonitor |].
  split.
  - rewrite Hmonitor. apply updateReserves_getReserves; assumption.
  - exists rest1, rest2. rewrite He2. subst w2. cbn [effects].
    rewrite He1. subst w1. cbn [effects].
    rewrite <- app_assoc. reflexivity.
Qed.

End PoolUpdates.

Section PoolUpdateScenario.
Import PriceMonitor.

Lemma monitor0_wellFormed : wellFormed Scenario.monitor0.
Proof.
  intros chainId d Hd. unfold Scenario.monitor0 in Hd. cbn [detectors] in Hd.
  apply lookup_singleton_Some in Hd. destruct Hd as [_ <-].
  intros a l Hget. discriminate Hget.
Qed.

Lemma sync_logs_apply_in_delivery_order_witness :
  let wFirst :=
    snd (onSyncLog Reference.math Chains.CHAIN_CONFIGS 1
           Scenario.uniUsdcWeth tt
           (SyncLog.mk 19000000 5 (Some (3000000 * Scenario.ether))
                       (Some (1000 * Scenario.ether)))
           Scenario.monitorWorld) in
  let wBoth :=
    snd (onSyncLog Reference.math Chains.CHAIN_CONFIGS 1
           Scenario.uniUsdcWeth tt
           (SyncLog.mk 19000000 4 (Some (2900000 * Scenario.ether))
                       (Some (1010 * Scenario.ether)))
           wFirst) in
  let now := Js.clock (runtime wFirst) (Js.clock_reads (runtime wFirst)) in
  monitor wBoth
  = snd (updateReserves Reference.math now 1 Scenario.uniUsdcWeth
           (2900000 * Scenario.ether) (1010 * Scenario.ether)
           (monitor Scenario.monitorWorld)) /\
  getReserves (monitor wBoth) 1 (PoolSubscription.pool Scenario.uniUsdcWeth)
  = Some (PoolReserves.mk (PoolSubscription.pool Scenario.uniUsdcWeth)
            (PoolSubscription.dex Scenario.uniUsdcWeth)
            (PoolSubscription.token0 Scenario.uniUsdcWeth)
            (PoolSubscription.token1 Scenario.uniUsdcWeth)
            (2900000 * Scenario.ether) (1010 * Scenario.ether)
            (PoolSubscription.fee Scenario.uniUsdcWeth) now) /\
  exists rest1 rest2,
    effects wBoth
    = effects Scenario.monitorWorld ++ DetectorRun 1 :: rest1
      ++ DetectorRun 1 :: rest2.
Proof.
  apply (sync_logs_apply_in_delivery_order Reference.math
           Chains.CHAIN_CONFIGS 1 Scenario.uniUsdcWeth
           19000000 5 19000000 4
           (3000000 * Scenario.ether) (1000 * Scenario.ether)
           (2900000 * Scenario.ether) (1010 * Scenario.ether)
           Scenario.monitorWorld
           (ArbitrageDetector.new 1 ArbitrageDetector.default_minProfitBps)
           (ChainConfig.mk "Ethereum" Scenario.WETH Chains.PLACEHOLDER)).
  - exact monitor0_wellFormed.
  - vm_compute. reflexivity.
  - vm_compute. discriminate.
  - vm_compute. discriminate.
  - vm_compute. discriminate.
  - vm_compute. discriminate.
  - reflexivity.
  - reflexivity.
Defined.

(** C2 as stated fails: the log at index 4 of a block, delivered after the
    log at index 5 of the same block, replaces the stored reserves and the
    graph edges of the pool (the state is not the one the log at index 5
    alone produced) and runs the detector a second time. *)
Lemma stale_sync_log_is_applied :
  let wHigh :=
    snd (onSyncLog Reference.math Chains.CHAIN_CONFIGS 1
           Scenario.uniUsdcWeth tt Scenario.syncHigh Scenario.monitorWorld) in
  let wBoth :=
    snd (onSyncLog Reference.math Chains.CHAIN_CONFIGS 1
           Scenario.uniUsdcWeth tt Scenario.syncLow wHigh) in
  SyncLog.logIndex Scenario.syncLow < SyncLog.logIndex Scenario.syncHigh /\
  option_map PoolReserves.reserve0
    (getReserves (monitor wHigh) 1 Scenario.UNI)
  = Some (3000000 * Scenario.ether) /\
  option_map PoolReserves.reserve0
    (getReserves (monitor wBoth) 1 Scenario.UNI)
  = Some (2900000 * Scenario.ether) /\
  map Edge.reserve0
      (ArbitrageDetector.edges_get
         (ArbitrageDetector.graph (Scenario.detectorOf (monitor wHigh)))
         Scenario.USDC)
  = [3000000 * Scenario.ether] /\
  map Edge.reserve0
      (ArbitrageDetector.edges_get
         (ArbitrageDetector.graph (Scenario.detectorOf (monitor wBoth)))
         Scenario.USDC)
  = [2900000 * Scenario.ether] /\
  effects wHigh = [DetectorRun 1] /\
  effects wBoth = [DetectorRun 1; DetectorRun 1].
Proof.
  cbv zeta.
  split; [vm_compute; reflexivity |].
  split; [vm_compute; reflexivity |].
  split; [vm_compute; reflexivity |].
  split; [vm_compute; reflexivity |].
  split; [vm_compute; reflexivity |].
  split; vm_compute; reflexivity.
Qed.

End PoolUpdateScenario.

(** ** Further properties of the detector and the monitor *)
Section Further.
Import ArbitrageDetector.

(** The fuel of [extractLoop] is never exhausted: every iteration that goes
    on marks a key of [predecessor] that was not marked before. *)
Lemma extractLoop_fuel (p : gmap string (option Edge.t)) :
  forall fuel1 fuel2 visited current cycle,
    visited ⊆ dom p ->
    (size (dom p ∖ visited) < fuel1)%nat ->
    (size (dom p ∖ visited) < fuel2)%nat ->
    extractLoop fuel1 p visited current cycle
    = extractLoop fuel2 p visited current cycle.
Proof.
  induction fuel1 as [| fuel1 IH]; intros [| fuel2] visited current cycle
    Hsub H1 H2; try lia.
  cbn [extractLoop]. destruct (bool_decide_reflect (current ∈ visited))
    as [Hin | Hout]; [reflexivity |].
  destruct (p !! current) as [[edge |] |] eqn:Hcur; try reflexivity.
  assert (Hdom : current ∈ dom p) by (apply elem_of_dom; eauto).
  assert (Hless : (size (dom p ∖ ({[current]} ∪ visited))
                   < size (dom p ∖ visited))%nat).
  { apply subset_size. set_solver. }
  apply IH; [set_solver | lia | lia].
Qed.

(** X1. The loop of [extractCycle] ends within [size p + 1] iterations:
    any further fuel leaves its result unchanged. *)
Lemma extractLoop_enough_fuel (p : gmap string (option Edge.t))
    (start : Address) (extra : nat) :
  extractLoop (S (size p) + extra) p ∅ start []
  = extractLoop (S (size p)) p ∅ start [].
Proof.
  apply extractLoop_fuel.
  - set_solver.
  - rewrite difference_empty_L, size_dom. lia.
  - rewrite difference_empty_L, size_dom. lia.
Qed.

(** X2. The two reference quotes of a pool never gain on a round trip: with
    [g = 10000 - fee], the product of the two outputs, scaled by [10000^2],
    is at most [(delta * g)^2]. In exact arithmetic this is
    [rate01 * rate10 <= (g / 10000)^2 <= 1], that is
    [-ln rate01 - ln rate10 >= 0]. *)
Lemma calculateRate_round_trip (reserve0 reserve1 delta feeBps : Z) :
  0 < delta -> 0 <= reserve0 -> 0 <= reserve1 -> 0 <= feeBps < 10000 ->
  exists q01 q10,
    calculateRate reserve0 reserve1 delta feeBps = Js.Ok q01 /\
    calculateRate reserve1 reserve0 delta feeBps = Js.Ok q10 /\
    amountOut q01 * amountOut q10 * (10000 * 10000)
    <= (delta * (10000 - feeBps)) * (delta * (10000 - feeBps)) /\
    amountOut q01 * amountOut q10 <= delta * delta.
Proof.
  intros Hd H0 H1 Hfee.
  set (a := delta * (10000 - feeBps)).
  assert (Ha : 0 < a) by (unfold a; nia).
  destruct (calculateRate_amountOut reserve0 reserve1 delta feeBps)
    as [q01 [Hq01 Hx]]; [fold a; nia |].
  destruct (calculateRate_amountOut reserve1 reserve0 delta feeBps)
    as [q10 [Hq10 Hy]]; [fold a; nia |].
  exists q01, q10. split; [exact Hq01 |]. split; [exact Hq10 |].
  fold a in Hx, Hy.
  rewrite Z.quot_div_nonneg in Hx by nia.
  rewrite Z.quot_div_nonneg in Hy by nia.
  set (x := amountOut q01) in *. set (y := amountOut q10) in *.
  assert (Hx0 : 0 <= x) by (rewrite Hx; apply Z.div_pos; nia).
  assert (Hy0 : 0 <= y) by (rewrite Hy; apply Z.div_pos; nia).
  assert (Hxle : x * (reserve0 * 10000 + a) <= a * reserve1).
  { rewrite Hx. rewrite Z.mul_comm. apply Z.mul_div_le. nia. }
  assert (Hyle : y * (reserve1 * 10000 + a) <= a * reserve0).
  { rewrite Hy. rewrite Z.mul_comm. apply Z.mul_div_le. nia. }
  assert (Hscaled : x * y * (10000 * 10000) <= a * a).
  { destruct (Z.eq_dec reserve0 0) as [E0 | E0].
    - assert (y = 0) by (rewrite Hy, E0, Z.mul_0_r; apply Z.div_0_l; nia).
      nia.
    - destruct (Z.eq_dec reserve1 0) as [E1 | E1].
      + assert (x = 0)
          by (rewrite Hx, E1, Z.mul_0_r; apply Z.div_0_l; nia).
        nia.
      + assert (Hx' : x * (reserve0 * 10000) <= a * reserve1) by nia.
        assert (Hy' : y * (reserve1 * 10000) <= a * reserve0) by nia.
        assert (Hprod : (x * (reserve0 * 10000)) * (y * (reserve1 * 10000))
                        <= (a * reserve1) * (a * reserve0)).
        { apply Z.mul_le_mono_nonneg; nia. }
        apply (Z.mul_le_mono_pos_r _ _ (reserve0 * reserve1)); nia. }
  split; [exact Hscaled |].
  assert (a <= delta * 10000) by (unfold a; nia).
  assert (a * a <= (delta * 10000) * (delta * 10000))
    by (apply Z.mul_le_mono_nonneg; lia).
  nia.
Qed.

Lemma edges_get_addEdge_same (e : Edge.t) (g : Graph.t) :
  In e (edges_get (addEdge e g) (Edge.from e)).
Proof.
  unfold edges_get, addEdge. cbn [Graph.edges].
  rewrite map_get_set_same. apply in_or_app. right. left. reflexivity.
Qed.

Lemma edges_get_addEdge_other (e : Edge.t) (g : Graph.t) (a : Address) :
  Edge.from e <> a -> edges_get (addEdge e g) a = edges_get g a.
Proof.
  intros Hne. unfold edges_get, addEdge. cbn [Graph.edges].
  rewrite map_get_set_other by exact Hne. reflexivity.
Qed.

Lemma calculateRate_round_trip_witness :
  exists q01 q10,
    calculateRate (3000000 * 10 ^ 18) (1000 * 10 ^ 18) (10 ^ 18) 30
    = Js.Ok q01 /\
    calculateRate (1000 * 10 ^ 18) (3000000 * 10 ^ 18) (10 ^ 18) 30
    = Js.Ok q10 /\
    amountOut q01 * amountOut q10 * (10000 * 10000)
    <= (10 ^ 18 * (10000 - 30)) * (10 ^ 18 * (10000 - 30)) /\
    amountOut q01 * amountOut q10 <= 10 ^ 18 * 10 ^ 18.
Proof.
  apply (calculateRate_round_trip (3000000 * 10 ^ 18) (1000 * 10 ^ 18)
                                  (10 ^ 18) 30); lia.
Defined.

End Further.

Section BothEdges.
Import PriceMonitor.

(** X3. After [updateReserves] on a pool of two distinct tokens, the detector of
    the chain holds both derived edges: the forward edge in the adjacency
    list of [token0], the reverse edge in the one of [token1]. *)
Lemma updateReserves_adds_both_edges math now chainId sub reserve0 reserve1
    m d :
  PoolSubscription.fee sub < 10000 -> 0 <= reserve0 -> 0 <= reserve1 ->
  PoolSubscription.token0 sub <> PoolSubscription.token1 sub ->
  detectors m !! chainId = Some d ->
  exists d' q01 q10,
    detectors (snd (updateReserves math now chainId sub reserve0 reserve1 m))
    !! chainId = Some d' /\
    ArbitrageDetector.calculateRate reserve0 reserve1 (10 ^ 18)
      (PoolSubscription.fee sub) = Js.Ok q01 /\
    ArbitrageDetector.calculateRate reserve1 reserve0 (10 ^ 18)
      (PoolSubscription.fee sub) = Js.Ok q10 /\
    In (forwardEdge math sub reserve0 reserve1 (ArbitrageDetector.rate q01))
       (ArbitrageDetector.edges_get (ArbitrageDetector.graph d')
                                    (PoolSubscription.token0 sub)) /\
    In (reverseEdge math sub reserve0 reserve1 (ArbitrageDetector.rate q10))
       (ArbitrageDetector.edges_get (ArbitrageDetector.graph d')
                                    (PoolSubscription.token1 sub)).
Proof.
  intros Hfee H0 H1 Htokens Hd.
  destruct (reference_quotes reserve0 reserve1 _ H0 H1 Hfee)
    as [q01 [q10 [Hq Hq']]].
  rewrite (updateReserves_run math now chainId sub reserve0 reserve1 q01 q10 m
                              Hq Hq').
  cbn [snd detectors]. rewrite lookup_alter_eq, Hd.
  cbn [fmap option_fmap option_map].
  eexists. exists q01, q10. split; [reflexivity |].
  split; [exact Hq |]. split; [exact Hq' |].
  unfold withEdges. cbn [ArbitrageDetector.graph]. split.
  - rewrite edges_get_addEdge_other
      by (cbn [reverseEdge Edge.from]; intros H; apply Htokens; symmetry;
          exact H).
    apply (edges_get_addEdge_same
             (forwardEdge math sub reserve0 reserve1
                          (ArbitrageDetector.rate q01))).
  - apply (edges_get_addEdge_same
             (reverseEdge math sub reserve0 reserve1
                          (ArbitrageDetector.rate q10))).
Qed.

Lemma updateReserves_adds_both_edges_witness :
  exists d' q01 q10,
    detectors
      (snd (updateReserves Reference.math 1700000000000 1
              Scenario.uniUsdcWeth (3000000 * Scenario.ether)
              (1000 * Scenario.ether) Scenario.monitor0))
    !! 1 = Some d' /\
    ArbitrageDetector.calculateRate (3000000 * Scenario.ether)
      (1000 * Scenario.ether) (10 ^ 18)
      (PoolSubscription.fee Scenario.uniUsdcWeth) = Js.Ok q01 /\
    ArbitrageDetector.calculateRate (1000 * Scenario.ether)
      (3000000 * Scenario.ether) (10 ^ 18)
      (PoolSubscription.fee Scenario.uniUsdcWeth) = Js.Ok q10 /\
    In (forwardEdge Reference.math Scenario.uniUsdcWeth
          (3000000 * Scenario.ether) (1000 * Scenario.ether)
          (ArbitrageDetector.rate q01))
       (ArbitrageDetector.edges_get (ArbitrageDetector.graph d')
          (PoolSubscription.token0 Scenario.uniUsdcWeth)) /\
    In (reverseEdge Reference.math Scenario.uniUsdcWeth
          (3000000 * Scenario.ether) (1000 * Scenario.ether)
          (ArbitrageDetector.rate q10))
       (ArbitrageDetector.edges_get (ArbitrageDetector.graph d')
          (PoolSubscription.token1 Scenario.uniUsdcWeth)).
Proof.
  apply (updateReserves_adds_both_edges Reference.math 1700000000000 1
           Scenario.uniUsdcWeth (3000000 * Scenario.ether)
           (1000 * Scenario.ether) Scenario.monitor0
           (ArbitrageDetector.new 1 ArbitrageDetector.default_minProfitBps)).
  - vm_compute. reflexivity.
  - vm_compute. discriminate.
  - vm_compute. discriminate.
  - vm_compute. discriminate.
  - reflexivity.
Defined.

End BothEdges.

(** ** Boundary cases of the detector *)
Section Boundaries.
Import ArbitrageDetector.

(** X4. On a detector that has received no edge, the search returns the
    empty list: it does not throw and reads neither the clock nor the random
    source. *)
Theorem findArbitrageOpportunities_empty_graph
    math (chain bps : Z) (sourceToken : Address) (inputAmount : Z)
    (rt : Js.Runtime) :
  findArbitrageOpportunities math (new chain bps) sourceToken inputAmount rt
  = (Js.Ok [], rt).
Proof.
  unfold findArbitrageOpportunities, new. cbn [graph Graph.vertices Graph.empty].
  reflexivity.
Qed.

(** X5. A pool side with no output reserve: the reference quote of
    [updateReserves] returns [amountOut = 0] and the rate [0], and
    [calculateWeight] turns that rate into [Infinity], whatever [Math.log]
    is. *)
Theorem calculateRate_empty_reserve math (reserveIn feeBps : Z) :
  0 <= reserveIn -> feeBps < 10000 ->
  exists q,
    calculateRate reserveIn 0 (10 ^ 18) feeBps = Js.Ok q /\
    amountOut q = 0 /\
    rate q = 0%float /\
    calculateWeight math (rate q) = infinity.
Proof.
  intros Hin Hfee.
  assert (Hden : reserveIn * 10000 + 10 ^ 18 * (10000 - feeBps) <> 0) by nia.
  unfold calculateRate. rewrite (bigint_div_nonzero _ _ Hden).
  cbn [Js.bind]. rewrite Z.mul_0_r, (Z.quot_0_l _ Hden).
  eexists. split; [reflexivity |]. cbn [amountOut rate].
  assert (Hrate : (Js.Number 0 / Js.Number (10 ^ 18))%float = 0%float)
    by (vm_compute; reflexivity).
  rewrite Hrate. split; [reflexivity |]. split; [reflexivity |].
  unfold calculateWeight.
  assert (Hleb : PrimFloat.leb 0 0 = true) by (vm_compute; reflexivity).
  rewrite Hleb. reflexivity.
Qed.

Lemma calculateRate_empty_reserve_witness :
  exists q,
    calculateRate (500 * 10 ^ 18) 0 (10 ^ 18) 30 = Js.Ok q /\
    amountOut q = 0 /\
    rate q = 0%float /\
    calculateWeight Reference.math (rate q) = infinity.
Proof.
  apply (calculateRate_empty_reserve Reference.math (500 * 10 ^ 18) 30); lia.
Defined.

(** As [findArbitrageOpportunities] calls it, with [maxHops = 3], the
    enumeration returns cycles of 3 or 4 edges only, on every graph and from
    every source. *)
Theorem findDirectCycles_three_or_four_edges (g : Graph.t) (source : Address) :
  Forall (fun c => length c = 3%nat \/ length c = 4%nat)
         (findDirectCycles g source 3).
Proof.
  eapply List.Forall_impl; [| apply findDirectCycles_cycle_lengths].
  intros c Hc. cbn beta in Hc. lia.
Qed.

End Boundaries.

(** ** The reserves that a quote reads *)
Section Orientation.
Import ArbitrageDetector.

Lemma str_lt_asym (a b : string) :
  Js.str_lt a b = true -> Js.str_lt b a = false.
Proof.
  unfold Js.str_lt, String.ltb. rewrite (String.compare_antisym a b).
  destruct (String.compare b a); cbn; congruence.
Qed.

(** X6. For a pool whose [token0] sorts before its [token1], as the pairs of
    a V2 factory do, [buildOpportunity] reads the same pair
    [(reserveIn, reserveOut) = (reserve0, reserve1)] of the pool for the two
    edges that [updateReserves] derives from it: the reverse edge already
    stores the reserves swapped, and the address test swaps them back. The
    edge from [token1] to [token0] is so quoted against the reserve of
    [token0] as its input side. *)
Theorem buildOpportunity_reads_forward_reserves
    math (sub : PoolSubscription.t) (reserve0 reserve1 : Z)
    (rate01 rate10 : float) :
  Js.str_lt (Js.toLowerCase (PoolSubscription.token0 sub))
            (Js.toLowerCase (PoolSubscription.token1 sub)) = true ->
  reserveIn (PriceMonitor.forwardEdge math sub reserve0 reserve1 rate01)
  = reserve0 /\
  reserveOut (PriceMonitor.forwardEdge math sub reserve0 reserve1 rate01)
  = reserve1 /\
  reserveIn (PriceMonitor.reverseEdge math sub reserve0 reserve1 rate10)
  = reserve0 /\
  reserveOut (PriceMonitor.reverseEdge math sub reserve0 reserve1 rate10)
  = reserve1.
Proof.
  intros Hlt. pose proof (str_lt_asym _ _ Hlt) as Hgt.
  unfold reserveIn, reserveOut, isToken0ToToken1.
  cbn [PriceMonitor.forwardEdge PriceMonitor.reverseEdge Edge.from Edge.to
       Edge.reserve0 Edge.reserve1].
  rewrite Hlt, Hgt. repeat split; reflexivity.
Qed.

Lemma buildOpportunity_reads_forward_reserves_witness :
  reserveIn (PriceMonitor.forwardEdge Reference.math Scenario.uniUsdcWeth
               (3000000 * Scenario.ether) (1000 * Scenario.ether) 1%float)
  = 3000000 * Scenario.ether /\
  reserveOut (PriceMonitor.forwardEdge Reference.math Scenario.uniUsdcWeth
                (3000000 * Scenario.ether) (1000 * Scenario.ether) 1%float)
  = 1000 * Scenario.ether /\
  reserveIn (PriceMonitor.reverseEdge Reference.math Scenario.uniUsdcWeth
               (3000000 * Scenario.ether) (1000 * Scenario.ether) 1%float)
  = 3000000 * Scenario.ether /\
  reserveOut (PriceMonitor.reverseEdge Reference.math Scenario.uniUsdcWeth
                (3000000 * Scenario.ether) (1000 * Scenario.ether) 1%float)
  = 1000 * Scenario.ether.
Proof.
  apply (buildOpportunity_reads_forward_reserves Reference.math
           Scenario.uniUsdcWeth (3000000 * Scenario.ether)
           (1000 * Scenario.ether) 1%float 1%float).
  vm_compute. reflexivity.
Defined.

(** The effect on a quote: on the USDC/WETH pair holding 3,000,000 USDC
    units and 1,000 WETH units (scaled to 18 decimals), [updateReserves]
    prices one WETH at about 2988 units for the weight of the edge WETH to
    USDC, while the quote of [buildOpportunity] along that edge gives about
    0.00033 units. *)
Theorem reverse_edge_quote_on_usdc_weth :
  exists reference edge rest steps,
    calculateRate (1000 * Scenario.ether) (3000000 * Scenario.ether)
                  (10 ^ 18) 30 = Js.Ok reference /\
    amountOut reference = 2988020943119709649479 /\
    edges_get (graph (Scenario.detectorOf Scenario.twoPools)) Scenario.WETH
    = edge :: rest /\
    Edge.to edge = Scenario.USDC /\
    Edge.pool edge = Scenario.UNI /\
    quoteLoop [edge] ([], 10 ^ 18) = Js.Ok (steps, 332333222887925) /\
    map SwapStep.expectedAmountOut steps = [332333222887925].
Proof.
  eexists. eexists. eexists. eexists.
  split; [vm_compute; reflexivity |].
  split; [vm_compute; reflexivity |].
  split; [vm_compute; reflexivity |].
  split; [vm_compute; reflexivity |].
  split; [vm_compute; reflexivity |].
  split; vm_compute; reflexivity.
Qed.

End Orientation.

(** ** Repeated updates *)
Section Idempotence.
Import PriceMonitor.

(** X7. Applying the same pool update twice leaves what one application
    leaves: the same graph for every chain and the same stored reserves,
    stamped with the time of the last application. *)
Theorem updateReserves_idempotent math (t1 t2 : Z) (chainId : Z)
    (sub : PoolSubscription.t) (reserve0 reserve1 : Z) (m : PriceMonitor.t) :
  wellFormed m ->
  PoolSubscription.fee sub < 10000 -> 0 <= reserve0 -> 0 <= reserve1 ->
  snd (updateReserves math t2 chainId sub reserve0 reserve1
         (snd (updateReserves math t1 chainId sub reserve0 reserve1 m)))
  = snd (updateReserves math t2 chainId sub reserve0 reserve1 m).
Proof.
  intros Hwf Hfee H0 H1.
  apply updateReserves_last_wins; assumption.
Qed.

Lemma updateReserves_idempotent_witness :
  snd (updateReserves Reference.math 1700000000500 1 Scenario.uniUsdcWeth
         (3000000 * Scenario.ether) (1000 * Scenario.ether)
         (snd (updateReserves Reference.math 1700000000000 1
                 Scenario.uniUsdcWeth
                 (3000000 * Scenario.ether) (1000 * Scenario.ether)
                 Scenario.monitor0)))
  = snd (updateReserves Reference.math 1700000000500 1 Scenario.uniUsdcWeth
           (3000000 * Scenario.ether) (1000 * Scenario.ether)
           Scenario.monitor0).
Proof.
  apply (updateReserves_idempotent Reference.math 1700000000000 1700000000500
           1 Scenario.uniUsdcWeth (3000000 * Scenario.ether)
           (1000 * Scenario.ether) Scenario.monitor0).
  - exact monitor0_wellFormed.
  - vm_compute. reflexivity.
  - vm_compute. discriminate.
  - vm_compute. discriminate.
Defined.

End Idempotence.

(** ** The guards of the contract *)
Section ContractGuards.
Import FlashloanArbitrage.

Lemma checked_add_Some (a b c : Z) : checked_add a b = Some c -> c = a + b.
Proof.
  unfold checked_add. destruct (a + b <=? MAX_UINT256); congruence.
Qed.

Lemma executeSwaps_approved (st : State) (obs : Observed)
    (swaps : list SwapParam.t) :
  forall i,
    executeSwaps st obs i swaps = true ->
    Forall (fun swap => routerApproved st (SwapParam.router swap) = true) swaps.
Proof.
  induction swaps as [| swap rest IH]; intros i H; [constructor |].
  cbn [executeSwaps] in H.
  apply andb_true_iff in H. destruct H as [H Hrest].
  apply andb_true_iff in H. destruct H as [Happroved _].
  constructor; [exact Happroved | exact (IH (S i) Hrest)].
Qed.

(** What a callback that does not revert has checked. *)
Lemma receiveFlashLoan_checks msgSender token tokens amount amounts fee fees
    params obs st st' :
  receiveFlashLoan msgSender (token :: tokens) (amount :: amounts)
                   (fee :: fees) (Some params) obs st = Some st' ->
  msgSender = BALANCER_VAULT /\
  executeSwaps st obs 0 (ArbitrageParams.swaps params) = true /\
  amount + fee + ArbitrageParams.minProfit params <= balanceAfter obs /\
  recordedLoss obs <= Z.max 0 (maxLossPerTx st).
Proof.
  unfold receiveFlashLoan, recordedLoss. intros H.
  destruct (String.eqb_spec msgSender BALANCER_VAULT) as [Hvault | _];
    [| discriminate H].
  cbn [negb] in H. split; [exact Hvault |].
  destruct (executeSwaps st obs 0 (ArbitrageParams.swaps params));
    [| discriminate H].
  cbn [negb] in H. split; [reflexivity |].
  destruct (checked_add amount fee) as [repayAmount |] eqn:Hrepay;
    [| discriminate H].
  apply checked_add_Some in Hrepay.
  destruct (checked_add repayAmount (ArbitrageParams.minProfit params))
    as [required |] eqn:Hrequired; [| discriminate H].
  apply checked_add_Some in Hrequired.
  destruct (Z.ltb_spec (balanceAfter obs) required) as [| Hprofit];
    [discriminate H |].
  split; [lia |].
  destruct (Z.ltb_spec (balanceAfter obs) (balanceBefore obs)) as [Hloss | Hgain].
  - destruct (Z.ltb_spec (maxLossPerTx st)
                         (balanceBefore obs - balanceAfter obs));
      [discriminate H | lia].
  - lia.
Qed.

(** X8. An [executeArbitrage] call that does not revert has left in the
    contract at least the flashloan, its fee and [minProfit] of the
    flash token: otherwise the callback reverts with
    [InsufficientProfit]. *)
Theorem executeArbitrage_enforces_minProfit (tx : Tx)
    (params : ArbitrageParams.t) (feeAmount : Z) (obs : Observed)
    (st st' : State) :
  call tx = ExecuteArbitrage params feeAmount obs ->
  step tx st = Some st' ->
  ArbitrageParams.flashAmount params + feeAmount
  + ArbitrageParams.minProfit params <= balanceAfter obs.
Proof.
  intros Hcall Hstep. unfold step in Hstep. rewrite Hcall in Hstep.
  apply executeArbitrage_storage in Hstep. destruct Hstep as [_ Hcallback].
  apply receiveFlashLoan_checks in Hcallback.
  destruct Hcallback as [_ [_ [Hprofit _]]]. exact Hprofit.
Qed.

Lemma executeArbitrage_enforces_minProfit_witness :
  ArbitrageParams.flashAmount Scenario.flashParams + 0
  + ArbitrageParams.minProfit Scenario.flashParams
  <= balanceAfter
       (mkObserved (Scenario.ether + Scenario.ether) (fun _ => true)
          (Scenario.ether + Scenario.ether - Scenario.ether / 20) true).
Proof.
  apply (executeArbitrage_enforces_minProfit
           (Scenario.losing Scenario.ether (Scenario.ether / 20)
              (Scenario.DEPLOYED_AT + 60))
           Scenario.flashParams 0 _ Scenario.deployed
           (setLoss Scenario.deployed (Scenario.ether / 20) false)).
  - reflexivity.
  - vm_compute. reflexivity.
Defined.

(** X9. An [executeArbitrage] call that does not revert has sent every swap
    to an approved router, and has recorded a loss of at most
    [maxLossPerTx]. *)
Theorem executeArbitrage_routers_and_loss (tx : Tx)
    (params : ArbitrageParams.t) (feeAmount : Z) (obs : Observed)
    (st st' : State) :
  call tx = ExecuteArbitrage params feeAmount obs ->
  step tx st = Some st' ->
  Forall (fun swap => routerApproved st (SwapParam.router swap) = true)
         (ArbitrageParams.swaps params) /\
  recordedLoss obs <= Z.max 0 (maxLossPerTx st).
Proof.
  intros Hcall Hstep. unfold step in Hstep. rewrite Hcall in Hstep.
  apply executeArbitrage_storage in Hstep. destruct Hstep as [_ Hcallback].
  apply receiveFlashLoan_checks in Hcallback.
  destruct Hcallback as [_ [Hswaps [_ Hloss]]].
  apply executeSwaps_approved in Hswaps.
  unfold afterReset in Hswaps, Hloss.
  destruct (windowOver (timestamp tx) st); split; assumption.
Qed.

Lemma executeArbitrage_routers_and_loss_witness :
  Forall (fun swap =>
            routerApproved Scenario.deployed (SwapParam.router swap) = true)
         (ArbitrageParams.swaps Scenario.flashParams) /\
  recordedLoss
    (mkObserved (Scenario.ether + Scenario.ether) (fun _ => true)
       (Scenario.ether + Scenario.ether - Scenario.ether / 20) true)
  <= Z.max 0 (maxLossPerTx Scenario.deployed).
Proof.
  apply (executeArbitrage_routers_and_loss
           (Scenario.losing Scenario.ether (Scenario.ether / 20)
              (Scenario.DEPLOYED_AT + 60))
           Scenario.flashParams 0 _ Scenario.deployed
           (setLoss Scenario.deployed (Scenario.ether / 20) false)).
  - reflexivity.
  - vm_compute. reflexivity.
Defined.

(** The configuration and rescue functions revert for every sender but
    the owner. *)
Theorem ownerOnly_calls_revert_for_others (tx : Tx) (st : State) :
  ownerOnly (call tx) = true ->
  String.eqb (sender tx) (owner st) = false ->
  step tx st = None.
Proof.
  intros Hcall Hsender. unfold step, onlyOwner.
  destruct (call tx); try discriminate Hcall; rewrite Hsender; reflexivity.
Qed.

Lemma ownerOnly_calls_revert_for_others_witness :
  step (mkTx Scenario.ACCOUNT (Scenario.DEPLOYED_AT + 60) (SetPaused true))
       Scenario.deployed = None.
Proof.
  apply (ownerOnly_calls_revert_for_others
           (mkTx Scenario.ACCOUNT (Scenario.DEPLOYED_AT + 60) (SetPaused true))
           Scenario.deployed).
  - reflexivity.
  - vm_compute. reflexivity.
Defined.

End ContractGuards.

(** ** The processing of the queue *)
Section QueueProcessing.
Import Bot.

(** One flight at a time: while [isProcessing] is set, a call of
    [processQueue] returns at once and changes nothing. *)
Theorem processQueue_single_flight (config : BotConfig.t) (b : Bot.t)
    (rt : Js.Runtime) :
  isProcessing b = true ->
  processQueue config b rt = (Js.Ok b, rt).
Proof.
  intros Hbusy. unfold processQueue. rewrite Hbusy. reflexivity.
Qed.

Lemma processQueue_single_flight_witness :
  processQueue (Scenario.config true)
    (mk (state Scenario.bot0) [] [Scenario.opportunity] true AwaitingCooldown)
    (Reference.runtime 1700000000000)
  = (Js.Ok (mk (state Scenario.bot0) [] [Scenario.opportunity] true
               AwaitingCooldown),
     Reference.runtime 1700000000000).
Proof.
  apply (processQueue_single_flight (Scenario.config true)
           (mk (state Scenario.bot0) [] [Scenario.opportunity] true
               AwaitingCooldown)
           (Reference.runtime 1700000000000)).
  reflexivity.
Defined.

(** X10. The opportunity that [processQueue] hands to the executor was
    pending in the queue, the entries before it were dropped, its net USD
    profit is not below [minProfitUsd], and it had not expired at the last
    reading of the clock. *)
Theorem dequeueLoop_awaits_live_profitable (config : BotConfig.t)
    (queue : list ArbitrageOpportunity.t) :
  forall (b : Bot.t) (rt : Js.Runtime) (b' : Bot.t) (rt' : Js.Runtime)
         (opp : ArbitrageOpportunity.t),
    dequeueLoop config queue b rt = (Js.Ok b', rt') ->
    suspended b' = AwaitingExecute opp ->
    (exists dropped, queue = dropped ++ opp :: opportunityQueue b') /\
    isProcessing b' = true /\
    PrimFloat.ltb (ArbitrageOpportunity.netProfitUsd opp)
                  (BotConfig.minProfitUsd config) = false /\
    Js.clock rt' = Js.clock rt /\
    exists reads,
      Js.clock_reads rt' = S reads /\
      (ArbitrageOpportunity.expiresAt opp <? Js.clock rt reads) = false.
Proof.
  induction queue as [| o rest IH]; intros b rt b' rt' opp Hrun Hawait.
  - cbn [dequeueLoop] in Hrun. unfold Js.ret in Hrun.
    injection Hrun as Hb _. subst b'. discriminate Hawait.
  - cbn [dequeueLoop] in Hrun.
    destruct (BotState.isPaused (state b)).
    + unfold Js.ret in Hrun. injection Hrun as Hb _. subst b'.
      discriminate Hawait.
    + unfold Js.mbind, Js.Date_now in Hrun. cbv beta iota in Hrun.
      destruct (ArbitrageOpportunity.expiresAt o
                <? Js.clock rt (Js.clock_reads rt)) eqn:Hexpired.
      * destruct (IH _ _ _ _ _ Hrun Hawait)
          as [[dropped Hq] [Hbusy [Hprofit [Hclock Hreads]]]].
        split; [exists (o :: dropped); rewrite Hq; reflexivity |].
        split; [exact Hbusy |]. split; [exact Hprofit |].
        split; [exact Hclock | exact Hreads].
      * destruct (PrimFloat.ltb (ArbitrageOpportunity.netProfitUsd o)
                                (BotConfig.minProfitUsd config)) eqn:Hlow.
        -- destruct (IH _ _ _ _ _ Hrun Hawait)
             as [[dropped Hq] [Hbusy [Hprofit [Hclock Hreads]]]].
           split; [exists (o :: dropped); rewrite Hq; reflexivity |].
           split; [exact Hbusy |]. split; [exact Hprofit |].
           split; [exact Hclock | exact Hreads].
        -- unfold Js.ret in Hrun. injection Hrun as Hb Hrt. subst b' rt'.
           cbn [suspended] in Hawait. injection Hawait as Hopp. subst o.
           cbn [opportunityQueue isProcessing Js.clock Js.clock_reads].
           split; [exists []; reflexivity |].
           split; [reflexivity |]. split; [exact Hlow |].
           split; [reflexivity |].
           exists (Js.clock_reads rt). split; [reflexivity | exact Hexpired].
Qed.

Lemma dequeueLoop_awaits_live_profitable_witness :
  let opp := priced Scenario.opportunity in
  let rt := Reference.runtime 1700000000000 in
  let b' := mk (state Scenario.bot0) [] [] true (AwaitingExecute opp) in
  let rt' := Js.mkRuntime (Js.clock rt) 1 (Js.random rt) 0 in
  (exists dropped, [opp] = dropped ++ opp :: opportunityQueue b') /\
  isProcessing b' = true /\
  PrimFloat.ltb (ArbitrageOpportunity.netProfitUsd opp)
                (BotConfig.minProfitUsd (Scenario.config true)) = false /\
  Js.clock rt' = Js.clock rt /\
  exists reads,
    Js.clock_reads rt' = S reads /\
    (ArbitrageOpportunity.expiresAt opp <? Js.clock rt reads) = false.
Proof.
  cbv zeta.
  apply (dequeueLoop_awaits_live_profitable (Scenario.config true)
           [priced Scenario.opportunity] Scenario.bot0
           (Reference.runtime 1700000000000)).
  - vm_compute. reflexivity.
  - reflexivity.
Defined.

(** After the result of an execution is recorded, the trade history
    holds at most [MAX_HISTORY = 100] entries, the newest first. *)
Theorem executeSettled_history_bounded (result : ExecutionResult.t)
    (b : Bot.t) (opportunity : ArbitrageOpportunity.t) (rt : Js.Runtime) :
  suspended b = AwaitingExecute opportunity ->
  exists b' rt',
    executeSettled result b rt = (Js.Ok b', rt') /\
    (length (tradeHistory b') <= MAX_HISTORY)%nat /\
    (exists entry,
        TradeHistory.id entry = ArbitrageOpportunity.id opportunity /\
        TradeHistory.success entry = ExecutionResult.success result /\
        tradeHistory b' = take MAX_HISTORY (entry :: tradeHistory b)) /\
    BotState.totalTrades (state b') = BotState.totalTrades (state b) + 1 /\
    suspended b' = AwaitingCooldown.
Proof.
  intros Hawait. unfold executeSettled. rewrite Hawait.
  unfold Js.mbind, Js.Date_now, Js.ret.
  destruct (ExecutionResult.success result) eqn:Hsuccess.
  - cbv beta iota. eexists. eexists. split; [reflexivity |].
    cbn [tradeHistory state suspended BotState.totalTrades].
    split; [rewrite length_take; apply Nat.le_min_l |].
    split; [| split; reflexivity].
    eexists. split; [| split; [| reflexivity]]; reflexivity.
  - cbv beta iota. eexists. eexists. split; [reflexivity |].
    cbn [tradeHistory state suspended BotState.totalTrades].
    split; [rewrite length_take; apply Nat.le_min_l |].
    split; [| split; reflexivity].
    eexists. split; [| split; [| reflexivity]]; reflexivity.
Qed.

Lemma executeSettled_history_bounded_witness :
  exists b' rt',
    executeSettled
      (ExecutionResult.mk true (Some TradeExecutor.zeroHash) (Some (10 ^ 17))
                          (Some 390000) None None 1700000000000)
      (mk (state Scenario.bot0) [] [] true
          (AwaitingExecute Scenario.opportunity))
      (Reference.runtime 1700000000000) = (Js.Ok b', rt') /\
    (length (tradeHistory b') <= MAX_HISTORY)%nat /\
    (exists entry,
        TradeHistory.id entry = ArbitrageOpportunity.id Scenario.opportunity /\
        TradeHistory.success entry = true /\
        tradeHistory b' = take MAX_HISTORY (entry :: [])) /\
    BotState.totalTrades (state b') = 0 + 1 /\
    suspended b' = AwaitingCooldown.
Proof.
  apply (executeSettled_history_bounded
           (ExecutionResult.mk true (Some TradeExecutor.zeroHash)
              (Some (10 ^ 17)) (Some 390000) None None 1700000000000)
           (mk (state Scenario.bot0) [] [] true
               (AwaitingExecute Scenario.opportunity))
           Scenario.opportunity (Reference.runtime 1700000000000)).
  reflexivity.
Defined.

End QueueProcessing.

(** ** Graphs built by [addEdge] *)
Section BuiltGraphs.
Import ArbitrageDetector.

Lemma addEdge_keyed (e : Edge.t) (g : Graph.t) :
  Shape.keyed g -> Shape.keyed (addEdge e g).
Proof.
  intros Hg a l x Hget Hx. unfold addEdge in Hget. cbn [Graph.edges] in Hget.
  destruct (String.eqb_spec (Edge.from e) a) as [Heq | Hne].
  - rewrite <- Heq in Hget. rewrite map_get_set_same in Hget.
    injection Hget as Hl. subst l. rewrite <- Heq.
    apply in_app_or in Hx. destruct Hx as [Hx | [Hx | []]].
    + apply remove_first_In in Hx. unfold edges_get in Hx.
      destruct (Js.map_get (Edge.from e) (Graph.edges g)) as [l0 |] eqn:Hl0;
        [| destruct Hx].
      exact (Hg _ _ _ Hl0 Hx).
    + subst x. reflexivity.
  - rewrite map_get_set_other in Hget by exact Hne.
    exact (Hg _ _ _ Hget Hx).
Qed.

Lemma built_keyed (g : Graph.t) : Shape.built g -> Shape.keyed g.
Proof.
  induction 1 as [| e g _ IH].
  - intros a l x Hget. discriminate Hget.
  - apply addEdge_keyed. exact IH.
Qed.

Lemma built_wellFormed (g : Graph.t) : Shape.built g -> wellFormed g.
Proof.
  induction 1 as [| e g _ IH].
  - intros a l Hget. discriminate Hget.
  - apply addEdge_wellFormed. exact IH.
Qed.

Lemma edges_get_keyed (g : Graph.t) (a : Address) (e : Edge.t) :
  Shape.keyed g -> In e (edges_get g a) -> Edge.from e = a.
Proof.
  intros Hg He. unfold edges_get in He.
  destruct (Js.map_get a (Graph.edges g)) as [l |] eqn:Hl; [| destruct He].
  exact (Hg _ _ _ Hl He).
Qed.

End BuiltGraphs.

(** ** The cycles of the bounded-depth enumeration are closed walks *)
Section DirectWalks.
Import ArbitrageDetector.

Lemma walk_snoc (a b : Address) (l : list Edge.t) (e : Edge.t) :
  Shape.walk a b l -> Edge.from e = b -> Shape.walk a (Edge.to e) (l ++ [e]).
Proof.
  revert a. induction l as [| x l IH]; intros a Hwalk He; cbn in *.
  - subst a. split; [exact He | reflexivity].
  - destruct Hwalk as [Hx Hrest]. split; [exact Hx |]. apply IH; assumption.
Qed.

(** [dfs] gives the set [visited] back as it received it. *)
Lemma dfs_visited (g : Graph.t) (source : Address) (maxHops : nat)
    (fuel : nat) :
  forall current path cycles visited,
    snd (dfs fuel g source maxHops current path (cycles, visited)) = visited.
Proof.
  induction fuel as [| fuel IH]; intros current path cycles visited;
    [reflexivity |].
  cbn [dfs]. destruct (maxHops <? length path)%nat; [reflexivity |].
  apply (fold_left_invariant
           (fun st : list (list Edge.t) * gset string => snd st = visited));
    [| reflexivity].
  intros [cycles0 visited0] edge _ Hacc. cbn [snd] in Hacc. subst visited0.
  destruct (String.eqb (Edge.to edge) source && (2 <=? length path)%nat);
    [reflexivity |].
  destruct (bool_decide_reflect (edgeKey edge ∈ visited)) as [Hin | Hout];
    cbn [negb andb]; [reflexivity |].
  destruct (length path <? maxHops)%nat; [| reflexivity].
  specialize (IH (Edge.to edge) (path ++ [edge]) cycles0
                 ({[edgeKey edge]} ∪ visited)).
  destruct (dfs fuel g source maxHops (Edge.to edge) (path ++ [edge])
                (cycles0, {[edgeKey edge]} ∪ visited)) as [cycles' visited'].
  cbn [snd] in IH |- *. subst visited'. set_solver.
Qed.

Lemma dfs_walks (g : Graph.t) (source : Address) (maxHops : nat) (fuel : nat) :
  Shape.keyed g ->
  forall current path cycles visited,
    Shape.walk source current path ->
    NoDup (map edgeKey path) ->
    (forall e, In e path -> edgeKey e ∈ visited) ->
    Forall (fun c => Shape.walk source source c /\
                     NoDup (map edgeKey (removelast c))) cycles ->
    Forall (fun c => Shape.walk source source c /\
                     NoDup (map edgeKey (removelast c)))
           (fst (dfs fuel g source maxHops current path (cycles, visited))).
Proof.
  intros Hg. induction fuel as [| fuel IH];
    intros current path cycles visited Hwalk Hnodup Hseen Hcycles;
    [exact Hcycles |].
  cbn [dfs]. destruct (maxHops <? length path)%nat; [exact Hcycles |].
  assert (Hfold :
            (fun st : list (list Edge.t) * gset string =>
               snd st = visited /\
               Forall (fun c => Shape.walk source source c /\
                                NoDup (map edgeKey (removelast c))) (fst st))
              (fold_left
                 (fun (st : list (list Edge.t) * gset string) (edge : Edge.t) =>
                    let '(cycles, visited) := st in
                    let key := edgeKey edge in
                    if String.eqb (Edge.to edge) source
                       && (2 <=? length path)%nat
                    then (cycles ++ [path ++ [edge]], visited)
                    else if negb (bool_decide (key ∈ visited))
                            && (length path <? maxHops)%nat
                    then
                      let '(cycles', visited') :=
                        dfs fuel g source maxHops (Edge.to edge)
                            (path ++ [edge]) (cycles, {[key]} ∪ visited) in
                      (cycles', visited' ∖ {[key]})
                    else (cycles, visited))
                 (edges_get g current) (cycles, visited))).
  { apply fold_left_invariant; [| split; [reflexivity | exact Hcycles]].
    intros [cycles0 visited0] edge Hedge [Hvis Hacc].
    cbn [fst snd] in Hvis, Hacc. subst visited0. cbv zeta.
    pose proof (edges_get_keyed g current edge Hg Hedge) as Hfrom.
    destruct (String.eqb (Edge.to edge) source && (2 <=? length path)%nat)
      eqn:Hclose.
    - cbn [fst snd]. split; [reflexivity |].
      apply Forall_app. split; [exact Hacc |].
      constructor; [| constructor].
      apply andb_true_iff in Hclose. destruct Hclose as [Hto _].
      apply String.eqb_eq in Hto. split.
      + pose proof (walk_snoc source current path edge Hwalk Hfrom) as Hw.
        rewrite Hto in Hw. exact Hw.
      + rewrite removelast_last. exact Hnodup.
    - destruct (bool_decide_reflect (edgeKey edge ∈ visited)) as [Hin | Hout];
        cbn [negb andb]; [split; [reflexivity | exact Hacc] |].
      destruct (length path <? maxHops)%nat;
        [| split; [reflexivity | exact Hacc]].
      pose proof (dfs_visited g source maxHops fuel (Edge.to edge)
                              (path ++ [edge]) cycles0
                              ({[edgeKey edge]} ∪ visited)) as Hback.
      assert (Hrec :
                Forall (fun c => Shape.walk source source c /\
                                 NoDup (map edgeKey (removelast c)))
                       (fst (dfs fuel g source maxHops (Edge.to edge)
                                 (path ++ [edge])
                                 (cycles0, {[edgeKey edge]} ∪ visited)))).
      { apply IH.
        - apply (walk_snoc source current); assumption.
        - rewrite map_app. cbn [map]. apply NoDup_app. split; [exact Hnodup |].
          split; [| apply NoDup_singleton].
          intros k Hk Hk'. apply list_elem_of_singleton in Hk'. subst k.
          apply list_elem_of_In in Hk. apply in_map_iff in Hk.
          destruct Hk as [e' [Hkey He']]. apply Hout. rewrite <- Hkey.
          apply Hseen. exact He'.
        - intros e' He'. apply in_app_or in He'.
          destruct He' as [He' | [He' | []]].
          + apply elem_of_union_r. apply Hseen. exact He'.
          + subst e'. apply elem_of_union_l. apply elem_of_singleton.
            reflexivity.
        - exact Hacc. }
      destruct (dfs fuel g source maxHops (Edge.to edge) (path ++ [edge])
                    (cycles0, {[edgeKey edge]} ∪ visited))
        as [cycles' visited'].
      cbn [fst snd] in Hback, Hrec |- *. subst visited'.
      split; [set_solver | exact Hrec]. }
  exact (proj2 Hfold).
Qed.

Lemma findDirectCycles_walks (g : Graph.t) (source : Address) (maxHops : nat) :
  Shape.keyed g ->
  Forall (fun c => Shape.walk source source c /\
                   NoDup (map edgeKey (removelast c)))
         (findDirectCycles g source maxHops).
Proof.
  intros Hkeyed. unfold findDirectCycles.
  apply (dfs_walks g source maxHops (S maxHops) Hkeyed source [] [] ∅).
  - reflexivity.
  - constructor.
  - intros e [].
  - constructor.
Qed.

(** X11. On every graph built by [addEdge], every cycle returned by
    [findDirectCycles] is a closed walk: it leaves the source, every edge
    leaves the vertex the previous one enters, and the last edge enters the
    source. It has between 3 and [maxHops + 1] edges, all of them edges of
    the graph, and no (from, to, pool) key occurs twice among its edges
    before the closing one. *)
Theorem findDirectCycles_closed_walks (g : Graph.t) (source : Address)
    (maxHops : nat) :
  Shape.built g ->
  Forall (fun c =>
            Shape.walk source source c /\
            NoDup (map edgeKey (removelast c)) /\
            (3 <= length c <= maxHops + 1)%nat /\
            Forall (Spec.inGraph g) c)
         (findDirectCycles g source maxHops).
Proof.
  intros Hbuilt. apply built_keyed in Hbuilt.
  pose proof (findDirectCycles_cycle_lengths g source maxHops) as Hlen.
  pose proof (findDirectCycles_inGraph g source maxHops) as Hin.
  pose proof (findDirectCycles_walks g source maxHops Hbuilt) as Hwalks.
  rewrite List.Forall_forall in Hlen, Hin, Hwalks |- *.
  intros c Hc. destruct (Hwalks c Hc) as [Hwalk Hnodup].
  split; [exact Hwalk |]. split; [exact Hnodup |].
  split; [exact (Hlen c Hc) | exact (Hin c Hc)].
Qed.

End DirectWalks.

(** ** The walk that [extractCycle] returns *)
Section ExtractedWalks.
Import ArbitrageDetector.

Lemma extractLoop_walk (p : gmap string (option Edge.t)) (start : Address) :
  Shape.pointsBack p ->
  forall fuel visited current cycle,
    Shape.walk current start cycle ->
    NoDup (map Edge.to cycle) ->
    (forall e, In e cycle -> Edge.to e ∈ visited) ->
    (forall e, In e cycle -> p !! Edge.to e = Some (Some e)) ->
    Shape.walk (snd (extractLoop fuel p visited current cycle)) start
               (fst (extractLoop fuel p visited current cycle)) /\
    NoDup (map Edge.to (fst (extractLoop fuel p visited current cycle))) /\
    (forall e, In e (fst (extractLoop fuel p visited current cycle)) ->
               p !! Edge.to e = Some (Some e)).
Proof.
  intros Hp. induction fuel as [| fuel IH];
    intros visited current cycle Hwalk Hnodup Hseen Hpred.
  - cbn. repeat split; assumption.
  - cbn [extractLoop].
    destruct (bool_decide_reflect (current ∈ visited)) as [Hin | Hout];
      [cbn; repeat split; assumption |].
    destruct (p !! current) as [[edge |] |] eqn:Hcur;
      try (cbn; repeat split; assumption).
    pose proof (Hp current edge Hcur) as Hto.
    apply IH.
    + cbn [Shape.walk]. split; [reflexivity |]. rewrite Hto. exact Hwalk.
    + cbn [map]. apply NoDup_cons. split; [| exact Hnodup].
      intros Hk. apply list_elem_of_In in Hk. apply in_map_iff in Hk.
      destruct Hk as [e' [Hkey He']]. apply Hout. rewrite <- Hto, <- Hkey.
      apply Hseen. exact He'.
    + intros e' [He' | He'].
      * subst e'. rewrite Hto. apply elem_of_union_l.
        apply elem_of_singleton. reflexivity.
      * apply elem_of_union_r. apply Hseen. exact He'.
    + intros e' [He' | He'].
      * subst e'. rewrite Hto. exact Hcur.
      * apply Hpred. exact He'.
Qed.

(** The search for the start of the cycle never trims: the first edge of
    the list leaves the vertex at which the loop stopped. *)
Lemma extractCycle_untrimmed (p : gmap string (option Edge.t))
    (start : Address) :
  Shape.pointsBack p ->
  extractCycle start p = fst (extractLoop (S (size p)) p ∅ start []).
Proof.
  intros Hp. unfold extractCycle.
  destruct (extractLoop_walk p start Hp (S (size p)) ∅ start [])
    as [Hwalk _]; try (intros e []); [reflexivity | constructor |].
  destruct (extractLoop (S (size p)) p ∅ start []) as [cycle cycleStart].
  cbn [fst snd] in Hwalk |- *.
  destruct cycle as [| first rest]; [reflexivity |].
  cbn [Shape.walk] in Hwalk. destruct Hwalk as [Hfirst _].
  cbn [Js.findIndex]. rewrite Hfirst, String.eqb_refl. reflexivity.
Qed.

Lemma extractCycle_walk (p : gmap string (option Edge.t)) (start : Address) :
  Shape.pointsBack p ->
  exists first, Shape.walk first start (extractCycle start p).
Proof.
  intros Hp. rewrite (extractCycle_untrimmed p start Hp).
  destruct (extractLoop_walk p start Hp (S (size p)) ∅ start [])
    as [Hwalk _]; try (intros e []); [reflexivity | constructor |].
  eexists. exact Hwalk.
Qed.

(** Where the loop stops: at a vertex that has no predecessor edge, or at
    a vertex that the chain has entered already. *)
Lemma extractLoop_stops (p : gmap string (option Edge.t)) :
  Shape.pointsBack p ->
  forall fuel visited current cycle,
    visited ⊆ dom p ->
    (size (dom p ∖ visited) < fuel)%nat ->
    (forall v, v ∈ visited -> exists e, In e cycle /\ Edge.to e = v) ->
    (forall e, p !! snd (extractLoop fuel p visited current cycle)
               <> Some (Some e)) \/
    (exists e, In e (fst (extractLoop fuel p visited current cycle)) /\
               Edge.to e = snd (extractLoop fuel p visited current cycle)).
Proof.
  intros Hp. induction fuel as [| fuel IH];
    intros visited current cycle Hsub Hfuel Hseen; [lia |].
  cbn [extractLoop].
  destruct (bool_decide_reflect (current ∈ visited)) as [Hin | Hout];
    [right; cbn [fst snd]; apply Hseen; exact Hin |].
  destruct (p !! current) as [[edge |] |] eqn:Hcur;
    try (left; cbn [snd]; intros e He; congruence).
  assert (Hdom : current ∈ dom p) by (apply elem_of_dom; eauto).
  assert (Hless : (size (dom p ∖ ({[current]} ∪ visited))
                   < size (dom p ∖ visited))%nat).
  { apply subset_size. set_solver. }
  apply IH; [set_solver | lia |].
  intros v Hv. apply elem_of_union in Hv. destruct Hv as [Hv | Hv].
  - apply elem_of_singleton in Hv. subst v. exists edge.
    split; [left; reflexivity | exact (Hp current edge Hcur)].
  - destruct (Hseen v Hv) as [e [He Hto]]. exists e.
    split; [right; exact He | exact Hto].
Qed.

(** X12. For a predecessor map in which every recorded edge enters its key,
    [extractCycle(start, predecessor)] returns the whole chain of
    predecessors it has followed, untrimmed: the list that the loop has
    built, from which [findIndex] and [slice] remove nothing. That list is a
    walk from some vertex [first] to [start], whose edges are the
    predecessors of the vertices they enter, entering pairwise distinct
    vertices, so with at most as many edges as the map has keys; and it is
    the whole chain, since [first] has no predecessor edge or is a vertex
    that the walk has entered already. The walk need not be closed: it is
    returned as it is also when it leads from a vertex without predecessor
    to [start]. *)
Theorem extractCycle_walk_to_start (p : gmap string (option Edge.t))
    (start : Address) :
  Shape.pointsBack p ->
  extractCycle start p = fst (extractLoop (S (size p)) p ∅ start []) /\
  (exists first,
      Shape.walk first start (extractCycle start p) /\
      ((forall e, p !! first <> Some (Some e)) \/
       (exists e, In e (extractCycle start p) /\ Edge.to e = first))) /\
  NoDup (map Edge.to (extractCycle start p)) /\
  (forall e, In e (extractCycle start p) -> p !! Edge.to e = Some (Some e)) /\
  (length (extractCycle start p) <= size p)%nat.
Proof.
  intros Hp.
  assert (Hwhole : extractCycle start p
                   = fst (extractLoop (S (size p)) p ∅ start [])).
  { unfold extractCycle.
    destruct (extractLoop_walk p start Hp (S (size p)) ∅ start [])
      as [Hwalk _]; try (intros e []); [reflexivity | constructor |].
    destruct (extractLoop (S (size p)) p ∅ start []) as [cycle cycleStart].
    cbn [fst snd] in Hwalk |- *.
    destruct cycle as [| first rest]; [reflexivity |].
    cbn [Shape.walk] in Hwalk. destruct Hwalk as [Hfirst _].
    cbn [Js.findIndex]. rewrite Hfirst, String.eqb_refl. reflexivity. }
  split; [exact Hwhole |]. rewrite Hwhole.
  destruct (extractLoop_walk p start Hp (S (size p)) ∅ start [])
    as [Hwalk [Hnodup Hpred]]; try (intros e []); [reflexivity | constructor |].
  assert (Hstop := extractLoop_stops p Hp (S (size p)) ∅ start []).
  set (cycle := fst (extractLoop (S (size p)) p ∅ start [])) in *.
  set (first := snd (extractLoop (S (size p)) p ∅ start [])) in *.
  split.
  { exists first. split; [exact Hwalk |]. apply Hstop.
    - apply empty_subseteq.
    - rewrite difference_empty_L, size_dom. lia.
    - intros v Hv. apply elem_of_empty in Hv. destruct Hv. }
  split; [exact Hnodup |]. split; [exact Hpred |].
  rewrite <- (length_map Edge.to cycle).
  rewrite <- (size_list_to_set (C := gset string) _ Hnodup).
  rewrite <- size_dom. apply subseteq_size.
  intros v Hv. apply elem_of_list_to_set in Hv.
  apply list_elem_of_In in Hv. apply in_map_iff in Hv.
  destruct Hv as [e [Hkey He]]. subst v. apply elem_of_dom.
  rewrite (Hpred e He). eauto.
Qed.

End ExtractedWalks.

(** ** Where the returned opportunities come from *)
Section Provenance.
Import ArbitrageDetector.

Lemma relaxEdge_pointsBack (distFrom : float) (st : BF) (edge : Edge.t) :
  Shape.pointsBack (predecessor st) ->
  Shape.pointsBack (predecessor (relaxEdge distFrom st edge)).
Proof.
  intros Hst. unfold relaxEdge.
  destruct (distance st !! Edge.to edge) as [distTo |]; [| exact Hst].
  destruct (PrimFloat.ltb _ distTo); [| exact Hst].
  cbn [predecessor]. intros v e Hv.
  destruct (decide ((Edge.to edge : string) = v)) as [Heq | Hne].
  - rewrite <- Heq in Hv. rewrite lookup_insert_eq in Hv.
    injection Hv as He. subst e. exact Heq.
  - rewrite lookup_insert_ne in Hv by exact Hne. exact (Hst v e Hv).
Qed.

Lemma relaxFrom_pointsBack (st : BF) (entry : Address * list Edge.t) :
  Shape.pointsBack (predecessor st) ->
  Shape.pointsBack (predecessor (relaxFrom st entry)).
Proof.
  destruct entry as [from edges]. intros Hst. unfold relaxFrom.
  destruct (distance st !! from) as [distFrom |]; [| exact Hst].
  destruct (PrimFloat.eqb distFrom infinity); [exact Hst |].
  apply (fold_left_invariant
           (fun st => Shape.pointsBack (predecessor st))); [| exact Hst].
  intros acc edge _ Hacc. apply relaxEdge_pointsBack. exact Hacc.
Qed.

Lemma relaxLoop_pointsBack (g : Graph.t) (iterations : nat) :
  forall st,
    Shape.pointsBack (predecessor st) ->
    Shape.pointsBack (predecessor (relaxLoop iterations g st)).
Proof.
  induction iterations as [| i IH]; intros st Hst; [exact Hst |].
  cbn [relaxLoop].
  assert (Hpass :
            Shape.pointsBack
              (predecessor
                 (fold_left relaxFrom (Graph.edges g)
                            (mkBF (distance st) (predecessor st) false)))).
  { apply (fold_left_invariant
             (fun st => Shape.pointsBack (predecessor st))); [| exact Hst].
    intros acc entry _ Hacc. apply relaxFrom_pointsBack. exact Hacc. }
  destruct (updated _); [apply IH |]; exact Hpass.
Qed.

Lemma initial_pointsBack (vertices : list Address) :
  Shape.pointsBack
    (fold_left (fun p v => <[v := None]> p) vertices
               (∅ : gmap string (option Edge.t))).
Proof.
  apply (fold_left_invariant Shape.pointsBack).
  - intros acc x _ Hacc v e Hv.
    destruct (decide ((x : string) = v)) as [Heq | Hne].
    + rewrite <- Heq in Hv. rewrite lookup_insert_eq in Hv. discriminate Hv.
    + rewrite lookup_insert_ne in Hv by exact Hne. exact (Hacc v e Hv).
  - intros v e Hv. rewrite lookup_empty in Hv. discriminate Hv.
Qed.

(** Every returned opportunity was built by [buildOpportunity] from a
    candidate cycle, with a positive expected profit. *)
Lemma findArbitrageOpportunities_from_candidates math this sourceToken
    inputAmount (Q : ArbitrageOpportunity.t -> Prop) :
  (forall cycle rt opp rt',
      Shape.candidate (graph this) sourceToken cycle ->
      buildOpportunity math this cycle inputAmount rt
      = (Js.Ok (Some opp), rt') ->
      0 < ArbitrageOpportunity.expectedProfit opp ->
      Q opp) ->
  forall rt opportunities rt',
    findArbitrageOpportunities math this sourceToken inputAmount rt
    = (Js.Ok opportunities, rt') ->
    Forall Q opportunities.
Proof.
  intros HQ rt opportunities rt'. unfold findArbitrageOpportunities.
  destruct (length (Graph.vertices (graph this)) =? 0)%nat.
  - intros H. apply ret_Ok in H. destruct H as [-> _]. constructor.
  - intros H.
    apply mbind_Ok in H. destruct H as [found [s1 [Hnegative H]]].
    apply mbind_Ok in H. destruct H as [all [s2 [Hdirect H]]].
    apply ret_Ok in H. destruct H as [-> _].
    set (bf := relaxLoop _ _ _) in Hnegative.
    assert (Hback : Shape.pointsBack (predecessor bf)).
    { apply relaxLoop_pointsBack. cbn [predecessor].
      apply initial_pointsBack. }
    assert (Hgraph : Spec.predecessorsInGraph (graph this) (predecessor bf)).
    { apply relaxLoop_predecessors. cbn [predecessor].
      apply initial_predecessors. }
    assert (Hfound : Forall Q found).
    { revert Hnegative. apply forEach_invariant; [| constructor].
      intros acc start s acc' s' _ Hacc Hstep.
      unfold pushNegativeCycle in Hstep.
      destruct (extractCycle start (predecessor bf)) as [| first rest]
        eqn:Hextract.
      - apply ret_Ok in Hstep. destruct Hstep as [-> _]. exact Hacc.
      - destruct (String.eqb_spec (Edge.from first) sourceToken)
          as [Hfirst | _].
        + apply mbind_Ok in Hstep.
          destruct Hstep as [built [s3 [Hbuild Hstep]]].
          destruct built as [opportunity |].
          * destruct (0 <? ArbitrageOpportunity.expectedProfit opportunity)
              eqn:Hprofit;
              apply ret_Ok in Hstep; destruct Hstep as [-> _]; [| exact Hacc].
            apply Forall_app. split; [exact Hacc |].
            constructor; [| constructor].
            apply (HQ (first :: rest) s opportunity s3);
              [| exact Hbuild | apply Z.ltb_lt; exact Hprofit].
            right. exists start, (predecessor bf), first, rest.
            repeat split; assumption.
          * apply ret_Ok in Hstep. destruct Hstep as [-> _]. exact Hacc.
        + apply ret_Ok in Hstep. destruct Hstep as [-> _]. exact Hacc. }
    assert (Hall : Forall Q all).
    { revert Hdirect. apply forEach_invariant; [| exact Hfound].
      intros acc cycle s acc' s' Hcycle Hacc Hstep.
      unfold pushDirectCycle in Hstep.
      apply mbind_Ok in Hstep. destruct Hstep as [built [s3 [Hbuild Hstep]]].
      destruct built as [opportunity |].
      - destruct (0 <? ArbitrageOpportunity.expectedProfit opportunity)
          eqn:Hprofit.
        + destruct (isDuplicate acc opportunity);
            apply ret_Ok in Hstep; destruct Hstep as [-> _]; [exact Hacc |].
          apply Forall_app. split; [exact Hacc |].
          constructor; [| constructor].
          apply (HQ cycle s opportunity s3);
            [left; exact Hcycle | exact Hbuild | apply Z.ltb_lt; exact Hprofit].
        + apply ret_Ok in Hstep. destruct Hstep as [-> _]. exact Hacc.
      - apply ret_Ok in Hstep. destruct Hstep as [-> _]. exact Hacc. }
    rewrite List.Forall_forall in Hall |- *.
    intros opp Hopp. apply Hall. apply sortByProfit_In. exact Hopp.
Qed.

(** A candidate cycle on a built graph is a non-empty walk that leaves the
    source. *)
Lemma candidate_walk (g : Graph.t) (source : Address) (cycle : list Edge.t) :
  Shape.built g ->
  Shape.candidate g source cycle ->
  cycle <> [] /\ exists last, Shape.walk source last cycle.
Proof.
  intros Hbuilt [Hdirect | [start [p [first [rest H]]]]].
  - pose proof (findDirectCycles_walks g source 3 (built_keyed g Hbuilt))
      as Hall.
    pose proof (findDirectCycles_cycle_lengths g source 3) as Hlens.
    rewrite List.Forall_forall in Hall, Hlens.
    destruct (Hall cycle Hdirect) as [Hwalk _].
    destruct (Hlens cycle Hdirect) as [Hlen _].
    split; [intros ->; cbn in Hlen; lia | exists source; exact Hwalk].
  - destruct H as [Hback [_ [Hextract [Hcycle Hfirst]]]].
    split; [rewrite Hcycle; discriminate |].
    destruct (extractCycle_walk p start Hback) as [a Hwalk].
    exists start. rewrite Hextract, Hcycle in Hwalk. rewrite Hcycle.
    cbn [Shape.walk] in Hwalk |- *. destruct Hwalk as [_ Hrest].
    split; [exact Hfirst | exact Hrest].
Qed.

Lemma follows_snoc (token : Address) (amount : Z) (path : list SwapStep.t)
    (step : SwapStep.t) (lastToken : Address) (lastAmount : Z) :
  Shape.follows token amount path lastToken lastAmount ->
  SwapStep.tokenIn step = lastToken ->
  SwapStep.amountIn step = lastAmount ->
  Shape.follows token amount (path ++ [step]) (SwapStep.tokenOut step)
                (SwapStep.expectedAmountOut step).
Proof.
  revert token amount.
  induction path as [| x path IH]; intros token amount H Htoken Hamount.
  - cbn in H |- *. destruct H as [-> ->]. repeat split; assumption.
  - cbn [Shape.follows app] in H |- *. destruct H as [Hx [Hy Hrest]].
    split; [exact Hx |]. split; [exact Hy |]. apply IH; assumption.
Qed.

Lemma quoteLoop_follows (cycle : list Edge.t) :
  forall token amount steps current currentAmount last steps' out,
    Shape.walk current last cycle ->
    Shape.follows token amount steps current currentAmount ->
    quoteLoop cycle (steps, currentAmount) = Js.Ok (steps', out) ->
    Shape.follows token amount steps' last out /\
    length steps' = (length steps + length cycle)%nat.
Proof.
  induction cycle as [| edge rest IH];
    intros token amount steps current currentAmount last steps' out
           Hwalk Hsteps H.
  - cbn in H, Hwalk. injection H as Hs Ho. subst steps' out last.
    split; [exact Hsteps | cbn; lia].
  - cbn [quoteLoop] in H. apply bind_Ok in H.
    destruct H as [[steps1 amount1] [Hstep Hrest]].
    unfold quoteStep in Hstep. apply bind_Ok in Hstep.
    destruct Hstep as [q [_ Hmk]]. apply bind_Ok in Hmk.
    destruct Hmk as [data [_ Hmk]].
    injection Hmk as Hs Ha. subst steps1 amount1.
    cbn [Shape.walk] in Hwalk. destruct Hwalk as [Hfrom Hwalk].
    set (step := SwapStep.mk (Edge.router edge) (Edge.from edge)
                             (Edge.to edge) currentAmount (amountOut q)
                             (Edge.pool edge) (Edge.dexType edge)
                             data) in Hrest.
    destruct (IH token amount (steps ++ [step]) (Edge.to edge) (amountOut q)
                 last steps' out Hwalk) as [Hfollows Hlen];
      [| exact Hrest |].
    + apply (follows_snoc token amount steps step current currentAmount
                          Hsteps); [exact Hfrom | reflexivity].
    + split; [exact Hfollows |]. rewrite Hlen, length_app. cbn. lia.
Qed.

(** What [buildOpportunity] makes of a candidate cycle on a built graph. *)
Lemma buildOpportunity_chained math this sourceToken inputAmount cycle rt0
    opp rt1 :
  Shape.built (graph this) ->
  Shape.candidate (graph this) sourceToken cycle ->
  buildOpportunity math this cycle inputAmount rt0 = (Js.Ok (Some opp), rt1) ->
  0 < ArbitrageOpportunity.expectedProfit opp ->
  ArbitrageOpportunity.inputToken opp = sourceToken /\
  ArbitrageOpportunity.inputAmount opp = inputAmount /\
  ArbitrageOpportunity.path opp <> [] /\
  (exists lastToken,
      Shape.follows sourceToken inputAmount
                    (ArbitrageOpportunity.path opp) lastToken
                    (ArbitrageOpportunity.expectedOutput opp)) /\
  ArbitrageOpportunity.gasEstimate opp
  = 150000 + Z.of_nat (length (ArbitrageOpportunity.path opp)) * 80000 /\
  ArbitrageOpportunity.expectedProfit opp
  = ArbitrageOpportunity.expectedOutput opp - inputAmount /\
  0 < ArbitrageOpportunity.expectedProfit opp.
Proof.
  intros Hbuilt Hcandidate Hbuild Hprofit.
  destruct (candidate_walk _ _ _ Hbuilt Hcandidate) as [Hne [last Hwalk]].
  unfold buildOpportunity in Hbuild.
  destruct cycle as [| firstStep rest]; [contradiction |].
  apply mbind_Ok in Hbuild. destruct Hbuild as [[steps out] [s1 [Hq H]]].
  apply lift_Ok in Hq. destruct Hq as [Hq ->].
  apply mbind_Ok in H. destruct H as [idTime [s2 [_ H]]].
  apply mbind_Ok in H. destruct H as [idRandom [s3 [_ H]]].
  apply mbind_Ok in H. destruct H as [conf [s4 [_ H]]].
  apply mbind_Ok in H. destruct H as [ts [s5 [_ H]]].
  apply mbind_Ok in H. destruct H as [expiry [s6 [_ H]]].
  apply ret_Ok in H. destruct H as [H _]. injection H as Hopp. subst opp.
  cbn [ArbitrageOpportunity.inputToken ArbitrageOpportunity.inputAmount
       ArbitrageOpportunity.path ArbitrageOpportunity.expectedOutput
       ArbitrageOpportunity.gasEstimate ArbitrageOpportunity.expectedProfit]
    in Hprofit |- *.
  destruct (quoteLoop_follows (firstStep :: rest) sourceToken inputAmount []
              sourceToken inputAmount last steps out Hwalk)
    as [Hfollows Hlen]; [split; reflexivity | exact Hq |].
  cbn [Shape.walk] in Hwalk. destruct Hwalk as [Hfirst _].
  split; [exact Hfirst |]. split; [reflexivity |].
  split; [intros ->; cbn in Hlen; lia |].
  split; [exists last; exact Hfollows |].
  split; [rewrite Hlen; reflexivity |].
  split; [reflexivity | exact Hprofit].
Qed.

(** X13. On a detector whose graph was built by [addEdge], every opportunity
    that [findArbitrageOpportunities] returns has the source token as its
    [inputToken] and a non-empty path that is connected and chained: the
    first step takes [inputAmount] of the source token, every further step
    takes the token and exactly the amount that the step before it
    returns, and the last step returns [expectedOutput]. Its [gasEstimate]
    is 150000 plus 80000 per step, and its [expectedProfit], which is
    positive, is [expectedOutput - inputAmount]. *)
Theorem findArbitrageOpportunities_paths_chained
    math this sourceToken inputAmount rt opportunities rt' :
  Shape.built (graph this) ->
  findArbitrageOpportunities math this sourceToken inputAmount rt
  = (Js.Ok opportunities, rt') ->
  Forall (fun opp =>
            ArbitrageOpportunity.inputToken opp = sourceToken /\
            ArbitrageOpportunity.inputAmount opp = inputAmount /\
            ArbitrageOpportunity.path opp <> [] /\
            (exists lastToken,
                Shape.follows sourceToken inputAmount
                              (ArbitrageOpportunity.path opp) lastToken
                              (ArbitrageOpportunity.expectedOutput opp)) /\
            ArbitrageOpportunity.gasEstimate opp
            = 150000
              + Z.of_nat (length (ArbitrageOpportunity.path opp)) * 80000 /\
            ArbitrageOpportunity.expectedProfit opp
            = ArbitrageOpportunity.expectedOutput opp - inputAmount /\
            0 < ArbitrageOpportunity.expectedProfit opp)
         opportunities.
Proof.
  intros Hbuilt.
  apply findArbitrageOpportunities_from_candidates.
  intros cycle rt0 opp rt1 Hcandidate Hbuild Hprofit.
  exact (buildOpportunity_chained math this sourceToken inputAmount cycle rt0
           opp rt1 Hbuilt Hcandidate Hbuild Hprofit).
Qed.

End Provenance.

(** ** The detector does not throw on liquid graphs *)
Section NoThrow.
Import ArbitrageDetector.

Lemma forEach_Ok {S A B : Type} (f : B -> A -> Js.M S B) (l : list A) :
  (forall acc x s, In x l -> exists acc' s', f acc x s = (Js.Ok acc', s')) ->
  forall acc s, exists acc' s', Js.forEach f l acc s = (Js.Ok acc', s').
Proof.
  induction l as [| x l IH]; intros Hf acc s.
  - exists acc, s. reflexivity.
  - cbn [Js.forEach]. unfold Js.mbind.
    destruct (Hf acc x s (or_introl eq_refl)) as [acc1 [s1 Hx]].
    rewrite Hx. apply IH. intros acc0 y s0 Hy. apply Hf. right. exact Hy.
Qed.

(** The swap data of an edge with a fee from 0 to 9999 is encoded without
    a throw. *)
Lemma swapData_Ok (edge : Edge.t) :
  0 <= Edge.fee edge < 10000 -> exists data, swapData edge = Js.Ok data.
Proof.
  intros [Hlow Hhigh]. unfold swapData, encodeUint24.
  destruct (Edge.dexType edge); try (eexists; reflexivity).
  destruct (Z.leb_spec 0 (Edge.fee edge)); [| lia].
  destruct (Z.ltb_spec (Edge.fee edge) (2 ^ 24)); [| lia].
  eexists. reflexivity.
Qed.

Lemma quoteLoop_Ok (cycle : list Edge.t) :
  Forall Shape.liquidEdge cycle ->
  forall steps amount,
    0 <= amount ->
    exists steps' out, quoteLoop cycle (steps, amount) = Js.Ok (steps', out).
Proof.
  induction 1 as [| edge rest [Hfee [Hin Hout]] _ IH]; intros steps amount Ha.
  - exists steps, amount. reflexivity.
  - cbn [quoteLoop]. unfold quoteStep.
    destruct (calculateRate_amountOut (reserveIn edge) (reserveOut edge)
                                      amount (Edge.fee edge))
      as [q [Hq Hamount]]; [nia |].
    destruct (swapData_Ok edge Hfee) as [data Hdata].
    rewrite Hq. cbn [Js.bind]. rewrite Hdata. cbn [Js.bind]. apply IH.
    rewrite Hamount. apply Z.quot_pos; nia.
Qed.

Lemma buildOpportunity_Ok math this cycle inputAmount rt :
  Forall Shape.liquidEdge cycle ->
  0 < inputAmount ->
  exists built rt',
    buildOpportunity math this cycle inputAmount rt = (Js.Ok built, rt').
Proof.
  intros Hcycle Hinput. unfold buildOpportunity.
  destruct cycle as [| firstStep rest]; [eexists; eexists; reflexivity |].
  destruct (quoteLoop_Ok (firstStep :: rest) Hcycle [] inputAmount)
    as [steps [out Hq]]; [lia |].
  rewrite Hq. unfold Js.mbind, Js.lift, Js.Date_now, Js.Math_random36, Js.ret.
  unfold calculateConfidence.
  rewrite bigint_div_nonzero by lia. cbn [Js.bind].
  eexists. eexists. reflexivity.
Qed.

(** The two loops of [findArbitrageOpportunities], over the starts of
    negative cycles and over the direct cycles, do not throw. *)
Lemma searchLoops_Ok math this sourceToken inputAmount
    (p : gmap string (option Edge.t)) (starts : list Address)
    (rt : Js.Runtime) :
  Shape.liquid (graph this) ->
  0 < inputAmount ->
  Spec.predecessorsInGraph (graph this) p ->
  exists found s1 all s2,
    Js.forEach (pushNegativeCycle math this sourceToken inputAmount p)
               starts [] rt = (Js.Ok found, s1) /\
    Js.forEach (pushDirectCycle math this inputAmount)
               (findDirectCycles (graph this) sourceToken 3) found s1
    = (Js.Ok all, s2).
Proof.
  intros Hliquid Hinput Hgraph.
  destruct (forEach_Ok
              (pushNegativeCycle math this sourceToken inputAmount p) starts)
    with (acc := @nil ArbitrageOpportunity.t) (s := rt)
    as [found [s1 Hfound]].
  { intros acc start s _. unfold pushNegativeCycle.
    pose proof (extractCycle_inGraph (graph this) p start Hgraph) as Hcycle.
    destruct (extractCycle start p) as [| first rest];
      [eexists; eexists; reflexivity |].
    destruct (String.eqb (Edge.from first) sourceToken);
      [| eexists; eexists; reflexivity].
    unfold Js.mbind.
    destruct (buildOpportunity_Ok math this (first :: rest) inputAmount s)
      as [built [s' Hbuild]]; [| exact Hinput |].
    - eapply List.Forall_impl; [| exact Hcycle]. exact Hliquid.
    - rewrite Hbuild. destruct built as [opportunity |];
        [| eexists; eexists; reflexivity].
      destruct (0 <? ArbitrageOpportunity.expectedProfit opportunity);
        eexists; eexists; reflexivity. }
  destruct (forEach_Ok (pushDirectCycle math this inputAmount)
                       (findDirectCycles (graph this) sourceToken 3))
    with (acc := found) (s := s1) as [all [s2 Hall]].
  { intros acc cycle s Hcycle. unfold pushDirectCycle, Js.mbind.
    pose proof (findDirectCycles_inGraph (graph this) sourceToken 3) as Hin.
    rewrite List.Forall_forall in Hin.
    destruct (buildOpportunity_Ok math this cycle inputAmount s)
      as [built [s' Hbuild]]; [| exact Hinput |].
    - eapply List.Forall_impl; [| exact (Hin cycle Hcycle)]. exact Hliquid.
    - rewrite Hbuild. destruct built as [opportunity |];
        [| eexists; eexists; reflexivity].
      destruct (0 <? ArbitrageOpportunity.expectedProfit opportunity);
        [| eexists; eexists; reflexivity].
      destruct (isDuplicate acc opportunity); eexists; eexists; reflexivity. }
  exists found, s1, all, s2. split; assumption.
Qed.

(** X14. When every edge of the graph has a fee from 0 to 9999 basis points
    (a fee that [encodeAbiParameters] accepts as a [uint24] and that leaves
    the quote's denominator positive), a positive reserve on the side that
    [buildOpportunity] reads as its input and a non-negative one on the
    other side, [findArbitrageOpportunities] returns a list for every source
    token, every positive input amount and every implementation of
    [Math.log] and [Math.pow]: no quote divides by zero and no swap data
    fails to encode, so nothing is thrown into the event handler that called
    it. *)
Theorem findArbitrageOpportunities_does_not_throw
    math this sourceToken inputAmount rt :
  Shape.liquid (graph this) ->
  0 < inputAmount ->
  exists opportunities rt',
    findArbitrageOpportunities math this sourceToken inputAmount rt
    = (Js.Ok opportunities, rt').
Proof.
  intros Hliquid Hinput. unfold findArbitrageOpportunities.
  destruct (length (Graph.vertices (graph this)) =? 0)%nat;
    [eexists; eexists; reflexivity |].
  set (bf := relaxLoop _ _ _).
  destruct (searchLoops_Ok math this sourceToken inputAmount (predecessor bf)
              (fold_left (checkFrom (distance bf))
                         (Graph.edges (graph this)) [])
              rt Hliquid Hinput)
    as [found [s1 [all [s2 [Hfound Hall]]]]].
  { apply relaxLoop_predecessors. cbn [predecessor].
    apply initial_predecessors. }
  unfold Js.mbind. rewrite Hfound, Hall. eexists. eexists. reflexivity.
Qed.

End NoThrow.

(** ** The graphs of a monitor stay built and liquid *)
Section MonitorGraphs.
Import PriceMonitor.
Variable math : Js.MathImpl.

Lemma map_set_In {V : Type} (k : string) (v : V) (m : list (string * V))
    (x : string * V) :
  In x (Js.map_set k v m) -> x = (k, v) \/ In x m.
Proof.
  induction m as [| [k' v'] m IH]; cbn.
  - intros [H | []]. left. symmetry. exact H.
  - destruct (String.eqb k' k); cbn.
    + intros [H | H]; [left; symmetry; exact H | right; right; exact H].
    + intros [H | H]; [right; left; exact H |].
      destruct (IH H) as [H' | H']; [left; exact H' | right; right; exact H'].
Qed.

Lemma addEdge_liquid (e : Edge.t) (g : Graph.t) :
  Shape.liquidEdge e -> Shape.liquid g ->
  Shape.liquid (ArbitrageDetector.addEdge e g).
Proof.
  intros He Hg x [a [l [Hentry Hx]]].
  unfold ArbitrageDetector.addEdge in Hentry. cbn [Graph.edges] in Hentry.
  apply map_set_In in Hentry. destruct Hentry as [Hnew | Hold].
  - injection Hnew as _ Hl. subst l. apply in_app_or in Hx.
    destruct Hx as [Hx | [Hx | []]]; [| subst x; exact He].
    apply remove_first_In in Hx. apply Hg.
    apply (edges_get_inGraph g (Edge.from e)). exact Hx.
  - apply Hg. exists a, l. split; assumption.
Qed.

Lemma alter_addEdge_built (e : Edge.t) (chainId : Z)
    (ds : gmap Z ArbitrageDetector.t) :
  Shape.builtGraphs ds ->
  Shape.builtGraphs
    (alter (fun d => ArbitrageDetector.mk
                       (ArbitrageDetector.addEdge e (ArbitrageDetector.graph d))
                       (ArbitrageDetector.chainId d)
                       (ArbitrageDetector.minProfitBps d))
           chainId ds).
Proof.
  intros Hds c d Hd. destruct (decide (chainId = c)) as [<- | Hne].
  - rewrite lookup_alter_eq in Hd.
    destruct (ds !! chainId) as [d0 |] eqn:Hd0; [| discriminate Hd].
    cbn in Hd. injection Hd as Hd. subst d. cbn [ArbitrageDetector.graph].
    apply Shape.built_addEdge. exact (Hds chainId d0 Hd0).
  - rewrite lookup_alter_ne in Hd by exact Hne. exact (Hds c d Hd).
Qed.

Lemma alter_addEdge_liquid (e : Edge.t) (chainId : Z)
    (ds : gmap Z ArbitrageDetector.t) :
  Shape.liquidEdge e ->
  Shape.liquidGraphs ds ->
  Shape.liquidGraphs
    (alter (fun d => ArbitrageDetector.mk
                       (ArbitrageDetector.addEdge e (ArbitrageDetector.graph d))
                       (ArbitrageDetector.chainId d)
                       (ArbitrageDetector.minProfitBps d))
           chainId ds).
Proof.
  intros He Hds c d Hd. destruct (decide (chainId = c)) as [<- | Hne].
  - rewrite lookup_alter_eq in Hd.
    destruct (ds !! chainId) as [d0 |] eqn:Hd0; [| discriminate Hd].
    cbn in Hd. injection Hd as Hd. subst d. cbn [ArbitrageDetector.graph].
    apply addEdge_liquid; [exact He | exact (Hds chainId d0 Hd0)].
  - rewrite lookup_alter_ne in Hd by exact Hne. exact (Hds c d Hd).
Qed.

(** Whatever its outcome, [updateReserves] leaves graphs built by
    [addEdge]. *)
Lemma updateReserves_builtGraphs now chainId sub reserve0 reserve1 m :
  Shape.builtGraphs (detectors m) ->
  Shape.builtGraphs
    (detectors (snd (updateReserves math now chainId sub reserve0 reserve1 m))).
Proof.
  intros Hm. unfold updateReserves, Js.mbind, setReserves, detectorAddEdge,
    Js.lift.
  cbn [detectors subscriptions reserves hasCallback].
  destruct (detectors m !! chainId) as [d |]; [| exact Hm].
  destruct (ArbitrageDetector.calculateRate reserve0 reserve1 _ _)
    as [q01 | e01]; [| exact Hm].
  destruct (ArbitrageDetector.calculateRate reserve1 reserve0 _ _)
    as [q10 | e10]; cbn [snd detectors].
  - apply alter_addEdge_built. apply alter_addEdge_built. exact Hm.
  - apply alter_addEdge_built. exact Hm.
Qed.

Lemma forwardEdge_liquid sub reserve0 reserve1 rate :
  0 <= PoolSubscription.fee sub < 10000 -> 0 < reserve0 -> 0 < reserve1 ->
  Shape.liquidEdge (forwardEdge math sub reserve0 reserve1 rate).
Proof.
  intros Hfee H0 H1. unfold Shape.liquidEdge, ArbitrageDetector.reserveIn,
    ArbitrageDetector.reserveOut.
  destruct (ArbitrageDetector.isToken0ToToken1 _); cbn; lia.
Qed.

Lemma reverseEdge_liquid sub reserve0 reserve1 rate :
  0 <= PoolSubscription.fee sub < 10000 -> 0 < reserve0 -> 0 < reserve1 ->
  Shape.liquidEdge (reverseEdge math sub reserve0 reserve1 rate).
Proof.
  intros Hfee H0 H1. unfold Shape.liquidEdge, ArbitrageDetector.reserveIn,
    ArbitrageDetector.reserveOut.
  destruct (ArbitrageDetector.isToken0ToToken1 _); cbn; lia.
Qed.

Lemma updateReserves_liquidGraphs now chainId sub reserve0 reserve1 m :
  0 <= PoolSubscription.fee sub < 10000 -> 0 < reserve0 -> 0 < reserve1 ->
  Shape.liquidGraphs (detectors m) ->
  Shape.liquidGraphs
    (detectors (snd (updateReserves math now chainId sub reserve0 reserve1 m))).
Proof.
  intros Hfee H0 H1 Hm.
  destruct (reference_quotes reserve0 reserve1 _ (Z.lt_le_incl _ _ H0)
                             (Z.lt_le_incl _ _ H1) (proj2 Hfee))
    as [q01 [q10 [Hq Hq']]].
  rewrite (updateReserves_run math now chainId sub reserve0 reserve1 q01 q10 m
                              Hq Hq').
  cbn [snd detectors].
  assert (Hsplit :
            alter (withEdges
                     (forwardEdge math sub reserve0 reserve1
                                  (ArbitrageDetector.rate q01))
                     (reverseEdge math sub reserve0 reserve1
                                  (ArbitrageDetector.rate q10)))
                  chainId (detectors m)
            = alter (fun d => ArbitrageDetector.mk
                                (ArbitrageDetector.addEdge
                                   (reverseEdge math sub reserve0 reserve1
                                                (ArbitrageDetector.rate q10))
                                   (ArbitrageDetector.graph d))
                                (ArbitrageDetector.chainId d)
                                (ArbitrageDetector.minProfitBps d))
                    chainId
                    (alter (fun d => ArbitrageDetector.mk
                                       (ArbitrageDetector.addEdge
                                          (forwardEdge math sub reserve0
                                             reserve1
                                             (ArbitrageDetector.rate q01))
                                          (ArbitrageDetector.graph d))
                                       (ArbitrageDetector.chainId d)
                                       (ArbitrageDetector.minProfitBps d))
                           chainId (detectors m))).
  { rewrite alter_alter_eq. apply alter_ext. intros d _. reflexivity. }
  rewrite Hsplit.
  apply alter_addEdge_liquid; [apply reverseEdge_liquid; assumption |].
  apply alter_addEdge_liquid; [apply forwardEdge_liquid; assumption |].
  exact Hm.
Qed.

(** Whatever its outcome, [updateReserves] leaves every chain with or
    without a detector as it was. *)
Lemma updateReserves_runsDetector CHAIN_CONFIGS now chainId sub reserve0
    reserve1 m c :
  Shape.runsDetector CHAIN_CONFIGS
    (snd (updateReserves math now chainId sub reserve0 reserve1 m)) c
  = Shape.runsDetector CHAIN_CONFIGS m c.
Proof.
  assert (Halter : forall f (ds : gmap Z ArbitrageDetector.t),
             match alter f chainId ds !! c, CHAIN_CONFIGS c with
             | Some _, Some _ => true
             | _, _ => false
             end
             = match ds !! c, CHAIN_CONFIGS c with
               | Some _, Some _ => true
               | _, _ => false
               end).
  { intros f ds. destruct (decide (chainId = c)) as [<- | Hne].
    - rewrite lookup_alter_eq. destruct (ds !! chainId); reflexivity.
    - rewrite lookup_alter_ne by exact Hne. reflexivity. }
  unfold Shape.runsDetector, updateReserves, Js.mbind, setReserves,
    detectorAddEdge, Js.lift.
  cbn [detectors subscriptions reserves hasCallback].
  destruct (detectors m !! chainId) as [d |]; [| reflexivity].
  destruct (ArbitrageDetector.calculateRate reserve0 reserve1 _ _)
    as [q01 | e01]; [| reflexivity].
  destruct (ArbitrageDetector.calculateRate reserve1 reserve0 _ _)
    as [q10 | e10]; cbn [snd detectors]; rewrite ?Halter; reflexivity.
Qed.

End MonitorGraphs.

(** ** The event handlers of the monitor *)
Section Handlers.
Import PriceMonitor.
Variable math : Js.MathImpl.
Variable CHAIN_CONFIGS : ChainId -> option ChainConfig.t.

Lemma detectorRuns_app chainId (l1 l2 : list Effect) :
  Shape.detectorRuns chainId (l1 ++ l2)
  = (Shape.detectorRuns chainId l1 + Shape.detectorRuns chainId l2)%nat.
Proof.
  unfold Shape.detectorRuns. rewrite List.filter_app, length_app. reflexivity.
Qed.

Lemma detectorRuns_run chainId :
  Shape.detectorRuns chainId [DetectorRun chainId] = 1%nat.
Proof.
  unfold Shape.detectorRuns. cbn [List.filter]. rewrite Z.eqb_refl.
  reflexivity.
Qed.

Lemma detectorRuns_callback chainId opportunities :
  Shape.detectorRuns chainId [Callback opportunities] = 0%nat.
Proof. reflexivity. Qed.

Lemma checkArbitrage_Ok chainId w :
  Shape.liquidGraphs (detectors (monitor w)) ->
  exists w',
    checkArbitrage math CHAIN_CONFIGS chainId w = (Js.Ok tt, w') /\
    monitor w' = monitor w /\
    Shape.detectorRuns chainId (effects w')
    = (Shape.detectorRuns chainId (effects w)
       + (if Shape.runsDetector CHAIN_CONFIGS (monitor w) chainId
          then 1 else 0))%nat.
Proof.
  intros Hliquid. unfold checkArbitrage, Shape.runsDetector.
  destruct (detectors (monitor w) !! chainId) as [d |] eqn:Hd;
    [| exists w; split; [reflexivity | split; [reflexivity | lia]]].
  destruct (CHAIN_CONFIGS chainId) as [config |];
    [| exists w; split; [reflexivity | split; [reflexivity | lia]]].
  unfold Js.mbind, emit, onRuntime, Js.zoom. cbn [monitor runtime effects].
  assert (Hrun : exists opportunities rt',
             ArbitrageDetector.findArbitrageOpportunities
               math d (ChainConfig.nativeToken config) (10 ^ 18) (runtime w)
             = (Js.Ok opportunities, rt')).
  { unfold ArbitrageDetector.findArbitrageOpportunities.
    destruct (length (Graph.vertices (ArbitrageDetector.graph d)) =? 0)%nat;
      [eexists; eexists; reflexivity |].
    set (bf := ArbitrageDetector.relaxLoop _ _ _).
    destruct (searchLoops_Ok math d (ChainConfig.nativeToken config) (10 ^ 18)
                (ArbitrageDetector.predecessor bf)
                (fold_left (ArbitrageDetector.checkFrom
                              (ArbitrageDetector.distance bf))
                           (Graph.edges (ArbitrageDetector.graph d)) [])
                (runtime w) (Hliquid chainId d Hd))
      as [found [s1 [all [s2 [Hfound Hall]]]]]; [lia | |].
    { apply relaxLoop_predecessors. cbn [ArbitrageDetector.predecessor].
      apply initial_predecessors. }
    unfold Js.mbind. rewrite Hfound, Hall. eexists. eexists. reflexivity. }
  destruct Hrun as [opportunities [rt' Hrun]]. rewrite Hrun.
  destruct ((0 <? length opportunities)%nat && hasCallback (monitor w));
    (eexists; split; [reflexivity |]; split; [reflexivity |]);
    cbn [effects];
    rewrite ?detectorRuns_app, detectorRuns_run, ?detectorRuns_callback; lia.
Qed.

(** X15. [checkArbitrage] never changes the monitor, and it calls the
    registered callback only with a non-empty list, all of whose
    opportunities start from the chain's native token with an input of
    [10^18] and have a positive expected profit. *)
Theorem checkArbitrage_callback chainId w r w' :
  Shape.builtGraphs (detectors (monitor w)) ->
  checkArbitrage math CHAIN_CONFIGS chainId w = (r, w') ->
  monitor w' = monitor w /\
  forall opportunities,
    In (Callback opportunities) (effects w') ->
    In (Callback opportunities) (effects w) \/
    (opportunities <> [] /\
     hasCallback (monitor w) = true /\
     exists config,
       CHAIN_CONFIGS chainId = Some config /\
       Forall (fun opp =>
                 ArbitrageOpportunity.inputToken opp
                 = ChainConfig.nativeToken config /\
                 ArbitrageOpportunity.inputAmount opp = 10 ^ 18 /\
                 0 < ArbitrageOpportunity.expectedProfit opp)
              opportunities).
Proof.
  intros Hbuilt. unfold checkArbitrage.
  destruct (detectors (monitor w) !! chainId) as [d |] eqn:Hd.
  2: { intros H. injection H as _ Hw. subst w'.
       split; [reflexivity | intros o Ho; left; exact Ho]. }
  destruct (CHAIN_CONFIGS chainId) as [config |].
  2: { intros H. injection H as _ Hw. subst w'.
       split; [reflexivity | intros o Ho; left; exact Ho]. }
  unfold Js.mbind, emit, onRuntime, Js.zoom. cbn [monitor runtime effects].
  destruct (ArbitrageDetector.findArbitrageOpportunities _ _ _ _ _)
    as [[opportunities | e] rt'] eqn:Hrun.
  - assert (Hshape :
              Forall (fun opp =>
                        ArbitrageOpportunity.inputToken opp
                        = ChainConfig.nativeToken config /\
                        ArbitrageOpportunity.inputAmount opp = 10 ^ 18 /\
                        0 < ArbitrageOpportunity.expectedProfit opp)
                     opportunities).
    { revert Hrun. apply findArbitrageOpportunities_from_candidates.
      intros cycle rt0 opp rt1 Hcandidate Hbuild Hprofit.
      destruct (buildOpportunity_chained
                  math d (ChainConfig.nativeToken config) (10 ^ 18) cycle rt0
                  opp rt1 (Hbuilt chainId d Hd) Hcandidate Hbuild Hprofit)
        as [Htoken [Hamount _]].
      repeat split; assumption. }
    destruct (0 <? length opportunities)%nat eqn:Hlen; cbn [andb].
    + destruct (hasCallback (monitor w)) eqn:Hcb.
      * intros H. injection H as _ Hw. subst w'. cbn [monitor effects].
        split; [reflexivity |]. intros o Ho.
        apply in_app_or in Ho. destruct Ho as [Ho | [Ho | []]].
        -- apply in_app_or in Ho. destruct Ho as [Ho | [Ho | []]];
             [left; exact Ho | discriminate Ho].
        -- injection Ho as Ho. subst o. right.
           split; [intros ->; discriminate Hlen |].
           split; [reflexivity |]. exists config. split; [reflexivity |].
           exact Hshape.
      * unfold Js.ret. intros H. injection H as _ Hw. subst w'.
        cbn [monitor effects]. split; [reflexivity |]. intros o Ho.
        apply in_app_or in Ho. destruct Ho as [Ho | [Ho | []]];
          [left; exact Ho | discriminate Ho].
    + unfold Js.ret. intros H. injection H as _ Hw. subst w'.
      cbn [monitor effects]. split; [reflexivity |]. intros o Ho.
      apply in_app_or in Ho. destruct Ho as [Ho | [Ho | []]];
        [left; exact Ho | discriminate Ho].
  - intros H. injection H as _ Hw. subst w'. cbn [monitor effects].
    split; [reflexivity |]. intros o Ho.
    apply in_app_or in Ho. destruct Ho as [Ho | [Ho | []]];
      [left; exact Ho | discriminate Ho].
Qed.

Lemma onSyncLog_applied chainId sub blockNumber logIndex reserve0 reserve1 w :
  0 <= PoolSubscription.fee sub < 10000 ->
  0 < reserve0 -> 0 < reserve1 ->
  Shape.builtGraphs (detectors (monitor w)) ->
  Shape.liquidGraphs (detectors (monitor w)) ->
  exists w' now,
    onSyncLog math CHAIN_CONFIGS chainId sub tt
      (SyncLog.mk blockNumber logIndex (Some reserve0) (Some reserve1)) w
    = (Js.Ok tt, w') /\
    monitor w'
    = snd (updateReserves math now chainId sub reserve0 reserve1 (monitor w)) /\
    Shape.detectorRuns chainId (effects w')
    = (Shape.detectorRuns chainId (effects w)
       + (if Shape.runsDetector CHAIN_CONFIGS (monitor w) chainId
          then 1 else 0))%nat /\
    Shape.builtGraphs (detectors (monitor w')) /\
    Shape.liquidGraphs (detectors (monitor w')).
Proof.
  intros Hfee H0 H1 Hbuilt Hliquid.
  rewrite (onSyncLog_unfold math CHAIN_CONFIGS chainId sub blockNumber
                            logIndex reserve0 reserve1 w (proj2 Hfee)) by lia.
  set (now := Js.clock (runtime w) (Js.clock_reads (runtime w))).
  set (w1 := mkWorld _ _ _).
  assert (Hbuilt1 : Shape.builtGraphs (detectors (monitor w1))).
  { unfold w1. cbn [monitor]. apply updateReserves_builtGraphs.
    exact Hbuilt. }
  assert (Hliquid1 : Shape.liquidGraphs (detectors (monitor w1))).
  { unfold w1. cbn [monitor]. apply updateReserves_liquidGraphs; assumption. }
  destruct (checkArbitrage_Ok chainId w1 Hliquid1) as [w' [Hrun [Hmon Hruns]]].
  exists w', now. split; [exact Hrun |]. rewrite Hmon.
  split; [reflexivity |]. split; [| split; assumption].
  rewrite Hruns. unfold w1. cbn [monitor effects].
  rewrite updateReserves_runsDetector. reflexivity.
Qed.

(** X16. The handler of [Sync] events applies every log of a batch and
    runs the detector after each one, without a throw: on a batch of logs
    whose reserves are positive, for a pool with a fee from 0 to 9999 basis
    points and a monitor whose graphs are liquid, it returns, the monitor
    is the one that [updateReserves] leaves when it is called with the
    reserves of every log of the batch in turn (logs with an undefined
    argument are skipped), and [findArbitrageOpportunities] has run once
    for every applied log when the chain has a detector and a
    configuration (not at all otherwise). The graphs stay liquid for the
    next batch. *)
Theorem onSyncLogs_does_not_throw chainId sub logs :
  0 <= PoolSubscription.fee sub < 10000 ->
  Forall (fun log =>
            match SyncLog.reserve0 log, SyncLog.reserve1 log with
            | Some reserve0, Some reserve1 => 0 < reserve0 /\ 0 < reserve1
            | _, _ => True
            end) logs ->
  forall w,
    Shape.builtGraphs (detectors (monitor w)) ->
    Shape.liquidGraphs (detectors (monitor w)) ->
    exists w' times,
      onSyncLogs math CHAIN_CONFIGS chainId sub logs w = (Js.Ok tt, w') /\
      length times = length (Shape.syncUpdates logs) /\
      monitor w'
      = Shape.reservesApplied math chainId sub
          (combine times (Shape.syncUpdates logs)) (monitor w) /\
      Shape.detectorRuns chainId (effects w')
      = (Shape.detectorRuns chainId (effects w)
         + (if Shape.runsDetector CHAIN_CONFIGS (monitor w) chainId
            then length (Shape.syncUpdates logs) else 0))%nat /\
      Shape.builtGraphs (detectors (monitor w')) /\
      Shape.liquidGraphs (detectors (monitor w')).
Proof.
  intros Hfee Hlogs. unfold onSyncLogs.
  induction Hlogs as [| log logs Hlog _ IH]; intros w Hbuilt Hliquid.
  - exists w, []. split; [reflexivity |]. split; [reflexivity |].
    split; [reflexivity |].
    split; [cbn; destruct (Shape.runsDetector _ _ _); lia |].
    split; assumption.
  - cbn [Js.forEach]. unfold Js.mbind.
    destruct log as [blockNumber logIndex r0 r1].
    cbn [SyncLog.reserve0 SyncLog.reserve1] in Hlog.
    destruct r0 as [reserve0 |]; [destruct r1 as [reserve1 |] |].
    + destruct Hlog as [H0 H1].
      destruct (onSyncLog_applied chainId sub blockNumber logIndex reserve0
                  reserve1 w Hfee H0 H1 Hbuilt Hliquid)
        as [w1 [now [Hrun [Hmon [Hruns [Hbuilt1 Hliquid1]]]]]].
      rewrite Hrun.
      destruct (IH w1 Hbuilt1 Hliquid1)
        as [w' [times [Hrest [Hlen [Hmon' [Hruns' Hshape]]]]]].
      exists w', (now :: times). split; [exact Hrest |].
      cbn [Shape.syncUpdates flat_map SyncLog.reserve0 SyncLog.reserve1 app
           length combine].
      fold (Shape.syncUpdates logs).
      split; [rewrite Hlen; reflexivity |].
      split.
      * rewrite Hmon', Hmon. reflexivity.
      * split; [| exact Hshape]. rewrite Hruns', Hruns, Hmon.
        rewrite updateReserves_runsDetector.
        destruct (Shape.runsDetector CHAIN_CONFIGS (monitor w) chainId); lia.
    + cbn [onSyncLog SyncLog.reserve0 SyncLog.reserve1]. unfold Js.ret.
      exact (IH w Hbuilt Hliquid).
    + cbn [onSyncLog SyncLog.reserve0 SyncLog.reserve1]. unfold Js.ret.
      exact (IH w Hbuilt Hliquid).
Qed.

End Handlers.

(** ** The graphs of the worked examples *)
Section ScenarioGraphs.
Import PriceMonitor.

Lemma monitor0_builtGraphs : Shape.builtGraphs (detectors Scenario.monitor0).
Proof.
  intros chainId d Hd. unfold Scenario.monitor0 in Hd. cbn [detectors] in Hd.
  apply lookup_singleton_Some in Hd. destruct Hd as [_ <-].
  apply Shape.built_empty.
Qed.

Lemma monitor0_liquidGraphs : Shape.liquidGraphs (detectors Scenario.monitor0).
Proof.
  intros chainId d Hd. unfold Scenario.monitor0 in Hd. cbn [detectors] in Hd.
  apply lookup_singleton_Some in Hd. destruct Hd as [_ <-].
  intros e [a [l [[] _]]].
Qed.

Lemma withReserves_builtGraphs (pools : list (PoolSubscription.t * Z * Z)) :
  forall m,
    Shape.builtGraphs (detectors m) ->
    Shape.builtGraphs (detectors (Scenario.withReserves pools m)).
Proof.
  unfold Scenario.withReserves.
  induction pools as [| [[sub reserve0] reserve1] pools IH]; intros m Hm;
    [exact Hm |].
  cbn [fold_left]. apply IH. apply updateReserves_builtGraphs. exact Hm.
Qed.

Lemma withReserves_liquidGraphs (pools : list (PoolSubscription.t * Z * Z)) :
  Forall (fun pool : PoolSubscription.t * Z * Z =>
            0 <= PoolSubscription.fee (fst (fst pool)) < 10000 /\
            0 < snd (fst pool) /\ 0 < snd pool) pools ->
  forall m,
    Shape.liquidGraphs (detectors m) ->
    Shape.liquidGraphs (detectors (Scenario.withReserves pools m)).
Proof.
  unfold Scenario.withReserves.
  induction 1 as [| [[sub reserve0] reserve1] pools [Hfee [H0 H1]] _ IH];
    intros m Hm; [exact Hm |].
  cbn [fold_left]. apply IH.
  apply updateReserves_liquidGraphs; assumption.
Qed.

Lemma detectorOf_built (m : PriceMonitor.t) :
  Shape.builtGraphs (detectors m) ->
  Shape.built (ArbitrageDetector.graph (Scenario.detectorOf m)).
Proof.
  intros Hm. unfold Scenario.detectorOf.
  destruct (detectors m !! 1) as [d |] eqn:Hd;
    [exact (Hm 1 d Hd) | apply Shape.built_empty].
Qed.

Lemma detectorOf_liquid (m : PriceMonitor.t) :
  Shape.liquidGraphs (detectors m) ->
  Shape.liquid (ArbitrageDetector.graph (Scenario.detectorOf m)).
Proof.
  intros Hm. unfold Scenario.detectorOf.
  destruct (detectors m !! 1) as [d |] eqn:Hd; [exact (Hm 1 d Hd) |].
  intros e [a [l [[] _]]].
Qed.

Lemma triangle_built :
  Shape.built (ArbitrageDetector.graph (Scenario.detectorOf Scenario.triangle)).
Proof.
  apply detectorOf_built. apply withReserves_builtGraphs.
  exact monitor0_builtGraphs.
Qed.

Lemma triangle_liquid :
  Shape.liquid (ArbitrageDetector.graph (Scenario.detectorOf Scenario.triangle)).
Proof.
  apply detectorOf_liquid. apply withReserves_liquidGraphs;
    [| exact monitor0_liquidGraphs].
  repeat constructor; vm_compute; (reflexivity || discriminate).
Qed.

Lemma twoPools_built :
  Shape.built (ArbitrageDetector.graph (Scenario.detectorOf Scenario.twoPools)).
Proof.
  apply detectorOf_built. apply withReserves_builtGraphs.
  exact monitor0_builtGraphs.
Qed.

End ScenarioGraphs.

Section DetectorWitnesses.
Import ArbitrageDetector.

Lemma findDirectCycles_closed_walks_witness :
  Forall (fun c =>
            Shape.walk Scenario.WETH Scenario.WETH c /\
            NoDup (map edgeKey (removelast c)) /\
            (3 <= length c <= 3 + 1)%nat /\
            Forall (Spec.inGraph (graph (Scenario.detectorOf Scenario.twoPools)))
                   c)
         (findDirectCycles (graph (Scenario.detectorOf Scenario.twoPools))
                           Scenario.WETH 3).
Proof.
  apply (findDirectCycles_closed_walks
           (graph (Scenario.detectorOf Scenario.twoPools)) Scenario.WETH 3).
  exact twoPools_built.
Defined.

Lemma findArbitrageOpportunities_paths_chained_witness :
  exists opportunities,
    fst (findArbitrageOpportunities Reference.math
           (Scenario.detectorOf Scenario.triangle) Scenario.WETH (10 ^ 18)
           (Reference.runtime 1700000000000))
    = Js.Ok opportunities /\
    length opportunities = 4%nat /\
    Forall (fun opp =>
              ArbitrageOpportunity.inputToken opp = Scenario.WETH /\
              ArbitrageOpportunity.inputAmount opp = 10 ^ 18 /\
              ArbitrageOpportunity.path opp <> [] /\
              (exists lastToken,
                  Shape.follows Scenario.WETH (10 ^ 18)
                                (ArbitrageOpportunity.path opp) lastToken
                                (ArbitrageOpportunity.expectedOutput opp)) /\
              ArbitrageOpportunity.gasEstimate opp
              = 150000
                + Z.of_nat (length (ArbitrageOpportunity.path opp)) * 80000 /\
              ArbitrageOpportunity.expectedProfit opp
              = ArbitrageOpportunity.expectedOutput opp - 10 ^ 18 /\
              0 < ArbitrageOpportunity.expectedProfit opp)
           opportunities.
Proof.
  destruct (findArbitrageOpportunities Reference.math
              (Scenario.detectorOf Scenario.triangle) Scenario.WETH (10 ^ 18)
              (Reference.runtime 1700000000000))
    as [[opportunities | e] rt'] eqn:Hrun.
  - exists opportunities. split; [reflexivity |]. split.
    + pose proof Hrun as Hvalue. vm_compute in Hvalue.
      injection Hvalue as Hvalue _. rewrite <- Hvalue. reflexivity.
    + exact (findArbitrageOpportunities_paths_chained
               _ _ _ _ _ _ _ triangle_built Hrun).
  - exfalso. vm_compute in Hrun. discriminate Hrun.
Defined.

Lemma findArbitrageOpportunities_does_not_throw_witness :
  exists opportunities rt',
    findArbitrageOpportunities Reference.math
      (Scenario.detectorOf Scenario.triangle) Scenario.WETH (10 ^ 18)
      (Reference.runtime 1700000000000)
    = (Js.Ok opportunities, rt').
Proof.
  apply (findArbitrageOpportunities_does_not_throw Reference.math
           (Scenario.detectorOf Scenario.triangle) Scenario.WETH (10 ^ 18)
           (Reference.runtime 1700000000000)).
  - exact triangle_liquid.
  - lia.
Defined.

End DetectorWitnesses.

(** ** What the executor sends *)
Section ExecutorSends.
Import TradeExecutor.
Context {Net : Type}.
Variable viem : Viem.t Net.
Variable CHAIN_CONFIGS : ChainId -> option ChainConfig.t.

Lemma mbind_inv {S A B : Type} (m : Js.M S A) (k : A -> Js.M S B) s r s' :
  Js.mbind m k s = (r, s') ->
  (exists e, m s = (Js.Throw e, s') /\ r = Js.Throw e) \/
  (exists a s1, m s = (Js.Ok a, s1) /\ k a s1 = (r, s')).
Proof.
  unfold Js.mbind. destruct (m s) as [[a | e] s1]; intros H.
  - right. exists a, s1. split; [reflexivity | exact H].
  - left. injection H as <- <-. exists e. split; reflexivity.
Qed.

Lemma tryCatch_inv {S A : Type} (m : Js.M S A) (h : string -> Js.M S A)
    s r s' :
  Js.tryCatch m h s = (r, s') ->
  (exists a, m s = (Js.Ok a, s') /\ r = Js.Ok a) \/
  (exists e s1, m s = (Js.Throw e, s1) /\ h e s1 = (r, s')).
Proof.
  unfold Js.tryCatch. destruct (m s) as [[a | e] s1]; intros H.
  - left. injection H as <- <-. exists a. split; reflexivity.
  - right. exists e, s1. split; [reflexivity | exact H].
Qed.

Lemma quiet_ret {A : Type} (a : A) : Shape.quiet (Net := Net) (Js.ret a).
Proof. intros w r w' H. injection H as _ <-. reflexivity. Qed.

Lemma quiet_lift {A : Type} (o : Js.outcome A) :
  Shape.quiet (Net := Net) (Js.lift o).
Proof. intros w r w' H. injection H as _ <-. reflexivity. Qed.

Lemma quiet_throw {A : Type} (e : string) :
  Shape.quiet (Net := Net) (A := A) (Js.throw e).
Proof. intros w r w' H. injection H as _ <-. reflexivity. Qed.

Lemma quiet_onNet {A : Type} (m : Js.M Net A) : Shape.quiet (onNet m).
Proof.
  intros w r w' H. unfold onNet, Js.zoom in H.
  destruct (m (net w)) as [r0 n]. injection H as _ <-. reflexivity.
Qed.

Lemma quiet_now : Shape.quiet (Net := Net) now.
Proof.
  intros w r w' H. unfold now, Js.zoom, Js.Date_now in H.
  injection H as _ <-. reflexivity.
Qed.

Lemma now_Ok (w : World (Net := Net)) r w' :
  now w = (r, w') -> exists t, r = Js.Ok t.
Proof.
  unfold now, Js.zoom, Js.Date_now. intros H. injection H as <- _.
  eexists. reflexivity.
Qed.

Lemma quiet_bind {A B : Type} (m : Js.M World A) (k : A -> Js.M World B) :
  Shape.quiet m -> (forall a, Shape.quiet (k a)) ->
  Shape.quiet (Net := Net) (Js.mbind m k).
Proof.
  intros Hm Hk w r w' H. apply mbind_inv in H.
  destruct H as [[e [H _]] | [a [w1 [H1 H2]]]].
  - exact (Hm _ _ _ H).
  - rewrite (Hk a _ _ _ H2). exact (Hm _ _ _ H1).
Qed.

Lemma quiet_tryCatch {A : Type} (m : Js.M World A)
    (h : string -> Js.M World A) :
  Shape.quiet m -> (forall e, Shape.quiet (h e)) ->
  Shape.quiet (Net := Net) (Js.tryCatch m h).
Proof.
  intros Hm Hh w r w' H. apply tryCatch_inv in H.
  destruct H as [[a [H _]] | [e [w1 [H1 H2]]]].
  - exact (Hm _ _ _ H).
  - rewrite (Hh e _ _ _ H2). exact (Hm _ _ _ H1).
Qed.

(** [simulate] sends nothing and does not throw. *)
Lemma simulate_quiet (this : t) (opportunity : ArbitrageOpportunity.t) :
  Shape.quiet (simulate viem CHAIN_CONFIGS this opportunity).
Proof.
  unfold simulate.
  destruct (negb (bool_decide (_ ∈ publicClients this))); [apply quiet_ret |].
  destruct (CHAIN_CONFIGS _) as [chainConfig |]; [| apply quiet_ret].
  apply quiet_tryCatch; [| intros e; apply quiet_ret].
  apply quiet_bind; [apply quiet_lift | intros calldata].
  apply quiet_bind; [apply quiet_lift | intros params].
  apply quiet_bind; [apply quiet_onNet | intros _].
  apply quiet_bind; [apply quiet_onNet | intros gasEstimate].
  apply quiet_ret.
Qed.

Lemma simulate_Ok (this : t) (opportunity : ArbitrageOpportunity.t)
    (w : World (Net := Net)) r w' :
  simulate viem CHAIN_CONFIGS this opportunity w = (r, w') ->
  exists simResult, r = Js.Ok simResult.
Proof.
  unfold simulate.
  destruct (negb (bool_decide (_ ∈ publicClients this)));
    [intros H; injection H as <- _; eexists; reflexivity |].
  destruct (CHAIN_CONFIGS _) as [chainConfig |];
    [| intros H; injection H as <- _; eexists; reflexivity].
  intros H. apply tryCatch_inv in H.
  destruct H as [[a [_ ->]] | [e [w1 [_ H]]]]; [eexists; reflexivity |].
  injection H as <- _. eexists. reflexivity.
Qed.

Lemma walletSend_sent chainId tx (w : World (Net := Net)) r w' :
  walletSend viem chainId tx w = (r, w') ->
  sent w' = sent w ++ [(chainId, tx)].
Proof.
  unfold walletSend. intros H. apply quiet_onNet in H. exact H.
Qed.

Lemma encodeArbitrageCall_Ok (this : t) (opportunity : ArbitrageOpportunity.t)
    calldata :
  encodeArbitrageCall viem this opportunity = Js.Ok calldata ->
  exists params,
    buildArbitrageParams this opportunity = Js.Ok params /\
    Viem.encodeFunctionData viem params = Js.Ok calldata.
Proof.
  unfold encodeArbitrageCall.
  destruct (buildArbitrageParams this opportunity) as [params | e];
    cbn [Js.bind]; intros H; [| discriminate H].
  exists params. split; [reflexivity | exact H].
Qed.

(** What a transaction of the executor carries: the call of
    [executeArbitrage] with the parameters built from the opportunity, sent
    to the arbitrage contract of the chain's configuration. *)
Lemma executeStandard_sends (this : t) (opportunity : ArbitrageOpportunity.t)
    (chainConfig : ChainConfig.t) (w : World (Net := Net)) r w' :
  executeStandard viem this opportunity chainConfig w = (r, w') ->
  (sent w' = sent w /\ exists e, r = Js.Throw e) \/
  (exists tx params calldata,
      sent w' = sent w ++ [(ArbitrageOpportunity.chain opportunity, tx)] /\
      Transaction.to tx = ChainConfig.arbitrage chainConfig /\
      buildArbitrageParams this opportunity = Js.Ok params /\
      Viem.encodeFunctionData viem params = Js.Ok calldata /\
      Transaction.data tx = calldata).
Proof.
  unfold executeStandard. intros H.
  apply mbind_inv in H. destruct H as [[e [H ->]] | [calldata [w1 [H1 H]]]].
  { left. split; [exact (quiet_lift _ _ _ _ H) | eexists; reflexivity]. }
  pose proof (quiet_lift _ _ _ _ H1) as Hs1.
  injection H1 as Hcall _. apply encodeArbitrageCall_Ok in Hcall.
  destruct Hcall as [params [Hparams Hencode]].
  apply mbind_inv in H. destruct H as [[e [H ->]] | [nonce [w2 [H2 H]]]].
  { left. split; [| eexists; reflexivity].
    rewrite (quiet_onNet _ _ _ _ H). exact Hs1. }
  pose proof (quiet_onNet _ _ _ _ H2) as Hs2.
  apply mbind_inv in H. destruct H as [[e [H ->]] | [gasEstimate [w3 [H3 H]]]].
  { left. split; [| eexists; reflexivity].
    rewrite (quiet_onNet _ _ _ _ H), Hs2. exact Hs1. }
  pose proof (quiet_onNet _ _ _ _ H3) as Hs3.
  apply mbind_inv in H. destruct H as [[e [H ->]] | [gasPrice [w4 [H4 H]]]].
  { left. split; [| eexists; reflexivity].
    rewrite (quiet_onNet _ _ _ _ H), Hs3, Hs2. exact Hs1. }
  pose proof (quiet_onNet _ _ _ _ H4) as Hs4.
  apply walletSend_sent in H. right.
  eexists. exists params, calldata.
  split; [rewrite H, Hs4, Hs3, Hs2, Hs1; reflexivity |].
  repeat split; assumption.
Qed.

Lemma executeViaFlashbots_sends (this : t)
    (opportunity : ArbitrageOpportunity.t) (w : World (Net := Net)) r w' :
  executeViaFlashbots viem CHAIN_CONFIGS this opportunity w = (r, w') ->
  (sent w' = sent w /\ exists e, r = Js.Throw e) \/
  (exists tx chainConfig params calldata,
      sent w' = sent w ++ [(ArbitrageOpportunity.chain opportunity, tx)] /\
      CHAIN_CONFIGS 1 = Some chainConfig /\
      Transaction.to tx = ChainConfig.arbitrage chainConfig /\
      buildArbitrageParams this opportunity = Js.Ok params /\
      Viem.encodeFunctionData viem params = Js.Ok calldata /\
      Transaction.data tx = calldata).
Proof.
  unfold executeViaFlashbots.
  destruct (CHAIN_CONFIGS 1) as [chainConfig |] eqn:Hconfig.
  2: { intros H. left. split; [exact (quiet_throw _ _ _ _ H) |].
       injection H as <- _. eexists. reflexivity. }
  intros H.
  apply mbind_inv in H. destruct H as [[e [H ->]] | [calldata [w1 [H1 H]]]].
  { left. split; [exact (quiet_lift _ _ _ _ H) | eexists; reflexivity]. }
  pose proof (quiet_lift _ _ _ _ H1) as Hs1.
  injection H1 as Hcall _. apply encodeArbitrageCall_Ok in Hcall.
  destruct Hcall as [params [Hparams Hencode]].
  apply mbind_inv in H. destruct H as [[e [H ->]] | [blockNumber [w2 [H2 H]]]].
  { left. split; [| eexists; reflexivity].
    rewrite (quiet_onNet _ _ _ _ H). exact Hs1. }
  pose proof (quiet_onNet _ _ _ _ H2) as Hs2.
  apply mbind_inv in H. destruct H as [[e [H ->]] | [gasEstimate [w3 [H3 H]]]].
  { left. split; [| eexists; reflexivity].
    rewrite (quiet_onNet _ _ _ _ H), Hs2. exact Hs1. }
  pose proof (quiet_onNet _ _ _ _ H3) as Hs3.
  apply mbind_inv in H. destruct H as [[e [H ->]] | [gasPrice [w4 [H4 H]]]].
  { left. split; [| eexists; reflexivity].
    rewrite (quiet_onNet _ _ _ _ H), Hs3, Hs2. exact Hs1. }
  pose proof (quiet_onNet _ _ _ _ H4) as Hs4.
  apply mbind_inv in H. destruct H as [[e [H ->]] | [nonce [w5 [H5 H]]]].
  { left. split; [| eexists; reflexivity].
    rewrite (quiet_onNet _ _ _ _ H), Hs4, Hs3, Hs2. exact Hs1. }
  pose proof (quiet_onNet _ _ _ _ H5) as Hs5.
  apply walletSend_sent in H. right.
  eexists. exists chainConfig, params, calldata.
  split; [rewrite H, Hs5, Hs4, Hs3, Hs2, Hs1; reflexivity |].
  repeat split; assumption.
Qed.

End ExecutorSends.

Section ExecutorResults.
Import TradeExecutor.
Context {Net : Type}.
Variable viem : Viem.t Net.
Variable CHAIN_CONFIGS : ChainId -> option ChainConfig.t.

Lemma now_ret {A : Type} (f : Z -> A) (w : World (Net := Net)) r w' :
  Js.mbind now (fun timestamp => Js.ret (f timestamp)) w = (r, w') ->
  sent w' = sent w /\ exists timestamp, r = Js.Ok (f timestamp).
Proof.
  unfold Js.mbind, now, Js.zoom, Js.Date_now, Js.ret. intros H.
  injection H as <- <-. split; [reflexivity | eexists; reflexivity].
Qed.

(** X17. [execute] never throws, and it signs and submits at most one
    transaction. When it submits none, its result is a failure unless
    [dryRun] is set; when it submits one, [dryRun] is off and the
    transaction is the call of [executeArbitrage] with the parameters that
    [buildArbitrageParams] builds from the opportunity, addressed to the
    arbitrage contract that [CHAIN_CONFIGS] gives for the opportunity's
    chain. *)
Theorem execute_sends_at_most_once (this : t)
    (opportunity : ArbitrageOpportunity.t) (w : World (Net := Net)) r w' :
  execute viem CHAIN_CONFIGS this opportunity w = (r, w') ->
  exists result,
    r = Js.Ok result /\
    ((sent w' = sent w /\
      (ExecutionResult.success result = true ->
       BotConfig.dryRun (config this) = true)) \/
     (exists tx chainConfig params calldata,
         sent w' = sent w ++ [(ArbitrageOpportunity.chain opportunity, tx)] /\
         BotConfig.dryRun (config this) = false /\
         CHAIN_CONFIGS (ArbitrageOpportunity.chain opportunity)
         = Some chainConfig /\
         Transaction.to tx = ChainConfig.arbitrage chainConfig /\
         buildArbitrageParams this opportunity = Js.Ok params /\
         Viem.encodeFunctionData viem params = Js.Ok calldata /\
         Transaction.data tx = calldata)).
Proof.
  unfold execute. intros H.
  destruct (negb (bool_decide (_ ∈ walletClients this))
            || negb (bool_decide (_ ∈ publicClients this))).
  { apply now_ret in H. destruct H as [Hsent [timestamp ->]].
    eexists. split; [reflexivity |]. left. split; [exact Hsent |].
    intros Hs. discriminate Hs. }
  destruct (CHAIN_CONFIGS (ArbitrageOpportunity.chain opportunity))
    as [chainConfig |] eqn:Hconfig.
  2: { apply now_ret in H. destruct H as [Hsent [timestamp ->]].
       eexists. split; [reflexivity |]. left. split; [exact Hsent |].
       intros Hs. discriminate Hs. }
  destruct (BotConfig.dryRun (config this)) eqn:Hdry.
  { apply now_ret in H. destruct H as [Hsent [timestamp ->]].
    eexists. split; [reflexivity |]. left. split; [exact Hsent |].
    intros _. reflexivity. }
  match type of H with
  | Js.tryCatch ?body ?handler w = _ =>
      assert (Hbody :
                forall rb wb,
                  body w = (rb, wb) ->
                  (sent wb = sent w /\
                   forall res, rb = Js.Ok res ->
                               ExecutionResult.success res = false) \/
                  (exists tx params calldata,
                      sent wb
                      = sent w ++ [(ArbitrageOpportunity.chain opportunity, tx)] /\
                      Transaction.to tx = ChainConfig.arbitrage chainConfig /\
                      buildArbitrageParams this opportunity = Js.Ok params /\
                      Viem.encodeFunctionData viem params = Js.Ok calldata /\
                      Transaction.data tx = calldata))
  end.
  { intros rb wb Hrun.
    apply mbind_inv in Hrun.
    destruct Hrun as [[e [Hsim ->]] | [simResult [w1 [Hsim Hrun]]]].
    { left. split; [| intros res Hres; discriminate Hres].
      destruct (BotConfig.simulateBeforeExecute (config this)).
      - exact (simulate_quiet viem CHAIN_CONFIGS this opportunity _ _ _ Hsim).
      - exact (quiet_ret _ _ _ _ Hsim). }
    assert (Hs1 : sent w1 = sent w).
    { destruct (BotConfig.simulateBeforeExecute (config this)).
      - exact (simulate_quiet viem CHAIN_CONFIGS this opportunity _ _ _ Hsim).
      - exact (quiet_ret _ _ _ _ Hsim). }
    destruct (negb (SimulationResult.success simResult)).
    { apply now_ret in Hrun. destruct Hrun as [Hsent [timestamp ->]].
      left. split; [rewrite Hsent; exact Hs1 |].
      intros res Hres. injection Hres as <-. reflexivity. }
    apply mbind_inv in Hrun.
    destruct Hrun as [[e [Hgas ->]] | [gasPrice [w2 [Hgas Hrun]]]].
    { left. split; [| intros res Hres; discriminate Hres].
      rewrite (quiet_onNet _ _ _ _ Hgas). exact Hs1. }
    pose proof (quiet_onNet _ _ _ _ Hgas) as Hs2.
    destruct (BotConfig.maxGasPriceGwei (config this) * 10 ^ 9 <? gasPrice).
    { apply now_ret in Hrun. destruct Hrun as [Hsent [timestamp ->]].
      left. split; [rewrite Hsent, Hs2; exact Hs1 |].
      intros res Hres. injection Hres as <-. reflexivity. }
    assert (Hsend :
              forall rt wt,
                (if (ArbitrageOpportunity.chain opportunity =? 1)
                    && BotConfig.flashbotsEnabled (config this)
                 then executeViaFlashbots viem CHAIN_CONFIGS this opportunity
                 else executeStandard viem this opportunity chainConfig) w2
                = (rt, wt) ->
                (sent wt = sent w2 /\ exists e, rt = Js.Throw e) \/
                (exists tx params calldata,
                    sent wt
                    = sent w2
                      ++ [(ArbitrageOpportunity.chain opportunity, tx)] /\
                    Transaction.to tx = ChainConfig.arbitrage chainConfig /\
                    buildArbitrageParams this opportunity = Js.Ok params /\
                    Viem.encodeFunctionData viem params = Js.Ok calldata /\
                    Transaction.data tx = calldata)).
    { intros rt wt Ht.
      destruct (Z.eqb_spec (ArbitrageOpportunity.chain opportunity) 1)
        as [Hchain | _]; cbn [andb] in Ht.
      - destruct (BotConfig.flashbotsEnabled (config this)).
        + apply executeViaFlashbots_sends in Ht.
          destruct Ht as [Hquiet | [tx [cfg [params [calldata Ht]]]]];
            [left; exact Hquiet |].
          destruct Ht as [Hs [Hcfg [Hto [Hp [He Hd]]]]].
          rewrite <- Hchain, Hconfig in Hcfg. injection Hcfg as <-.
          right. exists tx, params, calldata. repeat split; assumption.
        + apply executeStandard_sends in Ht.
          destruct Ht as [Hquiet | Ht]; [left; exact Hquiet | right; exact Ht].
      - apply executeStandard_sends in Ht.
        destruct Ht as [Hquiet | Ht]; [left; exact Hquiet | right; exact Ht]. }
    apply mbind_inv in Hrun.
    destruct Hrun as [[e [Htx ->]] | [txHash [w3 [Htx Hrun]]]].
    { destruct (Hsend _ _ Htx) as [[Hs3 _] | [tx [params [calldata Hs3]]]].
      - left. split; [| intros res Hres; discriminate Hres].
        rewrite Hs3, Hs2. exact Hs1.
      - right. exists tx, params, calldata.
        destruct Hs3 as [Hs3 Hrest]. split; [| exact Hrest].
        rewrite Hs3, Hs2, Hs1. reflexivity. }
    destruct (Hsend _ _ Htx) as [[_ [e He]] | [tx [params [calldata Hs3]]]];
      [discriminate He |].
    destruct Hs3 as [Hs3 Hrest].
    right. exists tx, params, calldata. split; [| exact Hrest].
    apply mbind_inv in Hrun.
    destruct Hrun as [[e [Hwait ->]] | [receipt [w4 [Hwait Hrun]]]].
    { rewrite (quiet_onNet _ _ _ _ Hwait), Hs3, Hs2, Hs1. reflexivity. }
    apply now_ret in Hrun. destruct Hrun as [Hsent _].
    rewrite Hsent, (quiet_onNet _ _ _ _ Hwait), Hs3, Hs2, Hs1. reflexivity. }
  apply tryCatch_inv in H.
  destruct H as [[result [Hrun ->]] | [e [w1 [Hrun Hcatch]]]].
  - exists result. split; [reflexivity |].
    destruct (Hbody _ _ Hrun) as [[Hsent Hfail] | [tx [params [calldata Hs]]]].
    + left. split; [exact Hsent |]. intros Hs.
      rewrite (Hfail result eq_refl) in Hs. discriminate Hs.
    + right. exists tx, chainConfig, params, calldata.
      destruct Hs as [Hs Hrest]. split; [exact Hs |].
      split; [reflexivity |]. split; [reflexivity | exact Hrest].
  - apply now_ret in Hcatch. destruct Hcatch as [Hsent [timestamp ->]].
    eexists. split; [reflexivity |].
    destruct (Hbody _ _ Hrun) as [[Hs _] | [tx [params [calldata Hs]]]].
    + left. split; [rewrite Hsent; exact Hs |]. intros Hsucc.
      discriminate Hsucc.
    + right. exists tx, chainConfig, params, calldata.
      destruct Hs as [Hs Hrest]. split; [rewrite Hsent; exact Hs |].
      split; [reflexivity |]. split; [reflexivity | exact Hrest].
Qed.

End ExecutorResults.

Section ExecutorGates.
Import TradeExecutor.
Context {Net : Type}.
Variable viem : Viem.t Net.
Variable CHAIN_CONFIGS : ChainId -> option ChainConfig.t.

Lemma simulate_reverted (this : t) (opportunity : ArbitrageOpportunity.t)
    (w : World (Net := Net)) r w' :
  (forall address params account n,
      exists e n',
        Viem.simulateContract viem (ArbitrageOpportunity.chain opportunity)
                              address params account n = (Js.Throw e, n')) ->
  simulate viem CHAIN_CONFIGS this opportunity w = (r, w') ->
  exists simResult,
    r = Js.Ok simResult /\ SimulationResult.success simResult = false.
Proof.
  intros Hrevert. unfold simulate.
  destruct (negb (bool_decide (_ ∈ publicClients this)));
    [intros H; injection H as <- _; eexists; split; reflexivity |].
  destruct (CHAIN_CONFIGS _) as [chainConfig |];
    [| intros H; injection H as <- _; eexists; split; reflexivity].
  intros H. apply tryCatch_inv in H.
  destruct H as [[a [Hrun ->]] | [e [w1 [_ H]]]].
  - exfalso.
    apply mbind_inv in Hrun.
    destruct Hrun as [[e [_ He]] | [calldata [w1 [_ Hrun]]]];
      [discriminate He |].
    apply mbind_inv in Hrun.
    destruct Hrun as [[e [_ He]] | [params [w2 [_ Hrun]]]];
      [discriminate He |].
    apply mbind_inv in Hrun.
    destruct Hrun as [[e [_ He]] | [u [w3 [Hsim _]]]]; [discriminate He |].
    unfold onNet, Js.zoom in Hsim.
    destruct (Hrevert (ChainConfig.arbitrage chainConfig) params
                      (account this) (net w2)) as [e [n' Hthrow]].
    rewrite Hthrow in Hsim. discriminate Hsim.
  - injection H as <- _. eexists. split; reflexivity.
Qed.

(** X18. With [simulateBeforeExecute] set, an opportunity whose simulation
    reverts is never submitted: whatever else the node answers, [execute]
    sends no transaction, and outside dry-run mode its result is a
    failure. *)
Theorem execute_simulation_revert_sends_nothing (this : t)
    (opportunity : ArbitrageOpportunity.t) (w : World (Net := Net)) r w' :
  BotConfig.simulateBeforeExecute (config this) = true ->
  (forall address params account n,
      exists e n',
        Viem.simulateContract viem (ArbitrageOpportunity.chain opportunity)
                              address params account n = (Js.Throw e, n')) ->
  execute viem CHAIN_CONFIGS this opportunity w = (r, w') ->
  sent w' = sent w /\
  exists result,
    r = Js.Ok result /\
    (BotConfig.dryRun (config this) = false ->
     ExecutionResult.success result = false).
Proof.
  intros Hsimulate Hrevert. unfold execute. intros H.
  destruct (negb (bool_decide (_ ∈ walletClients this))
            || negb (bool_decide (_ ∈ publicClients this))).
  { apply now_ret in H. destruct H as [Hsent [timestamp ->]].
    split; [exact Hsent |]. eexists. split; reflexivity. }
  destruct (CHAIN_CONFIGS (ArbitrageOpportunity.chain opportunity))
    as [chainConfig |].
  2: { apply now_ret in H. destruct H as [Hsent [timestamp ->]].
       split; [exact Hsent |]. eexists. split; reflexivity. }
  destruct (BotConfig.dryRun (config this)).
  { apply now_ret in H. destruct H as [Hsent [timestamp ->]].
    split; [exact Hsent |]. eexists. split; [reflexivity |].
    intros Hdry. discriminate Hdry. }
  rewrite Hsimulate in H. apply tryCatch_inv in H.
  destruct H as [[result [Hrun ->]] | [e [w1 [Hrun Hcatch]]]].
  - apply mbind_inv in Hrun.
    destruct Hrun as [[e [_ He]] | [simResult [w1 [Hsim Hrun]]]];
      [discriminate He |].
    pose proof (simulate_quiet viem CHAIN_CONFIGS this opportunity _ _ _ Hsim)
      as Hs1.
    destruct (simulate_reverted this opportunity _ _ _ Hrevert Hsim)
      as [sim [Hsim' Hfail]].
    injection Hsim' as ->. rewrite Hfail in Hrun. cbn [negb] in Hrun.
    apply now_ret in Hrun. destruct Hrun as [Hsent [timestamp Hres]].
    injection Hres as ->.
    split; [rewrite Hsent; exact Hs1 |]. eexists. split; reflexivity.
  - apply now_ret in Hcatch. destruct Hcatch as [Hsent [timestamp ->]].
    apply mbind_inv in Hrun.
    destruct Hrun as [[e0 [Hsim _]] | [simResult [w2 [Hsim Hrun]]]].
    + destruct (simulate_Ok viem CHAIN_CONFIGS this opportunity _ _ _ Hsim)
        as [sim Hsim']. discriminate Hsim'.
    + destruct (simulate_reverted this opportunity _ _ _ Hrevert Hsim)
        as [sim [Hsim' Hfail]].
      injection Hsim' as ->. rewrite Hfail in Hrun. cbn [negb] in Hrun.
      apply now_ret in Hrun. destruct Hrun as [_ [t Hres]]. discriminate Hres.
Qed.

(** X19. The gas gate: when the node reports a gas price above
    [maxGasPriceGwei] gwei, [execute] sends no transaction, and outside
    dry-run mode its result is a failure. *)
Theorem execute_gas_price_gate (this : t)
    (opportunity : ArbitrageOpportunity.t) (w : World (Net := Net)) r w' :
  (forall n,
      exists gasPrice n',
        Viem.getGasPrice viem (ArbitrageOpportunity.chain opportunity) n
        = (Js.Ok gasPrice, n') /\
        BotConfig.maxGasPriceGwei (config this) * 10 ^ 9 < gasPrice) ->
  execute viem CHAIN_CONFIGS this opportunity w = (r, w') ->
  sent w' = sent w /\
  exists result,
    r = Js.Ok result /\
    (BotConfig.dryRun (config this) = false ->
     ExecutionResult.success result = false).
Proof.
  intros Hgas. unfold execute. intros H.
  destruct (negb (bool_decide (_ ∈ walletClients this))
            || negb (bool_decide (_ ∈ publicClients this))).
  { apply now_ret in H. destruct H as [Hsent [timestamp ->]].
    split; [exact Hsent |]. eexists. split; reflexivity. }
  destruct (CHAIN_CONFIGS (ArbitrageOpportunity.chain opportunity))
    as [chainConfig |].
  2: { apply now_ret in H. destruct H as [Hsent [timestamp ->]].
       split; [exact Hsent |]. eexists. split; reflexivity. }
  destruct (BotConfig.dryRun (config this)).
  { apply now_ret in H. destruct H as [Hsent [timestamp ->]].
    split; [exact Hsent |]. eexists. split; [reflexivity |].
    intros Hdry. discriminate Hdry. }
  match type of H with
  | Js.tryCatch ?body ?handler w = _ =>
      assert (Hbody :
                forall rb wb,
                  body w = (rb, wb) ->
                  sent wb = sent w /\
                  forall res, rb = Js.Ok res ->
                              ExecutionResult.success res = false)
  end.
  { intros rb wb Hrun.
    apply mbind_inv in Hrun.
    destruct Hrun as [[e [Hsim ->]] | [simResult [w1 [Hsim Hrun]]]].
    { split; [| intros res Hres; discriminate Hres].
      destruct (BotConfig.simulateBeforeExecute (config this)).
      - exact (simulate_quiet viem CHAIN_CONFIGS this opportunity _ _ _ Hsim).
      - exact (quiet_ret _ _ _ _ Hsim). }
    assert (Hs1 : sent w1 = sent w).
    { destruct (BotConfig.simulateBeforeExecute (config this)).
      - exact (simulate_quiet viem CHAIN_CONFIGS this opportunity _ _ _ Hsim).
      - exact (quiet_ret _ _ _ _ Hsim). }
    destruct (negb (SimulationResult.success simResult)).
    { apply now_ret in Hrun. destruct Hrun as [Hsent [timestamp ->]].
      split; [rewrite Hsent; exact Hs1 |].
      intros res Hres. injection Hres as <-. reflexivity. }
    apply mbind_inv in Hrun.
    destruct Hrun as [[e [Hprice ->]] | [gasPrice [w2 [Hprice Hrun]]]].
    { split; [| intros res Hres; discriminate Hres].
      rewrite (quiet_onNet _ _ _ _ Hprice). exact Hs1. }
    pose proof (quiet_onNet _ _ _ _ Hprice) as Hs2.
    unfold onNet, Js.zoom in Hprice.
    destruct (Hgas (net w1)) as [price [n' [Hread Hhigh]]].
    rewrite Hread in Hprice. injection Hprice as <- _.
    apply Z.ltb_lt in Hhigh. rewrite Hhigh in Hrun.
    apply now_ret in Hrun. destruct Hrun as [Hsent [timestamp ->]].
    split; [rewrite Hsent, Hs2; exact Hs1 |].
    intros res Hres. injection Hres as <-. reflexivity. }
  apply tryCatch_inv in H.
  destruct H as [[result [Hrun ->]] | [e [w1 [Hrun Hcatch]]]].
  - destruct (Hbody _ _ Hrun) as [Hsent Hfail].
    split; [exact Hsent |]. exists result. split; [reflexivity |].
    intros _. exact (Hfail result eq_refl).
  - apply now_ret in Hcatch. destruct Hcatch as [Hsent [timestamp ->]].
    destruct (Hbody _ _ Hrun) as [Hs _].
    split; [rewrite Hsent; exact Hs |]. eexists. split; reflexivity.
Qed.

End ExecutorGates.

Section MoreWitnesses.

Lemma predecessors_pointsBack : Shape.pointsBack Scenario.predecessors.
Proof.
  intros v e H. unfold Scenario.predecessors in H.
  destruct (decide (Scenario.USDC = v)) as [<- | Hne].
  - rewrite lookup_insert_eq in H. injection H as <-. reflexivity.
  - rewrite lookup_insert_ne in H by exact Hne.
    destruct (decide (Scenario.WETH = v)) as [<- | Hne'].
    + rewrite lookup_insert_eq in H. discriminate H.
    + rewrite lookup_insert_ne in H by exact Hne'.
      rewrite lookup_empty in H. discriminate H.
Qed.

Lemma extractCycle_walk_to_start_witness :
  let p := Scenario.predecessors in
  let cycle := ArbitrageDetector.extractCycle Scenario.USDC p in
  cycle
  = fst (ArbitrageDetector.extractLoop (S (size p)) p ∅ Scenario.USDC []) /\
  (exists first,
      Shape.walk first Scenario.USDC cycle /\
      ((forall e, p !! first <> Some (Some e)) \/
       (exists e, In e cycle /\ Edge.to e = first))) /\
  NoDup (map Edge.to cycle) /\
  (forall e, In e cycle -> p !! Edge.to e = Some (Some e)) /\
  (length cycle <= size p)%nat.
Proof.
  apply (extractCycle_walk_to_start Scenario.predecessors Scenario.USDC).
  exact predecessors_pointsBack.
Defined.

Lemma checkArbitrage_callback_witness :
  let w := PriceMonitor.mkWorld Scenario.triangle
             (Reference.runtime 1700000000000) [] in
  let run := PriceMonitor.checkArbitrage Reference.math Chains.CHAIN_CONFIGS
               1 w in
  PriceMonitor.monitor (snd run) = PriceMonitor.monitor w /\
  forall opportunities,
    In (PriceMonitor.Callback opportunities) (PriceMonitor.effects (snd run)) ->
    In (PriceMonitor.Callback opportunities) (PriceMonitor.effects w) \/
    (opportunities <> [] /\
     PriceMonitor.hasCallback (PriceMonitor.monitor w) = true /\
     exists config,
       Chains.CHAIN_CONFIGS 1 = Some config /\
       Forall (fun opp =>
                 ArbitrageOpportunity.inputToken opp
                 = ChainConfig.nativeToken config /\
                 ArbitrageOpportunity.inputAmount opp = 10 ^ 18 /\
                 0 < ArbitrageOpportunity.expectedProfit opp)
              opportunities).
Proof.
  cbv zeta.
  apply (checkArbitrage_callback Reference.math Chains.CHAIN_CONFIGS 1
           (PriceMonitor.mkWorld Scenario.triangle
              (Reference.runtime 1700000000000) [])
           (fst (PriceMonitor.checkArbitrage Reference.math
                   Chains.CHAIN_CONFIGS 1
                   (PriceMonitor.mkWorld Scenario.triangle
                      (Reference.runtime 1700000000000) [])))).
  - cbn [PriceMonitor.monitor]. apply withReserves_builtGraphs.
    exact monitor0_builtGraphs.
  - apply surjective_pairing.
Defined.

Lemma onSyncLogs_does_not_throw_witness :
  exists w' times,
    PriceMonitor.onSyncLogs Reference.math Chains.CHAIN_CONFIGS 1
      Scenario.uniUsdcWeth [Scenario.syncHigh; Scenario.syncLow]
      Scenario.monitorWorld = (Js.Ok tt, w') /\
    length times
    = length (Shape.syncUpdates [Scenario.syncHigh; Scenario.syncLow]) /\
    PriceMonitor.monitor w'
    = Shape.reservesApplied Reference.math 1 Scenario.uniUsdcWeth
        (combine times
           (Shape.syncUpdates [Scenario.syncHigh; Scenario.syncLow]))
        (PriceMonitor.monitor Scenario.monitorWorld) /\
    Shape.detectorRuns 1 (PriceMonitor.effects w')
    = (Shape.detectorRuns 1 (PriceMonitor.effects Scenario.monitorWorld)
       + (if Shape.runsDetector Chains.CHAIN_CONFIGS
               (PriceMonitor.monitor Scenario.monitorWorld) 1
          then length (Shape.syncUpdates [Scenario.syncHigh; Scenario.syncLow])
          else 0))%nat /\
    Shape.builtGraphs (PriceMonitor.detectors (PriceMonitor.monitor w')) /\
    Shape.liquidGraphs (PriceMonitor.detectors (PriceMonitor.monitor w')).
Proof.
  apply (onSyncLogs_does_not_throw Reference.math Chains.CHAIN_CONFIGS 1
           Scenario.uniUsdcWeth [Scenario.syncHigh; Scenario.syncLow]).
  - split; vm_compute; (reflexivity || discriminate).
  - repeat constructor; vm_compute; reflexivity.
  - exact monitor0_builtGraphs.
  - exact monitor0_liquidGraphs.
Defined.

Lemma execute_sends_at_most_once_witness :
  let run := TradeExecutor.execute Scenario.localNode Chains.CHAIN_CONFIGS
               (Scenario.executor false) Scenario.opportunity
               Scenario.world0 in
  exists result,
    fst run = Js.Ok result /\
    ((TradeExecutor.sent (snd run) = TradeExecutor.sent Scenario.world0 /\
      (ExecutionResult.success result = true ->
       BotConfig.dryRun (TradeExecutor.config (Scenario.executor false))
       = true)) \/
     (exists tx chainConfig params calldata,
         TradeExecutor.sent (snd run)
         = TradeExecutor.sent Scenario.world0
           ++ [(ArbitrageOpportunity.chain Scenario.opportunity, tx)] /\
         BotConfig.dryRun (TradeExecutor.config (Scenario.executor false))
         = false /\
         Chains.CHAIN_CONFIGS (ArbitrageOpportunity.chain Scenario.opportunity)
         = Some chainConfig /\
         Transaction.to tx = ChainConfig.arbitrage chainConfig /\
         TradeExecutor.buildArbitrageParams (Scenario.executor false)
                                            Scenario.opportunity
         = Js.Ok params /\
         Viem.encodeFunctionData Scenario.localNode params = Js.Ok calldata /\
         Transaction.data tx = calldata)).
Proof.
  cbv zeta.
  apply (execute_sends_at_most_once Scenario.localNode Chains.CHAIN_CONFIGS
           (Scenario.executor false) Scenario.opportunity Scenario.world0).
  apply surjective_pairing.
Defined.

Lemma execute_simulation_revert_sends_nothing_witness :
  let run := TradeExecutor.execute Scenario.revertingNode Chains.CHAIN_CONFIGS
               (Scenario.executor false) Scenario.opportunity
               Scenario.world0 in
  TradeExecutor.sent (snd run) = TradeExecutor.sent Scenario.world0 /\
  exists result,
    fst run = Js.Ok result /\
    (BotConfig.dryRun (TradeExecutor.config (Scenario.executor false)) = false ->
     ExecutionResult.success result = false).
Proof.
  cbv zeta.
  apply (execute_simulation_revert_sends_nothing Scenario.revertingNode
           Chains.CHAIN_CONFIGS (Scenario.executor false)
           Scenario.opportunity Scenario.world0).
  - reflexivity.
  - intros address params account n. eexists. eexists. reflexivity.
  - apply surjective_pairing.
Defined.

Lemma execute_gas_price_gate_witness :
  let run := TradeExecutor.execute Scenario.expensiveNode Chains.CHAIN_CONFIGS
               (Scenario.executor false) Scenario.opportunity
               Scenario.world0 in
  TradeExecutor.sent (snd run) = TradeExecutor.sent Scenario.world0 /\
  exists result,
    fst run = Js.Ok result /\
    (BotConfig.dryRun (TradeExecutor.config (Scenario.executor false)) = false ->
     ExecutionResult.success result = false).
Proof.
  cbv zeta.
  apply (execute_gas_price_gate Scenario.expensiveNode Chains.CHAIN_CONFIGS
           (Scenario.executor false) Scenario.opportunity Scenario.world0).
  - intros n. eexists. eexists. split; [reflexivity | vm_compute; reflexivity].
  - apply surjective_pairing.
Defined.

End MoreWitnesses.

(** ** The store of reserves and its keys *)
Section ReservesStore.
Import PriceMonitor.

Lemma string_of_uint_no_dash (u : Decimal.uint) :
  Forall (fun c => c <> "-"%char)
         (list_ascii_of_string (NilEmpty.string_of_uint u)).
Proof.
  induction u; cbn [NilEmpty.string_of_uint list_ascii_of_string];
    constructor; (discriminate || assumption).
Qed.

Lemma decimal_no_dash (z : Z) :
  0 <= z ->
  Forall (fun c => c <> "-"%char) (list_ascii_of_string (Js.decimal z)).
Proof.
  intros Hz. unfold Js.decimal. destruct z as [| p | p]; [| | lia].
  - cbn. constructor; [discriminate | constructor].
  - cbn [Z.to_int NilZero.string_of_int]. unfold NilZero.string_of_uint.
    destruct (Pos.to_uint p) eqn:Hp;
      try (rewrite <- Hp; apply string_of_uint_no_dash).
    cbn. constructor; [discriminate | constructor].
Qed.

Lemma to_int_not_nil (z : Z) :
  Z.to_int z <> Decimal.Pos Decimal.Nil /\
  Z.to_int z <> Decimal.Neg Decimal.Nil.
Proof.
  rewrite <- (DecimalZ.of_to z) at 1 2. rewrite DecimalZ.to_of.
  destruct (Z.to_int z) as [u | u]; cbn [Decimal.norm]; unfold Decimal.unorm;
    destruct (Decimal.nzhead u); split; discriminate.
Qed.

Lemma decimal_inj (a b : Z) : Js.decimal a = Js.decimal b -> a = b.
Proof.
  unfold Js.decimal. intros H.
  apply (f_equal NilZero.int_of_string) in H.
  destruct (to_int_not_nil a) as [Ha Ha'].
  destruct (to_int_not_nil b) as [Hb Hb'].
  rewrite !NilZero.isi in H by assumption.
  injection H as H. apply DecimalZ.to_int_inj. exact H.
Qed.

Lemma prefix_dash_app (s t : string) :
  String.prefix (s +:+ "-") (s +:+ "-" +:+ t) = true.
Proof.
  induction s as [| a s IH].
  - change (String.prefix (String "-" "") (String "-" t) = true).
    cbn [String.prefix].
    destruct (ascii_dec "-" "-") as [_ | Hne]; [| contradiction].
    destruct t; reflexivity.
  - change (String.prefix (String a (s +:+ "-"))
                          (String a (s +:+ "-" +:+ t)) = true).
    cbn [String.prefix].
    destruct (ascii_dec a a) as [_ | Hne]; [exact IH | contradiction].
Qed.

Lemma prefix_up_to_dash (s s' t : string) :
  Forall (fun c => c <> "-"%char) (list_ascii_of_string s) ->
  Forall (fun c => c <> "-"%char) (list_ascii_of_string s') ->
  String.prefix (s +:+ "-") (s' +:+ "-" +:+ t) = true ->
  s = s'.
Proof.
  revert s'. induction s as [| a s IH]; intros s' Hs Hs' H.
  - destruct s' as [| c s']; [reflexivity |].
    change (String.prefix (String "-" "") (String c (s' +:+ "-" +:+ t)) = true)
      in H.
    cbn [String.prefix] in H. apply Forall_inv in Hs'.
    destruct (ascii_dec "-" c) as [<- | _]; [contradiction | discriminate].
  - destruct s' as [| c s'].
    + change (String.prefix (String a (s +:+ "-")) (String "-" t) = true) in H.
      cbn [String.prefix] in H. apply Forall_inv in Hs.
      destruct (ascii_dec a "-") as [-> | _]; [contradiction | discriminate].
    + change (String.prefix (String a (s +:+ "-"))
                            (String c (s' +:+ "-" +:+ t)) = true) in H.
      cbn [String.prefix] in H.
      destruct (ascii_dec a c) as [<- | _]; [| discriminate].
      f_equal. apply IH; [| | exact H].
      * exact (Forall_inv_tail Hs).
      * exact (Forall_inv_tail Hs').
Qed.

(** The prefix that [getAllReserves] tests selects the keys of its own
    chain only: the dash keeps the chain 1 apart from the chain 10. *)
Lemma chain_prefix (chainId other : Z) (pool : Address) :
  0 <= chainId -> 0 <= other ->
  String.prefix (Js.decimal other +:+ "-") (reservesKey chainId pool)
  = bool_decide (other = chainId).
Proof.
  intros Hc Ho. unfold reservesKey.
  destruct (bool_decide_reflect (other = chainId)) as [-> | Hne].
  - apply prefix_dash_app.
  - destruct (String.prefix _ _) eqn:H; [| reflexivity].
    apply prefix_up_to_dash in H; try (apply decimal_no_dash; assumption).
    apply decimal_inj in H. contradiction.
Qed.

Lemma reservesKey_inj (chainId other : Z) (pool pool' : Address) :
  0 <= chainId -> 0 <= other ->
  reservesKey other pool' = reservesKey chainId pool ->
  other = chainId /\ pool' = pool.
Proof.
  intros Hc Ho H.
  assert (Hchain : other = chainId).
  { pose proof (chain_prefix chainId other pool Hc Ho) as Hp.
    rewrite <- H in Hp. unfold reservesKey in Hp at 1.
    rewrite prefix_dash_app in Hp.
    symmetry in Hp. apply bool_decide_eq_true in Hp. exact Hp. }
  split; [exact Hchain |]. subst other. unfold reservesKey in H.
  induction (Js.decimal chainId) as [| a s IH].
  - change (String "-" pool' = String "-" pool) in H.
    injection H as H. exact H.
  - change (String a (s +:+ "-" +:+ pool') = String a (s +:+ "-" +:+ pool))
      in H.
    injection H as H. exact (IH H).
Qed.

Lemma map_set_has {V : Type} (k : string) (v : V) (m : list (string * V)) :
  In (k, v) (Js.map_set k v m).
Proof.
  induction m as [| [k' v'] m IH]; cbn [Js.map_set]; [left; reflexivity |].
  destruct (String.eqb k' k); [left; reflexivity | right; exact IH].
Qed.

Lemma filter_map_set_other {V : Type} (p : string * V -> bool) (k : string)
    (v : V) (m : list (string * V)) :
  (forall x, p (k, x) = false) ->
  List.filter p (Js.map_set k v m) = List.filter p m.
Proof.
  intros Hk. induction m as [| [k' v'] m IH]; cbn [Js.map_set List.filter].
  - rewrite Hk. reflexivity.
  - destruct (String.eqb k' k) eqn:Heq; cbn [List.filter].
    + apply String.eqb_eq in Heq. subst k'. rewrite !Hk. reflexivity.
    + rewrite IH. reflexivity.
Qed.

(** [updateReserves] stores the record before it quotes: the store is
    written whether the quotes throw or not. *)
Lemma reserves_updateReserves math now chainId sub reserve0 reserve1 m :
  reserves (snd (updateReserves math now chainId sub reserve0 reserve1 m))
  = Js.map_set (reservesKey chainId (PoolSubscription.pool sub))
      (PoolReserves.mk (PoolSubscription.pool sub)
         (PoolSubscription.dex sub) (PoolSubscription.token0 sub)
         (PoolSubscription.token1 sub) reserve0 reserve1
         (PoolSubscription.fee sub) now)
      (reserves m).
Proof.
  unfold updateReserves, Js.mbind, setReserves, detectorAddEdge, Js.lift.
  cbn [detectors subscriptions reserves hasCallback].
  destruct (detectors m !! chainId) as [d |]; [| reflexivity].
  destruct (ArbitrageDetector.calculateRate reserve0 reserve1 _ _);
    [| reflexivity].
  cbn [detectors subscriptions reserves hasCallback].
  destruct (ArbitrageDetector.calculateRate reserve1 reserve0 _ _);
    reflexivity.
Qed.

(** X20. The reserves of different chains are kept apart: an update for a
    pool of one chain, whether its quotes throw or not, changes neither
    what [getAllReserves] lists nor what [getReserves] finds for any other
    chain, and its record is listed by [getAllReserves] for its own chain.
    The chain ids are not negative. *)
Theorem updateReserves_keeps_chains_apart math now chainId sub reserve0
    reserve1 m other :
  0 <= chainId -> 0 <= other -> other <> chainId ->
  getAllReserves
    (snd (updateReserves math now chainId sub reserve0 reserve1 m)) other
  = getAllReserves m other /\
  (forall pool,
      getReserves
        (snd (updateReserves math now chainId sub reserve0 reserve1 m))
        other pool
      = getReserves m other pool) /\
  In (PoolReserves.mk (PoolSubscription.pool sub)
        (PoolSubscription.dex sub) (PoolSubscription.token0 sub)
        (PoolSubscription.token1 sub) reserve0 reserve1
        (PoolSubscription.fee sub) now)
     (getAllReserves
        (snd (updateReserves math now chainId sub reserve0 reserve1 m))
        chainId).
Proof.
  intros Hc Ho Hne. unfold getAllReserves, getReserves.
  rewrite reserves_updateReserves.
  split; [| split].
  - f_equal. apply filter_map_set_other. intros x. cbn [fst].
    rewrite chain_prefix by assumption.
    apply bool_decide_eq_false. exact Hne.
  - intros pool. apply map_get_set_other. intros Heq.
    apply reservesKey_inj in Heq; try assumption.
    destruct Heq as [Heq _]. congruence.
  - apply in_map_iff. eexists (_, _). split; [reflexivity |].
    apply filter_In. split.
    + apply map_set_has.
    + cbn [fst]. rewrite chain_prefix by assumption.
      apply bool_decide_eq_true. reflexivity.
Qed.

Lemma updateReserves_keeps_chains_apart_witness :
  let m' := snd (updateReserves Reference.math 1700000000000 1
                   Scenario.uniUsdcWeth (3000000 * Scenario.ether)
                   (1000 * Scenario.ether) Scenario.monitor0) in
  getAllReserves m' 10 = getAllReserves Scenario.monitor0 10 /\
  (forall pool, getReserves m' 10 pool = getReserves Scenario.monitor0 10 pool) /\
  In (PoolReserves.mk (PoolSubscription.pool Scenario.uniUsdcWeth)
        (PoolSubscription.dex Scenario.uniUsdcWeth)
        (PoolSubscription.token0 Scenario.uniUsdcWeth)
        (PoolSubscription.token1 Scenario.uniUsdcWeth)
        (3000000 * Scenario.ether) (1000 * Scenario.ether)
        (PoolSubscription.fee Scenario.uniUsdcWeth) 1700000000000)
     (getAllReserves m' 1).
Proof.
  cbv zeta.
  apply (updateReserves_keeps_chains_apart Reference.math 1700000000000 1
           Scenario.uniUsdcWeth (3000000 * Scenario.ether)
           (1000 * Scenario.ether) Scenario.monitor0 10); lia.
Defined.

Lemma new_reserves (CHAIN_CONFIGS : ChainId -> option ChainConfig.t)
    (enabledChains : list ChainId) :
  reserves (new CHAIN_CONFIGS enabledChains) = [] /\
  hasCallback (new CHAIN_CONFIGS enabledChains) = false.
Proof.
  unfold new. apply fold_left_invariant; [| split; reflexivity].
  intros m chainId _ [Hr Hc].
  destruct (CHAIN_CONFIGS chainId); split; assumption.
Qed.

Lemma map_set_keys_NoDup {V : Type} (k : string) (v : V)
    (m : list (string * V)) :
  NoDup (map fst m) -> NoDup (map fst (Js.map_set k v m)).
Proof.
  induction m as [| [k' v'] m IH]; cbn [Js.map_set map fst]; intros Hm.
  - apply NoDup_singleton.
  - inversion Hm as [| ? ? Hnotin Hrest]; subst.
    destruct (String.eqb k' k) eqn:Heq; cbn [map fst].
    + apply String.eqb_eq in Heq. subst k'. exact Hm.
    + apply String.eqb_neq in Heq. constructor; [| exact (IH Hrest)].
      intros Hin. apply list_elem_of_In in Hin. apply in_map_iff in Hin.
      destruct Hin as [[k0 v0] [Hk Hin]]. cbn [fst] in Hk. subst k0.
      apply map_set_In in Hin. destruct Hin as [Hin | Hin].
      * injection Hin as Hin _. contradiction.
      * apply Hnotin. apply list_elem_of_In. apply in_map_iff.
        exists (k', v0). split; [reflexivity | exact Hin].
Qed.

Lemma map_get_NoDup_In {V : Type} (k : string) (v : V)
    (m : list (string * V)) :
  NoDup (map fst m) -> In (k, v) m -> Js.map_get k m = Some v.
Proof.
  induction m as [| [k' v'] m IH]; cbn [Js.map_get map fst]; intros Hm Hin;
    [destruct Hin |].
  inversion Hm as [| ? ? Hnotin Hrest]; subst.
  destruct Hin as [Hin | Hin].
  - injection Hin as -> ->. rewrite String.eqb_refl. reflexivity.
  - destruct (String.eqb k' k) eqn:Heq; [| exact (IH Hrest Hin)].
    apply String.eqb_eq in Heq. subst k'. exfalso. apply Hnotin.
    apply list_elem_of_In. apply in_map_iff. exists (k, v).
    split; [reflexivity | exact Hin].
Qed.

Lemma map_get_In_key {V : Type} (k : string) (m : list (string * V)) (v : V) :
  Js.map_get k m = Some v -> In (k, v) m.
Proof.
  induction m as [| [k' v'] m IH]; cbn [Js.map_get]; intros H;
    [discriminate H |].
  destruct (String.eqb k' k) eqn:Heq.
  - apply String.eqb_eq in Heq. injection H as ->. subst k'. left. reflexivity.
  - right. exact (IH H).
Qed.

(** The keys of the reserves of a monitor: pairwise distinct, each one made
    by [reservesKey] from a chain and the pool of its record. *)
Lemma monitored_keys (m : t) :
  Shape.monitored m ->
  NoDup (map fst (reserves m)) /\
  forall k r,
    In (k, r) (reserves m) ->
    exists chainId, 0 <= chainId /\ k = reservesKey chainId (PoolReserves.pool r).
Proof.
  induction 1 as [CFG chains | m _ IH | math now chainId sub r0 r1 m Hc _ IH].
  - destruct (new_reserves CFG chains) as [-> _].
    split; [constructor | intros k r []].
  - exact IH.
  - rewrite reserves_updateReserves. destruct IH as [Hnodup Hkeys].
    split; [apply map_set_keys_NoDup; exact Hnodup |].
    intros k r Hin. apply map_set_In in Hin. destruct Hin as [Hin | Hin].
    + injection Hin as -> ->. exists chainId. split; [exact Hc | reflexivity].
    + exact (Hkeys k r Hin).
Qed.

(** X21. On a monitor that the constructor and any number of calls of
    [updateReserves] have produced, [getAllReserves(chainId)] lists exactly
    the records that [getReserves] finds for the chain: a record is listed
    if and only if [getReserves(chainId, pool)] returns it for its own
    pool. *)
Theorem getAllReserves_lists_the_chain (m : t) (chainId : ChainId)
    (r : PoolReserves.t) :
  Shape.monitored m ->
  0 <= chainId ->
  In r (getAllReserves m chainId) <->
  getReserves m chainId (PoolReserves.pool r) = Some r.
Proof.
  intros Hm Hc. destruct (monitored_keys m Hm) as [Hnodup Hkeys].
  unfold getAllReserves, getReserves. split.
  - intros Hin. apply in_map_iff in Hin. destruct Hin as [[k r'] [Hr Hin]].
    cbn [snd] in Hr. subst r'. apply filter_In in Hin.
    destruct Hin as [Hin Hprefix]. cbn [fst] in Hprefix.
    destruct (Hkeys k r Hin) as [c [Hc' ->]].
    rewrite chain_prefix in Hprefix by assumption.
    apply bool_decide_eq_true in Hprefix. subst c.
    apply map_get_NoDup_In; assumption.
  - intros Hget. apply map_get_In_key in Hget.
    apply in_map_iff. exists (reservesKey chainId (PoolReserves.pool r), r).
    split; [reflexivity |]. apply filter_In. split; [exact Hget |].
    cbn [fst]. rewrite chain_prefix by assumption.
    apply bool_decide_eq_true. reflexivity.
Qed.

Lemma getAllReserves_lists_the_chain_witness :
  let m := snd (updateReserves Reference.math 1700000000000 1
                  Scenario.uniUsdcWeth (3000000 * Scenario.ether)
                  (1000 * Scenario.ether)
                  (new Chains.CHAIN_CONFIGS [1])) in
  let r := PoolReserves.mk (PoolSubscription.pool Scenario.uniUsdcWeth)
             (PoolSubscription.dex Scenario.uniUsdcWeth)
             (PoolSubscription.token0 Scenario.uniUsdcWeth)
             (PoolSubscription.token1 Scenario.uniUsdcWeth)
             (3000000 * Scenario.ether) (1000 * Scenario.ether)
             (PoolSubscription.fee Scenario.uniUsdcWeth) 1700000000000 in
  In r (getAllReserves m 1) <->
  getReserves m 1 (PoolReserves.pool r) = Some r.
Proof.
  cbv zeta.
  apply (getAllReserves_lists_the_chain
           (snd (updateReserves Reference.math 1700000000000 1
                   Scenario.uniUsdcWeth (3000000 * Scenario.ether)
                   (1000 * Scenario.ether)
                   (new Chains.CHAIN_CONFIGS [1])))
           1).
  - apply Shape.monitored_updateReserves; [lia | apply Shape.monitored_new].
  - lia.
Defined.

End ReservesStore.

(** ** The constructor of the monitor *)
Section Construction.
Import PriceMonitor.

Lemma new_fold (CHAIN_CONFIGS : ChainId -> option ChainConfig.t)
    (chainId : ChainId) (enabledChains : list ChainId) :
  forall m0 : t,
    let m :=
      fold_left
        (fun (m : t) (chainId : ChainId) =>
           match CHAIN_CONFIGS chainId with
           | None => m
           | Some _ =>
               mk (<[chainId := []]> (subscriptions m)) (reserves m)
                  (<[chainId := ArbitrageDetector.new
                                  chainId ArbitrageDetector.default_minProfitBps]>
                     (detectors m))
                  (hasCallback m)
           end)
        enabledChains m0 in
    detectors m !! chainId
    = (if bool_decide (chainId ∈ enabledChains) then
         match CHAIN_CONFIGS chainId with
         | Some _ => Some (ArbitrageDetector.new
                             chainId ArbitrageDetector.default_minProfitBps)
         | None => detectors m0 !! chainId
         end
       else detectors m0 !! chainId) /\
    subscriptions m !! chainId
    = (if bool_decide (chainId ∈ enabledChains) then
         match CHAIN_CONFIGS chainId with
         | Some _ => Some []
         | None => subscriptions m0 !! chainId
         end
       else subscriptions m0 !! chainId).
Proof.
  induction enabledChains as [| x l IH]; intros m0; cbn zeta.
  - split; reflexivity.
  - cbn [fold_left]. cbn zeta in IH.
    match goal with
    | |- context [fold_left ?f l ?start] =>
        destruct (IH start) as [Hd Hs]; rewrite Hd, Hs
    end.
    clear IH Hd Hs.
    destruct (decide (chainId = x)) as [-> | Hne].
    + rewrite (bool_decide_eq_true_2 (x ∈ x :: l)) by (left).
      destruct (CHAIN_CONFIGS x) as [config |]; cbn [detectors subscriptions].
      * rewrite !lookup_insert_eq. destruct (bool_decide (x ∈ l));
          split; reflexivity.
      * destruct (bool_decide (x ∈ l)); split; reflexivity.
    + assert (Hin : bool_decide (chainId ∈ x :: l) = bool_decide (chainId ∈ l)).
      { apply bool_decide_ext. rewrite elem_of_cons. tauto. }
      rewrite Hin.
      destruct (CHAIN_CONFIGS x) as [config |]; cbn [detectors subscriptions];
        [| split; reflexivity].
      rewrite !lookup_insert_ne by congruence. split; reflexivity.
Qed.

(** X22. The constructor makes one detector, with an empty graph and the
    default [minProfitBps = 10], and one empty list of subscriptions for
    every enabled chain that has an entry in [CHAIN_CONFIGS], and nothing
    for any other chain: an enabled chain without configuration is skipped
    silently. No reserves are stored and no callback is registered. *)
Theorem new_detects_enabled_configured_chains
    (CHAIN_CONFIGS : ChainId -> option ChainConfig.t)
    (enabledChains : list ChainId) (chainId : ChainId) :
  let m := new CHAIN_CONFIGS enabledChains in
  let created :=
    bool_decide (chainId ∈ enabledChains)
    && bool_decide (is_Some (CHAIN_CONFIGS chainId)) in
  detectors m !! chainId
  = (if created
     then Some (ArbitrageDetector.new
                 chainId ArbitrageDetector.default_minProfitBps)
     else None) /\
  subscriptions m !! chainId = (if created then Some [] else None) /\
  reserves m = [] /\
  hasCallback m = false.
Proof.
  cbn zeta.
  destruct (new_fold CHAIN_CONFIGS chainId enabledChains (mk ∅ [] ∅ false))
    as [Hd Hs].
  cbn zeta in Hd, Hs. unfold new. rewrite Hd, Hs. cbn [detectors subscriptions].
  rewrite !lookup_empty.
  split; [| split; [| apply (new_reserves CHAIN_CONFIGS enabledChains)]].
  - destruct (bool_decide (chainId ∈ enabledChains)); [| reflexivity].
    destruct (CHAIN_CONFIGS chainId); reflexivity.
  - destruct (bool_decide (chainId ∈ enabledChains)); [| reflexivity].
    destruct (CHAIN_CONFIGS chainId); reflexivity.
Qed.
End Construction.

(** ** The token pairs of pool discovery *)
Section TokenPairs.
Import PriceMonitor.

Lemma pairsOf_In (l : list Address) (a b : Address) :
  In (a, b) (pairsOf l) ->
  exists l1 l2, l = l1 ++ a :: l2 /\ In b l2.
Proof.
  induction l as [| x r IH]; cbn [pairsOf]; intros H; [destruct H |].
  apply in_app_or in H. destruct H as [H | H].
  - apply filter_In in H. destruct H as [H _]. apply in_map_iff in H.
    destruct H as [y [Hy Hin]]. injection Hy as -> ->.
    exists [], r. split; [reflexivity | exact Hin].
  - destruct (IH H) as [l1 [l2 [-> Hb]]].
    exists (x :: l1), l2. split; [reflexivity | exact Hb].
Qed.

Lemma pairsOf_complete (l : list Address) (a b : Address) :
  List.Forall (fun token => truthy token = true) l ->
  forall l1 l2, l = l1 ++ a :: l2 -> In b l2 -> In (a, b) (pairsOf l).
Proof.
  intros Hl l1. revert l Hl.
  induction l1 as [| x l1 IH]; intros l Hl l2 -> Hb; cbn [pairsOf app].
  - apply in_or_app. left. apply filter_In. split.
    + apply in_map_iff. exists b. split; [reflexivity | exact Hb].
    + cbn [fst snd]. rewrite List.Forall_forall in Hl.
      rewrite (Hl a) by (left; reflexivity).
      rewrite (Hl b) by (right; exact Hb). reflexivity.
  - apply in_or_app. right.
    apply (IH (l1 ++ a :: l2) (List.Forall_inv_tail Hl) l2 eq_refl Hb).
Qed.

Lemma pairsOf_length (l : list Address) :
  List.Forall (fun token => truthy token = true) l ->
  (2 * length (pairsOf l) = length l * (length l - 1))%nat.
Proof.
  induction l as [| x r IH]; intros Hl; [reflexivity |].
  cbn [pairsOf]. rewrite length_app.
  assert (Hall : List.filter
                   (fun pair : Address * Address =>
                      truthy (fst pair) && truthy (snd pair))
                   (map (fun tokenB => (x, tokenB)) r)
                 = map (fun tokenB => (x, tokenB)) r).
  { apply forallb_filter_id. apply forallb_forall. intros [a b] Hin.
    apply in_map_iff in Hin. destruct Hin as [y [Hy Hin]].
    injection Hy as -> ->. cbn [fst snd]. rewrite List.Forall_forall in Hl.
    rewrite (Hl a) by (left; reflexivity).
    rewrite (Hl b) by (right; exact Hin). reflexivity. }
  rewrite Hall, length_map. specialize (IH (List.Forall_inv_tail Hl)).
  cbn [length]. destruct (length r) as [| k]; [lia |].
  replace (S (S k) - 1)%nat with (S k) by lia.
  replace (S k - 1)%nat with k in IH by lia. nia.
Qed.

Lemma NoDup_pairs_with (x : Address) (r : list Address) :
  NoDup r -> NoDup (map (fun tokenB => (x, tokenB)) r).
Proof.
  induction r as [| y r IH]; intros Hr; cbn [map]; [constructor |].
  apply NoDup_cons in Hr. destruct Hr as [Hy Hr].
  constructor; [| exact (IH Hr)].
  intros Hin. apply list_elem_of_In in Hin. apply in_map_iff in Hin.
  destruct Hin as [z [Hz Hin]]. injection Hz as ->.
  apply Hy. apply list_elem_of_In. exact Hin.
Qed.

Lemma NoDup_List_filter {A : Type} (p : A -> bool) (l : list A) :
  NoDup l -> NoDup (List.filter p l).
Proof.
  induction l as [| x l IH]; intros Hl; cbn [List.filter]; [constructor |].
  apply NoDup_cons in Hl. destruct Hl as [Hx Hl].
  destruct (p x); [| exact (IH Hl)].
  constructor; [| exact (IH Hl)].
  intros Hin. apply list_elem_of_In in Hin. apply filter_In in Hin.
  apply Hx. apply list_elem_of_In. exact (proj1 Hin).
Qed.

Lemma pairsOf_NoDup (l : list Address) : NoDup l -> NoDup (pairsOf l).
Proof.
  induction l as [| x r IH]; intros Hl; cbn [pairsOf]; [constructor |].
  apply NoDup_cons in Hl. destruct Hl as [Hx Hr].
  apply NoDup_app. split; [| split].
  - apply NoDup_List_filter. exact (NoDup_pairs_with x r Hr).
  - intros [a b] Ha Hb. apply list_elem_of_In in Ha, Hb.
    apply filter_In in Ha. destruct Ha as [Ha _]. apply in_map_iff in Ha.
    destruct Ha as [y [Hy _]]. injection Hy as -> _.
    apply pairsOf_In in Hb. destruct Hb as [l1 [l2 [-> _]]].
    apply Hx. apply list_elem_of_In. apply in_or_app. right. left. reflexivity.
  - exact (IH Hr).
Qed.

Lemma NoDup_split_unique (l1 l2 l1' l2' : list Address) (a : Address) :
  NoDup (l1 ++ a :: l2) -> l1 ++ a :: l2 = l1' ++ a :: l2' ->
  l1 = l1' /\ l2 = l2'.
Proof.
  revert l1'. induction l1 as [| x l1 IH]; intros l1' Hnd Heq.
  - destruct l1' as [| y l1']; cbn [app] in Heq.
    + injection Heq as Heq. split; [reflexivity | exact Heq].
    + injection Heq as <- ->. cbn [app] in Hnd. apply NoDup_cons in Hnd.
      destruct Hnd as [Hnot _]. exfalso. apply Hnot.
      apply list_elem_of_In. apply in_or_app. right. left. reflexivity.
  - destruct l1' as [| y l1']; cbn [app] in Heq.
    + injection Heq as -> <-. cbn [app] in Hnd. apply NoDup_cons in Hnd.
      destruct Hnd as [Hnot _]. exfalso. apply Hnot.
      apply list_elem_of_In. apply in_or_app. right. left. reflexivity.
    + injection Heq as <- Heq. cbn [app] in Hnd. apply NoDup_cons in Hnd.
      destruct Hnd as [_ Hnd]. destruct (IH l1' Hnd Heq) as [-> ->].
      split; reflexivity.
Qed.

Lemma keyTokens_distinct (chainId : ChainId) :
  NoDup (keyTokens chainId) /\
  List.Forall (fun token => truthy token = true) (keyTokens chainId).
Proof.
  unfold keyTokens.
  destruct (chainId =? 1); [| destruct (chainId =? 42161);
    [| destruct (chainId =? 8453); [| destruct (chainId =? 10)]]];
    (split; [apply (bool_decide_unpack _); vm_compute; reflexivity
            | repeat constructor]).
Qed.

(** X23. For every chain, [getKeyTokenPairs] returns each unordered pair of
    two different key tokens of the chain exactly once: no pair is listed
    twice or in both orders, no token is paired with itself, and [n] key
    tokens give [n (n - 1) / 2] pairs (none for a chain without key
    tokens, such as 421614). *)
Theorem getKeyTokenPairs_each_pair_once (chainId : ChainId) :
  let tokens := keyTokens chainId in
  let pairs := getKeyTokenPairs chainId in
  NoDup pairs /\
  (2 * length pairs = length tokens * (length tokens - 1))%nat /\
  (forall a b,
      In (a, b) pairs ->
      In a tokens /\ In b tokens /\ a <> b /\ ~ In (b, a) pairs) /\
  (forall a b,
      In a tokens -> In b tokens -> a <> b ->
      In (a, b) pairs \/ In (b, a) pairs).
Proof.
  cbn zeta. unfold getKeyTokenPairs.
  destruct (keyTokens_distinct chainId) as [Hnodup Htruthy].
  set (l := keyTokens chainId) in *. clearbody l.
  split; [exact (pairsOf_NoDup l Hnodup) |].
  split; [exact (pairsOf_length l Htruthy) |].
  split.
  - intros a b Hab. destruct (pairsOf_In l a b Hab) as [l1 [l2 [Hl Hb]]].
    assert (Hne : a <> b).
    { intros <-. rewrite Hl in Hnodup. apply NoDup_app in Hnodup.
      destruct Hnodup as [_ [_ Hnd]]. apply NoDup_cons in Hnd.
      destruct Hnd as [Hnot _]. apply Hnot. apply list_elem_of_In. exact Hb. }
    split; [rewrite Hl; apply in_or_app; right; left; reflexivity |].
    split; [rewrite Hl; apply in_or_app; right; right; exact Hb |].
    split; [exact Hne |].
    intros Hba. destruct (pairsOf_In l b a Hba) as [k1 [k2 [Hk Ha]]].
    apply in_split in Hb. destruct Hb as [m1 [m2 ->]].
    apply in_split in Ha. destruct Ha as [n1 [n2 ->]].
    assert (H1 : l = (l1 ++ a :: m1) ++ b :: m2).
    { rewrite Hl, <- app_assoc. reflexivity. }
    assert (Hnd : NoDup ((l1 ++ a :: m1) ++ b :: m2)).
    { rewrite <- H1. exact Hnodup. }
    rewrite H1 in Hk.
    destruct (NoDup_split_unique _ _ _ _ b Hnd Hk) as [Hk1 _].
    assert (Hin : In a k1).
    { rewrite <- Hk1. apply in_or_app. right. left. reflexivity. }
    apply in_split in Hin. destruct Hin as [p1 [p2 ->]].
    rewrite Hk in H1. rewrite H1 in Hnodup.
    rewrite <- app_assoc in Hnodup. cbn [app] in Hnodup.
    apply NoDup_app in Hnodup. destruct Hnodup as [_ [_ Hnd']].
    apply NoDup_cons in Hnd'. destruct Hnd' as [Hnot _]. apply Hnot.
    apply list_elem_of_In. apply in_or_app. right. right.
    apply in_or_app. right. left. reflexivity.
  - intros a b Ha Hb Hne.
    apply in_split in Ha. destruct Ha as [l1 [l2 Hl]].
    rewrite Hl in Hb. apply in_app_or in Hb.
    destruct Hb as [Hb | [Hb | Hb]]; [| contradiction |].
    + right. apply in_split in Hb. destruct Hb as [k1 [k2 ->]].
      apply (pairsOf_complete l b a Htruthy k1 (k2 ++ a :: l2)).
      * rewrite Hl, <- app_assoc. reflexivity.
      * apply in_or_app. right. left. reflexivity.
    + left. exact (pairsOf_complete l a b Htruthy l1 l2 Hl Hb).
Qed.

End TokenPairs.

(** ** Pools with concentrated liquidity *)
Section ConcentratedLiquidity.
Import PriceMonitor.
Variable math : Js.MathImpl.
Variable CHAIN_CONFIGS : ChainId -> option ChainConfig.t.

(** What [updateV3Pool] hands to [updateReserves]. *)
Lemma updateV3Pool_unfold now chainId sub sqrtPriceX96 liquidity m :
  updateV3Pool math now chainId sub sqrtPriceX96 liquidity m
  = updateReserves math now chainId sub
      (if 0 <? liquidity then liquidity else 1)
      (if 0 <? Z.quot (liquidity
                       * Z.quot (sqrtPriceX96 * sqrtPriceX96)
                                (2 ^ 96 * 2 ^ 96))
                      (10 ^ 18)
       then Z.quot (liquidity
                    * Z.quot (sqrtPriceX96 * sqrtPriceX96) (2 ^ 96 * 2 ^ 96))
                   (10 ^ 18)
       else 1)
      m.
Proof.
  unfold updateV3Pool, Js.mbind, Js.lift.
  rewrite !bigint_div_nonzero by lia. reflexivity.
Qed.

Lemma small_square_quot (sqrtPriceX96 : Z) :
  - 2 ^ 96 < sqrtPriceX96 < 2 ^ 96 ->
  Z.quot (sqrtPriceX96 * sqrtPriceX96) (2 ^ 96 * 2 ^ 96) = 0.
Proof.
  intros H. apply Z.quot_small. nia.
Qed.

Lemma updateV3Pool_Ok now chainId sub sqrtPriceX96
    liquidity m :
  PoolSubscription.fee sub < 10000 ->
  exists reserve0 reserve1,
    updateV3Pool math now chainId sub sqrtPriceX96 liquidity m
    = (Js.Ok tt,
       snd (updateReserves math now chainId sub reserve0 reserve1 m)) /\
    1 <= reserve0 /\ 1 <= reserve1.
Proof.
  intros Hfee. rewrite updateV3Pool_unfold.
  set (reserve0 := if 0 <? liquidity then liquidity else 1).
  set (reserve1 := if 0 <? Z.quot _ _ then _ else 1).
  assert (H0 : 1 <= reserve0).
  { unfold reserve0. destruct (Z.ltb_spec 0 liquidity); lia. }
  assert (H1 : 1 <= reserve1).
  { unfold reserve1.
    destruct (Z.ltb_spec 0 (Z.quot (liquidity
                                    * Z.quot (sqrtPriceX96 * sqrtPriceX96)
                                             (2 ^ 96 * 2 ^ 96))
                                   (10 ^ 18))); lia. }
  destruct (reference_quotes reserve0 reserve1 (PoolSubscription.fee sub))
    as [q01 [q10 [Hq Hq']]]; [lia | lia | exact Hfee |].
  exists reserve0, reserve1.
  rewrite (updateReserves_run math now chainId sub reserve0 reserve1
             q01 q10 m Hq Hq').
  split; [reflexivity | split; assumption].
Qed.

(** X24. For a pool with a fee below 10000 basis points, [updateV3Pool]
    does not throw, whatever [sqrtPriceX96] and [liquidity] are, and the
    reserves it stores are at least 1. The first is [liquidity] when that
    is positive. The second is 1 for every [sqrtPriceX96] below [2^96] in
    absolute value, as the integer division rounds the price to zero:
    such a pool is stored with one unit of [token1], whatever its
    liquidity. *)
Theorem updateV3Pool_stores_positive_reserves now chainId sub sqrtPriceX96
    liquidity m :
  PoolSubscription.fee sub < 10000 ->
  exists reserve0 reserve1 m',
    updateV3Pool math now chainId sub sqrtPriceX96 liquidity m
    = (Js.Ok tt, m') /\
    getReserves m' chainId (PoolSubscription.pool sub)
    = Some (PoolReserves.mk (PoolSubscription.pool sub)
              (PoolSubscription.dex sub) (PoolSubscription.token0 sub)
              (PoolSubscription.token1 sub) reserve0 reserve1
              (PoolSubscription.fee sub) now) /\
    1 <= reserve0 /\ 1 <= reserve1 /\
    (0 < liquidity -> reserve0 = liquidity) /\
    (- 2 ^ 96 < sqrtPriceX96 < 2 ^ 96 -> reserve1 = 1).
Proof.
  intros Hfee. rewrite updateV3Pool_unfold.
  set (reserve0 := if 0 <? liquidity then liquidity else 1).
  set (reserve1 := if 0 <? Z.quot _ _ then _ else 1).
  assert (H0 : 1 <= reserve0).
  { unfold reserve0. destruct (Z.ltb_spec 0 liquidity); lia. }
  assert (H1 : 1 <= reserve1).
  { unfold reserve1.
    destruct (Z.ltb_spec 0 (Z.quot (liquidity
                                    * Z.quot (sqrtPriceX96 * sqrtPriceX96)
                                             (2 ^ 96 * 2 ^ 96))
                                   (10 ^ 18))); lia. }
  destruct (reference_quotes reserve0 reserve1 (PoolSubscription.fee sub))
    as [q01 [q10 [Hq Hq']]]; [lia | lia | exact Hfee |].
  exists reserve0, reserve1. eexists.
  split; [apply (updateReserves_run math now chainId sub reserve0 reserve1
                   q01 q10 m Hq Hq') |].
  split; [unfold getReserves; cbn [reserves]; apply map_get_set_same |].
  split; [exact H0 |]. split; [exact H1 |]. split.
  - intros Hl. unfold reserve0. destruct (Z.ltb_spec 0 liquidity); lia.
  - intros Hs. unfold reserve1. rewrite (small_square_quot _ Hs).
    rewrite Z.mul_0_r. reflexivity.
Qed.

Lemma onSwapLog_applied chainId sub blockNumber logIndex sqrtPriceX96
    liquidity w :
  0 <= PoolSubscription.fee sub < 10000 ->
  Shape.builtGraphs (detectors (monitor w)) ->
  Shape.liquidGraphs (detectors (monitor w)) ->
  exists w' now,
    onSwapLog math CHAIN_CONFIGS chainId sub tt
      (SwapLog.mk blockNumber logIndex (Some sqrtPriceX96) (Some liquidity)) w
    = (Js.Ok tt, w') /\
    monitor w'
    = snd (updateV3Pool math now chainId sub sqrtPriceX96 liquidity
             (monitor w)) /\
    Shape.detectorRuns chainId (effects w')
    = (Shape.detectorRuns chainId (effects w)
       + (if Shape.runsDetector CHAIN_CONFIGS (monitor w) chainId
          then 1 else 0))%nat /\
    Shape.builtGraphs (detectors (monitor w')) /\
    Shape.liquidGraphs (detectors (monitor w')).
Proof.
  intros Hfee Hbuilt Hliquid.
  unfold onSwapLog. cbn [SwapLog.sqrtPriceX96 SwapLog.liquidity].
  unfold Js.mbind, onRuntime, onMonitor, Js.zoom, Js.Date_now.
  cbn [runtime monitor effects].
  set (now := Js.clock (runtime w) (Js.clock_reads (runtime w))).
  assert (Hsnd : forall m,
             updateV3Pool math now chainId sub sqrtPriceX96 liquidity m
             = (Js.Ok tt,
                snd (updateV3Pool math now chainId sub sqrtPriceX96
                                  liquidity m))).
  { intros m.
    destruct (updateV3Pool_Ok now chainId sub
                sqrtPriceX96 liquidity m (proj2 Hfee))
      as [reserve0 [reserve1 [Hrun _]]].
    rewrite Hrun. reflexivity. }
  rewrite (Hsnd (monitor w)).
  set (w1 := mkWorld _ _ _).
  assert (Hshape1 : Shape.builtGraphs (detectors (monitor w1)) /\
                    Shape.liquidGraphs (detectors (monitor w1)) /\
                    Shape.runsDetector CHAIN_CONFIGS (monitor w1) chainId
                    = Shape.runsDetector CHAIN_CONFIGS (monitor w) chainId).
  { unfold w1. cbn [monitor]. rewrite updateV3Pool_unfold.
    split; [apply updateReserves_builtGraphs; exact Hbuilt |].
    split; [| apply updateReserves_runsDetector].
    apply updateReserves_liquidGraphs; [exact Hfee | | | exact Hliquid].
    - destruct (Z.ltb_spec 0 liquidity); lia.
    - destruct (Z.ltb_spec 0 (Z.quot (liquidity
                                      * Z.quot (sqrtPriceX96 * sqrtPriceX96)
                                               (2 ^ 96 * 2 ^ 96))
                                     (10 ^ 18))); lia. }
  destruct Hshape1 as [Hbuilt1 [Hliquid1 Hsame]].
  destruct (checkArbitrage_Ok math CHAIN_CONFIGS chainId w1 Hliquid1)
    as [w' [Hrun [Hmon Hruns]]].
  exists w', now. split; [exact Hrun |]. rewrite Hmon.
  split; [reflexivity |]. split; [| split; assumption].
  rewrite Hruns, Hsame. reflexivity.
Qed.

(** X25. The handler of [Swap] events applies every log of a batch and
    runs the detector after each one, without a throw, whatever the logs
    carry: for a pool with a fee from 0 to 9999 basis points and a monitor
    whose graphs are liquid, it returns, the monitor is the one that
    [updateV3Pool] leaves when it is called with the arguments of every log
    of the batch in turn (logs with an undefined argument are skipped),
    and [findArbitrageOpportunities] has run once for every applied log
    when the chain has a detector and a configuration (not at all
    otherwise). The graphs stay liquid for the next batch. *)
Theorem onSwapLogs_does_not_throw chainId sub logs :
  0 <= PoolSubscription.fee sub < 10000 ->
  forall w,
    Shape.builtGraphs (detectors (monitor w)) ->
    Shape.liquidGraphs (detectors (monitor w)) ->
    exists w' times,
      onSwapLogs math CHAIN_CONFIGS chainId sub logs w = (Js.Ok tt, w') /\
      length times = length (Shape.swapUpdates logs) /\
      monitor w'
      = Shape.v3Applied math chainId sub
          (combine times (Shape.swapUpdates logs)) (monitor w) /\
      Shape.detectorRuns chainId (effects w')
      = (Shape.detectorRuns chainId (effects w)
         + (if Shape.runsDetector CHAIN_CONFIGS (monitor w) chainId
            then length (Shape.swapUpdates logs) else 0))%nat /\
      Shape.builtGraphs (detectors (monitor w')) /\
      Shape.liquidGraphs (detectors (monitor w')).
Proof.
  intros Hfee. unfold onSwapLogs.
  induction logs as [| log logs IH]; intros w Hbuilt Hliquid.
  - exists w, []. split; [reflexivity |]. split; [reflexivity |].
    split; [reflexivity |].
    split; [cbn; destruct (Shape.runsDetector _ _ _); lia |].
    split; assumption.
  - cbn [Js.forEach]. unfold Js.mbind.
    destruct log as [blockNumber logIndex s l].
    destruct s as [sqrtPriceX96 |]; [destruct l as [liquidity |] |].
    + destruct (onSwapLog_applied chainId sub blockNumber logIndex
                  sqrtPriceX96 liquidity w Hfee Hbuilt Hliquid)
        as [w1 [now [Hrun [Hmon [Hruns [Hbuilt1 Hliquid1]]]]]].
      rewrite Hrun.
      destruct (IH w1 Hbuilt1 Hliquid1)
        as [w' [times [Hrest [Hlen [Hmon' [Hruns' Hshape]]]]]].
      exists w', (now :: times). split; [exact Hrest |].
      cbn [Shape.swapUpdates flat_map SwapLog.sqrtPriceX96 SwapLog.liquidity
           app length combine].
      fold (Shape.swapUpdates logs).
      split; [rewrite Hlen; reflexivity |].
      split.
      * rewrite Hmon', Hmon. reflexivity.
      * split; [| exact Hshape]. rewrite Hruns', Hruns, Hmon.
        rewrite updateV3Pool_unfold, updateReserves_runsDetector.
        destruct (Shape.runsDetector CHAIN_CONFIGS (monitor w) chainId); lia.
    + cbn [onSwapLog SwapLog.sqrtPriceX96 SwapLog.liquidity]. unfold Js.ret.
      exact (IH w Hbuilt Hliquid).
    + cbn [onSwapLog SwapLog.sqrtPriceX96 SwapLog.liquidity]. unfold Js.ret.
      exact (IH w Hbuilt Hliquid).
Qed.

End ConcentratedLiquidity.

Section ConcentratedLiquidityWitnesses.
Import PriceMonitor.

Lemma updateV3Pool_stores_positive_reserves_witness :
  exists reserve0 reserve1 m',
    updateV3Pool Reference.math 1700000000000 1 Scenario.uniV3WethUsdt
      4339505179874779672736325 (5 * Scenario.ether) Scenario.monitor0
    = (Js.Ok tt, m') /\
    getReserves m' 1 (PoolSubscription.pool Scenario.uniV3WethUsdt)
    = Some (PoolReserves.mk (PoolSubscription.pool Scenario.uniV3WethUsdt)
              (PoolSubscription.dex Scenario.uniV3WethUsdt)
              (PoolSubscription.token0 Scenario.uniV3WethUsdt)
              (PoolSubscription.token1 Scenario.uniV3WethUsdt)
              reserve0 reserve1
              (PoolSubscription.fee Scenario.uniV3WethUsdt) 1700000000000) /\
    1 <= reserve0 /\ 1 <= reserve1 /\
    (0 < 5 * Scenario.ether -> reserve0 = 5 * Scenario.ether) /\
    (- 2 ^ 96 < 4339505179874779672736325 < 2 ^ 96 -> reserve1 = 1).
Proof.
  apply (updateV3Pool_stores_positive_reserves Reference.math 1700000000000 1
           Scenario.uniV3WethUsdt 4339505179874779672736325
           (5 * Scenario.ether) Scenario.monitor0).
  vm_compute. reflexivity.
Defined.

Lemma onSwapLogs_does_not_throw_witness :
  exists w' times,
    onSwapLogs Reference.math Chains.CHAIN_CONFIGS 1 Scenario.uniV3WethUsdt
      [Scenario.swapLog] Scenario.monitorWorld = (Js.Ok tt, w') /\
    length times = length (Shape.swapUpdates [Scenario.swapLog]) /\
    monitor w'
    = Shape.v3Applied Reference.math 1 Scenario.uniV3WethUsdt
        (combine times (Shape.swapUpdates [Scenario.swapLog]))
        (monitor Scenario.monitorWorld) /\
    Shape.detectorRuns 1 (effects w')
    = (Shape.detectorRuns 1 (effects Scenario.monitorWorld)
       + (if Shape.runsDetector Chains.CHAIN_CONFIGS
               (monitor Scenario.monitorWorld) 1
          then length (Shape.swapUpdates [Scenario.swapLog]) else 0))%nat /\
    Shape.builtGraphs (detectors (monitor w')) /\
    Shape.liquidGraphs (detectors (monitor w')).
Proof.
  apply (onSwapLogs_does_not_throw Reference.math Chains.CHAIN_CONFIGS 1
           Scenario.uniV3WethUsdt [Scenario.swapLog]).
  - split; vm_compute; (reflexivity || discriminate).
  - exact monitor0_builtGraphs.
  - exact monitor0_liquidGraphs.
Defined.

End ConcentratedLiquidityWitnesses.

(** ** The vertices and the statistics of the graph *)
Section GraphStatistics.
Import ArbitrageDetector.

Lemma set_has_In (x : string) (s : list string) :
  Js.set_has x s = true <-> In x s.
Proof.
  unfold Js.set_has. rewrite existsb_exists. split.
  - intros [y [Hy Heq]]. apply String.eqb_eq in Heq. subst y. exact Hy.
  - intros H. exists x. split; [exact H | apply String.eqb_refl].
Qed.

Lemma set_add_In (x y : string) (s : list string) :
  In x (Js.set_add y s) <-> x = y \/ In x s.
Proof.
  unfold Js.set_add. destruct (Js.set_has y s) eqn:Hy.
  - apply set_has_In in Hy. split; [intros H; right; exact H |].
    intros [-> | H]; assumption.
  - rewrite in_app_iff. cbn [In]. split.
    + intros [H | [H | []]]; [right; exact H | left; symmetry; exact H].
    + intros [-> | H]; [right; left; reflexivity | left; exact H].
Qed.

Lemma set_add_NoDup (y : string) (s : list string) :
  NoDup s -> NoDup (Js.set_add y s).
Proof.
  intros Hs. unfold Js.set_add. destruct (Js.set_has y s) eqn:Hy; [exact Hs |].
  apply NoDup_app. split; [exact Hs |]. split; [| apply NoDup_singleton].
  intros x Hx Hx'. apply list_elem_of_singleton in Hx'. subst x.
  apply list_elem_of_In in Hx. apply set_has_In in Hx. congruence.
Qed.

Lemma set_add_length (y : string) (s : list string) :
  (length s <= length (Js.set_add y s) <= length s + 1)%nat.
Proof.
  unfold Js.set_add. destruct (Js.set_has y s); [lia |].
  rewrite length_app. cbn. lia.
Qed.

(** The loop of [getStats]. *)
Lemma edgeCount_shift (edges : list (Address * list Edge.t)) (n : nat) :
  fold_left (fun (edgeCount : nat) (entry : Address * list Edge.t) =>
               (edgeCount + length (snd entry))%nat) edges n
  = (n + fold_left (fun (edgeCount : nat) (entry : Address * list Edge.t) =>
                      (edgeCount + length (snd entry))%nat) edges 0)%nat.
Proof.
  revert n. induction edges as [| entry edges IH]; intros n; cbn [fold_left].
  - lia.
  - rewrite (IH (n + _)%nat), (IH (0 + _)%nat). lia.
Qed.

Lemma edgeCount_map_set (k : Address) (l : list Edge.t)
    (edges : list (Address * list Edge.t)) :
  (fold_left (fun (edgeCount : nat) (entry : Address * list Edge.t) =>
                (edgeCount + length (snd entry))%nat)
             (Js.map_set k l edges) 0
   + length (match Js.map_get k edges with Some old => old | None => [] end)
   = fold_left (fun (edgeCount : nat) (entry : Address * list Edge.t) =>
                  (edgeCount + length (snd entry))%nat) edges 0
     + length l)%nat.
Proof.
  induction edges as [| [k' l'] edges IH]; cbn [Js.map_set Js.map_get].
  - cbn. lia.
  - destruct (String.eqb k' k); cbn [fold_left snd].
    + rewrite (edgeCount_shift edges (0 + length l)%nat).
      rewrite (edgeCount_shift edges (0 + length l')%nat). lia.
    + rewrite (edgeCount_shift _ (0 + length l')%nat).
      rewrite (edgeCount_shift edges (0 + length l')%nat). lia.
Qed.

Lemma remove_first_length {A : Type} (p : A -> bool) (l : list A) :
  (length (remove_first p l) + (if existsb p l then 1 else 0) = length l)%nat.
Proof.
  induction l as [| x l IH]; cbn [remove_first existsb length]; [reflexivity |].
  destruct (p x); cbn [orb length]; lia.
Qed.

(** The edge count after [addEdge]: one more, unless the adjacency list of
    [edge.from] held an edge for the same destination and pool. *)
Lemma edgeCount_addEdge (e : Edge.t) (g : Graph.t) :
  (fold_left (fun (edgeCount : nat) (entry : Address * list Edge.t) =>
                (edgeCount + length (snd entry))%nat)
             (Graph.edges (addEdge e g)) 0
   = fold_left (fun (edgeCount : nat) (entry : Address * list Edge.t) =>
                  (edgeCount + length (snd entry))%nat)
               (Graph.edges g) 0
     + (if existsb (same_pair e) (edges_get g (Edge.from e)) then 0 else 1))%nat.
Proof.
  unfold addEdge. cbn [Graph.edges].
  pose proof (edgeCount_map_set (Edge.from e)
                (remove_first (same_pair e) (edges_get g (Edge.from e)) ++ [e])
                (Graph.edges g)) as H.
  fold (edges_get g (Edge.from e)) in H.
  pose proof (remove_first_length (same_pair e) (edges_get g (Edge.from e)))
    as Hr.
  rewrite length_app in H. cbn [length] in H.
  destruct (existsb (same_pair e) (edges_get g (Edge.from e))); lia.
Qed.

Lemma addEdge_keys_NoDup (e : Edge.t) (g : Graph.t) :
  NoDup (map fst (Graph.edges g)) ->
  NoDup (map fst (Graph.edges (addEdge e g))).
Proof. apply map_set_keys_NoDup. Qed.

Lemma built_keys_NoDup (g : Graph.t) :
  Shape.built g -> NoDup (map fst (Graph.edges g)).
Proof.
  induction 1 as [| e g _ IH]; [constructor |].
  apply addEdge_keys_NoDup. exact IH.
Qed.

(** On a built graph, the edges of the graph that leave a vertex are those
    of its adjacency list. *)
Lemma built_inGraph_edges_get (g : Graph.t) (x : Edge.t) :
  Shape.built g ->
  Spec.inGraph g x <-> In x (edges_get g (Edge.from x)).
Proof.
  intros Hbuilt. split; [| apply edges_get_inGraph].
  intros [a [l [Hentry Hx]]].
  pose proof (map_get_NoDup_In a l (Graph.edges g)
                (built_keys_NoDup g Hbuilt) Hentry) as Hget.
  rewrite (built_keyed g Hbuilt a l x Hget Hx).
  unfold edges_get. rewrite Hget. exact Hx.
Qed.

Lemma existsb_same_pair (g : Graph.t) (e : Edge.t) :
  Shape.built g ->
  existsb (same_pair e) (edges_get g (Edge.from e)) = true <->
  exists x, Spec.inGraph g x /\ sameSlot e x.
Proof.
  intros Hbuilt. rewrite existsb_exists. split.
  - intros [x [Hx Hsame]]. exists x.
    split; [exact (edges_get_inGraph _ _ _ Hx) |].
    apply same_pair_true in Hsame. destruct Hsame as [Hto Hpool].
    split; [exact (edges_get_keyed g _ x (built_keyed g Hbuilt) Hx) |].
    split; assumption.
  - intros [x [Hx [Hfrom [Hto Hpool]]]]. exists x.
    apply (built_inGraph_edges_get g x Hbuilt) in Hx. rewrite Hfrom in Hx.
    split; [exact Hx |]. unfold same_pair.
    rewrite Hto, Hpool, !String.eqb_refl. reflexivity.
Qed.

(** The edges of the graph after [addEdge]. *)
Lemma inGraph_addEdge (e : Edge.t) (g : Graph.t) (x : Edge.t) :
  Spec.inGraph (addEdge e g) x -> x = e \/ Spec.inGraph g x.
Proof.
  intros [a [l [Hentry Hx]]]. unfold addEdge in Hentry.
  cbn [Graph.edges] in Hentry. apply map_set_In in Hentry.
  destruct Hentry as [Hnew | Hold].
  - injection Hnew as _ Hl. subst l. apply in_app_or in Hx.
    destruct Hx as [Hx | [Hx | []]]; [| left; symmetry; exact Hx].
    right. apply remove_first_In in Hx.
    exact (edges_get_inGraph _ _ _ Hx).
  - right. exists a, l. split; assumption.
Qed.

Lemma remove_first_keeps {A : Type} (p : A -> bool) (l : list A) (x : A) :
  In x l -> p x = false -> In x (remove_first p l).
Proof.
  induction l as [| y l IH]; cbn [remove_first In]; [intros [] |].
  intros [-> | Hx] Hp.
  - rewrite Hp. left. reflexivity.
  - destruct (p y); [exact Hx | right; exact (IH Hx Hp)].
Qed.

Lemma inGraph_kept (e : Edge.t) (g : Graph.t) (x : Edge.t) :
  Shape.built g ->
  Spec.inGraph g x ->
  Spec.inGraph (addEdge e g) x \/ sameSlot e x.
Proof.
  intros Hbuilt Hx.
  pose proof (proj1 (built_inGraph_edges_get g x Hbuilt) Hx) as Hin.
  destruct (String.eqb_spec (Edge.from e) (Edge.from x)) as [Heq | Hne].
  - destruct (same_pair e x) eqn:Hsame.
    + right. apply same_pair_true in Hsame. destruct Hsame as [Hto Hpool].
      split; [symmetry; exact Heq | split; assumption].
    + left. apply (edges_get_inGraph _ (Edge.from e)).
      unfold edges_get at 1, addEdge. cbn [Graph.edges].
      rewrite map_get_set_same. apply in_or_app. left.
      apply remove_first_keeps; [rewrite Heq; exact Hin | exact Hsame].
  - left. apply (edges_get_inGraph _ (Edge.from x)).
    rewrite edges_get_addEdge_other by exact Hne. exact Hin.
Qed.

(** The endpoints of the edges of a built graph are vertices. *)
Lemma built_endpoints (g : Graph.t) (e : Edge.t) :
  Shape.built g ->
  Spec.inGraph g e ->
  In (Edge.from e) (Graph.vertices g) /\ In (Edge.to e) (Graph.vertices g).
Proof.
  intros Hbuilt. revert e.
  induction Hbuilt as [| x g Hbuilt IH]; intros e He.
  - destruct He as [a [l [[] _]]].
  - unfold addEdge at 1 2. cbn [Graph.vertices]. rewrite !set_add_In.
    apply inGraph_addEdge in He. destruct He as [-> | He].
    + split; [right; left | left]; reflexivity.
    + destruct (IH e He) as [Hfrom Hto].
      split; right; right; assumption.
Qed.

(** X26. On every graph built by [addEdge], the vertex set holds no
    vertex twice, and it holds exactly the tokens that an edge of the graph
    leaves or enters. *)
Theorem built_vertices_are_endpoints (g : Graph.t) :
  Shape.built g ->
  NoDup (Graph.vertices g) /\
  forall v,
    In v (Graph.vertices g) <->
    exists e, Spec.inGraph g e /\ (Edge.from e = v \/ Edge.to e = v).
Proof.
  induction 1 as [| e g Hbuilt [Hnodup IH]].
  - split; [constructor |]. intros v. split; [intros [] |].
    intros [e [[a [l [[] _]]] _]].
  - split.
    { cbn [addEdge Graph.vertices]. apply set_add_NoDup, set_add_NoDup.
      exact Hnodup. }
    intros v. unfold addEdge at 1. cbn [Graph.vertices].
    rewrite !set_add_In. split.
    + intros [-> | [-> | Hv]].
      * exists e. split; [| right; reflexivity].
        exact (edges_get_inGraph _ _ _ (edges_get_addEdge_same e g)).
      * exists e. split; [| left; reflexivity].
        exact (edges_get_inGraph _ _ _ (edges_get_addEdge_same e g)).
      * apply IH in Hv. destruct Hv as [x [Hx Hend]].
        destruct (inGraph_kept e g x Hbuilt Hx) as [Hkept | [Hfrom [Hto _]]].
        -- exists x. split; assumption.
        -- exists e.
           split; [exact (edges_get_inGraph _ _ _
                            (edges_get_addEdge_same e g)) |].
           rewrite <- Hfrom, <- Hto. exact Hend.
    + intros [x [Hx Hend]]. apply inGraph_addEdge in Hx.
      destruct Hx as [-> | Hx].
      * destruct Hend as [<- | <-]; [right; left | left]; reflexivity.
      * right. right. apply IH. exists x. split; assumption.
Qed.

Lemma vertices_addEdge_known (e : Edge.t) (g : Graph.t) :
  In (Edge.from e) (Graph.vertices g) -> In (Edge.to e) (Graph.vertices g) ->
  Graph.vertices (addEdge e g) = Graph.vertices g.
Proof.
  intros Hfrom Hto. unfold addEdge. cbn [Graph.vertices].
  rewrite (set_add_present (Edge.from e)) by (apply set_has_In; exact Hfrom).
  apply set_add_present. apply set_has_In. exact Hto.
Qed.

Lemma built_vertex_bound (g : Graph.t) :
  Shape.built g ->
  (length (Graph.vertices g)
   <= 2 * fold_left (fun (edgeCount : nat) (entry : Address * list Edge.t) =>
                       (edgeCount + length (snd entry))%nat)
                    (Graph.edges g) 0)%nat.
Proof.
  induction 1 as [| e g Hbuilt IH]; [cbn; lia |].
  rewrite edgeCount_addEdge.
  destruct (existsb (same_pair e) (edges_get g (Edge.from e))) eqn:Hex.
  - apply (existsb_same_pair g e Hbuilt) in Hex.
    destruct Hex as [x [Hx [Hfrom [Hto _]]]].
    destruct (built_endpoints g x Hbuilt Hx) as [Hxfrom Hxto].
    rewrite vertices_addEdge_known; [lia | |].
    + rewrite <- Hfrom. exact Hxfrom.
    + rewrite <- Hto. exact Hxto.
  - unfold addEdge at 1. cbn [Graph.vertices].
    pose proof (set_add_length (Edge.from e) (Graph.vertices g)).
    pose proof (set_add_length (Edge.to e)
                  (Js.set_add (Edge.from e) (Graph.vertices g))).
    lia.
Qed.

(** X27. [getStats] counts every pool direction once, however often it is
    updated: [addEdge] with an edge whose (from, to, pool) is already in
    the graph leaves both counts as they are, and with any other edge it
    adds one to the edge count and at most two to the vertex count. The
    vertex count never exceeds twice the edge count. *)
Theorem getStats_counts_each_slot_once (this : t) (e : Edge.t) :
  Shape.built (graph this) ->
  let this' := mk (addEdge e (graph this)) (chainId this) (minProfitBps this) in
  ((exists x, Spec.inGraph (graph this) x /\ sameSlot e x) ->
   getStats this' = getStats this) /\
  (~ (exists x, Spec.inGraph (graph this) x /\ sameSlot e x) ->
   snd (getStats this') = S (snd (getStats this)) /\
   (fst (getStats this) <= fst (getStats this') <= fst (getStats this) + 2)%nat) /\
  (fst (getStats this') <= 2 * snd (getStats this'))%nat.
Proof.
  intros Hbuilt. cbn zeta. unfold getStats. cbn [graph fst snd].
  rewrite edgeCount_addEdge. split; [| split].
  - intros Hex. pose proof Hex as [x [Hx [Hfrom [Hto _]]]].
    apply (existsb_same_pair _ e Hbuilt) in Hex. rewrite Hex.
    destruct (built_endpoints _ x Hbuilt Hx) as [Hxfrom Hxto].
    rewrite vertices_addEdge_known.
    + f_equal. lia.
    + rewrite <- Hfrom. exact Hxfrom.
    + rewrite <- Hto. exact Hxto.
  - intros Hnone.
    destruct (existsb (same_pair e) (edges_get (graph this) (Edge.from e)))
      eqn:Hex.
    + apply (existsb_same_pair _ e Hbuilt) in Hex. contradiction.
    + split; [lia |]. unfold addEdge. cbn [Graph.vertices].
      pose proof (set_add_length (Edge.from e) (Graph.vertices (graph this))).
      pose proof (set_add_length (Edge.to e)
                    (Js.set_add (Edge.from e) (Graph.vertices (graph this)))).
      lia.
  - rewrite <- edgeCount_addEdge.
    exact (built_vertex_bound _ (Shape.built_addEdge e _ Hbuilt)).
Qed.


Lemma built_vertices_are_endpoints_witness :
  NoDup (Graph.vertices (graph (Scenario.detectorOf Scenario.triangle))) /\
  forall v,
    In v (Graph.vertices (graph (Scenario.detectorOf Scenario.triangle))) <->
    exists e,
      Spec.inGraph (graph (Scenario.detectorOf Scenario.triangle)) e /\
      (Edge.from e = v \/ Edge.to e = v).
Proof.
  apply (built_vertices_are_endpoints
           (graph (Scenario.detectorOf Scenario.triangle))).
  exact triangle_built.
Defined.

Lemma getStats_counts_each_slot_once_witness :
  let this := Scenario.detectorOf Scenario.twoPools in
  let this' := mk (addEdge Scenario.usdcToWeth (graph this)) (chainId this)
                  (minProfitBps this) in
  ((exists x, Spec.inGraph (graph this) x /\ sameSlot Scenario.usdcToWeth x) ->
   getStats this' = getStats this) /\
  (~ (exists x, Spec.inGraph (graph this) x /\ sameSlot Scenario.usdcToWeth x) ->
   snd (getStats this') = S (snd (getStats this)) /\
   (fst (getStats this) <= fst (getStats this') <= fst (getStats this) + 2)%nat) /\
  (fst (getStats this') <= 2 * snd (getStats this'))%nat.
Proof.
  cbv zeta.
  apply (getStats_counts_each_slot_once
           (Scenario.detectorOf Scenario.twoPools) Scenario.usdcToWeth).
  exact twoPools_built.
Defined.

End GraphStatistics.

(** ** The event loop of the bot *)
Section BotInvariant.
Import Bot.

Lemma dequeueLoop_Ok (config : BotConfig.t)
    (queue : list ArbitrageOpportunity.t) :
  forall (b : Bot.t) (rt : Js.Runtime),
  exists b' rt',
    dequeueLoop config queue b rt = (Js.Ok b', rt') /\
    state b' = state b /\ tradeHistory b' = tradeHistory b /\
    ((isProcessing b' = false /\ suspended b' = NotRunning) \/
     (isProcessing b' = true /\ exists o, suspended b' = AwaitingExecute o)).
Proof.
  induction queue as [| o rest IH]; intros b rt.
  - eexists. eexists. split; [reflexivity |].
    split; [reflexivity |]. split; [reflexivity |]. left. split; reflexivity.
  - cbn [dequeueLoop]. destruct (BotState.isPaused (state b)).
    + eexists. eexists. split; [reflexivity |].
      split; [reflexivity |]. split; [reflexivity |]. left. split; reflexivity.
    + unfold Js.mbind, Js.Date_now. cbv beta iota.
      destruct (ArbitrageOpportunity.expiresAt o <? _); [apply IH |].
      destruct (PrimFloat.ltb _ _); [apply IH |].
      eexists. eexists. split; [reflexivity |].
      split; [reflexivity |]. split; [reflexivity |]. right.
      split; [reflexivity | eexists; reflexivity].
Qed.

Lemma dequeueLoop_consistent (config : BotConfig.t)
    (queue : list ArbitrageOpportunity.t) (b : Bot.t) (rt : Js.Runtime) :
  BotState.totalTrades (state b)
  = BotState.successfulTrades (state b) + BotState.failedTrades (state b) ->
  (length (tradeHistory b) <= MAX_HISTORY)%nat ->
  Z.of_nat (length (tradeHistory b)) <= BotState.totalTrades (state b) ->
  exists b' rt',
    dequeueLoop config queue b rt = (Js.Ok b', rt') /\ consistent b'.
Proof.
  intros Hsum Hlen Htotal.
  destruct (dequeueLoop_Ok config queue b rt)
    as [b' [rt' [Hrun [Hstate [Hhistory Hflag]]]]].
  exists b', rt'. split; [exact Hrun |]. unfold consistent.
  rewrite Hstate, Hhistory.
  split; [| split; [exact Hsum | split; assumption]].
  destruct Hflag as [[-> ->] | [-> [o ->]]]; split; intros H;
    try discriminate; try reflexivity; try contradiction.
Qed.

Lemma react_consistent (config : BotConfig.t) (ev : Event) (b : Bot.t)
    (rt : Js.Runtime) :
  consistent b ->
  exists b' rt', react config ev b rt = (Js.Ok b', rt') /\ consistent b'.
Proof.
  intros [Hflag [Hsum [Hlen Htotal]]].
  destruct ev as [opportunities | result | | paused]; cbn [react].
  - unfold onOpportunity, processQueue.
    cbn [isProcessing state opportunityQueue tradeHistory suspended].
    destruct (isProcessing b || BotState.isPaused (state b)
              || (length (enqueue config opportunities (opportunityQueue b))
                  =? 0)%nat) eqn:Hskip.
    + eexists. eexists. split; [reflexivity |].
      split; [exact Hflag | split; [exact Hsum | split; assumption]].
    + apply dequeueLoop_consistent; assumption.
  - unfold executeSettled.
    destruct (suspended b) as [| opportunity |] eqn:Hs;
      try (eexists; eexists; split; [reflexivity |];
           split; [rewrite Hs; exact Hflag
                  | split; [exact Hsum | split; assumption]]).
    unfold Js.mbind, Js.Date_now, Js.ret.
    destruct (ExecutionResult.success result); cbv beta iota;
      (eexists; eexists; split; [reflexivity |]);
      unfold consistent;
      cbn [isProcessing suspended state tradeHistory BotState.totalTrades
           BotState.successfulTrades BotState.failedTrades];
      (split; [split; [discriminate | reflexivity] |]);
      (split; [lia |]);
      rewrite length_take; cbn [length]; unfold MAX_HISTORY in *;
      (split; lia).
  - unfold cooldownElapsed.
    destruct (suspended b) as [| opportunity |] eqn:Hs;
      try (eexists; eexists; split; [reflexivity |];
           split; [rewrite Hs; exact Hflag
                  | split; [exact Hsum | split; assumption]]).
    apply dequeueLoop_consistent; assumption.
  - eexists. eexists. split; [reflexivity |].
    split; [exact Hflag | split; [exact Hsum | split; assumption]].
Qed.

(** X28. Whatever the order in which opportunities are reported,
    executions settle, cooldowns end and the API pauses or resumes the
    bot, no handler throws, and after every event [isProcessing] is set
    exactly while [processQueue] is suspended at an [await] (the flag is
    never left set with nothing in flight), [totalTrades] is the sum of
    [successfulTrades] and [failedTrades], and the history holds at most
    [MAX_HISTORY = 100] entries and at most one per trade. *)
Theorem reactAll_keeps_bot_consistent (config : BotConfig.t)
    (events : list Event) :
  forall (b : Bot.t) (rt : Js.Runtime),
    consistent b ->
    exists b' rt',
      reactAll config events b rt = (Js.Ok b', rt') /\ consistent b'.
Proof.
  induction events as [| ev events IH]; intros b rt Hb.
  - exists b, rt. split; [reflexivity | exact Hb].
  - cbn [reactAll]. unfold Js.mbind.
    destruct (react_consistent config ev b rt Hb) as [b1 [rt1 [Hrun Hb1]]].
    rewrite Hrun. apply IH. exact Hb1.
Qed.


Lemma bot0_consistent : consistent Scenario.bot0.
Proof.
  split; [split; [discriminate | intros H; contradiction H; reflexivity] |].
  split; [reflexivity |]. split; [cbn; unfold MAX_HISTORY; lia | cbn; lia].
Qed.

Lemma reactAll_keeps_bot_consistent_witness :
  exists b' rt',
    reactAll (Scenario.config true) Scenario.oneTrade Scenario.bot0
             (Reference.runtime 1700000000000) = (Js.Ok b', rt') /\
    consistent b'.
Proof.
  apply (reactAll_keeps_bot_consistent (Scenario.config true)
           Scenario.oneTrade Scenario.bot0 (Reference.runtime 1700000000000)).
  exact bot0_consistent.
Defined.

End BotInvariant.

(** ** What other accounts can do to the contract *)
Section Strangers.
Import FlashloanArbitrage.

Lemma afterReset_frame blockTimestamp st :
  owner (afterReset blockTimestamp st) = owner st /\
  approvedRouters (afterReset blockTimestamp st) = approvedRouters st /\
  maxLossPerTx (afterReset blockTimestamp st) = maxLossPerTx st /\
  dailyLossLimit (afterReset blockTimestamp st) = dailyLossLimit st /\
  beneficiary (afterReset blockTimestamp st) = beneficiary st /\
  paused (afterReset blockTimestamp st) = paused st.
Proof.
  unfold afterReset. destruct (windowOver blockTimestamp st);
    repeat split; reflexivity.
Qed.

Lemma receiveFlashLoan_frame msgSender tokens amounts feeAmounts userData
    obs st st' :
  receiveFlashLoan msgSender tokens amounts feeAmounts userData obs st
  = Some st' ->
  owner st' = owner st /\
  approvedRouters st' = approvedRouters st /\
  maxLossPerTx st' = maxLossPerTx st /\
  dailyLossLimit st' = dailyLossLimit st /\
  beneficiary st' = beneficiary st /\
  (paused st = true -> paused st' = true).
Proof.
  intros H. apply receiveFlashLoan_storage in H. subst st'.
  destruct (balanceAfter obs <? balanceBefore obs);
    [| repeat split; intros; assumption].
  unfold setLoss. cbn. repeat split.
  intros ->. destruct (dailyLossLimit st <=? _); reflexivity.
Qed.

Lemma apply_stranger (tx : Tx) (st : State) :
  sender tx <> owner st ->
  owner (apply tx st) = owner st /\
  approvedRouters (apply tx st) = approvedRouters st /\
  maxLossPerTx (apply tx st) = maxLossPerTx st /\
  dailyLossLimit (apply tx st) = dailyLossLimit st /\
  beneficiary (apply tx st) = beneficiary st /\
  (paused st = true -> paused (apply tx st) = true).
Proof.
  intros Hsender. apply String.eqb_neq in Hsender. unfold apply.
  destruct (step tx st) as [st' |] eqn:Hstep;
    [| repeat split; intros; assumption].
  destruct (ownerOnly (call tx)) eqn:Hcall.
  { rewrite (ownerOnly_calls_revert_for_others tx st Hcall Hsender) in Hstep.
    discriminate Hstep. }
  unfold step in Hstep.
  destruct (call tx) as [params feeAmount obs
                        | tokens amounts feeAmounts userData obs
                        | | | | | |]; try discriminate Hcall.
  - apply executeArbitrage_storage in Hstep. destruct Hstep as [Hpaused Hrun].
    apply receiveFlashLoan_frame in Hrun.
    destruct (afterReset_frame (timestamp tx) st)
      as [Ho [Ha [Hm [Hd [Hb Hp]]]]].
    destruct Hrun as [Ho' [Ha' [Hm' [Hd' [Hb' Hp']]]]].
    rewrite Ho', Ha', Hm', Hd', Hb', Ho, Ha, Hm, Hd, Hb.
    repeat split. intros H. rewrite H in Hpaused. discriminate Hpaused.
  - exact (receiveFlashLoan_frame _ _ _ _ _ _ _ _ Hstep).
Qed.

(** X29. Transactions of accounts other than the owner, reverted or not
    and in any number, leave the owner, the approved routers, the two loss
    limits and the beneficiary as they are, and never clear the pause
    flag: all they can change is the loss accumulator, its window, and
    the flag from clear to set. *)
Theorem strangers_cannot_reconfigure (txs : list Tx) :
  forall st : State,
    Forall (fun tx => sender tx <> owner st) txs ->
    owner (run txs st) = owner st /\
    approvedRouters (run txs st) = approvedRouters st /\
    maxLossPerTx (run txs st) = maxLossPerTx st /\
    dailyLossLimit (run txs st) = dailyLossLimit st /\
    beneficiary (run txs st) = beneficiary st /\
    (paused st = true -> paused (run txs st) = true).
Proof.
  unfold run. induction txs as [| tx txs IH]; intros st Htxs.
  - repeat split; intros; assumption.
  - cbn [fold_left].
    destruct (apply_stranger tx st (Forall_inv Htxs))
      as [Ho [Ha [Hm [Hd [Hb Hp]]]]].
    destruct (IH (apply tx st)) as [Ho' [Ha' [Hm' [Hd' [Hb' Hp']]]]].
    { rewrite Ho. exact (Forall_inv_tail Htxs). }
    rewrite Ho', Ha', Hm', Hd', Hb', Ho, Ha, Hm, Hd, Hb.
    repeat split. intros H. exact (Hp' (Hp H)).
Qed.


Lemma strangers_cannot_reconfigure_witness :
  owner (run Scenario.strangerCalls Scenario.deployed)
  = owner Scenario.deployed /\
  approvedRouters (run Scenario.strangerCalls Scenario.deployed)
  = approvedRouters Scenario.deployed /\
  maxLossPerTx (run Scenario.strangerCalls Scenario.deployed)
  = maxLossPerTx Scenario.deployed /\
  dailyLossLimit (run Scenario.strangerCalls Scenario.deployed)
  = dailyLossLimit Scenario.deployed /\
  beneficiary (run Scenario.strangerCalls Scenario.deployed)
  = beneficiary Scenario.deployed /\
  (paused Scenario.deployed = true ->
   paused (run Scenario.strangerCalls Scenario.deployed) = true).
Proof.
  apply (strangers_cannot_reconfigure Scenario.strangerCalls
           Scenario.deployed).
  repeat constructor; apply String.eqb_neq; vm_compute; reflexivity.
Defined.

Lemma executeSwaps_setLoss (st : State) (obs : Observed) (loss : Z)
    (flag : bool) (swaps : list SwapParam.t) :
  forall i,
    executeSwaps (setLoss st loss flag) obs i swaps = executeSwaps st obs i swaps.
Proof.
  induction swaps as [| swap rest IH]; intros i; cbn [executeSwaps];
    [reflexivity |].
  rewrite IH. reflexivity.
Qed.

(** X30. The pause flag does not gate the flashloan callback: only
    [executeArbitrage] tests it. Every call of [receiveFlashLoan] that
    succeeds on an unpaused contract succeeds in the same way after
    [setPaused(true)], running the same swaps and recording the same
    loss. *)
Theorem receiveFlashLoan_not_gated_by_pause msgSender tokens amounts
    feeAmounts userData obs st st' :
  receiveFlashLoan msgSender tokens amounts feeAmounts userData obs st
  = Some st' ->
  exists st'',
    receiveFlashLoan msgSender tokens amounts feeAmounts userData obs
      (setLoss st (dailyLoss st) true) = Some st'' /\
    paused st'' = true /\
    dailyLoss st'' = dailyLoss st'.
Proof.
  intros H.
  unfold receiveFlashLoan in H |- *.
  destruct (negb (String.eqb msgSender BALANCER_VAULT)); [discriminate H |].
  destruct userData as [params |]; [| discriminate H].
  destruct tokens as [| token0 tokens]; [discriminate H |].
  destruct amounts as [| amount0 amounts]; [discriminate H |].
  destruct feeAmounts as [| fee0 feeAmounts]; [discriminate H |].
  rewrite executeSwaps_setLoss.
  cbn [setLoss maxLossPerTx dailyLoss dailyLossLimit paused].
  destruct (negb (executeSwaps st obs 0 (ArbitrageParams.swaps params)));
    [discriminate H |].
  destruct (checked_add amount0 fee0) as [repayAmount |]; [| discriminate H].
  destruct (checked_add repayAmount (ArbitrageParams.minProfit params))
    as [required |]; [| discriminate H].
  destruct (balanceAfter obs <? required); [discriminate H |].
  destruct (balanceAfter obs <? balanceBefore obs) eqn:Hloss.
  - destruct (maxLossPerTx st <? balanceBefore obs - balanceAfter obs);
      [discriminate H |].
    destruct (checked_add (dailyLoss st) (balanceBefore obs - balanceAfter obs))
      as [total |] eqn:Htotal; [| discriminate H].
    destruct (transfersSucceed obs).
    + destruct (dailyLossLimit st <=? total); injection H as <-;
        eexists; (split; [reflexivity | split; reflexivity]).
    + destruct (dailyLossLimit st <=? total); discriminate H.
  - destruct (transfersSucceed obs); [| discriminate H].
    injection H as <-. eexists. split; [reflexivity | split; reflexivity].
Qed.

Lemma receiveFlashLoan_not_gated_by_pause_witness :
  exists st'',
    receiveFlashLoan BALANCER_VAULT [Scenario.WETH] [Scenario.ether] [0]
      (Some Scenario.flashParams) Scenario.losingCallback
      (setLoss Scenario.deployed (dailyLoss Scenario.deployed) true)
    = Some st'' /\
    paused st'' = true /\
    dailyLoss st''
    = dailyLoss (setLoss Scenario.deployed (Scenario.ether / 20) false).
Proof.
  apply (receiveFlashLoan_not_gated_by_pause BALANCER_VAULT [Scenario.WETH]
           [Scenario.ether] [0] (Some Scenario.flashParams)
           Scenario.losingCallback Scenario.deployed
           (setLoss Scenario.deployed (Scenario.ether / 20) false)).
  vm_compute. reflexivity.
Defined.

End Strangers.

(** ** Dry runs on what the monitor reports *)
Section DetectedOpportunities.
Import PriceMonitor.

Lemma alter_addEdge_ownChains CHAIN_CONFIGS enabledChains (e : Edge.t)
    (chainId : Z) (ds : gmap Z ArbitrageDetector.t) :
  Shape.ownChains CHAIN_CONFIGS enabledChains ds ->
  Shape.ownChains CHAIN_CONFIGS enabledChains
    (alter (fun d => ArbitrageDetector.mk
                       (ArbitrageDetector.addEdge e (ArbitrageDetector.graph d))
                       (ArbitrageDetector.chainId d)
                       (ArbitrageDetector.minProfitBps d))
           chainId ds).
Proof.
  intros Hds c d Hd. destruct (decide (chainId = c)) as [<- | Hne].
  - rewrite lookup_alter_eq in Hd.
    destruct (ds !! chainId) as [d0 |] eqn:Hd0; [| discriminate Hd].
    cbn in Hd. injection Hd as Hd. subst d. cbn [ArbitrageDetector.chainId].
    exact (Hds chainId d0 Hd0).
  - rewrite lookup_alter_ne in Hd by exact Hne. exact (Hds c d Hd).
Qed.

(** Whatever its outcome, [updateReserves] leaves every detector under its
    own chain. *)
Lemma updateReserves_ownChains CHAIN_CONFIGS enabledChains math now chainId
    sub reserve0 reserve1 m :
  Shape.ownChains CHAIN_CONFIGS enabledChains (detectors m) ->
  Shape.ownChains CHAIN_CONFIGS enabledChains
    (detectors (snd (updateReserves math now chainId sub reserve0 reserve1 m))).
Proof.
  intros Hm. unfold updateReserves, Js.mbind, setReserves, detectorAddEdge,
    Js.lift.
  cbn [detectors subscriptions reserves hasCallback].
  destruct (detectors m !! chainId) as [d |]; [| exact Hm].
  destruct (ArbitrageDetector.calculateRate reserve0 reserve1 _ _)
    as [q01 | e01]; [| exact Hm].
  destruct (ArbitrageDetector.calculateRate reserve1 reserve0 _ _)
    as [q10 | e10]; cbn [snd detectors].
  - apply alter_addEdge_ownChains. apply alter_addEdge_ownChains. exact Hm.
  - apply alter_addEdge_ownChains. exact Hm.
Qed.

(** The detectors of the bot's monitor are those the constructor made: one
    for every enabled chain that is configured, each knowing its chain. *)
Lemma monitoredFor_ownChains CHAIN_CONFIGS enabledChains m :
  Shape.monitoredFor CHAIN_CONFIGS enabledChains m ->
  Shape.ownChains CHAIN_CONFIGS enabledChains (detectors m).
Proof.
  induction 1 as [| m _ IH | subs m _ IH
                  | math now chainId sub reserve0 reserve1 m _ IH
                  | math now chainId sub sqrtPriceX96 liquidity m _ IH].
  - intros c d Hd.
    destruct (new_fold CHAIN_CONFIGS c enabledChains (mk ∅ [] ∅ false))
      as [Hlookup _].
    cbn zeta in Hlookup. unfold new in Hd. rewrite Hlookup in Hd.
    cbn [detectors] in Hd. rewrite lookup_empty in Hd.
    destruct (bool_decide_reflect (c ∈ enabledChains)) as [Hin |];
      [| discriminate Hd].
    destruct (CHAIN_CONFIGS c) as [config |] eqn:Hconfig; [| discriminate Hd].
    injection Hd as Hd. subst d.
    split; [reflexivity |]. split; [exact Hin | eauto].
  - exact IH.
  - exact IH.
  - apply updateReserves_ownChains. exact IH.
  - rewrite updateV3Pool_unfold. apply updateReserves_ownChains. exact IH.
Qed.

(** [buildOpportunity] stamps the detector's chain on what it builds. *)
Lemma buildOpportunity_chain math this cycle inputAmount rt opp rt' :
  ArbitrageDetector.buildOpportunity math this cycle inputAmount rt
  = (Js.Ok (Some opp), rt') ->
  ArbitrageOpportunity.chain opp = ArbitrageDetector.chainId this.
Proof.
  intros Hbuild. unfold ArbitrageDetector.buildOpportunity in Hbuild.
  destruct cycle as [| firstStep rest].
  - apply ret_Ok in Hbuild. destruct Hbuild as [H _]. discriminate H.
  - apply mbind_Ok in Hbuild. destruct Hbuild as [[steps out] [s1 [_ H]]].
    apply mbind_Ok in H. destruct H as [idTime [s2 [_ H]]].
    apply mbind_Ok in H. destruct H as [idRandom [s3 [_ H]]].
    apply mbind_Ok in H. destruct H as [conf [s4 [_ H]]].
    apply mbind_Ok in H. destruct H as [ts [s5 [_ H]]].
    apply mbind_Ok in H. destruct H as [expiry [s6 [_ H]]].
    apply ret_Ok in H. destruct H as [H _]. injection H as Hopp. subst opp.
    reflexivity.
Qed.

Context {Net : Type}.
Variable viem : Viem.t Net.
Variable CHAIN_CONFIGS : ChainId -> option ChainConfig.t.
Variable math : Js.MathImpl.

(** C9. With [dryRun] enabled, [execute] on a detected opportunity returns
    a success result carrying the all-zero transaction hash, a profit
    equal to the opportunity's [expectedProfit] and its gas estimate, and
    nothing is signed or submitted: the networks (nonces, balances) and the
    list of sent transactions are as before. A detected opportunity is one
    that a detector of the bot's monitor returns, with the USD fields that
    the handler of [index.ts] writes into it; [main] constructs the monitor
    and the executor from the same [config.enabledChains], so the executor
    has its clients and a configuration for the chain that
    [buildOpportunity] stamps on the opportunity. *)
Theorem execute_dryRun_detected (config : BotConfig.t) (account : Address)
    (m : PriceMonitor.t) (chainId : ChainId) (detector : ArbitrageDetector.t)
    (sourceToken : Address) (inputAmount : Z) (rt rt' : Js.Runtime)
    (opportunities : list ArbitrageOpportunity.t)
    (opp : ArbitrageOpportunity.t) (w : TradeExecutor.World (Net := Net)) :
  BotConfig.dryRun config = true ->
  Shape.monitoredFor CHAIN_CONFIGS (BotConfig.enabledChains config) m ->
  detectors m !! chainId = Some detector ->
  ArbitrageDetector.findArbitrageOpportunities math detector sourceToken
    inputAmount rt = (Js.Ok opportunities, rt') ->
  In opp opportunities ->
  exists result w',
    TradeExecutor.execute viem CHAIN_CONFIGS
      (TradeExecutor.new CHAIN_CONFIGS config account) (Bot.priced opp) w
    = (Js.Ok result, w') /\
    TradeExecutor.net w' = TradeExecutor.net w /\
    TradeExecutor.sent w' = TradeExecutor.sent w /\
    ExecutionResult.success result = true /\
    ExecutionResult.txHash result = Some TradeExecutor.zeroHash /\
    ExecutionResult.profit result
    = Some (ArbitrageOpportunity.expectedProfit opp) /\
    ExecutionResult.gasUsed result
    = Some (ArbitrageOpportunity.gasEstimate opp) /\
    ExecutionResult.error result = None.
Proof.
  intros Hdry Hm Hdetector Hrun Hopp.
  destruct (monitoredFor_ownChains _ _ _ Hm chainId detector Hdetector)
    as [Hown [Henabled [chainConfig Hconfig]]].
  assert (Hchain : ArbitrageOpportunity.chain opp = chainId).
  { rewrite <- Hown.
    pose proof (findArbitrageOpportunities_from_candidates math detector
                  sourceToken inputAmount
                  (fun o => ArbitrageOpportunity.chain o
                            = ArbitrageDetector.chainId detector)) as Hall.
    eapply List.Forall_forall in Hall; [exact Hall | | exact Hrun | exact Hopp].
    intros cycle s o s' _ Hbuild _.
    exact (buildOpportunity_chain _ _ _ _ _ _ _ Hbuild). }
  set (this := TradeExecutor.new CHAIN_CONFIGS config account).
  assert (Hclient : chainId ∈ TradeExecutor.walletClients this /\
                    chainId ∈ TradeExecutor.publicClients this).
  { assert (H : chainId
                ∈ (list_to_set
                     (List.filter
                        (fun c => match CHAIN_CONFIGS c with
                                  | Some _ => true
                                  | None => false
                                  end)
                        (BotConfig.enabledChains config)) : gset Z)).
    { apply elem_of_list_to_set. apply list_elem_of_In. apply List.filter_In.
      split; [apply list_elem_of_In; exact Henabled |].
      rewrite Hconfig. reflexivity. }
    split; exact H. }
  assert (Hready : TradeExecutor.ready CHAIN_CONFIGS this (Bot.priced opp)
                   = true).
  { unfold TradeExecutor.ready.
    cbn [Bot.priced ArbitrageOpportunity.chain]. rewrite Hchain, Hconfig.
    rewrite (bool_decide_eq_true_2 _ (proj1 Hclient)).
    rewrite (bool_decide_eq_true_2 _ (proj2 Hclient)). reflexivity. }
  destruct (execute_dryRun viem CHAIN_CONFIGS this (Bot.priced opp) w Hdry)
    as [result [w' [Hexecute [Hnet [Hsent [_ Hresult]]]]]].
  rewrite Hready in Hresult.
  destruct Hresult as [Hsuccess [Hhash [Hprofit [Hgas Herror]]]].
  exists result, w'. repeat split; assumption.
Qed.

End DetectedOpportunities.

Section DetectedOpportunityWitness.

Lemma mainnetTriangle_monitoredFor :
  Shape.monitoredFor Chains.CHAIN_CONFIGS [1] Scenario.mainnetTriangle.
Proof.
  unfold Scenario.mainnetTriangle, Scenario.withReserves. cbn [fold_left].
  do 3 apply Shape.monitoredFor_updateReserves.
  apply Shape.monitoredFor_onOpportunity. apply Shape.monitoredFor_new.
Qed.

Lemma execute_dryRun_detected_witness :
  exists opportunities rt' opp,
    ArbitrageDetector.findArbitrageOpportunities Reference.math
      (Scenario.detectorOf Scenario.mainnetTriangle) Scenario.WETH (10 ^ 18)
      (Reference.runtime 1700000000000) = (Js.Ok opportunities, rt') /\
    In opp opportunities /\
    exists result w',
      TradeExecutor.execute Scenario.localNode Chains.CHAIN_CONFIGS
        (TradeExecutor.new Chains.CHAIN_CONFIGS (Scenario.config true)
                           Scenario.ACCOUNT)
        (Bot.priced opp) Scenario.world0
      = (Js.Ok result, w') /\
      TradeExecutor.net w' = TradeExecutor.net Scenario.world0 /\
      TradeExecutor.sent w' = TradeExecutor.sent Scenario.world0 /\
      ExecutionResult.success result = true /\
      ExecutionResult.txHash result = Some TradeExecutor.zeroHash /\
      ExecutionResult.profit result
      = Some (ArbitrageOpportunity.expectedProfit opp) /\
      ExecutionResult.gasUsed result
      = Some (ArbitrageOpportunity.gasEstimate opp) /\
      ExecutionResult.error result = None.
Proof.
  eexists. eexists. eexists.
  split; [vm_compute; reflexivity |].
  split; [left; reflexivity |].
  eapply (execute_dryRun_detected Scenario.localNode Chains.CHAIN_CONFIGS
            Reference.math (Scenario.config true) Scenario.ACCOUNT
            Scenario.mainnetTriangle 1
            (Scenario.detectorOf Scenario.mainnetTriangle)
            Scenario.WETH (10 ^ 18) (Reference.runtime 1700000000000)
            _ _ _ Scenario.world0).
  - reflexivity.
  - exact mainnetTriangle_monitoredFor.
  - vm_compute. reflexivity.
  - vm_compute. reflexivity.
  - left. reflexivity.
Defined.

End DetectedOpportunityWitness.

(** ** The quote of a reverse edge *)
Section MisquotedCycle.
Import ArbitrageDetector.

Lemma triangle_edges (e : Edge.t) :
  Spec.inGraph (graph (Scenario.detectorOf Scenario.triangle)) e ->
  In e (flat_map snd
          (Graph.edges (graph (Scenario.detectorOf Scenario.triangle)))).
Proof.
  intros [a [l [Hl He]]]. apply in_flat_map. exists (a, l).
  split; assumption.
Qed.

(** In the triangle an edge is known by its source, its destination and
    its pool. *)
Lemma triangle_route_unique (e e' : Edge.t) :
  Spec.inGraph (graph (Scenario.detectorOf Scenario.triangle)) e ->
  Spec.inGraph (graph (Scenario.detectorOf Scenario.triangle)) e' ->
  (Edge.from e, Edge.to e, Edge.pool e)
  = (Edge.from e', Edge.to e', Edge.pool e') ->
  e = e'.
Proof.
  intros He He'. apply triangle_edges in He, He'.
  vm_compute in He, He'.
  intros Hroute.
  repeat (destruct He as [He | He]; [subst e |]); try contradiction;
  repeat (destruct He' as [He' | He']; [subst e' |]); try contradiction;
  first [reflexivity | discriminate Hroute].
Qed.

(** C1 at the failing input: three pools that close the triangle WETH,
    USDC, DAI, with 1,000,000 DAI against 1,009,500 USDC in the DAI/USDC
    pool, the source WETH and an input of [10^18]. The detector returns an
    opportunity along the closed cycle WETH -> USDC -> DAI -> WETH with an
    expected output of 1000438736480312191. The edges of the graph behind
    its path are determined by the path; the edge USDC -> DAI stores the
    reserve of USDC, 1,009,500, as its input reserve and the reserve of
    DAI, 1,000,000, as its output reserve. Applying the exact-output
    formula to each edge with the reserves it stores, starting from
    [10^18], yields 981697906135094172: the cycle loses, and
    [expectedOutput] is not that amount. Nor does the expected output reach
    the input plus the configured minimum profit of 10 basis points. *)
Theorem findArbitrageOpportunities_misquotes_reverse_edge :
  let d := Scenario.detectorOf Scenario.triangle in
  exists opportunities rt' opp cycle,
    findArbitrageOpportunities Reference.math d Scenario.WETH (10 ^ 18)
      (Reference.runtime 1700000000000)
    = (Js.Ok opportunities, rt') /\
    In opp opportunities /\
    ArbitrageOpportunity.inputAmount opp = 10 ^ 18 /\
    ArbitrageOpportunity.expectedOutput opp = 1000438736480312191 /\
    Shape.walk Scenario.WETH Scenario.WETH cycle /\
    Forall (Spec.inGraph (graph d)) cycle /\
    Spec.cycleRoute cycle = Spec.pathRoute (ArbitrageOpportunity.path opp) /\
    (forall cycle',
        Forall (Spec.inGraph (graph d)) cycle' ->
        Spec.cycleRoute cycle'
        = Spec.pathRoute (ArbitrageOpportunity.path opp) ->
        cycle' = cycle) /\
    map (fun e => (Edge.from e, Edge.to e, Edge.reserve0 e, Edge.reserve1 e))
        cycle
    = [(Scenario.WETH, Scenario.USDC,
        1000000 * Scenario.ether, 1000000 * Scenario.ether);
       (Scenario.USDC, Scenario.DAI,
        1009500 * Scenario.ether, 1000000 * Scenario.ether);
       (Scenario.DAI, Scenario.WETH,
        1000000 * Scenario.ether, 1000000 * Scenario.ether)] /\
    Spec.sequentialQuote cycle (10 ^ 18) = Js.Ok 981697906135094172 /\
    minProfitBps d = 10 /\
    ArbitrageOpportunity.expectedOutput opp
    < 10 ^ 18 + Spec.minProfit d (10 ^ 18).
Proof.
  cbn zeta.
  set (route := [(Scenario.WETH, Scenario.USDC); (Scenario.USDC, Scenario.DAI);
                 (Scenario.DAI, Scenario.WETH)]).
  set (cycle :=
         flat_map
           (fun r => List.filter
                       (fun e => String.eqb (Edge.from e) (fst r)
                                 && String.eqb (Edge.to e) (snd r))
                       (flat_map snd
                          (Graph.edges
                             (graph (Scenario.detectorOf Scenario.triangle)))))
           route).
  assert (Hin : Forall (Spec.inGraph
                          (graph (Scenario.detectorOf Scenario.triangle)))
                       cycle).
  { apply List.Forall_forall. intros e He. unfold cycle in He.
    apply in_flat_map in He. destruct He as [r [_ He]].
    apply List.filter_In in He. destruct He as [He _].
    apply in_flat_map in He. destruct He as [[a l] [Hl He]].
    exists a, l. split; assumption. }
  eexists. eexists. eexists. exists cycle.
  split; [vm_compute; reflexivity |].
  split; [right; right; right; left; reflexivity |].
  split; [reflexivity |]. split; [reflexivity |].
  split; [vm_compute; repeat split |].
  split; [exact Hin |].
  split; [vm_compute; reflexivity |].
  split.
  { intros cycle' Hin' Hroute.
    assert (Hcycle : Spec.cycleRoute cycle' = Spec.cycleRoute cycle)
      by (rewrite Hroute; vm_compute; reflexivity).
    clear Hroute. revert Hin Hcycle. generalize cycle. clear cycle.
    induction Hin' as [| e' cycle' He' _ IH]; intros cycle Hin Hcycle.
    - destruct cycle; [reflexivity | discriminate Hcycle].
    - destruct Hin as [| e cycle He Hin]; [discriminate Hcycle |].
      cbn [Spec.cycleRoute map] in Hcycle. injection Hcycle as H1 H2 H3 Hrest.
      f_equal.
      + apply triangle_route_unique; [exact He' | exact He |]. congruence.
      + apply IH; [exact Hin | exact Hrest]. }
  split; [vm_compute; reflexivity |].
  split; [vm_compute; reflexivity |].
  split; [vm_compute; reflexivity |].
  vm_compute. reflexivity.
Qed.

End MisquotedCycle.
